(* ===== verification/_CoqProject ===== *)
-Q . S2P
Prelude.v
Platform.v
Common.v
World.v
Config.v
Network.v
Xpc.v
Broker.v
Ownership.v
Invariant.v
Transitions.v
NetworkFacts.v
AcquireFacts.v
ReleaseFacts.v
BrokerFacts.v
Execution.v
EffectFacts.v
Concrete.v
Scenarios.v
Safety.v
Lifetime.v
Peers.v
Idle.v
Calls.v
Requests.v
Spec.v
SpecFacts.v
Refinement.v
Sharing.v
Client.v
ClientFacts.v
Protocol.v
System.v
Processes.v
Startup.v
