(* ===== verification/Prelude.v ===== *)
(** * vmnet-broker

    A model of the broker service (src/broker), of its client library
    (src/client) and of the protocol between them, and the proofs that the
    broker keeps the networks its peers use.

    ** The program

    The broker is one process with one thread.  libdispatch runs, one at a time
    on its main queue, the blocks the broker set: the handler of the listener,
    the handler of each connection, the timers and the signals.  Four files make
    the service: xpc.c turns the events of connections into calls of a table of
    operations, broker.c implements the table, network.c creates networks, finds
    them by name and counts their peers, config.c knows which names exist.
    client.c sends a request and decodes the reply.

    ** The model

    A C function is a computation of the monad [M] below over the state of its
    process: it returns, ends the process with [exit], or faults (NULL or freed
    memory used, a released object released, an array index or an [int] out of
    range, a failed [assert]).  What the program calls and does not define is a
    parameter: the XPC and Core Foundation functions ([XPC], [CoreFoundation],
    with their documented laws as classes), and the answers of the calls that
    can fail ([OS], chosen anew for each event).  Objects with reference counts
    live in a store with allocate, retain and release operations.

    - Prelude.v: the monad, its tactics and the lemmas on lists and maps.
    - Platform.v: the interfaces of the platform and the store of objects.
    - Common.v: include/vmnet-broker.h, include/common.h, lib/common.c.
    - World.v: the state of the broker process (the allocations of network.c,
      its registry, the contexts of xpc.c, the globals of broker.c, the objects,
      the messages sent, the clock) and the operations on it.
    - Config.v: broker/config.c.
    - Network.v: broker/network.c.
    - Xpc.v: broker/xpc.c and include/broker-xpc.h.
    - Broker.v: broker/broker.c, and the main queue: [event] is what it can run,
      [enabled] when, [handle_event] what the broker does then.
    - Client.v: client/client.c, over a state of its own.
    - Spec.v: the abstract specification, peers and networks with their users.
    - System.v: the broker and the processes that use the client library, with the
      broker's failures, as one transition system ([sys_step]) that [sys_next] and [sys_exec] run.
    - Concrete.v, Scenarios.v: an executable platform that satisfies the laws,
      and the executions the witnesses start from.

    Definitions have the names of the C functions.  A block is a definition of
    its own: [peer_event_handler] and [listener_event_handler] of xpc.c,
    [remove_network_handler] of remove_later, [idle_shutdown_handler] of
    shutdown_later, [signal_handler] of setup_signal_handlers.  The labels
    [failure] and [error] are [create_failure] and [configuration_error]; the
    tail of acquire_network is [acquire_registered]; a loop is a definition of
    its own.  A [struct network] pointer is a location of [heap], a context is
    found by its connection, an error pointer is an option.

    ** The proofs

    - Ownership.v: what it is that each object has one owner; Invariant.v: the
      invariant [wf] of the networks; Transitions.v: the changes of the state
      that keep it.
    - NetworkFacts.v, AcquireFacts.v, ReleaseFacts.v, BrokerFacts.v: each
      operation has the effect the transitions describe; [effect] and [exits]
      list what an event can do, [handle_event_cases] shows that there is
      nothing else where [event_ok] holds, and [event_fault_run] that the broker
      faults where it does not.
    - Execution.v: steps, reachable states and executions, and [exec], which
      runs one; EffectFacts.v: what an event keeps.
    - Safety.v: which events make the broker fault and that no other does, exact
      reference counts and peer counts, a clean exit.
    - Lifetime.v: networks live while they are used and two minutes longer, then
      they go.
    - Peers.v: connections and their end; Idle.v: the listener, the signal
      sources, the transaction and the shutdown timer along executions; Calls.v:
      the order in which the XPC layer calls the table of operations.
    - Requests.v: the answer to each request and what it changes.
    - SpecFacts.v: what the specification promises its users; Refinement.v: every
      step and every execution of the broker is one of the specification.
    - Sharing.v: peers that ask for one name share one network.
    - ClientFacts.v, Protocol.v: the client for every reply, and the two ends
      together for one request.
    - Processes.v: the whole system, through the specification: what a process
      got is its network until it quits or the broker fails, processes share the
      network of a name, and a call returns.
    - Startup.v: main, every failure of the creation of networks, the bound of
      the loop, the names of peers and the descriptions of codes.

    ** Hypotheses

    An event is [enabled] when the platform can deliver it: a connection is
    announced once and its events come until the last one, a timer fires when it
    is due, a signal when it has a source.  [os_ok]: the system answers the calls
    whose failure the broker asserts or does not check (the creation of timers
    and of the dictionary of the registry).  [event_ok] is not a promise of the
    platform but what the broker needs: the peers can be counted by an [int], and
    a requested name can be represented by Core Foundation.  [delivers] is the
    three together, the condition of the steps and executions in which the
    broker goes on.  On an event without [event_ok] the broker faults, as
    [event_fault] says: Safety.v shows that it does on those and on no other, and
    Requests.v has the request among the answers ([Crashed]); Safety.v also shows
    the assertions that fail when the last peer leaves and no timer can be
    created.

    In the system a process makes one call at a time; the message its code sends
    is delivered on its connection, which is announced before, with a reply
    address, and says what it says ([XPCDelivery], [XPCDeliveryLaws]); the message
    the broker sends is the reply the call receives; when a process quits, the end
    of its connection is delivered, and in between any other connection may send
    anything.  When the broker exits, or fails (a crash, or an exit with
    EXIT_FAILURE), launchd starts it again: after a failure the calls that waited
    are interrupted, the processes keep serializations of networks that are gone,
    and the system counts a new generation.  The theorems of Processes.v are about
    what was got in one generation; they show that the broker does not exit while
    a process holds a network of its generation, unless its listener fails.

    ** Bounds

    The loop of release_peer_networks has fuel MAX_PEER_NETWORKS, the size of
    the array it empties; running out of it is a fault, which the safety theorem
    excludes, and a theorem of Startup.v shows that more fuel changes nothing.
    [int] arithmetic faults outside of 32 bits; conversions to [int32_t] and to
    the status enum wrap.  The clock counts nanoseconds.

    ** Not modelled

    The text of log messages and the parameters that serve it only (the context
    of functions that log, the name given to send_xpc_network): they are output.
    What logging reads of the state, the vmnet network, is read.  The reference
    counts of registry keys and of connections, and the listener and signal
    sources, which live as long as the process.  test/test.c, the Go and Swift
    bindings, scripts and packaging are not part of the service. *)

From stdpp Require Export base tactics option list gmap sets strings.
From stdpp Require Export pretty.

(* set_solver and naive_solver clear hypotheses that may be gone. *)
#[export] Set Warnings "-clear-no-such-hyp".

(** ** Faults

    What a C program may not do.  A handler that would do one of these is
    modelled as ending in [Fault]; the safety theorems show it never does. *)
Inductive fault :=
  | NullDeref                    (* a NULL pointer is dereferenced or passed
                                    to a call that requires an object *)
  | UseAfterFree                 (* a freed allocation is read or written *)
  | OverRelease                  (* an object is released after its last
                                    reference is gone *)
  | OutOfBounds                  (* an array is indexed past its end *)
  | SignedOverflow               (* [int] arithmetic leaves its range *)
  | AssertFailed (msg : string)  (* [assert] fails *)
  | OutOfFuel.                   (* a loop runs longer than its bound *)

#[export] Instance fault_eq_dec : EqDecision fault.
Proof. solve_decision. Defined.

(** ** The state, exit and fault monad

    A C function is a computation over the state [S] of its process: it
    returns, ends the process with [exit], or faults. *)
Inductive outcome (S A : Type) :=
  | Ret (a : A) (s : S)
  | Exit (code : Z) (s : S)
  | Fault (f : fault).
Arguments Ret {S A} a s.
Arguments Exit {S A} code s.
Arguments Fault {S A} f.

Definition M (S A : Type) : Type := S → outcome S A.

#[export] Instance M_ret {S} : MRet (M S) := λ A a s, Ret a s.
#[export] Instance M_bind {S} : MBind (M S) := λ A B f m s,
  match m s with
  | Ret a s' => f a s'
  | Exit c s' => Exit c s'
  | Fault e => Fault e
  end.

Definition gets {S A} (f : S → A) : M S A := λ s, Ret (f s) s.
Definition modify {S} (f : S → S) : M S () := λ s, Ret () (f s).
Definition raise {S A} (e : fault) : M S A := λ _, Fault e.
Definition exit {S A} (code : Z) : M S A := λ s, Exit code s.
Definition c_assert {S} (b : bool) (msg : string) : M S () :=
  if b then mret () else raise (AssertFailed msg).
Definition of_option {S A} (e : fault) (o : option A) : M S A :=
  match o with Some a => mret a | None => raise e end.

Section bind.
Context {S : Type}.
Implicit Types s : S.

Lemma bind_run {A B} (m : M S A) (f : A → M S B) s a s' :
  m s = Ret a s' → (m ≫= f) s = f a s'.
Proof. unfold mbind, M_bind. by intros ->. Qed.

Lemma bind_assoc {A B C} (m : M S A) (f : A → M S B) (g : B → M S C) s :
  ((m ≫= f) ≫= g) s = (m ≫= λ a, f a ≫= g) s.
Proof. unfold mbind, M_bind. by destruct (m s). Qed.
End bind.

(** ** Symbolic execution

    The database [run] holds the equations [m s = Ret a s'] of the primitive
    operations; [mstep] runs the first operation of a sequence with them. *)
Create HintDb run.

Lemma mret_run {S A} (a : A) (s : S) : (mret a : M S A) s = Ret a s.
Proof. done. Qed.

Lemma modify_run {S} (f : S → S) (s : S) : modify f s = Ret () (f s).
Proof. done. Qed.

Lemma gets_run {S A} (f : S → A) (s : S) : gets f s = Ret (f s) s.
Proof. done. Qed.

Lemma c_assert_run {S} b msg (s : S) : b = true → c_assert b msg s = Ret () s.
Proof. by intros ->. Qed.

Lemma of_option_run {S A} e (o : option A) a (s : S) :
  o = Some a → of_option e o s = Ret a s.
Proof. by intros ->. Qed.

#[export] Hint Resolve mret_run modify_run gets_run c_assert_run of_option_run : run.

Ltac lookup_solver :=
  simpl; first
    [ eassumption
    | reflexivity
    | rewrite lookup_insert_eq; reflexivity
    | rewrite lookup_insert_ne by (by auto); eassumption
    | rewrite lookup_delete_ne by (by auto); eassumption
    | by simplify_map_eq ].

#[export] Hint Extern 1 (_ !! _ = Some _) => lookup_solver : run.
#[export] Hint Extern 1 (bool_decide _ = true) => (apply bool_decide_eq_true_2; done) : run.

Ltac mstep := erewrite bind_run by (eauto with run nocore); simpl.

(** ** Finite maps and lists *)

Lemma list_snoc_cases {A} (xs : list A) : xs = [] ∨ ∃ ys y, xs = ys ++ [y].
Proof. destruct xs as [|y ys _] using rev_ind; eauto. Qed.

Lemma take_insert_snoc {A} (xs : list A) (n : nat) (x : A) :
  (n < length xs)%nat → take (S n) (<[n := x]> xs) = take n xs ++ [x].
Proof.
  intros Hn. erewrite take_S_r by (by apply list_lookup_insert_eq).
  by rewrite take_insert_ge.
Qed.

Lemma omap_id_fmap_Some {A} (xs : list A) : omap id (Some <$> xs) = xs.
Proof. induction xs; csimpl; by f_equal. Qed.
