(* ===== verification/Platform.v ===== *)
(** * Platform interfaces

    The code the broker calls but that is not in the repository, as parameters:
    libxpc objects ([XPC], with their documented laws in [XPCLaws]), the Core
    Foundation strings used as registry keys ([CoreFoundation],
    [CoreFoundationLaws]), and the answers of the allocator, libdispatch and
    the vmnet framework ([OS]).  The objects these libraries hand out are
    reference counted; [Store] is the interface of a process state that holds
    them, with the allocate, read, retain and release operations on it. *)

From S2P Require Import Prelude.

(** ** libxpc *)

Inductive xpc_type_t :=
  | XPC_TYPE_ERROR
  | XPC_TYPE_DICTIONARY
  | XPC_TYPE_CONNECTION
  | XPC_TYPE_OTHER.

#[export] Instance xpc_type_eq_dec : EqDecision xpc_type_t.
Proof. solve_decision. Defined.

(** Objects are values here: the references a process holds on the objects it
    creates are counted by the object store below. *)
Class XPC := {
  xpc_object : Type;
  xpc_get_type : xpc_object → xpc_type_t;
  (** C comparison of two [xpc_object_t] pointers. *)
  xpc_object_eqb : xpc_object → xpc_object → bool;
  XPC_ERROR_CONNECTION_INVALID : xpc_object;
  (** The connection a listener event of type connection is. *)
  xpc_connection_of : xpc_object → positive;
  xpc_dictionary_create_empty : xpc_object;
  xpc_dictionary_create_reply : xpc_object → option xpc_object;
  xpc_dictionary_get_string : xpc_object → string → option string;
  xpc_dictionary_get_int64 : xpc_object → string → Z;
  xpc_dictionary_get_value : xpc_object → string → option xpc_object;
  xpc_dictionary_set_string : xpc_object → string → string → xpc_object;
  xpc_dictionary_set_int64 : xpc_object → string → Z → xpc_object;
  xpc_dictionary_set_value : xpc_object → string → xpc_object → xpc_object;
}.

Definition INT64_MIN : Z := -2^63.
Definition INT64_MAX : Z := 2^63 - 1.

(** What xpc(3) documents of these functions. *)
Class XPCLaws `{!XPC} : Prop := {
  xpc_invalid_type : xpc_get_type XPC_ERROR_CONNECTION_INVALID = XPC_TYPE_ERROR;
  xpc_empty_type : xpc_get_type xpc_dictionary_create_empty = XPC_TYPE_DICTIONARY;
  xpc_reply_type m r : xpc_dictionary_create_reply m = Some r →
    xpc_get_type r = XPC_TYPE_DICTIONARY;
  xpc_reply_int64 m r k : xpc_dictionary_create_reply m = Some r →
    xpc_dictionary_get_int64 r k = 0%Z;
  xpc_reply_value m r k : xpc_dictionary_create_reply m = Some r →
    xpc_dictionary_get_value r k = None;
  xpc_set_string_type d k s :
    xpc_get_type (xpc_dictionary_set_string d k s) = xpc_get_type d;
  xpc_set_int64_type d k z :
    xpc_get_type (xpc_dictionary_set_int64 d k z) = xpc_get_type d;
  xpc_set_value_type d k v :
    xpc_get_type (xpc_dictionary_set_value d k v) = xpc_get_type d;
  xpc_get_set_string d k k' s : xpc_get_type d = XPC_TYPE_DICTIONARY →
    xpc_dictionary_get_string (xpc_dictionary_set_string d k s) k' =
      if decide (k = k') then Some s else xpc_dictionary_get_string d k';
  xpc_get_set_int64 d k k' z : xpc_get_type d = XPC_TYPE_DICTIONARY →
    (INT64_MIN ≤ z ≤ INT64_MAX)%Z →
    xpc_dictionary_get_int64 (xpc_dictionary_set_int64 d k z) k' =
      if decide (k = k') then z else xpc_dictionary_get_int64 d k';
  xpc_get_set_value d k k' v : xpc_get_type d = XPC_TYPE_DICTIONARY →
    xpc_dictionary_get_value (xpc_dictionary_set_value d k v) k' =
      if decide (k = k') then Some v else xpc_dictionary_get_value d k';
  xpc_value_set_int64_ne d k k' z : xpc_get_type d = XPC_TYPE_DICTIONARY → k ≠ k' →
    xpc_dictionary_get_value (xpc_dictionary_set_int64 d k z) k' =
      xpc_dictionary_get_value d k';
  xpc_int64_set_value_ne d k k' v : xpc_get_type d = XPC_TYPE_DICTIONARY → k ≠ k' →
    xpc_dictionary_get_int64 (xpc_dictionary_set_value d k v) k' =
      xpc_dictionary_get_int64 d k';
}.

(** What libxpc delivers between two processes: the message of a request as the
    broker receives it, with the address of the reply, the event that announces a
    connection, and the reply a client gets when the broker dies before it
    answers. *)
Class XPCDelivery {xpc : XPC} := {
  xpc_deliver : xpc_object → xpc_object;
  xpc_announce : positive → xpc_object;
  XPC_ERROR_CONNECTION_INTERRUPTED : xpc_object;
}.

Class XPCDeliveryLaws {xpc : XPC} {xd : XPCDelivery} : Prop := {
  xpc_deliver_type m : xpc_get_type (xpc_deliver m) = xpc_get_type m;
  xpc_deliver_string m k :
    xpc_dictionary_get_string (xpc_deliver m) k = xpc_dictionary_get_string m k;
  xpc_deliver_reply m : xpc_get_type m = XPC_TYPE_DICTIONARY →
    is_Some (xpc_dictionary_create_reply (xpc_deliver m));
  xpc_announce_type c : xpc_get_type (xpc_announce c) = XPC_TYPE_CONNECTION;
  xpc_interrupted_type : xpc_get_type XPC_ERROR_CONNECTION_INTERRUPTED = XPC_TYPE_ERROR;
  xpc_announce_connection c : xpc_connection_of (xpc_announce c) = c;
}.

(** ** Core Foundation strings

    [CFStringCreateWithCString (NULL, s, kCFStringEncodingUTF8)] answers NULL
    for bytes that are not UTF-8.  Two keys are the same registry key when they
    are equal strings. *)
Class CoreFoundation := {
  CFString : Type;
  CFString_eq_dec :: EqDecision CFString;
  CFString_countable :: Countable CFString;
  CFStringCreateWithCString : string → option CFString;
}.

Class CoreFoundationLaws `{!CoreFoundation} : Prop := {
  CFString_inj s1 s2 k :
    CFStringCreateWithCString s1 = Some k →
    CFStringCreateWithCString s2 = Some k → s1 = s2;
}.

(** ** The vmnet framework's result codes and modes *)

Inductive vmnet_return_t :=
  | VMNET_SUCCESS
  | VMNET_FAILURE
  | VMNET_MEM_FAILURE
  | VMNET_INVALID_ARGUMENT
  | VMNET_SETUP_INCOMPLETE
  | VMNET_INVALID_ACCESS
  | VMNET_PACKET_TOO_BIG
  | VMNET_BUFFER_EXHAUSTED
  | VMNET_TOO_MANY_PACKETS
  | VMNET_OTHER (code : Z).     (* a code of the framework the broker does not
                                   name *)

#[export] Instance vmnet_return_eq_dec : EqDecision vmnet_return_t.
Proof. solve_decision. Defined.

Inductive vmnet_mode_t := VMNET_HOST_MODE | VMNET_SHARED_MODE.

#[export] Instance vmnet_mode_eq_dec : EqDecision vmnet_mode_t.
Proof. solve_decision. Defined.

(** ** The system's answers

    What the calls that can fail answer while one event is handled.  Every
    event of an execution comes with its own [OS], so that an allocation may
    succeed for one request and fail for the next. *)
Record OS `{!XPC} := MkOS {
  os_calloc : bool;                     (* calloc (1, sizeof (struct network)) *)
  os_strdup : bool;
  os_cf_dictionary_create : bool;       (* CFDictionaryCreateMutable *)
  os_dispatch_source_create : bool;
  os_create_mach_service : string → bool;  (* xpc_connection_create_mach_service *)
  os_configuration_create : vmnet_mode_t → bool * vmnet_return_t;
  os_inet_pton : string → Z * Z;        (* result, IPv4 address *)
  os_set_ipv4_subnet : Z → Z → vmnet_return_t;
  os_network_create : vmnet_mode_t → option (Z * Z) → bool * vmnet_return_t;
  os_copy_serialization : option xpc_object * vmnet_return_t;
  os_connection_get_pid : positive → Z;
}.

(** ** Reference-counted objects *)

Record cell (B : Type) := Cell { rc : nat; body : B }.
Arguments Cell {B} _ _.
Arguments rc {B} _.
Arguments body {B} _.

(** A process state [S] holding objects with contents [B]. *)
Class Store (S B : Type) := {
  get_objs : S → gmap positive (cell B);
  put_objs : gmap positive (cell B) → S → S;
}.
#[global] Hint Mode Store + - : typeclass_instances.

Class StoreLaws (S B : Type) `{!Store S B} : Prop := {
  get_put_objs σ (s : S) : get_objs (put_objs σ s) = σ;
  put_put_objs σ τ (s : S) : put_objs σ (put_objs τ s) = put_objs σ s;
  put_get_objs (s : S) : put_objs (get_objs s) s = s;
}.

Section objects.
Context {S B : Type} `{!Store S B}.
Implicit Types (o : positive) (b : B) (s : S).

(** A [create] or [copy] call: a new object with one reference. *)
Definition obj_alloc b : M S positive := λ s,
  let o := fresh (dom (get_objs s)) in
  Ret o (put_objs (<[o := Cell 1 b]> (get_objs s)) s).

Definition obj_read o : M S B := λ s,
  match get_objs s !! o with
  | Some c => Ret (body c) s
  | None => Fault UseAfterFree
  end.

Definition obj_write o b : M S () := λ s,
  match get_objs s !! o with
  | Some c => Ret () (put_objs (<[o := Cell (rc c) b]> (get_objs s)) s)
  | None => Fault UseAfterFree
  end.

(** xpc_retain *)
Definition obj_retain o : M S () := λ s,
  match get_objs s !! o with
  | Some c => Ret () (put_objs (<[o := Cell (1 + rc c) (body c)]> (get_objs s)) s)
  | None => Fault UseAfterFree
  end.

(** CFRelease, xpc_release, dispatch_release *)
Definition obj_release o : M S () := λ s,
  match get_objs s !! o with
  | Some (Cell (Datatypes.S (Datatypes.S n)) b) =>
      Ret () (put_objs (<[o := Cell (Datatypes.S n) b]> (get_objs s)) s)
  | Some _ => Ret () (put_objs (delete o (get_objs s)) s)
  | None => Fault OverRelease
  end.

Lemma obj_read_run o c s : get_objs s !! o = Some c → obj_read o s = Ret (body c) s.
Proof. unfold obj_read. by intros ->. Qed.

Lemma obj_write_run o b c s :
  get_objs s !! o = Some c →
  obj_write o b s = Ret () (put_objs (<[o := Cell (rc c) b]> (get_objs s)) s).
Proof. unfold obj_write. by intros ->. Qed.

Lemma obj_retain_run o c s :
  get_objs s !! o = Some c →
  obj_retain o s = Ret () (put_objs (<[o := Cell (1 + rc c) (body c)]> (get_objs s)) s).
Proof. unfold obj_retain. by intros ->. Qed.

Lemma obj_release_last o b s :
  get_objs s !! o = Some (Cell 1 b) →
  obj_release o s = Ret () (put_objs (delete o (get_objs s)) s).
Proof. unfold obj_release. by intros ->. Qed.

Lemma obj_release_more o n b s :
  get_objs s !! o = Some (Cell (Datatypes.S (Datatypes.S n)) b) →
  obj_release o s = Ret () (put_objs (<[o := Cell (Datatypes.S n) b]> (get_objs s)) s).
Proof. unfold obj_release. by intros ->. Qed.

Lemma fresh_obj (σ : gmap positive (cell B)) : σ !! fresh (dom σ) = None.
Proof. apply not_elem_of_dom, is_fresh. Qed.

Lemma fresh_obj_ne (σ : gmap positive (cell B)) o : is_Some (σ !! o) → fresh (dom σ) ≠ o.
Proof. intros Ho <-. rewrite fresh_obj in Ho. by destruct Ho. Qed.
End objects.

Arguments obj_alloc : simpl never.
Arguments obj_read : simpl never.
Arguments obj_write : simpl never.
Arguments obj_retain : simpl never.
Arguments obj_release : simpl never.
