(* ===== verification/Common.v ===== *)
(** * Shared definitions: include/vmnet-broker.h, include/common.h, lib/common.c

    The protocol's keys and status codes, the widths of C's integers, and the
    helpers of lib/common.c that describe a network and a vmnet status. *)

From S2P Require Import Prelude Platform.

Open Scope Z_scope.

(** ** Integers *)

Definition INT_MIN : Z := -2^31.
Definition INT_MAX : Z := 2^31 - 1.

(** [int] arithmetic: leaving the range is undefined behaviour. *)
Definition c_int {S} (z : Z) : M S Z :=
  if bool_decide (INT_MIN ≤ z ≤ INT_MAX) then mret z else raise SignedOverflow.

Lemma c_int_run {S} z (s : S) : INT_MIN ≤ z ≤ INT_MAX → c_int z s = Ret z s.
Proof. intros Hz. unfold c_int. by rewrite bool_decide_true. Qed.

(** Conversion of an integer to [int32_t]. *)
Definition to_int32 (z : Z) : Z := (z + 2^31) mod 2^32 - 2^31.

(** Conversion of an integer to the 32-bit unsigned type of an enum. *)
Definition to_uint32 (z : Z) : Z := z mod 2^32.

(** ** Protocol *)

Definition MACH_SERVICE_NAME : string := "com.github.nirs.vmnet-broker".
Definition REQUEST_COMMAND : string := "command".
Definition REQUEST_NETWORK_NAME : string := "network_name".
Definition COMMAND_ACQUIRE : string := "acquire".
Definition REPLY_NETWORK : string := "network".
Definition REPLY_ERROR : string := "error".

(** vmnet_broker_return_t *)
Definition VMNET_BROKER_SUCCESS : Z := 0.
Definition VMNET_BROKER_XPC_FAILURE : Z := 1.
Definition VMNET_BROKER_INVALID_REPLY : Z := 2.
Definition VMNET_BROKER_NOT_ALLOWED : Z := 3.
Definition VMNET_BROKER_INVALID_REQUEST : Z := 4.
Definition VMNET_BROKER_NOT_FOUND : Z := 5.
Definition VMNET_BROKER_CREATE_FAILURE : Z := 6.
Definition VMNET_BROKER_INTERNAL_ERROR : Z := 7.

(** The pattern [if (error) { *error = code; }]: [None] is a NULL pointer,
    [Some v] a variable holding [v]. *)
Definition set_error (error : option Z) (code : Z) : option Z :=
  match error with
  | Some _ => Some code
  | None => None
  end.

(** ** lib/common.c *)

Record network_info_t := NetworkInfo {
  info_subnet : option string;
  info_mask : option string;
  info_ipv6_prefix : option string;
  info_prefix_len : Z;
}.

Definition INET_ADDRSTRLEN : nat := 16.
Definition INET6_ADDRSTRLEN : nat := 46.

Section network_info.
(** A network's addresses as the vmnet framework reports them, and
    inet_ntop: [None] when the text does not fit the buffer. *)
Context {ref in_addr in6_addr : Type}.
Context (vmnet_network_get_ipv4_subnet : ref → in_addr * in_addr).
Context (vmnet_network_get_ipv6_prefix : ref → in6_addr * Z).
Context (inet_ntop4 : in_addr → nat → option string).
Context (inet_ntop6 : in6_addr → nat → option string).

Definition network_info (network : ref) : network_info_t :=
  let '(subnet, mask) := vmnet_network_get_ipv4_subnet network in
  let '(ipv6_prefix, prefix_len) := vmnet_network_get_ipv6_prefix network in
  NetworkInfo (inet_ntop4 subnet INET_ADDRSTRLEN)
              (inet_ntop4 mask INET_ADDRSTRLEN)
              (inet_ntop6 ipv6_prefix INET6_ADDRSTRLEN)
              prefix_len.
End network_info.

Definition vmnet_strerror (status : vmnet_return_t) : string :=
  match status with
  | VMNET_SUCCESS => "VMNET_SUCCESS"
  | VMNET_FAILURE => "VMNET_FAILURE"
  | VMNET_MEM_FAILURE => "VMNET_MEM_FAILURE"
  | VMNET_INVALID_ARGUMENT => "VMNET_INVALID_ARGUMENT"
  | VMNET_SETUP_INCOMPLETE => "VMNET_SETUP_INCOMPLETE"
  | VMNET_INVALID_ACCESS => "VMNET_INVALID_ACCESS"
  | VMNET_PACKET_TOO_BIG => "VMNET_PACKET_TOO_BIG"
  | VMNET_BUFFER_EXHAUSTED => "VMNET_BUFFER_EXHAUSTED"
  | VMNET_TOO_MANY_PACKETS => "VMNET_TOO_MANY_PACKETS"
  | VMNET_OTHER _ => "(unknown status)"
  end.
