(* ===== verification/World.v ===== *)
(** * The broker process

    The state of the broker: the allocations of network.c, its registry, the
    contexts of xpc.c, the globals of broker.c, the objects the process holds
    references on, and what it sent.  The accessors are the C operations on
    them: reading through a pointer faults when the allocation is gone. *)

From S2P Require Import Prelude Platform Common.

Abbreviation loc := positive (only parsing).    (* a struct network * *)
Abbreviation obj := positive (only parsing).    (* a reference-counted object *)
Abbreviation conn := positive (only parsing).   (* an xpc_connection_t *)

(** broker-xpc.h *)
Definition MAX_PEER_NETWORKS : nat := 8.

(** broker.c, in seconds *)
Definition idle_timeout_sec : Z := 120.
Definition NSEC_PER_SEC : Z := 1000000000.

(** struct network (network.c) *)
Record network := Network {
  net_name : option string;
  net_peers : Z;
  net_ref : option obj;
  net_serialization : option obj;
  net_idle_timer : option obj;
}.

(** struct broker_context (broker-xpc.h) *)
Record broker_context := BrokerContext {
  ctx_connection : conn;
  ctx_name : string;
  ctx_networks : list (option loc);
  ctx_network_count : Z;
}.

(** The event handlers set on dispatch timers. *)
Inductive handler :=
  | RemoveNetwork (net : loc)     (* remove_later, network.c *)
  | IdleShutdown.                 (* shutdown_later, broker.c *)

#[export] Instance handler_eq_dec : EqDecision handler.
Proof. solve_decision. Defined.

(** A dispatch timer source. *)
Record source := Source {
  src_handler : option handler;
  src_start : option Z;           (* when it fires, in nanoseconds *)
  src_leeway : Z;
  src_resumed : bool;
  src_cancelled : bool;
}.

Definition new_source : source := Source None None 0 false false.

Section world.
Context {xpc : XPC} {cf : CoreFoundation}.

(** What the broker holds references on. *)
Inductive obj_body :=
  | BConfiguration (mode : vmnet_mode_t) (subnet : option (Z * Z))
  | BNetworkRef
  | BXpc (x : xpc_object)
  | BSource (s : source).

Record world := World {
  heap : gmap loc network;                   (* network.c allocations *)
  registry : option (gmap CFString loc);     (* network.c *)
  contexts : gmap conn broker_context;       (* captured by xpc.c's blocks *)
  listening : bool;                          (* xpc.c: listener resumed *)
  connected_peers : Z;                       (* broker.c *)
  idle_timer : option obj;                   (* broker.c *)
  signals : list Z;                          (* signals with a source *)
  transactions : Z;                          (* xpc transactions begun *)
  objs : gmap obj (cell obj_body);
  outbox : list (conn * xpc_object);         (* messages sent, in order *)
  now : Z;                                   (* the clock, nanoseconds *)
}.

Definition set_heap x w := World x (registry w) (contexts w) (listening w)
  (connected_peers w) (idle_timer w) (signals w) (transactions w) (objs w) (outbox w) (now w).
Definition set_registry x w := World (heap w) x (contexts w) (listening w)
  (connected_peers w) (idle_timer w) (signals w) (transactions w) (objs w) (outbox w) (now w).
Definition set_contexts x w := World (heap w) (registry w) x (listening w)
  (connected_peers w) (idle_timer w) (signals w) (transactions w) (objs w) (outbox w) (now w).
Definition set_listening x w := World (heap w) (registry w) (contexts w) x
  (connected_peers w) (idle_timer w) (signals w) (transactions w) (objs w) (outbox w) (now w).
Definition set_connected_peers x w := World (heap w) (registry w) (contexts w) (listening w)
  x (idle_timer w) (signals w) (transactions w) (objs w) (outbox w) (now w).
Definition set_idle_timer x w := World (heap w) (registry w) (contexts w) (listening w)
  (connected_peers w) x (signals w) (transactions w) (objs w) (outbox w) (now w).
Definition set_signals x w := World (heap w) (registry w) (contexts w) (listening w)
  (connected_peers w) (idle_timer w) x (transactions w) (objs w) (outbox w) (now w).
Definition set_transactions x w := World (heap w) (registry w) (contexts w) (listening w)
  (connected_peers w) (idle_timer w) (signals w) x (objs w) (outbox w) (now w).
Definition set_objs x w := World (heap w) (registry w) (contexts w) (listening w)
  (connected_peers w) (idle_timer w) (signals w) (transactions w) x (outbox w) (now w).
Definition set_outbox x w := World (heap w) (registry w) (contexts w) (listening w)
  (connected_peers w) (idle_timer w) (signals w) (transactions w) (objs w) x (now w).
Definition set_now x w := World (heap w) (registry w) (contexts w) (listening w)
  (connected_peers w) (idle_timer w) (signals w) (transactions w) (objs w) (outbox w) x.

#[export] Instance world_store : Store world obj_body := {|
  get_objs := objs; put_objs := set_objs
|}.

#[export] Instance world_store_laws : StoreLaws world obj_body.
Proof. split; [done| done | by intros []]. Qed.

(** The static initial state of the process. *)
Definition initial_world : world :=
  World ∅ None ∅ false 0 None [] 0 ∅ [] 0.

(** ** Allocations *)

(** calloc (1, sizeof (struct network)) when memory is available. *)
Definition network_alloc : M world loc := λ w,
  let l := fresh (dom (heap w)) in
  Ret l (set_heap (<[l := Network None 0 None None None]> (heap w)) w).

Definition network_load (l : loc) : M world network := λ w,
  match heap w !! l with
  | Some net => Ret net w
  | None => Fault UseAfterFree
  end.

Definition network_store (l : loc) (net : network) : M world () := λ w,
  match heap w !! l with
  | Some _ => Ret () (set_heap (<[l := net]> (heap w)) w)
  | None => Fault UseAfterFree
  end.

Definition network_dealloc (l : loc) : M world () := λ w,
  match heap w !! l with
  | Some _ => Ret () (set_heap (delete l (heap w)) w)
  | None => Fault OverRelease
  end.

Definition context_load (c : conn) : M world broker_context := λ w,
  match contexts w !! c with
  | Some ctx => Ret ctx w
  | None => Fault UseAfterFree
  end.

Definition context_store (c : conn) (ctx : broker_context) : M world () :=
  modify (λ w, set_contexts (<[c := ctx]> (contexts w)) w).

(** ** Dispatch timers *)

Definition source_read (t : obj) : M world source :=
  b ← obj_read t; match b with BSource s => mret s | _ => raise UseAfterFree end.

Definition dispatch_source_create_timer (os : OS) : M world (option obj) :=
  if os_dispatch_source_create os then t ← obj_alloc (BSource new_source); mret (Some t)
  else mret None.

Definition dispatch_source_set_timer (t : obj) (start leeway : Z) : M world () :=
  s ← source_read t;
  obj_write t (BSource (Source (src_handler s) (Some start) leeway
                               (src_resumed s) (src_cancelled s))).

Definition dispatch_source_set_event_handler (t : obj) (h : handler) : M world () :=
  s ← source_read t;
  obj_write t (BSource (Source (Some h) (src_start s) (src_leeway s)
                               (src_resumed s) (src_cancelled s))).

Definition dispatch_resume (t : obj) : M world () :=
  s ← source_read t;
  obj_write t (BSource (Source (src_handler s) (src_start s) (src_leeway s)
                               true (src_cancelled s))).

Definition dispatch_source_cancel (t : obj) : M world () :=
  s ← source_read t;
  obj_write t (BSource (Source (src_handler s) (src_start s) (src_leeway s)
                               (src_resumed s) true)).

(** dispatch_time (DISPATCH_TIME_NOW, delta) *)
Definition dispatch_time_now (delta : Z) : M world Z := gets (λ w, now w + delta).

(** A timer that calls [h] once, idle_timeout_sec from [t], one second of
    leeway allowed. *)
Definition idle_source (h : handler) (t : Z) : source :=
  Source (Some h) (Some (t + idle_timeout_sec * NSEC_PER_SEC)%Z) (1 * NSEC_PER_SEC) true false.

(** What remove_later and shutdown_later do with the timer they created. *)
Definition start_idle_timer (t : obj) (h : handler) : M world () :=
  start ← dispatch_time_now (idle_timeout_sec * NSEC_PER_SEC);
  dispatch_source_set_timer t start (1 * NSEC_PER_SEC);;
  dispatch_source_set_event_handler t h;;
  dispatch_resume t.

(** dispatch_source_cancel, then dispatch_release. *)
Definition cancel_timer (t : obj) : M world () :=
  dispatch_source_cancel t;;
  obj_release t.

(** ** Messages *)

Definition xpc_connection_send_message (c : conn) (m : xpc_object) : M world () :=
  modify (λ w, set_outbox (outbox w ++ [(c, m)]) w).

(** ** Updates of the heap and the objects

    Rewriting with [world] brings a sequence of them to one [set_objs] of one
    [set_heap]. *)

Lemma set_heap_heap h h' w : set_heap h (set_heap h' w) = set_heap h w.
Proof. done. Qed.

Lemma set_objs_objs σ σ' w : set_objs σ (set_objs σ' w) = set_objs σ w.
Proof. done. Qed.

Lemma set_heap_objs h σ w : set_heap h (set_objs σ w) = set_objs σ (set_heap h w).
Proof. done. Qed.

Lemma set_heap_id w : set_heap (heap w) w = w.
Proof. by destruct w. Qed.

Lemma set_objs_id w : set_objs (objs w) w = w.
Proof. by destruct w. Qed.

(** ** Running the primitives *)

Lemma network_load_run l net w : heap w !! l = Some net → network_load l w = Ret net w.
Proof. unfold network_load. by intros ->. Qed.

Lemma network_store_run l net net' w :
  heap w !! l = Some net' →
  network_store l net w = Ret () (set_heap (<[l := net]> (heap w)) w).
Proof. unfold network_store. by intros ->. Qed.

Lemma network_dealloc_run l net w :
  heap w !! l = Some net → network_dealloc l w = Ret () (set_heap (delete l (heap w)) w).
Proof. unfold network_dealloc. by intros ->. Qed.

Lemma context_load_run c ctx w : contexts w !! c = Some ctx → context_load c w = Ret ctx w.
Proof. unfold context_load. by intros ->. Qed.

Lemma context_store_run c ctx w :
  context_store c ctx w = Ret () (set_contexts (<[c := ctx]> (contexts w)) w).
Proof. done. Qed.

Implicit Types (o : obj) (b : obj_body) (w : world).

Lemma world_alloc_run b w :
  obj_alloc b w = Ret (fresh (dom (objs w)))
                      (set_objs (<[fresh (dom (objs w)) := Cell 1 b]> (objs w)) w).
Proof. done. Qed.

Lemma world_read_run o c w : objs w !! o = Some c → obj_read o w = Ret (body c) w.
Proof. exact (obj_read_run o c w). Qed.

Lemma world_write_run o b c w :
  objs w !! o = Some c →
  obj_write o b w = Ret () (set_objs (<[o := Cell (rc c) b]> (objs w)) w).
Proof. exact (obj_write_run o b c w). Qed.

Lemma world_retain_run o c w :
  objs w !! o = Some c →
  obj_retain o w = Ret () (set_objs (<[o := Cell (1 + rc c) (body c)]> (objs w)) w).
Proof. exact (obj_retain_run o c w). Qed.

Lemma world_release_last o b w :
  objs w !! o = Some (Cell 1 b) → obj_release o w = Ret () (set_objs (delete o (objs w)) w).
Proof. exact (obj_release_last o b w). Qed.

Lemma world_release_two o b w :
  objs w !! o = Some (Cell 2 b) →
  obj_release o w = Ret () (set_objs (<[o := Cell 1 b]> (objs w)) w).
Proof. exact (obj_release_more o 0 b w). Qed.

Lemma source_read_run t n s w :
  objs w !! t = Some (Cell n (BSource s)) → source_read t w = Ret s w.
Proof. intros Ht. unfold source_read. by erewrite bind_run by (by apply world_read_run). Qed.

#[local] Hint Resolve network_load_run network_store_run network_dealloc_run
  context_load_run context_store_run source_read_run : run.

Lemma source_update_run t n s s' w :
  objs w !! t = Some (Cell n (BSource s)) →
  (s ← source_read t; obj_write t (BSource (s' s))) w =
    Ret () (set_objs (<[t := Cell n (BSource (s' s))]> (objs w)) w).
Proof. intros Ht. mstep. by apply (world_write_run _ _ (Cell n (BSource s))). Qed.

Lemma start_idle_timer_run t h n w :
  objs w !! t = Some (Cell n (BSource new_source)) →
  start_idle_timer t h w =
    Ret () (set_objs (<[t := Cell n (BSource (idle_source h (now w)))]> (objs w)) w).
Proof.
  intros Ht. unfold start_idle_timer, dispatch_time_now, dispatch_source_set_timer,
    dispatch_source_set_event_handler, dispatch_resume.
  mstep.
  erewrite bind_run by (by eapply source_update_run).
  erewrite bind_run by (eapply source_update_run, lookup_insert_eq).
  erewrite source_update_run by apply lookup_insert_eq.
  unfold set_objs. simpl. by rewrite !insert_insert_eq.
Qed.

Lemma cancel_timer_run t s w :
  objs w !! t = Some (Cell 1 (BSource s)) →
  cancel_timer t w = Ret () (set_objs (delete t (objs w)) w).
Proof.
  intros Ht. unfold cancel_timer, dispatch_source_cancel.
  erewrite bind_run by (by eapply source_update_run).
  erewrite world_release_last by apply lookup_insert_eq.
  unfold set_objs. simpl. by rewrite delete_insert_eq.
Qed.
End world.

#[export] Hint Rewrite @set_heap_heap @set_objs_objs @set_heap_objs @set_heap_id @set_objs_id : world.

#[export] Hint Resolve network_load_run network_store_run network_dealloc_run
  context_load_run context_store_run source_read_run start_idle_timer_run
  cancel_timer_run world_alloc_run world_read_run world_write_run world_retain_run
  world_release_last world_release_two : run.
