(* ===== verification/Config.v ===== *)
(** * Network configurations: broker/config.c

    The builtin networks, the lookup of a network by name, and the creation of
    a vmnet configuration for it. *)

From S2P Require Import Prelude Platform Common World.

(** struct network_config *)
Record network_config := NetworkConfig {
  cfg_name : string;
  cfg_mode : vmnet_mode_t;
  cfg_subnet : option string;
  cfg_mask : option string;
}.

Definition builtin_networks : list network_config := [
  NetworkConfig "shared" VMNET_SHARED_MODE None None;
  NetworkConfig "host" VMNET_HOST_MODE None None
].

(** The loop of find_network_config, from one element of the table on. *)
Fixpoint find_config_from (configs : list network_config) (name : string) :
    option network_config :=
  match configs with
  | [] => None
  | config :: configs' =>
      if String.eqb (cfg_name config) name then Some config
      else find_config_from configs' name
  end.

Definition find_network_config (name : string) (error : option Z) :
    option network_config * option Z :=
  match find_config_from builtin_networks name with
  | Some config => (Some config, error)
  | None => (None, set_error error VMNET_BROKER_NOT_FOUND)
  end.

Section config.
Context {xpc : XPC} {cf : CoreFoundation}.

(** The label [error] of create_vmnet_configuration. *)
Definition configuration_error (configuration : obj) (error : option Z) :
    M world (option obj * option Z) :=
  obj_release configuration;;
  mret (None, set_error error VMNET_BROKER_CREATE_FAILURE).

(** vmnet_network_configuration_set_ipv4_subnet *)
Definition configuration_set_ipv4_subnet (os : OS) (configuration : obj)
    (subnet_addr subnet_mask : Z) : M world vmnet_return_t :=
  b ← obj_read configuration;
  let status := os_set_ipv4_subnet os subnet_addr subnet_mask in
  match b, decide (status = VMNET_SUCCESS) with
  | BConfiguration mode _, left _ =>
      obj_write configuration (BConfiguration mode (Some (subnet_addr, subnet_mask)));;
      mret status
  | _, _ => mret status
  end.

Definition create_vmnet_configuration (os : OS) (config : network_config)
    (error : option Z) : M world (option obj * option Z) :=
  let '(created, _) := os_configuration_create os (cfg_mode config) in
  if negb created then
    mret (None, set_error error VMNET_BROKER_CREATE_FAILURE)
  else
    configuration ← obj_alloc (BConfiguration (cfg_mode config) None);
    match cfg_subnet config, cfg_mask config with
    | Some subnet, Some mask =>
        let '(r, subnet_addr) := os_inet_pton os subnet in
        if (r =? 0)%Z then configuration_error configuration error
        else
          let '(r, subnet_mask) := os_inet_pton os mask in
          if (r =? 0)%Z then configuration_error configuration error
          else
            status ← configuration_set_ipv4_subnet os configuration subnet_addr subnet_mask;
            if decide (status = VMNET_SUCCESS)
            then mret (Some configuration, error)
            else configuration_error configuration error
    | _, _ => mret (Some configuration, error)
    end.

Definition create_network_configuration (os : OS) (name : string)
    (error : option Z) : M world (option obj * option Z) :=
  match find_network_config name error with
  | (None, error) => mret (None, error)
  | (Some config, error) => create_vmnet_configuration os config error
  end.
End config.
