(* ===== verification/Network.v ===== *)
(** * Networks: broker/network.c

    The networks the broker created, the registry that finds them by name, the
    networks each peer owns, and the timers that remove idle networks. *)

From S2P Require Import Prelude Platform Common World Config.

Section network.
Context {xpc : XPC} {cf : CoreFoundation}.

(** network_info and the INFOF that prints it: only what they read of the
    broker's state, the object behind [ref]. *)
Definition log_network_info (ref : obj) : M world () :=
  b ← obj_read ref; mret ().

(** ** Network functions *)

Definition when_some {A} (o : option A) (f : A → M world ()) : M world () :=
  match o with Some a => f a | None => mret () end.

Definition free_network (network : option loc) : M world () :=
  match network with
  | None => mret ()
  | Some l =>
      net ← network_load l;
      when_some (net_ref net) (λ ref, log_network_info ref;; obj_release ref);;
      when_some (net_serialization net) obj_release;;
      when_some (net_idle_timer net) cancel_timer;;
      network_dealloc l
  end.

(** The label [failure] of create_network. *)
Definition create_failure (network : option loc) (error : option Z) :
    M world (option loc * option Z) :=
  free_network network;;
  mret (None, set_error error VMNET_BROKER_CREATE_FAILURE).

Definition configuration_read (config : obj) : M world (vmnet_mode_t * option (Z * Z)) :=
  b ← obj_read config;
  match b with
  | BConfiguration mode subnet => mret (mode, subnet)
  | _ => raise UseAfterFree
  end.

Definition create_network (os : OS) (name : string) (config : obj)
    (error : option Z) : M world (option loc * option Z) :=
  if negb (os_calloc os) then create_failure None error
  else
    l ← network_alloc;
    if negb (os_strdup os) then create_failure (Some l) error
    else
      network_store l (Network (Some name) 0 None None None);;
      '(mode, subnet) ← configuration_read config;
      if negb (os_network_create os mode subnet).1 then create_failure (Some l) error
      else
        ref ← obj_alloc BNetworkRef;
        network_store l (Network (Some name) 0 (Some ref) None None);;
        log_network_info ref;;
        match (os_copy_serialization os).1 with
        | None => create_failure (Some l) error
        | Some serialization =>
            ser ← obj_alloc (BXpc serialization);
            network_store l (Network (Some name) 0 (Some ref) (Some ser) None);;
            mret (Some l, error)
        end.

(** ** Network registry functions *)

Definition registry_retain (value : loc) : loc := value.

Definition registry_release (value : loc) : M world () := free_network (Some value).

(** CFDictionaryValueCallBacks: what Core Foundation calls on the values it
    stores and drops. *)
Record value_callbacks := ValueCallbacks {
  cb_retain : loc → loc;
  cb_release : loc → M world ();
}.

Definition registry_value_callbacks : value_callbacks := {|
  cb_retain := registry_retain;
  cb_release := registry_release;
|}.

Definition init_registry (os : OS) : M world () :=
  modify (λ w, match registry w with
               | Some _ => w
               | None => if os_cf_dictionary_create os then set_registry (Some ∅) w else w
               end).

(** CFRelease of the registry calls registry_release for each value, in an
    order of its own. *)
Fixpoint release_values (values : list loc) : M world () :=
  match values with
  | [] => mret ()
  | l :: values' => cb_release registry_value_callbacks l;; release_values values'
  end.

Definition release_registry : M world () :=
  r ← gets registry;
  match r with
  | None => mret ()
  | Some r =>
      release_values (map_to_list r).*2;;
      modify (set_registry None)
  end.

(** A key for [name], and the dictionary it is looked up in: both are NULL
    where Core Foundation could not create them, and CFDictionary and
    CFRelease do not accept NULL. *)
Definition registry_key (name : string) : M world (CFString * gmap CFString loc) :=
  key ← of_option NullDeref (CFStringCreateWithCString name);
  r ← gets registry;
  r ← of_option NullDeref r;
  mret (key, r).

Definition registry_get (name : string) : M world (option loc) :=
  '(key, r) ← registry_key name;
  mret (r !! key).

(** CFDictionarySetValue retains the new value and releases the one it
    replaces. *)
Definition registry_set (name : string) (net : loc) : M world () :=
  '(key, r) ← registry_key name;
  modify (set_registry (Some (<[key := cb_retain registry_value_callbacks net]> r)));;
  when_some (r !! key) (cb_release registry_value_callbacks).

Definition registry_remove (name : string) : M world () :=
  '(key, r) ← registry_key name;
  modify (set_registry (Some (delete key r)));;
  when_some (r !! key) (cb_release registry_value_callbacks).

Definition remove_later (os : OS) (l : loc) : M world () :=
  net ← network_load l;
  c_assert (bool_decide (net_idle_timer net = None))
           "idle timer running in registry_remove_later";;
  timer ← dispatch_source_create_timer os;
  network_store l (Network (net_name net) (net_peers net) (net_ref net)
                           (net_serialization net) timer);;
  c_assert (bool_decide (is_Some timer)) "failed to create idle timer";;
  when_some timer (λ t, start_idle_timer t (RemoveNetwork l)).

(** The event handler block remove_later sets. *)
Definition remove_network_handler (l : loc) : M world () :=
  net ← network_load l;
  name ← of_option NullDeref (net_name net);
  registry_remove name.

Definition cancel_remove_later (l : loc) : M world () :=
  net ← network_load l;
  match net_idle_timer net with
  | None => mret ()
  | Some t =>
      cancel_timer t;;
      network_store l (Network (net_name net) (net_peers net) (net_ref net)
                               (net_serialization net) None)
  end.

(** ** Peer ownership helpers *)

(** networks[i] *)
Definition array_read (networks : list (option loc)) (i : Z) : M world (option loc) :=
  if bool_decide (0 ≤ i)%Z then of_option OutOfBounds (networks !! Z.to_nat i)
  else raise OutOfBounds.

(** The loop of peer_owns_network: [n] iterations from index [i]. *)
Fixpoint owns_loop (networks : list (option loc)) (l : loc) (n i : nat) : M world bool :=
  match n with
  | O => mret false
  | Datatypes.S n' =>
      p ← array_read networks (Z.of_nat i);
      if decide (p = Some l) then mret true
      else owns_loop networks l n' (Datatypes.S i)
  end.

Definition peer_owns_network (c : conn) (l : loc) : M world bool :=
  ctx ← context_load c;
  owns_loop (ctx_networks ctx) l (Z.to_nat (ctx_network_count ctx)) 0.

Definition can_add_network_to_peer (c : conn) (error : option Z) :
    M world (bool * option Z) :=
  ctx ← context_load c;
  if bool_decide (Z.of_nat MAX_PEER_NETWORKS ≤ ctx_network_count ctx)%Z
  then mret (false, set_error error VMNET_BROKER_INTERNAL_ERROR)
  else mret (true, error).

(** ctx->networks[i] = net *)
Definition context_set_network (c : conn) (i : Z) (l : loc) : M world () :=
  ctx ← context_load c;
  if bool_decide (0 ≤ i < Z.of_nat (length (ctx_networks ctx)))%Z
  then context_store c (BrokerContext (ctx_connection ctx) (ctx_name ctx)
         (<[Z.to_nat i := Some l]> (ctx_networks ctx)) (ctx_network_count ctx))
  else raise OutOfBounds.

Definition context_set_count (c : conn) (n : Z) : M world () :=
  ctx ← context_load c;
  context_store c (BrokerContext (ctx_connection ctx) (ctx_name ctx)
                                 (ctx_networks ctx) n).

Definition update_peer_ownership (c : conn) (l : loc) (error : option Z) :
    M world (bool * option Z) :=
  owns ← peer_owns_network c l;
  if owns : bool then mret (true, error)
  else
    '(can_add, error) ← can_add_network_to_peer c error;
    if negb can_add then mret (false, error)
    else
      ctx ← context_load c;
      n ← c_int (ctx_network_count ctx + 1)%Z;
      context_set_network c (ctx_network_count ctx) l;;
      context_set_count c n;;
      net ← network_load l;
      peers ← c_int (net_peers net + 1)%Z;
      network_store l (Network (net_name net) peers (net_ref net)
                               (net_serialization net) (net_idle_timer net));;
      mret (true, error).

(** ** Public API *)

(** The tail of acquire_network, for a network of the registry: the
    serialization it returns holds a reference for the caller. *)
Definition acquire_registered (c : conn) (l : loc) (error : option Z) :
    M world (option obj * option Z) :=
  '(updated, error) ← update_peer_ownership c l error;
  if negb updated then mret (None, error)
  else
    cancel_remove_later l;;
    net ← network_load l;
    ser ← of_option NullDeref (net_serialization net);
    obj_retain ser;;
    mret (Some ser, error).

Definition acquire_network (os : OS) (c : conn) (network_name : string)
    (error : option Z) : M world (option obj * option Z) :=
  init_registry os;;
  net ← registry_get network_name;
  match net with
  | Some l => acquire_registered c l error
  | None =>
      '(can_add, error) ← can_add_network_to_peer c error;
      if negb can_add then mret (None, error)
      else
        '(config, error) ← create_network_configuration os network_name error;
        match config with
        | None => mret (None, error)
        | Some config =>
            '(net, error) ← create_network os network_name config error;
            obj_release config;;
            match net with
            | None => mret (None, error)
            | Some l =>
                registry_set network_name l;;
                acquire_registered c l error
            end
        end
  end.

(** One iteration of the loop of release_peer_networks. *)
Definition release_last_network (os : OS) (c : conn) : M world () :=
  ctx ← context_load c;
  n ← c_int (ctx_network_count ctx - 1)%Z;
  context_set_count c n;;
  p ← array_read (ctx_networks ctx) n;
  l ← of_option NullDeref p;
  net ← network_load l;
  peers ← c_int (net_peers net - 1)%Z;
  network_store l (Network (net_name net) peers (net_ref net)
                           (net_serialization net) (net_idle_timer net));;
  if bool_decide (peers = 0)%Z then remove_later os l else mret ().

Fixpoint release_loop (os : OS) (c : conn) (fuel : nat) : M world () :=
  ctx ← context_load c;
  if bool_decide (ctx_network_count ctx = 0)%Z then mret ()
  else
    match fuel with
    | O => raise OutOfFuel
    | Datatypes.S fuel' => release_last_network os c;; release_loop os c fuel'
    end.

(** The array bounds the number of iterations. *)
Definition release_peer_networks (os : OS) (c : conn) : M world () :=
  release_loop os c MAX_PEER_NETWORKS.

Definition shutdown_networks : M world () := release_registry.
End network.
