(* ===== verification/Xpc.v ===== *)
(** * The XPC layer: broker/xpc.c

    The listener, the context of each connection, and the replies.  The layer
    calls the broker through a table of operations, [broker_ops]: every
    definition here that handles an event takes the table it calls. *)

From S2P Require Import Prelude Platform Common World.

Section xpc.
Context {xpc : XPC} {cf : CoreFoundation}.

(** struct broker_ops (broker-xpc.h); [None] is a NULL function pointer. *)
Record broker_ops_t := BrokerOps {
  on_peer_connect : option (conn → M world ());
  on_peer_disconnect : option (conn → M world ());
  on_peer_request : option (conn → xpc_object → M world ());
}.

Definition EXIT_SUCCESS : Z := 0.
Definition EXIT_FAILURE : Z := 1.

(** sizeof ("peer 9223372036854775807") *)
Definition ctx_name_size : nat := 25.

(** snprintf (buf, size, "peer %d", pid): at most [size - 1] characters. *)
Definition snprintf_peer (size : nat) (pid : Z) : string :=
  String.substring 0 (size - 1) ("peer " +:+ pretty pid).

Definition init_context (os : OS) (connection : conn) : broker_context :=
  BrokerContext connection
    (snprintf_peer ctx_name_size (os_connection_get_pid os connection))
    (replicate MAX_PEER_NETWORKS None) 0.

(** The event handler block of handle_connection. *)
Definition peer_event_handler (ops : broker_ops_t) (ctx : conn) (event : xpc_object) :
    M world () :=
  if decide (xpc_get_type event = XPC_TYPE_ERROR) then
    if xpc_object_eqb event XPC_ERROR_CONNECTION_INVALID then
      match on_peer_disconnect ops with Some f => f ctx | None => mret () end
    else mret ()
  else if decide (xpc_get_type event = XPC_TYPE_DICTIONARY) then
    match on_peer_request ops with Some f => f ctx event | None => mret () end
  else mret ().

(** Up to xpc_connection_resume, after which [peer_event_handler] is called
    with the connection's events. *)
Definition handle_connection (os : OS) (ops : broker_ops_t) (connection : conn) :
    M world () :=
  context_store connection (init_context os connection);;
  match on_peer_connect ops with Some f => f connection | None => mret () end.

Definition create_reply (event : xpc_object) : M world (option obj) :=
  match xpc_dictionary_create_reply event with
  | None => mret None
  | Some reply => o ← obj_alloc (BXpc reply); mret (Some o)
  end.

Definition xpc_read (o : obj) : M world xpc_object :=
  b ← obj_read o;
  match b with BXpc x => mret x | _ => raise UseAfterFree end.

(** The end of send_xpc_error and send_xpc_network. *)
Definition send_reply (c : conn) (reply : obj) : M world () :=
  ctx ← context_load c;
  x ← xpc_read reply;
  xpc_connection_send_message (ctx_connection ctx) x;;
  obj_release reply.

Definition send_xpc_error (c : conn) (event : xpc_object) (code : Z) : M world () :=
  reply ← create_reply event;
  match reply with
  | None => mret ()
  | Some reply =>
      x ← xpc_read reply;
      obj_write reply (BXpc (xpc_dictionary_set_int64 x REPLY_ERROR code));;
      send_reply c reply
  end.

Definition send_xpc_network (c : conn) (event : xpc_object)
    (network_serialization : obj) : M world () :=
  reply ← create_reply event;
  match reply with
  | None => mret ()
  | Some reply =>
      x ← xpc_read reply;
      v ← xpc_read network_serialization;
      obj_write reply (BXpc (xpc_dictionary_set_value x REPLY_NETWORK v));;
      send_reply c reply
  end.

(** The event handler block of start_xpc_listener. *)
Definition listener_event_handler (os : OS) (ops : broker_ops_t) (event : xpc_object) :
    M world () :=
  if decide (xpc_get_type event = XPC_TYPE_ERROR) then exit EXIT_FAILURE
  else if decide (xpc_get_type event = XPC_TYPE_CONNECTION) then
    handle_connection os ops (xpc_connection_of event)
  else mret ().

Definition start_xpc_listener (os : OS) (broker_ops : option broker_ops_t) : M world Z :=
  match broker_ops with
  | None => mret (-1)%Z
  | Some _ =>
      if negb (os_create_mach_service os MACH_SERVICE_NAME) then mret (-1)%Z
      else modify (set_listening true);; mret 0%Z
  end.
End xpc.
