(* ===== verification/Broker.v ===== *)
(** * The broker: broker/broker.c

    The operations the XPC layer calls, the idle and signal handlers, and
    main. *)

From S2P Require Import Prelude Platform Common World Config Network Xpc.

Section broker.
Context {xpc : XPC} {cf : CoreFoundation}.

Definition SIGINT : Z := 2.
Definition SIGTERM : Z := 15.

Definition on_peer_request (os : OS) (ctx : conn) (event : xpc_object) : M world () :=
  match xpc_dictionary_get_string event REQUEST_COMMAND with
  | None => send_xpc_error ctx event VMNET_BROKER_INVALID_REQUEST
  | Some command =>
      if negb (String.eqb command COMMAND_ACQUIRE) then
        send_xpc_error ctx event VMNET_BROKER_INVALID_REQUEST
      else
        match xpc_dictionary_get_string event REQUEST_NETWORK_NAME with
        | None => send_xpc_error ctx event VMNET_BROKER_INVALID_REQUEST
        | Some network_name =>
            '(network_serialization, error) ← acquire_network os ctx network_name (Some 0%Z);
            match network_serialization with
            | None => send_xpc_error ctx event (default 0%Z error)
            | Some network_serialization =>
                send_xpc_network ctx event network_serialization;;
                obj_release network_serialization
            end
        end
  end.

Definition shutdown_later (os : OS) : M world () :=
  t ← gets idle_timer;
  c_assert (bool_decide (t = None)) "idle timer running in shutdown_later";;
  timer ← dispatch_source_create_timer os;
  modify (set_idle_timer timer);;
  c_assert (bool_decide (is_Some timer)) "failed to create idle timer";;
  when_some timer (λ t, start_idle_timer t (IdleShutdown)).

(** The event handler block shutdown_later sets. *)
Definition idle_shutdown_handler : M world () :=
  shutdown_networks;;
  exit EXIT_SUCCESS.

Definition xpc_transaction_begin : M world () :=
  modify (λ w, set_transactions (transactions w + 1)%Z w).

Definition xpc_transaction_end : M world () :=
  modify (λ w, set_transactions (transactions w - 1)%Z w).

Definition on_peer_connect (ctx : conn) : M world () :=
  n ← gets connected_peers;
  n ← c_int (n + 1)%Z;
  modify (set_connected_peers n);;
  if bool_decide (n = 1)%Z then
    xpc_transaction_begin;;
    t ← gets idle_timer;
    when_some t (λ t,
      cancel_timer t;;
      modify (set_idle_timer None))
  else mret ().

Definition on_peer_disconnect (os : OS) (ctx : conn) : M world () :=
  n ← gets connected_peers;
  n ← c_int (n - 1)%Z;
  modify (set_connected_peers n);;
  release_peer_networks os ctx;;
  n ← gets connected_peers;
  if bool_decide (n = 0)%Z then
    xpc_transaction_end;;
    shutdown_later os
  else mret ().

Definition broker_ops (os : OS) : broker_ops_t := {|
  Xpc.on_peer_connect := Some on_peer_connect;
  Xpc.on_peer_disconnect := Some (on_peer_disconnect os);
  Xpc.on_peer_request := Some (on_peer_request os);
|}.

(** The event handler block of setup_signal_handlers. *)
Definition signal_handler (sig : Z) : M world () :=
  n ← gets connected_peers;
  if bool_decide (0 < n)%Z then mret ()
  else
    shutdown_networks;;
    exit EXIT_SUCCESS.

(** The loop of setup_signal_handlers: each signal is ignored and given a
    source on the main queue; using a source that could not be created
    faults. *)
Fixpoint setup_signal_sources (os : OS) (sigs : list Z) : M world () :=
  match sigs with
  | [] => mret ()
  | sig :: sigs' =>
      (if os_dispatch_source_create os
       then modify (λ w, set_signals (signals w ++ [sig]) w)
       else raise NullDeref);;
      setup_signal_sources os sigs'
  end.

Definition setup_signal_handlers (os : OS) : M world () :=
  setup_signal_sources os [SIGINT; SIGTERM].

(** main, up to dispatch_main. *)
Definition main (os : OS) : M world () :=
  setup_signal_handlers os;;
  r ← start_xpc_listener os (Some (broker_ops os));
  if bool_decide (r ≠ 0)%Z then exit EXIT_FAILURE else mret ().

(** ** The main queue

    dispatch_main runs, one at a time, the blocks the broker set on the main
    queue: the listener's and the connections' event handlers, the timers'
    and the signals'.  Time passes between them. *)
Inductive event :=
  | EvListener (e : xpc_object)
  | EvPeer (c : conn) (e : xpc_object)
  | EvTimer (t : obj)
  | EvSignal (sig : Z)
  | EvClock (d : Z).

(** The connection's last event. *)
Definition connection_invalid (e : xpc_object) : bool :=
  bool_decide (xpc_get_type e = XPC_TYPE_ERROR) &&
  xpc_object_eqb e XPC_ERROR_CONNECTION_INVALID.

(** A timer fires when it is resumed, not cancelled, and its time came. *)
Definition timer_ready (w : world) (t : obj) : option handler :=
  match objs w !! t with
  | Some (Cell _ (BSource (Source (Some h) (Some start) _ true false))) =>
      if bool_decide (start ≤ now w)%Z then Some h else None
  | _ => None
  end.

(** When libxpc and libdispatch deliver an event: a connection is announced
    once, its events come until the last one, and timers fire when due. *)
Definition enabled (w : world) (ev : event) : Prop :=
  match ev with
  | EvListener e =>
      listening w = true ∧
      (xpc_get_type e = XPC_TYPE_CONNECTION → contexts w !! xpc_connection_of e = None)
  | EvPeer c e => is_Some (contexts w !! c)
  | EvTimer t => is_Some (timer_ready w t)
  | EvSignal sig => sig ∈ signals w
  | EvClock d => (0 ≤ d)%Z
  end.

#[export] Instance enabled_dec w ev : Decision (enabled w ev).
Proof. destruct ev; simpl; apply _. Defined.

(** A one-shot timer does not fire again. *)
Definition timer_fired (t : obj) : M world () :=
  s ← source_read t;
  obj_write t (BSource (Source (src_handler s) None (src_leeway s)
                               (src_resumed s) (src_cancelled s))).

(** The context a connection's block captured goes with the block. *)
Definition context_drop (c : conn) : M world () :=
  modify (λ w, set_contexts (delete c (contexts w)) w).

Definition handle_event (os : OS) (ev : event) : M world () :=
  match ev with
  | EvListener e => listener_event_handler os (broker_ops os) e
  | EvPeer c e =>
      peer_event_handler (broker_ops os) c e;;
      if connection_invalid e then context_drop c else mret ()
  | EvTimer t => λ w,
      match timer_ready w t with
      | Some h =>
          (timer_fired t;;
           match h with
           | RemoveNetwork l => remove_network_handler l
           | IdleShutdown => idle_shutdown_handler
           end) w
      | None => Ret () w
      end
  | EvSignal sig => signal_handler sig
  | EvClock d => modify (λ w, set_now (now w + d)%Z w)
  end.
End broker.
