(* ===== verification/Ownership.v ===== *)
(** * Ownership of reference-counted objects

    [owns σ own B]: the objects of the store [σ] are exactly those the holders
    of [own] hold, each held by one holder, with one reference, and with a
    content [B] allows the holder.  Nothing
    leaks, nothing is shared by accident, nothing is released twice.  The
    lemmas extend and shrink it by one object. *)

From S2P Require Import Prelude Platform Common World.

(** Where the broker keeps a reference between events. *)
Inductive holder :=
  | HRef (l : loc)               (* net->ref *)
  | HSerialization (l : loc)     (* net->serialization *)
  | HTimer (l : loc)             (* net->idle_timer *)
  | HShutdown.                   (* broker.c's idle_timer *)

#[export] Instance holder_eq_dec : EqDecision holder.
Proof. solve_decision. Defined.

Section ownership.
Context {xpc : XPC} {cf : CoreFoundation}.
Implicit Types (σ : gmap obj (cell obj_body)) (own : holder → option obj).
Implicit Types (B : holder → obj_body → Prop).

(** What each holder's object is at time [t]: a timer is one that was armed
    in the past. *)
Definition held_body (t : Z) (h : holder) (b : obj_body) : Prop :=
  match h with
  | HRef _ => b = BNetworkRef
  | HSerialization _ => ∃ x, b = BXpc x
  | HTimer l => ∃ d, (d ≤ t)%Z ∧ b = BSource (idle_source (RemoveNetwork l) d)
  | HShutdown => ∃ d, (d ≤ t)%Z ∧ b = BSource (idle_source IdleShutdown d)
  end.

(** Its kind only: also true of a timer that has fired. *)
Definition held_kind (h : holder) (b : obj_body) : Prop :=
  match h with
  | HRef _ => b = BNetworkRef
  | HSerialization _ => ∃ x, b = BXpc x
  | HTimer _ | HShutdown => ∃ s, b = BSource s
  end.

Lemma held_body_later t t' h b : (t ≤ t')%Z → held_body t h b → held_body t' h b.
Proof. destruct h; simpl; intros Ht; try done; intros (d & Hd & ->); exists d; split; try done; lia. Qed.

Lemma held_body_kind t h b : held_body t h b → held_kind h b.
Proof. destruct h; simpl; try done; intros (d & _ & ->); eauto. Qed.

Record owns σ own B : Prop := {
  own_live h o : own h = Some o → ∃ b, σ !! o = Some (Cell 1 b) ∧ B h b;
  own_inj h1 h2 o : own h1 = Some o → own h2 = Some o → h1 = h2;
  own_all o : is_Some (σ !! o) → ∃ h, own h = Some o;
}.

Lemma owns_empty B : owns ∅ (λ _, None) B.
Proof. split; [done|done|]. intros o [? Ho]. by rewrite lookup_empty in Ho. Qed.

Lemma owns_ext σ own own' B : owns σ own B → (∀ h, own' h = own h) → owns σ own' B.
Proof.
  intros [Hl Hi Ha] He. split.
  - intros h o. rewrite He. apply Hl.
  - intros h1 h2 o. rewrite !He. apply Hi.
  - intros o [h Hh]%Ha. exists h. by rewrite He.
Qed.

Lemma owns_mono σ own B B' : owns σ own B → (∀ h b, B h b → B' h b) → owns σ own B'.
Proof. intros [Hl Hi Ha] Hm. split; [|done|done]. intros h o (b & Hb & ?)%Hl. eauto. Qed.

Lemma owns_later σ own t t' :
  owns σ own (held_body t) → (t ≤ t')%Z → owns σ own (held_body t').
Proof. intros Hw Ht. eapply owns_mono; [done|]. eauto using held_body_later. Qed.

(** Changing what an object holds. *)
Lemma owns_write σ own B B' h o b :
  owns σ own B → own h = Some o → B' h b → (∀ h b, B h b → B' h b) →
  owns (<[o := Cell 1 b]> σ) own B'.
Proof.
  intros [Hl Hi Ha] Ho Hb Hm. split; [|done|].
  - intros h' o' Ho'. rewrite lookup_insert. case_decide.
    + subst. rewrite (Hi h' h o') by done. eauto.
    + destruct (Hl h' o' Ho') as (b' & ? & ?). eauto.
  - intros o'. rewrite lookup_insert. case_decide; [subst; eauto|apply Ha].
Qed.

Lemma own_live_is_Some σ own B h o : owns σ own B → own h = Some o → is_Some (σ !! o).
Proof. intros Ho (b & Hb & _)%(own_live _ _ _ Ho). by rewrite Hb. Qed.

(** Holder [h] takes a new object. *)
Lemma owns_alloc σ own own' B h o b :
  owns σ own B → σ !! o = None → own h = None → B h b →
  own' h = Some o → (∀ h', h' ≠ h → own' h' = own h') →
  owns (<[o := Cell 1 b]> σ) own' B.
Proof.
  intros Hw Ho Hh Hb Hh' Hne.
  assert (∀ h', h' ≠ h → own' h' ≠ Some o) as Hnew.
  { intros h' Hn Heq. rewrite Hne in Heq by done.
    destruct (own_live_is_Some _ _ _ _ _ Hw Heq). congruence. }
  split.
  - intros h' o' Heq. destruct (decide (h' = h)) as [->|Hn].
    + simplify_eq. exists b. by rewrite lookup_insert_eq.
    + rewrite Hne in Heq by done.
      assert (o' ≠ o) by (intros ->; by apply (Hnew h'); [done|rewrite Hne]).
      rewrite lookup_insert_ne by done. by apply (own_live _ _ _ Hw).
  - intros h1 h2 o' H1 H2.
    destruct (decide (h1 = h)) as [->|Hn1], (decide (h2 = h)) as [->|Hn2]; try done.
    + exfalso. simplify_eq. by eapply Hnew.
    + exfalso. simplify_eq. by eapply Hnew.
    + rewrite Hne in H1, H2 by done. by eapply (own_inj _ _ _ Hw).
  - intros o' Ho'. destruct (decide (o' = o)) as [->|Hn]; [by exists h|].
    rewrite lookup_insert_ne in Ho' by done.
    destruct (own_all _ _ _ Hw o' Ho') as [h' Heq]. exists h'.
    rewrite Hne; [done|]. intros ->. congruence.
Qed.

(** Holder [h] releases its object. *)
Lemma owns_free σ own own' B h o :
  owns σ own B → own h = Some o → own' h = None → (∀ h', h' ≠ h → own' h' = own h') →
  owns (delete o σ) own' B.
Proof.
  intros Hw Hh Hh' Hne. split.
  - intros h' o' Heq. destruct (decide (h' = h)) as [->|Hn]; [congruence|].
    rewrite Hne in Heq by done. rewrite lookup_delete_ne.
    + by apply (own_live _ _ _ Hw).
    + intros <-. apply Hn. by eapply (own_inj _ _ _ Hw).
  - intros h1 h2 o' H1 H2. apply (own_inj _ _ _ Hw _ _ o').
    + rewrite Hne in H1; [done|]. intros ->. congruence.
    + rewrite Hne in H2; [done|]. intros ->. congruence.
  - intros o' Ho'. destruct (decide (o' = o)) as [->|Hn].
    + rewrite lookup_delete_eq in Ho'. by destruct Ho'.
    + rewrite lookup_delete_ne in Ho' by done.
      destruct (own_all _ _ _ Hw o' Ho') as [h' Heq]. exists h'.
      rewrite Hne; [done|]. intros ->. congruence.
Qed.

Definition optional_delete (o : option obj) σ :=
  match o with Some t => delete t σ | None => σ end.

Lemma owns_free_opt σ own own' B h o :
  owns σ own B → own h = o → own' h = None → (∀ h', h' ≠ h → own' h' = own h') →
  owns (optional_delete o σ) own' B.
Proof.
  intros Hw Hh Hh' Hne. destruct o as [o|]; simpl.
  - by eapply owns_free.
  - eapply owns_ext; [done|]. intros h'.
    destruct (decide (h' = h)) as [->|]; [congruence|by apply Hne].
Qed.
End ownership.
