(* ===== verification/Invariant.v ===== *)
(** * The broker's invariant

    [wf w]: the registry, the allocations, the peers' arrays, the reference
    counts, the timers and the objects of the broker agree.  [wf_ex ex w] is
    the same while the network [ex] is being acquired or released, when its
    idle timer may lag behind its peers.  The transformations of this file are
    the net effect of the operations of network.c on the state; each comes with
    the lemma that it preserves the invariant. *)

From S2P Require Import Prelude Platform Common World Ownership.

Section invariant.
Context {xpc : XPC} {cf : CoreFoundation}.
Implicit Types (w : world) (l : loc) (c : conn) (ctx : broker_context) (net : network).

(** ** What a peer owns *)

Definition held ctx : list loc :=
  omap id (take (Z.to_nat (ctx_network_count ctx)) (ctx_networks ctx)).

(** The first elements of the array are the peer's networks [ls], without
    repetition. *)
Record ctx_holds ctx (ls : list loc) : Prop := {
  ch_length : length (ctx_networks ctx) = MAX_PEER_NETWORKS;
  ch_count : ctx_network_count ctx = Z.of_nat (length ls);
  ch_bound : (length ls ≤ MAX_PEER_NETWORKS)%nat;
  ch_take : take (length ls) (ctx_networks ctx) = Some <$> ls;
  ch_nodup : NoDup ls;
}.

Lemma ctx_holds_held ctx ls : ctx_holds ctx ls → held ctx = ls.
Proof.
  intros [_ Hc _ Ht _]. unfold held.
  by rewrite Hc, Nat2Z.id, Ht, omap_id_fmap_Some.
Qed.

Definition ctx_ok ctx : Prop := ctx_holds ctx (held ctx).

Lemma ctx_holds_ok ctx ls : ctx_holds ctx ls → ctx_ok ctx.
Proof. intros H. unfold ctx_ok. by rewrite (ctx_holds_held _ _ H). Qed.

Lemma ctx_holds_lookup ctx ls i l :
  ctx_holds ctx ls → ls !! i = Some l → ctx_networks ctx !! i = Some (Some l).
Proof.
  intros H Hi. assert (i < length ls)%nat by (by eapply lookup_lt_Some).
  rewrite <- (lookup_take_lt _ (length ls)) by done.
  by rewrite (ch_take _ _ H), list_lookup_fmap, Hi.
Qed.

(** ctx->networks[ctx->network_count++] = l *)
Definition attach_ctx l ctx : broker_context :=
  BrokerContext (ctx_connection ctx) (ctx_name ctx)
    (<[Z.to_nat (ctx_network_count ctx) := Some l]> (ctx_networks ctx))
    (ctx_network_count ctx + 1)%Z.

(** --ctx->network_count *)
Definition detach_ctx ctx : broker_context :=
  BrokerContext (ctx_connection ctx) (ctx_name ctx) (ctx_networks ctx)
    (ctx_network_count ctx - 1)%Z.

Lemma attach_ctx_holds l ctx ls :
  ctx_holds ctx ls → l ∉ ls → (length ls < MAX_PEER_NETWORKS)%nat →
  ctx_holds (attach_ctx l ctx) (ls ++ [l]).
Proof.
  intros [Hn Hc Hb Ht Hd] Hl Hlt. split; simpl.
  - by rewrite length_insert.
  - rewrite length_app. simpl. lia.
  - rewrite length_app. simpl. lia.
  - rewrite length_app, Nat.add_1_r, Hc, Nat2Z.id. simpl.
    rewrite take_insert_snoc by lia. by rewrite Ht, fmap_app.
  - apply NoDup_app. split; [done|]. split; [|apply NoDup_singleton].
    intros x Hx ->%list_elem_of_singleton. done.
Qed.

Lemma detach_ctx_holds l ctx ls :
  ctx_holds ctx (ls ++ [l]) → ctx_holds (detach_ctx ctx) ls.
Proof.
  intros [Hn Hc Hb Ht Hd]. rewrite length_app in Hc, Hb, Ht. simpl in *. split; simpl.
  - done.
  - lia.
  - lia.
  - apply (f_equal (take (length ls))) in Ht.
    rewrite take_take, Nat.min_l in Ht by lia. rewrite Ht, fmap_app.
    apply take_app_length'. by rewrite length_fmap.
  - by apply NoDup_app in Hd as [? _].
Qed.

Lemma empty_ctx_holds c name :
  ctx_holds (BrokerContext c name (replicate MAX_PEER_NETWORKS None) 0) [].
Proof. split; simpl; try done; [lia|constructor]. Qed.

(** ** Who owns a network *)

Definition holders (cs : gmap conn broker_context) l : gset conn :=
  dom (filter (λ p, l ∈ held p.2) cs).

Lemma elem_of_holders cs l c :
  c ∈ holders cs l ↔ ∃ ctx, cs !! c = Some ctx ∧ l ∈ held ctx.
Proof.
  unfold holders. rewrite elem_of_dom. split.
  - intros [ctx [H1 H2]%map_lookup_filter_Some]. by exists ctx.
  - intros (ctx & H1 & H2). exists ctx. by apply map_lookup_filter_Some.
Qed.

Lemma holders_insert_gain cs l c ctx :
  l ∈ held ctx → holders (<[c := ctx]> cs) l = {[c]} ∪ holders cs l.
Proof.
  intros Hl. apply set_eq. intros c'.
  rewrite elem_of_union, elem_of_singleton, !elem_of_holders.
  destruct (decide (c' = c)) as [->|Hn].
  - rewrite lookup_insert_eq. naive_solver.
  - rewrite lookup_insert_ne by done. naive_solver.
Qed.

Lemma holders_insert_lose cs l c ctx :
  l ∉ held ctx → holders (<[c := ctx]> cs) l = holders cs l ∖ {[c]}.
Proof.
  intros Hl. apply set_eq. intros c'.
  rewrite elem_of_difference, elem_of_singleton, !elem_of_holders.
  destruct (decide (c' = c)) as [->|Hn].
  - rewrite lookup_insert_eq. naive_solver.
  - rewrite lookup_insert_ne by done. naive_solver.
Qed.

Lemma holders_insert_same cs l c ctx ctx' :
  cs !! c = Some ctx → (l ∈ held ctx' ↔ l ∈ held ctx) →
  holders (<[c := ctx']> cs) l = holders cs l.
Proof.
  intros Hc Hl. apply set_eq. intros c'. rewrite !elem_of_holders.
  destruct (decide (c' = c)) as [->|Hn].
  - rewrite lookup_insert_eq. naive_solver.
  - by rewrite lookup_insert_ne by done.
Qed.

Lemma holders_subseteq cs l : holders cs l ⊆ dom cs.
Proof. intros c (ctx & Hc & _)%elem_of_holders. by apply elem_of_dom_2 in Hc. Qed.

Lemma holders_size cs l : (size (holders cs l) ≤ size cs)%nat.
Proof. rewrite <- (size_dom (D:=gset conn) cs). apply subseteq_size, holders_subseteq. Qed.

(** ** The invariant *)

Definition reg w : gmap CFString loc := default ∅ (registry w).

Definition owned w (h : holder) : option obj :=
  match h with
  | HRef l => heap w !! l ≫= net_ref
  | HSerialization l => heap w !! l ≫= net_serialization
  | HTimer l => heap w !! l ≫= net_idle_timer
  | HShutdown => idle_timer w
  end.

Record wf_ex (ex : option loc) w : Prop := {
  (* the registry's values are the live allocations *)
  wf_reg l : is_Some (heap w !! l) ↔ ∃ k, reg w !! k = Some l;
  (* under the key of their name *)
  wf_key k l : reg w !! k = Some l →
    ∃ net name, heap w !! l = Some net ∧ net_name net = Some name ∧
                CFStringCreateWithCString name = Some k;
  wf_full l net : heap w !! l = Some net →
    is_Some (net_ref net) ∧ is_Some (net_serialization net);
  (* peers counts the peers that own the network *)
  wf_peers l net : heap w !! l = Some net →
    net_peers net = Z.of_nat (size (holders (contexts w) l));
  (* a network has an idle timer exactly when nobody owns it *)
  wf_timer l net : heap w !! l = Some net → ex ≠ Some l →
    (is_Some (net_idle_timer net) ↔ holders (contexts w) l = ∅);
  wf_ctx c ctx : contexts w !! c = Some ctx → ctx_ok ctx ∧ ctx_connection ctx = c;
  wf_held c ctx l : contexts w !! c = Some ctx → l ∈ held ctx → is_Some (heap w !! l);
  wf_objs : owns (objs w) (owned w) (held_body (now w));
}.

Abbreviation wf := (wf_ex None).

Lemma wf_weaken ex w : wf w → wf_ex ex w.
Proof. intros []. split; try done. intros l net Hl _. by eauto. Qed.

(** Two registry keys of one network are the same key. *)
Lemma wf_key_inj ex w k1 k2 l :
  wf_ex ex w → reg w !! k1 = Some l → reg w !! k2 = Some l → k1 = k2.
Proof.
  intros Hw H1 H2.
  destruct (wf_key _ _ Hw _ _ H1) as (net & n1 & Hl1 & Hn1 & Hk1).
  destruct (wf_key _ _ Hw _ _ H2) as (net' & n2 & Hl2 & Hn2 & Hk2).
  simplify_eq. congruence.
Qed.

Lemma wf_registered ex w k l : wf_ex ex w → reg w !! k = Some l → is_Some (heap w !! l).
Proof. intros Hw Hk. apply (wf_reg _ _ Hw). by exists k. Qed.

Lemma wf_serialization_live ex w l net :
  wf_ex ex w → heap w !! l = Some net →
  ∃ s x, net_serialization net = Some s ∧ objs w !! s = Some (Cell 1 (BXpc x)).
Proof.
  intros Hw Hl. destruct (wf_full _ _ Hw _ _ Hl) as [_ [s Hs]].
  destruct (own_live _ _ _ (wf_objs _ _ Hw) (HSerialization l) s) as (b & Hb & x & ->).
  - simpl. by rewrite Hl.
  - by exists s, x.
Qed.

Lemma wf_timer_live ex w l net t :
  wf_ex ex w → heap w !! l = Some net → net_idle_timer net = Some t →
  ∃ d, (d ≤ now w)%Z ∧ objs w !! t = Some (Cell 1 (BSource (idle_source (RemoveNetwork l) d))).
Proof.
  intros Hw Hl Ht.
  destruct (own_live _ _ _ (wf_objs _ _ Hw) (HTimer l) t) as (b & Hb & d & Hd & ->).
  - simpl. by rewrite Hl.
  - by exists d.
Qed.

Lemma wf_shutdown_live ex w t :
  wf_ex ex w → idle_timer w = Some t →
  ∃ d, (d ≤ now w)%Z ∧ objs w !! t = Some (Cell 1 (BSource (idle_source IdleShutdown d))).
Proof.
  intros Hw Ht.
  destruct (own_live _ _ _ (wf_objs _ _ Hw) HShutdown t) as (b & Hb & d & Hd & ->); [done|].
  by exists d.
Qed.

(** ** States that differ outside of what the invariant reads *)

Definition same_networks w w' : Prop :=
  heap w' = heap w ∧ registry w' = registry w ∧ contexts w' = contexts w ∧
  objs w' = objs w ∧ idle_timer w' = idle_timer w ∧ now w' = now w.

#[export] Instance same_networks_equiv : Equivalence same_networks.
Proof.
  unfold same_networks. split.
  - intros w. done.
  - intros w w' (?&?&?&?&?&?). by repeat split.
  - intros w1 w2 w3 (?&?&?&?&?&?) (?&?&?&?&?&?). repeat split; congruence.
Qed.

#[export] Instance wf_ex_proper ex : Proper (same_networks ==> iff) (wf_ex ex).
Proof.
  assert (∀ w w', same_networks w w' → wf_ex ex w → wf_ex ex w') as Hone.
  { intros w w' (Hh & Hr & Hc & Ho & Hi & Hn) [].
    split; unfold reg; rewrite ?Hh, ?Hr, ?Hc, ?Ho, ?Hn; try done.
    eapply owns_ext; [done|]. intros []; simpl; congruence. }
  intros w w' Hs. split; apply Hone; [done|by symmetry].
Qed.
End invariant.

Abbreviation wf := (wf_ex None).
