(* ===== verification/Transitions.v ===== *)
(** * Changes of the networks' state

    The net effect of the operations of network.c and of the idle timers on the
    state, as functions, each with the lemma that it preserves the invariant.
    Network.v's operations are shown to have these effects in
    NetworkFacts.v. *)

From S2P Require Import Prelude Platform Common World Ownership Invariant.

Section transitions.
Context {xpc : XPC} {cf : CoreFoundation}.
Implicit Types (w : world) (l : loc) (c : conn) (ctx : broker_context) (net : network).

(** Pointwise equations between [owned] of two states. *)
Ltac owned_solver :=
  intros []; simpl; intros; rewrite ?lookup_insert, ?lookup_delete;
  repeat case_decide; simplify_eq/=; simplify_option_eq; try done; try congruence.

(** create_network and registry_set *)
Definition install (k : CFString) (name : string) (ref ser : obj) (x : xpc_object) l w : world :=
  set_objs (<[ser := Cell 1 (BXpc x)]> (<[ref := Cell 1 BNetworkRef]> (objs w)))
    (set_registry (Some (<[k := l]> (reg w)))
      (set_heap (<[l := Network (Some name) 0 (Some ref) (Some ser) None]> (heap w)) w)).

Lemma no_holders_fresh ex w l : wf_ex ex w → heap w !! l = None → holders (contexts w) l = ∅.
Proof.
  intros Hw Hl. apply set_eq. intros c. split; [|set_solver].
  intros (ctx & Hc & Hh)%elem_of_holders.
  destruct (wf_held _ _ Hw _ _ _ Hc Hh). congruence.
Qed.

Lemma wf_install k name ref ser x l w :
  wf w → heap w !! l = None → reg w !! k = None →
  CFStringCreateWithCString name = Some k →
  objs w !! ref = None → objs w !! ser = None → ref ≠ ser →
  wf_ex (Some l) (install k name ref ser x l w).
Proof.
  intros Hw Hl Hk Hname Href Hser Hne.
  pose proof (no_holders_fresh _ _ _ Hw Hl) as Hh.
  assert (∀ k', reg w !! k' ≠ Some l) as Hnot.
  { intros k' Hk'. destruct (wf_registered _ _ _ _ Hw Hk'). congruence. }
  split; simpl.
  - intros l'. destruct (decide (l' = l)) as [->|Hn].
    + split; [|by rewrite lookup_insert_eq]. exists k. apply lookup_insert_eq.
    + rewrite lookup_insert_ne by done. rewrite (wf_reg _ _ Hw).
      split; intros [k' Hk']; exists k'; unfold reg in *; simpl in *.
      * rewrite lookup_insert_ne; [done|]. intros <-. congruence.
      * rewrite lookup_insert in Hk'. case_decide; [congruence|done].
  - intros k' l'. unfold reg at 1. simpl. rewrite lookup_insert. case_decide as Hd.
    + intros [= <-]. rewrite lookup_insert_eq. subst. eauto 10.
    + intros Hk'. rewrite lookup_insert_ne by (intros ->; by apply (Hnot k')).
      by apply (wf_key _ _ Hw).
  - intros l' net. rewrite lookup_insert. case_decide; [|apply (wf_full _ _ Hw)].
    intros [= <-]. by eauto.
  - intros l' net. rewrite lookup_insert. case_decide; [|apply (wf_peers _ _ Hw)].
    intros [= <-]. subst. rewrite Hh. done.
  - intros l' net. rewrite lookup_insert. case_decide; [congruence|].
    intros ? _. by apply (wf_timer _ _ Hw).
  - apply (wf_ctx _ _ Hw).
  - intros c ctx l' Hc Hl'. rewrite lookup_insert.
    case_decide; [done|]. by apply (wf_held _ _ Hw c ctx).
  - eapply (owns_alloc _
      (λ h, if decide (h = HRef l) then Some ref else owned w h) _ _ (HSerialization l)).
    + eapply (owns_alloc _ (owned w) _ _ (HRef l)); [apply Hw|done| | done| |].
      * simpl. by rewrite Hl.
      * by rewrite decide_True.
      * intros. by rewrite decide_False.
    + by rewrite lookup_insert_ne.
    + simpl. by rewrite Hl.
    + simpl. eauto.
    + simpl. by rewrite lookup_insert_eq.
    + owned_solver.
Qed.

(** update_peer_ownership and cancel_remove_later *)
Definition attach c ctx l net w : world :=
  set_objs (match net_idle_timer net with Some t => delete t (objs w) | None => objs w end)
    (set_contexts (<[c := attach_ctx l ctx]> (contexts w))
      (set_heap (<[l := Network (net_name net) (net_peers net + 1) (net_ref net)
                                (net_serialization net) None]> (heap w)) w)).

(** Replacing the peers and the timer of a network keeps it registered. *)
Lemma wf_reg_insert ex w l net net' :
  wf_ex ex w → heap w !! l = Some net →
  ∀ l', is_Some (<[l := net']> (heap w) !! l') ↔ ∃ k, reg w !! k = Some l'.
Proof.
  intros Hw Hl l'. rewrite lookup_insert. case_decide; [subst|apply (wf_reg _ _ Hw)].
  rewrite <- (wf_reg _ _ Hw). by rewrite Hl.
Qed.

Lemma wf_key_insert ex w l net net' :
  wf_ex ex w → heap w !! l = Some net → net_name net' = net_name net →
  ∀ k l', reg w !! k = Some l' →
    ∃ net0 name, <[l := net']> (heap w) !! l' = Some net0 ∧ net_name net0 = Some name ∧
                 CFStringCreateWithCString name = Some k.
Proof.
  intros Hw Hl Hn k l' Hk.
  destruct (wf_key _ _ Hw _ _ Hk) as (net0 & name & H1 & H2 & H3).
  rewrite lookup_insert. case_decide; [|eauto].
  subst. simplify_eq. exists net', name. split; [done|]. by rewrite Hn.
Qed.

Lemma held_attach_ctx l ctx :
  ctx_ok ctx → l ∉ held ctx → (length (held ctx) < MAX_PEER_NETWORKS)%nat →
  held (attach_ctx l ctx) = held ctx ++ [l].
Proof. intros. apply ctx_holds_held. by apply attach_ctx_holds. Qed.

Lemma wf_attach c ctx l net w :
  wf_ex (Some l) w → contexts w !! c = Some ctx → heap w !! l = Some net →
  l ∉ held ctx → (length (held ctx) < MAX_PEER_NETWORKS)%nat →
  wf (attach c ctx l net w).
Proof.
  intros Hw Hc Hl Hnot Hlt.
  destruct (wf_ctx _ _ Hw _ _ Hc) as [Hok Hcc].
  pose proof (held_attach_ctx _ _ Hok Hnot Hlt) as Hheld.
  assert (c ∉ holders (contexts w) l) as Hnh.
  { rewrite elem_of_holders. naive_solver. }
  assert (∀ l', l' ≠ l → holders (<[c := attach_ctx l ctx]> (contexts w)) l'
                         = holders (contexts w) l') as Hsame.
  { intros l' Hn. eapply holders_insert_same; [done|]. rewrite Hheld. set_solver. }
  assert (holders (<[c := attach_ctx l ctx]> (contexts w)) l
          = {[c]} ∪ holders (contexts w) l) as Hgain.
  { apply holders_insert_gain. rewrite Hheld. set_solver. }
  split; simpl.
  - by apply (wf_reg_insert (Some l) w l net).
  - by apply (wf_key_insert (Some l) w l net).
  - intros l' net'. rewrite lookup_insert. case_decide; [|apply (wf_full _ _ Hw)].
    intros [= <-]. by apply (wf_full _ _ Hw l net).
  - intros l' net'. rewrite lookup_insert. case_decide as Hd.
    + intros [= <-]. subst l'. simpl. rewrite Hgain, (wf_peers _ _ Hw _ _ Hl).
      rewrite size_union by set_solver. rewrite size_singleton. lia.
    + rewrite Hsame by done. apply (wf_peers _ _ Hw).
  - intros l' net'. rewrite lookup_insert. case_decide as Hd.
    + intros [= <-] _. subst l'. simpl. rewrite Hgain. split; [by intros []|set_solver].
    + intros Hl' _. rewrite Hsame by done. apply (wf_timer _ _ Hw); [done|congruence].
  - intros c' ctx'. rewrite lookup_insert. case_decide; [|apply (wf_ctx _ _ Hw)].
    intros [= <-]. subst. split; [|done].
    eapply ctx_holds_ok, attach_ctx_holds; done.
  - intros c' ctx' l' Hc' Hl'. rewrite lookup_insert. case_decide; [done|].
    rewrite lookup_insert in Hc'. case_decide; [|by apply (wf_held _ _ Hw c' ctx')].
    injection Hc' as <-. rewrite Hheld in Hl'. eapply (wf_held _ _ Hw _ ctx); [done|set_solver].
  - destruct (net_idle_timer net) as [t|] eqn:Ht.
    + eapply (owns_free _ (owned w) _ _ (HTimer l)).
      * apply Hw.
      * simpl. by rewrite Hl.
      * simpl. by rewrite lookup_insert_eq.
      * owned_solver.
    + eapply owns_ext; [apply Hw|]. owned_solver.
Qed.

(** One iteration of release_peer_networks, before the timer. *)
Definition detach c ctx l net w : world :=
  set_contexts (<[c := detach_ctx ctx]> (contexts w))
    (set_heap (<[l := Network (net_name net) (net_peers net - 1) (net_ref net)
                              (net_serialization net) (net_idle_timer net)]> (heap w)) w).

Lemma wf_detach c ctx l net ls w :
  wf w → contexts w !! c = Some ctx → heap w !! l = Some net → held ctx = ls ++ [l] →
  wf_ex (Some l) (detach c ctx l net w) ∧ net_idle_timer net = None.
Proof.
  intros Hw Hc Hl Hheld.
  destruct (wf_ctx _ _ Hw _ _ Hc) as [Hok Hcc].
  unfold ctx_ok in Hok. rewrite Hheld in Hok.
  pose proof (detach_ctx_holds _ _ _ Hok) as Hd.
  pose proof (ctx_holds_held _ _ Hd) as Hheld'.
  assert (l ∉ ls) as Hnot.
  { pose proof (ch_nodup _ _ Hok) as (_ & Hdis & _)%NoDup_app. intros Hin.
    apply (Hdis l Hin). set_solver. }
  assert (c ∈ holders (contexts w) l) as Hin.
  { apply elem_of_holders. exists ctx. split; [done|]. rewrite Hheld. set_solver. }
  assert (∀ l', l' ≠ l → holders (<[c := detach_ctx ctx]> (contexts w)) l'
                         = holders (contexts w) l') as Hsame.
  { intros l' Hn. eapply holders_insert_same; [done|]. rewrite Hheld', Hheld. set_solver. }
  assert (holders (<[c := detach_ctx ctx]> (contexts w)) l
          = holders (contexts w) l ∖ {[c]}) as Hlose.
  { apply holders_insert_lose. by rewrite Hheld'. }
  assert (net_idle_timer net = None) as Htimer.
  { apply eq_None_not_Some. rewrite (wf_timer _ _ Hw _ _ Hl) by done. set_solver. }
  split; [|done]. split; simpl.
  - by apply (wf_reg_insert None w l net).
  - by apply (wf_key_insert None w l net).
  - intros l' net'. rewrite lookup_insert. case_decide; [|apply (wf_full _ _ Hw)].
    intros [= <-]. by apply (wf_full _ _ Hw l net).
  - intros l' net'. rewrite lookup_insert. case_decide.
    + intros [= <-]. subst l'. simpl. rewrite Hlose, (wf_peers _ _ Hw _ _ Hl).
      rewrite size_difference by set_solver. rewrite size_singleton.
      assert (size (holders (contexts w) l) ≠ 0)%nat; [|lia].
      intros Hz%size_empty_inv. set_solver.
    + rewrite Hsame by done. apply (wf_peers _ _ Hw).
  - intros l' net'. rewrite lookup_insert. case_decide; [congruence|].
    intros Hl' _. rewrite Hsame by done. by apply (wf_timer _ _ Hw).
  - intros c' ctx'. rewrite lookup_insert. case_decide; [|apply (wf_ctx _ _ Hw)].
    intros [= <-]. subst. split; [|done]. by eapply ctx_holds_ok.
  - intros c' ctx' l' Hc' Hl'. rewrite lookup_insert. case_decide; [done|].
    rewrite lookup_insert in Hc'. case_decide; [|by apply (wf_held _ _ Hw c' ctx')].
    injection Hc' as <-. eapply (wf_held _ _ Hw _ ctx); [done|]. rewrite Hheld' in Hl'.
    rewrite Hheld. set_solver.
  - eapply owns_ext; [apply Hw|]. owned_solver.
Qed.

(** remove_later *)
Definition arm l net (t : obj) w : world :=
  set_objs (<[t := Cell 1 (BSource (idle_source (RemoveNetwork l) (now w)))]> (objs w))
    (set_heap (<[l := Network (net_name net) (net_peers net) (net_ref net)
                              (net_serialization net) (Some t)]> (heap w)) w).

Lemma wf_arm l net t w :
  wf_ex (Some l) w → heap w !! l = Some net → net_idle_timer net = None →
  holders (contexts w) l = ∅ → objs w !! t = None → wf (arm l net t w).
Proof.
  intros Hw Hl Htimer Hh Ht. split; simpl.
  - by apply (wf_reg_insert (Some l) w l net).
  - by apply (wf_key_insert (Some l) w l net).
  - intros l' net'. rewrite lookup_insert. case_decide; [|apply (wf_full _ _ Hw)].
    intros [= <-]. by apply (wf_full _ _ Hw l net).
  - intros l' net'. rewrite lookup_insert. case_decide; [|apply (wf_peers _ _ Hw)].
    intros [= <-]. subst l'. apply (wf_peers _ _ Hw _ _ Hl).
  - intros l' net'. rewrite lookup_insert. case_decide.
    + intros [= <-] _. subst l'. simpl. by split.
    + intros Hl' _. apply (wf_timer _ _ Hw); [done|congruence].
  - apply (wf_ctx _ _ Hw).
  - intros c' ctx' l' Hc' Hl'. rewrite lookup_insert. case_decide; [done|].
    by apply (wf_held _ _ Hw c' ctx').
  - eapply (owns_alloc _ (owned w) _ _ (HTimer l)); [apply Hw|done| | | |].
    + simpl. by rewrite Hl.
    + simpl. exists (now w). split; [lia|done].
    + simpl. by rewrite lookup_insert_eq.
    + owned_solver.
Qed.

(** A released network whose count is not zero is complete as it is. *)
Lemma wf_still_held l net w :
  wf_ex (Some l) w → heap w !! l = Some net → net_idle_timer net = None →
  holders (contexts w) l ≠ ∅ → wf w.
Proof.
  intros Hw Hl Ht Hh. split; try by apply Hw.
  intros l' net' Hl' _. destruct (decide (l' = l)) as [->|].
  - simplify_eq. rewrite Ht. split; [by intros []|done].
  - apply (wf_timer _ _ Hw); [done|congruence].
Qed.

(** ** Removing a network *)

(** registry_remove and free_network *)
Definition net_delete net (σ : gmap obj (cell obj_body)) :=
  optional_delete (net_idle_timer net)
    (optional_delete (net_serialization net) (optional_delete (net_ref net) σ)).

Definition drop (k : CFString) l net w : world :=
  set_objs (net_delete net (objs w))
    (set_registry (Some (delete k (reg w))) (set_heap (delete l (heap w)) w)).

(** The three objects of a network go with it. *)
Lemma owns_net_delete σ l net w B :
  owns σ (owned w) B → heap w !! l = Some net →
  owns (net_delete net σ) (owned (set_heap (delete l (heap w)) w)) B.
Proof.
  intros Ho Hl. unfold net_delete.
  set (own1 := λ h, if decide (h = HRef l) then None else owned w h).
  set (own2 := λ h, if decide (h = HSerialization l) then None else own1 h).
  eapply (owns_free_opt _ own2 _ _ (HTimer l));
    [eapply (owns_free_opt _ own1 _ _ (HSerialization l));
      [eapply (owns_free_opt _ (owned w) _ _ (HRef l))|..]|..]; try done.
  all: unfold own2, own1; repeat case_decide; try done.
  all: try (by simpl; rewrite ?Hl, ?lookup_delete_eq).
  all: try (by intros; rewrite decide_False).
  owned_solver.
Qed.

Lemma wf_drop k l net w :
  wf w → reg w !! k = Some l → heap w !! l = Some net → holders (contexts w) l = ∅ →
  wf (drop k l net w).
Proof.
  intros Hw Hk Hl Hh.
  assert (∀ k' l', delete k (reg w) !! k' = Some l' ↔ reg w !! k' = Some l' ∧ l' ≠ l) as Hreg.
  { intros k' l'. rewrite lookup_delete_Some. split.
    - intros [Hn Hk']. split; [done|]. intros ->. apply Hn. by eapply wf_key_inj.
    - intros [Hk' Hn]. split; [|done]. intros <-. congruence. }
  split; unfold drop; simpl.
  - intros l'. unfold reg at 1. simpl. setoid_rewrite Hreg.
    rewrite lookup_delete. case_decide as Hd.
    + subst. split; [by intros []|naive_solver].
    + rewrite (wf_reg _ _ Hw). naive_solver.
  - intros k' l'. unfold reg at 1. simpl. intros [Hk' Hn]%Hreg.
    rewrite lookup_delete_ne by done. by apply (wf_key _ _ Hw).
  - intros l' net' [_ Hl']%lookup_delete_Some. by apply (wf_full _ _ Hw l').
  - intros l' net' [_ Hl']%lookup_delete_Some. by apply (wf_peers _ _ Hw).
  - intros l' net' [_ Hl']%lookup_delete_Some _. by apply (wf_timer _ _ Hw).
  - apply (wf_ctx _ _ Hw).
  - intros c ctx l' Hc Hl'. rewrite lookup_delete_ne; [by apply (wf_held _ _ Hw c ctx)|].
    intros <-. assert (c ∈ holders (contexts w) l); [|set_solver].
    apply elem_of_holders. by exists ctx.
  - eapply owns_ext; [eapply owns_net_delete; [apply Hw|done]|]. by intros [].
Qed.

(** ** The shutdown timer, contexts and time *)

Definition arm_shutdown (t : obj) w : world :=
  set_objs (<[t := Cell 1 (BSource (idle_source IdleShutdown (now w)))]> (objs w))
    (set_idle_timer (Some t) w).

Lemma wf_arm_shutdown t w :
  wf w → idle_timer w = None → objs w !! t = None → wf (arm_shutdown t w).
Proof.
  intros Hw Hi Ht. split; try by apply Hw.
  eapply (owns_alloc _ (owned w) _ _ HShutdown); [apply Hw|done|done| |done|].
  - simpl. exists (now w). split; [lia|done].
  - by intros [].
Qed.

Definition cancel_shutdown (t : obj) w : world :=
  set_idle_timer None (set_objs (delete t (objs w)) w).

Lemma wf_cancel_shutdown t w :
  wf w → idle_timer w = Some t → wf (cancel_shutdown t w).
Proof.
  intros Hw Hi. split; try by apply Hw.
  eapply (owns_free _ (owned w) _ _ HShutdown); [apply Hw|done|done|]. by intros [].
Qed.

(** A new connection owns nothing. *)
Lemma wf_new_context c ctx w :
  wf w → contexts w !! c = None → ctx_holds ctx [] → ctx_connection ctx = c →
  wf (set_contexts (<[c := ctx]> (contexts w)) w).
Proof.
  intros Hw Hc Hctx Hcc. pose proof (ctx_holds_held _ _ Hctx) as Hheld.
  assert (∀ l, holders (<[c := ctx]> (contexts w)) l = holders (contexts w) l) as Hsame.
  { intros l. rewrite holders_insert_lose by (rewrite Hheld; set_solver).
    assert (c ∉ holders (contexts w) l); [|set_solver].
    rewrite elem_of_holders. naive_solver. }
  split; simpl; try setoid_rewrite Hsame; try by apply Hw.
  - intros c' ctx'. rewrite lookup_insert. case_decide; [|apply (wf_ctx _ _ Hw)].
    intros [= <-]. split; [by eapply ctx_holds_ok|congruence].
  - intros c' ctx' l. rewrite lookup_insert. case_decide; [|by apply (wf_held _ _ Hw)].
    intros [= <-]. rewrite Hheld. set_solver.
Qed.

(** A connection that owns nothing goes. *)
Lemma wf_drop_context c ctx w :
  wf w → contexts w !! c = Some ctx → held ctx = [] →
  wf (set_contexts (delete c (contexts w)) w).
Proof.
  intros Hw Hc Hheld.
  assert (∀ l, holders (delete c (contexts w)) l = holders (contexts w) l) as Hsame.
  { intros l. apply set_eq. intros c'. rewrite !elem_of_holders.
    destruct (decide (c' = c)) as [->|Hn].
    - rewrite lookup_delete_eq, Hc. split; [naive_solver|].
      intros (? & [= <-] & Hl). rewrite Hheld in Hl. set_solver.
    - by rewrite lookup_delete_ne by done. }
  split; simpl; try setoid_rewrite Hsame; try by apply Hw.
  - intros c' ctx' [_ Hc']%lookup_delete_Some. by apply (wf_ctx _ _ Hw).
  - intros c' ctx' l [_ Hc']%lookup_delete_Some. by apply (wf_held _ _ Hw c' ctx').
Qed.

Lemma wf_clock d w : wf w → (0 ≤ d)%Z → wf (set_now (now w + d) w).
Proof.
  intros Hw Hd. split; try by apply Hw.
  apply (owns_later _ _ (now w)); [|simpl; lia]. eapply owns_ext; [apply Hw|]. by intros [].
Qed.
End transitions.
