(* ===== verification/NetworkFacts.v ===== *)
(** * What network.c does

    Each operation of Network.v, run from a state that satisfies the
    invariant, has the effect Transitions.v describes. *)

From S2P Require Import Prelude Platform Common World Config Network.
From S2P Require Import Ownership Invariant Transitions.

(** The system answers that the broker asserts or does not check: a timer can
    be created, and a dictionary. *)
Definition os_ok {xpc : XPC} (os : OS) : Prop :=
  os_dispatch_source_create os = true ∧ os_cf_dictionary_create os = true.

#[export] Instance os_ok_dec {xpc : XPC} (os : OS) : Decision (os_ok os).
Proof. unfold os_ok. apply _. Defined.

Section network_facts.
Context {xpc : XPC} {cf : CoreFoundation}.
Implicit Types (w : world) (l : loc) (c : conn) (ctx : broker_context) (net : network).

Lemma network_eta net :
  Network (net_name net) (net_peers net) (net_ref net) (net_serialization net)
          (net_idle_timer net) = net.
Proof. by destruct net. Qed.

Lemma array_read_run networks (i : nat) p w :
  networks !! i = Some p → array_read networks (Z.of_nat i) w = Ret p w.
Proof.
  intros Hp. unfold array_read. rewrite bool_decide_true by lia.
  by rewrite Nat2Z.id, Hp.
Qed.

(** ** Timers *)

Lemma remove_later_run os l net w :
  os_ok os → heap w !! l = Some net → net_idle_timer net = None →
  remove_later os l w = Ret () (arm l net (fresh (dom (objs w))) w).
Proof.
  intros [Hos _] Hl Ht. unfold remove_later, dispatch_source_create_timer.
  mstep. rewrite Ht. mstep. rewrite Hos.
  erewrite bind_run by (by mstep). mstep. mstep. simpl.
  erewrite start_idle_timer_run by apply lookup_insert_eq.
  unfold arm, set_objs, set_heap. simpl. by rewrite insert_insert_eq.
Qed.

Lemma cancel_remove_later_run l net w :
  heap w !! l = Some net →
  (∀ t, net_idle_timer net = Some t → ∃ s, objs w !! t = Some (Cell 1 (BSource s))) →
  cancel_remove_later l w =
    Ret () (set_objs (optional_delete (net_idle_timer net) (objs w))
      (set_heap (<[l := Network (net_name net) (net_peers net) (net_ref net)
                                (net_serialization net) None]> (heap w)) w)).
Proof.
  intros Hl Ht. unfold cancel_remove_later. mstep.
  destruct (net_idle_timer net) as [t|] eqn:Heq; simpl.
  - destruct (Ht t eq_refl) as [s Hs]. mstep. by erewrite network_store_run by done.
  - rewrite <- Heq, network_eta, insert_id, set_heap_id, set_objs_id by done. done.
Qed.

(** ** Peer ownership *)

Lemma owns_loop_run networks l ls i w :
  (∀ j p, ls !! j = Some p → networks !! (i + j)%nat = Some (Some p)) →
  owns_loop networks l (length ls) i w = Ret (bool_decide (l ∈ ls)) w.
Proof.
  revert i. induction ls as [|p ls IH]; intros i Hls; cbn [owns_loop length].
  - by rewrite bool_decide_false by set_solver.
  - pose proof (Hls 0%nat p eq_refl) as Hp. rewrite Nat.add_0_r in Hp.
    erewrite bind_run by (by apply array_read_run).
    destruct (decide (Some p = Some l)) as [[= ->]|Hn].
    + by rewrite bool_decide_true by set_solver.
    + rewrite IH.
      * f_equal. apply bool_decide_ext. set_solver.
      * intros j q Hj. specialize (Hls (S j) q Hj).
        by rewrite Nat.add_succ_r in Hls.
Qed.

Lemma peer_owns_network_run c l ctx w :
  contexts w !! c = Some ctx → ctx_ok ctx →
  peer_owns_network c l w = Ret (bool_decide (l ∈ held ctx)) w.
Proof.
  intros Hc Hok. unfold peer_owns_network. mstep.
  rewrite (ch_count _ _ Hok), Nat2Z.id. apply owns_loop_run.
  intros j p Hj. by eapply ctx_holds_lookup.
Qed.

Definition ctx_full ctx : bool :=
  bool_decide (MAX_PEER_NETWORKS ≤ length (held ctx))%nat.

Lemma can_add_run c ctx error w :
  contexts w !! c = Some ctx → ctx_ok ctx →
  can_add_network_to_peer c error w =
    Ret (if ctx_full ctx then (false, set_error error VMNET_BROKER_INTERNAL_ERROR)
         else (true, error)) w.
Proof.
  intros Hc Hok. unfold can_add_network_to_peer, ctx_full. mstep.
  rewrite (ch_count _ _ Hok).
  case_bool_decide; case_bool_decide; try done; lia.
Qed.

(** What update_peer_ownership does where it adds the network. *)
Definition own_network c ctx l net w : world :=
  set_heap (<[l := Network (net_name net) (net_peers net + 1) (net_ref net)
                           (net_serialization net) (net_idle_timer net)]> (heap w))
    (set_contexts (<[c := attach_ctx l ctx]> (contexts w)) w).

Lemma update_peer_ownership_run c ctx l net error w :
  contexts w !! c = Some ctx → ctx_ok ctx → heap w !! l = Some net →
  (0 ≤ net_peers net < INT_MAX)%Z →
  update_peer_ownership c l error w =
    if bool_decide (l ∈ held ctx) then Ret (true, error) w
    else if ctx_full ctx
         then Ret (false, set_error error VMNET_BROKER_INTERNAL_ERROR) w
         else Ret (true, error) (own_network c ctx l net w).
Proof.
  intros Hc Hok Hl Hpeers. unfold update_peer_ownership.
  erewrite bind_run by (by apply peer_owns_network_run).
  destruct (bool_decide (l ∈ held ctx)); [done|].
  erewrite bind_run by (by apply can_add_run).
  destruct (ctx_full ctx) eqn:Hfull; simpl; [done|].
  unfold ctx_full in Hfull. apply bool_decide_eq_false in Hfull.
  pose proof (ch_count _ _ Hok) as Hcount. pose proof (ch_length _ _ Hok) as Hlen.
  mstep. erewrite bind_run by (apply c_int_run; unfold INT_MIN, INT_MAX, MAX_PEER_NETWORKS in *; lia).
  assert (∀ n, (context_set_network c (ctx_network_count ctx) l;; context_set_count c n) w =
            Ret () (set_contexts (<[c := BrokerContext (ctx_connection ctx) (ctx_name ctx)
              (<[Z.to_nat (ctx_network_count ctx) := Some l]> (ctx_networks ctx)) n]>
              (contexts w)) w)) as Hset.
  { intros n. unfold context_set_network, context_set_count.
    rewrite bind_assoc. mstep. rewrite bool_decide_true by lia.
    unfold context_store. mstep. mstep. simpl.
    unfold modify, set_contexts. simpl. by rewrite insert_insert_eq. }
  rewrite <- bind_assoc. erewrite bind_run by apply Hset.
  mstep. erewrite bind_run by (apply c_int_run; unfold INT_MIN, INT_MAX in *; lia).
  mstep. done.
Qed.

(** ** acquire_network, for a registered network *)

(** The reference acquire_network takes on the serialization it returns. *)
Definition retained (s : obj) (x : xpc_object) w : world :=
  set_objs (<[s := Cell 2 (BXpc x)]> (objs w)) w.

Definition wf_peers_bound w : Prop := (Z.of_nat (size (contexts w)) ≤ INT_MAX)%Z.

Lemma not_holder_bound ex w c ctx l net :
  wf_ex ex w → wf_peers_bound w → contexts w !! c = Some ctx → heap w !! l = Some net →
  l ∉ held ctx → (0 ≤ net_peers net < INT_MAX)%Z.
Proof.
  intros Hw Hb Hc Hl Hn. rewrite (wf_peers _ _ Hw _ _ Hl).
  assert (size (holders (contexts w) l) < size (contexts w))%nat; [|unfold wf_peers_bound in *; lia].
  rewrite <- (size_dom (D:=gset conn) (contexts w)).
  apply subset_size. split; [apply holders_subseteq|].
  intros Hsub. assert (c ∈ holders (contexts w) l) as Hin.
  { apply Hsub. by eapply elem_of_dom_2. }
  apply elem_of_holders in Hin. naive_solver.
Qed.

(** A network's serialization is another object than its timer. *)
Lemma serialization_not_timer ex w l net s x :
  wf_ex ex w → heap w !! l = Some net → objs w !! s = Some (Cell 1 (BXpc x)) →
  optional_delete (net_idle_timer net) (objs w) !! s = Some (Cell 1 (BXpc x)).
Proof.
  intros Hw Hl Hs. destruct (net_idle_timer net) as [t|] eqn:Ht; simpl; [|done].
  destruct (wf_timer_live _ _ _ _ _ Hw Hl Ht) as (d & _ & Hd).
  rewrite lookup_delete_ne; [done|]. intros <-. congruence.
Qed.

Lemma cancel_after_own_run ex c ctx l net w :
  wf_ex ex w → heap w !! l = Some net →
  cancel_remove_later l (own_network c ctx l net w) = Ret () (attach c ctx l net w).
Proof.
  intros Hw Hl. erewrite cancel_remove_later_run; [|by apply lookup_insert_eq|].
  2:{ simpl. intros t Ht. destruct (wf_timer_live _ _ _ _ _ Hw Hl Ht) as (d & _ & Hd). eauto. }
  unfold own_network, attach, set_objs, set_heap, set_contexts. simpl.
  by rewrite insert_insert_eq.
Qed.

Lemma acquire_registered_run c ctx l net s x error w :
  wf_ex (Some l) w → wf_peers_bound w →
  contexts w !! c = Some ctx → heap w !! l = Some net →
  (l ∈ held ctx → net_idle_timer net = None) →
  net_serialization net = Some s → objs w !! s = Some (Cell 1 (BXpc x)) →
  acquire_registered c l error w =
    if bool_decide (l ∈ held ctx) then Ret (Some s, error) (retained s x w)
    else if ctx_full ctx
         then Ret (None, set_error error VMNET_BROKER_INTERNAL_ERROR) w
         else Ret (Some s, error) (retained s x (attach c ctx l net w)).
Proof.
  intros Hw Hb Hc Hl Htimer Hs Hx. unfold acquire_registered.
  destruct (wf_ctx _ _ Hw _ _ Hc) as [Hok _].
  assert (∀ w0, objs w0 = optional_delete (net_idle_timer net) (objs w) →
            (obj_retain s;; mret (Some s, error)) w0 = Ret (Some s, error) (retained s x w0)) as Hret.
  { intros w0 Ho. erewrite bind_run; [done|].
    apply (world_retain_run s (Cell 1 (BXpc x))). rewrite Ho. by eapply serialization_not_timer. }
  destruct (bool_decide (l ∈ held ctx)) eqn:Hin.
  - apply bool_decide_eq_true in Hin. specialize (Htimer Hin).
    erewrite bind_run.
    2:{ unfold update_peer_ownership.
        erewrite bind_run by (by apply peer_owns_network_run). by rewrite bool_decide_true. }
    simpl. erewrite bind_run by (apply cancel_remove_later_run; [done|congruence]).
    rewrite Htimer. simpl.
    replace (Network _ _ _ _ None) with net by (destruct net; simpl in *; congruence).
    rewrite insert_id, set_heap_id, set_objs_id by done.
    mstep. rewrite Hs. mstep. apply Hret. by rewrite Htimer.
  - apply bool_decide_eq_false in Hin.
    pose proof (not_holder_bound _ _ _ _ _ _ Hw Hb Hc Hl Hin) as Hn.
    pose proof (update_peer_ownership_run c ctx l net error w Hc Hok Hl Hn) as Hup.
    rewrite bool_decide_false in Hup by done.
    destruct (ctx_full ctx); erewrite bind_run by (apply Hup); simpl; [done|].
    erewrite bind_run by (by eapply cancel_after_own_run).
    erewrite bind_run by (apply network_load_run; simpl; apply lookup_insert_eq).
    simpl. rewrite Hs. mstep. by apply Hret.
Qed.

(** ** free_network *)

Definition option_to_list {A} (o : option A) : list A :=
  match o with Some a => [a] | None => [] end.

Definition net_objs net : list obj :=
  option_to_list (net_ref net) ++ option_to_list (net_serialization net) ++
  option_to_list (net_idle_timer net).

(** The objects of a network are live, distinct and of their kinds. *)
Definition net_live net w : Prop :=
  NoDup (net_objs net) ∧
  (∀ r, net_ref net = Some r → ∃ b, objs w !! r = Some (Cell 1 b)) ∧
  (∀ r, net_serialization net = Some r → ∃ b, objs w !! r = Some (Cell 1 b)) ∧
  (∀ t, net_idle_timer net = Some t → ∃ s, objs w !! t = Some (Cell 1 (BSource s))).

Lemma when_some_run (o : option obj) (f : obj → M world ()) w :
  (∀ x, o = Some x → f x w = Ret () (set_objs (delete x (objs w)) w)) →
  when_some o f w = Ret () (set_objs (optional_delete o (objs w)) w).
Proof.
  intros Hf. destruct o as [x|]; simpl; [by apply Hf|].
  by rewrite set_objs_id.
Qed.

Lemma optional_delete_ne (o : option obj) (x : obj) (σ : gmap obj (cell obj_body)) :
  o ≠ Some x → optional_delete o σ !! x = σ !! x.
Proof.
  intros Hn. destruct o as [y|]; simpl; [|done].
  rewrite lookup_delete_ne; [done|]. congruence.
Qed.

Lemma net_objs_disjoint net r :
  NoDup (net_objs net) →
  (net_ref net = Some r → net_serialization net ≠ Some r ∧ net_idle_timer net ≠ Some r) ∧
  (net_serialization net = Some r → net_idle_timer net ≠ Some r).
Proof.
  unfold net_objs. destruct (net_ref net), (net_serialization net), (net_idle_timer net); simpl;
    rewrite ?NoDup_cons; intros Hnd; split; try split; try done;
    intros; simplify_eq; intros ?; simplify_eq; set_solver.
Qed.

Lemma free_network_run l net w :
  heap w !! l = Some net → net_live net w →
  free_network (Some l) w =
    Ret () (set_objs (net_delete net (objs w)) (set_heap (delete l (heap w)) w)).
Proof.
  intros Hl (Hnd & Hr & Hs & Ht). unfold free_network. mstep.
  erewrite bind_run.
  2:{ apply when_some_run. intros r Hr'. destruct (Hr r Hr') as [b Hb].
      unfold log_network_info. rewrite bind_assoc. mstep. mstep. by apply (world_release_last _ b). }
  erewrite bind_run.
  2:{ apply when_some_run. intros r Hr'. destruct (Hs r Hr') as [b Hb]. simpl.
      apply (world_release_last _ b). simpl. rewrite optional_delete_ne; [done|].
      intros ?. by destruct (net_objs_disjoint net r Hnd) as [[? ?] _]. }
  erewrite bind_run.
  2:{ apply when_some_run. intros r Hr'. destruct (Ht r Hr') as [b Hb]. simpl.
      apply (cancel_timer_run _ b). simpl.
      destruct (net_objs_disjoint net r Hnd) as [H1 H2].
      rewrite !optional_delete_ne; [done|naive_solver..]. }
  simpl. by erewrite network_dealloc_run by done.
Qed.

(** Enough to free networks: also true of a state one of whose timers has
    fired, or whose registry is being released. *)
Record objs_ok w : Prop := {
  ok_full l net : heap w !! l = Some net →
    is_Some (net_ref net) ∧ is_Some (net_serialization net);
  ok_owns : owns (objs w) (owned w) held_kind;
}.

Lemma wf_objs_ok ex w : wf_ex ex w → objs_ok w.
Proof.
  intros Hw. split; [apply Hw|].
  eapply owns_mono; [apply Hw|]. apply held_body_kind.
Qed.

Lemma objs_ok_net_live w l net : objs_ok w → heap w !! l = Some net → net_live net w.
Proof.
  intros [Hfull Ho] Hl. destruct (Hfull _ _ Hl) as [[r Hr] [s Hs]].
  destruct (own_live _ _ _ Ho (HRef l) r) as (br & Hbr & ->); [simpl; by rewrite Hl|].
  destruct (own_live _ _ _ Ho (HSerialization l) s) as (bs & Hbs & x & ->);
    [simpl; by rewrite Hl|].
  unfold net_live, net_objs. rewrite Hr, Hs. simpl.
  assert (∀ t, net_idle_timer net = Some t → ∃ src, objs w !! t = Some (Cell 1 (BSource src))) as Ht.
  { intros t Ht. destruct (own_live _ _ _ Ho (HTimer l) t) as (bt & Hbt & src & ->);
      [simpl; by rewrite Hl|]. eauto. }
  assert (r ≠ s) by congruence. split; [|split; [naive_solver|split; [naive_solver|done]]].
  destruct (net_idle_timer net) as [t|]; simpl.
  - destruct (Ht t eq_refl) as [src Hsrc].
    assert (r ≠ t) by congruence. assert (s ≠ t) by congruence.
    repeat constructor; set_solver.
  - repeat constructor; set_solver.
Qed.
End network_facts.
