(* ===== verification/AcquireFacts.v ===== *)
(** * What acquire_network does

    Reference definitions of what the system's answers amount to
    ([configuration_result], [network_result]), the effect of creating a
    configuration and a network in terms of them, and the six ways
    acquire_network ends ([acquire_outcome]). *)

From S2P Require Import Prelude Platform Common World Config Network.
From S2P Require Import Ownership Invariant Transitions NetworkFacts.

Section acquire_facts.
Context {xpc : XPC} {cf : CoreFoundation}.
Implicit Types (w : world) (l : loc) (c : conn) (ctx : broker_context) (net : network).

(** ** Configurations *)

(** The subnet a configuration gets, [None] where it cannot be set. *)
Definition subnet_result (os : OS) (config : network_config) : option (option (Z * Z)) :=
  match cfg_subnet config, cfg_mask config with
  | Some subnet, Some mask =>
      let '(r1, a1) := os_inet_pton os subnet in
      let '(r2, a2) := os_inet_pton os mask in
      if bool_decide (r1 ≠ 0%Z ∧ r2 ≠ 0%Z ∧ os_set_ipv4_subnet os a1 a2 = VMNET_SUCCESS)
      then Some (Some (a1, a2)) else None
  | _, _ => Some None
  end.

Definition configuration_result (os : OS) (config : network_config) :
    option (option (Z * Z)) :=
  if (os_configuration_create os (cfg_mode config)).1 then subnet_result os config else None.

Definition with_object (b : obj_body) w : world :=
  set_objs (<[fresh (dom (objs w)) := Cell 1 b]> (objs w)) w.

Lemma configuration_error_run b error w :
  configuration_error (fresh (dom (objs w))) error (with_object b w) =
    Ret (None, set_error error VMNET_BROKER_CREATE_FAILURE) w.
Proof.
  unfold configuration_error.
  erewrite bind_run by (eapply world_release_last, lookup_insert_eq).
  unfold with_object, set_objs. simpl.
  rewrite delete_insert_id by apply fresh_obj. by destruct w.
Qed.

Lemma set_ipv4_subnet_run os mode s0 a1 a2 w :
  configuration_set_ipv4_subnet os (fresh (dom (objs w))) a1 a2
    (with_object (BConfiguration mode s0) w) =
  Ret (os_set_ipv4_subnet os a1 a2)
    (with_object (BConfiguration mode
       (if decide (os_set_ipv4_subnet os a1 a2 = VMNET_SUCCESS)
        then Some (a1, a2) else s0)) w).
Proof.
  unfold configuration_set_ipv4_subnet.
  erewrite bind_run by (apply world_read_run, lookup_insert_eq). simpl.
  case_decide; [|done].
  erewrite bind_run by (eapply world_write_run, lookup_insert_eq).
  unfold with_object, set_objs, mret, M_ret. simpl. by rewrite insert_insert_eq.
Qed.

Lemma create_vmnet_configuration_run os config error w :
  create_vmnet_configuration os config error w =
    match configuration_result os config with
    | None => Ret (None, set_error error VMNET_BROKER_CREATE_FAILURE) w
    | Some subnet => Ret (Some (fresh (dom (objs w))), error)
                         (with_object (BConfiguration (cfg_mode config) subnet) w)
    end.
Proof.
  unfold create_vmnet_configuration, configuration_result, subnet_result.
  destruct (os_configuration_create os (cfg_mode config)) as [[] st]; simpl; [|done].
  erewrite bind_run by apply world_alloc_run.
  fold (with_object (BConfiguration (cfg_mode config) None) w).
  destruct (cfg_subnet config) as [subnet|]; [|done].
  destruct (cfg_mask config) as [mask|]; [|done].
  destruct (os_inet_pton os subnet) as [r1 a1], (os_inet_pton os mask) as [r2 a2].
  destruct (Z.eqb_spec r1 0) as [->|H1].
  { rewrite bool_decide_false by naive_solver. apply configuration_error_run. }
  destruct (Z.eqb_spec r2 0) as [->|H2].
  { rewrite bool_decide_false by naive_solver. apply configuration_error_run. }
  erewrite bind_run by apply set_ipv4_subnet_run.
  case_decide as Hs.
  - by rewrite bool_decide_true by done.
  - rewrite bool_decide_false by naive_solver. apply configuration_error_run.
Qed.

(** ** Networks *)

(** The serialization of the network created for a configuration, [None]
    where it cannot be created. *)
Definition network_result (os : OS) (mode : vmnet_mode_t) (subnet : option (Z * Z)) :
    option xpc_object :=
  if os_calloc os && os_strdup os && (os_network_create os mode subnet).1
  then (os_copy_serialization os).1 else None.

Definition fresh_ref w : obj := fresh (dom (objs w)).
Definition fresh_ser w : obj := fresh (dom (objs (with_object BNetworkRef w))).

(** The state with a new network that is not registered yet. *)
Definition created (name : string) (x : xpc_object) w : world :=
  set_heap (<[fresh (dom (heap w)) :=
                Network (Some name) 0 (Some (fresh_ref w)) (Some (fresh_ser w)) None]> (heap w))
    (with_object (BXpc x) (with_object BNetworkRef w)).


Lemma create_network_run os name config mode subnet error w :
  objs w !! config = Some (Cell 1 (BConfiguration mode subnet)) →
  create_network os name config error w =
    match network_result os mode subnet with
    | None => Ret (None, set_error error VMNET_BROKER_CREATE_FAILURE) w
    | Some x => Ret (Some (fresh (dom (heap w))), error) (created name x w)
    end.
Proof.
  intros Hc. unfold create_network, network_result.
  destruct (os_calloc os); simpl; [|done].
  unfold create_failure. set (l := fresh (dom (heap w))).
  assert (heap w !! l = None) as Hl by (apply not_elem_of_dom, is_fresh).
  erewrite bind_run by reflexivity. fold l.
  destruct (os_strdup os); simpl.
  2:{ erewrite bind_run.
      2:{ apply free_network_run; [apply lookup_insert_eq|]. split; [constructor|]. naive_solver. }
      unfold net_delete. simpl. rewrite delete_insert_id by done.
      by autorewrite with world. }
  mstep. unfold configuration_read. rewrite bind_assoc. mstep. mstep.
  destruct (os_network_create os mode subnet) as [[] st]; simpl.
  2:{ erewrite bind_run.
      2:{ apply free_network_run; [apply lookup_insert_eq|]. split; [constructor|]. naive_solver. }
      unfold net_delete. simpl. rewrite delete_insert_eq, delete_insert_id by done.
      by autorewrite with world. }
  mstep. mstep. unfold log_network_info. rewrite bind_assoc. mstep. mstep.
  destruct (os_copy_serialization os) as [[x|] st']; simpl.
  2:{ erewrite bind_run.
      2:{ apply free_network_run; [apply lookup_insert_eq|]. split; [|split].
          - repeat constructor; set_solver.
          - intros r [= <-]. simpl. rewrite lookup_insert_eq. eauto.
          - naive_solver. }
      unfold net_delete. simpl. rewrite !delete_insert_eq, (delete_id (heap w)) by done.
      rewrite (delete_id (objs w)) by apply fresh_obj. by autorewrite with world. }
  mstep. mstep. unfold created, with_object, fresh_ser, fresh_ref.
  autorewrite with world. simpl. by rewrite !insert_insert_eq.
Qed.

(** ** The registry *)

(** What init_registry leaves. *)
Definition with_registry w : world := set_registry (Some (reg w)) w.

Lemma init_registry_run os w : os_ok os → init_registry os w = Ret () (with_registry w).
Proof.
  intros [_ Hos]. unfold init_registry, with_registry, modify, reg.
  destruct (registry w) as [r|] eqn:Hr; simpl; [|by rewrite Hos].
  rewrite <- Hr. by destruct w.
Qed.

Lemma reg_with_registry w : reg (with_registry w) = reg w.
Proof. done. Qed.

Lemma wf_with_registry ex w : wf_ex ex w → wf_ex ex (with_registry w).
Proof. intros Hw. split; try by apply Hw. Qed.

Lemma registry_key_run name k r w :
  CFStringCreateWithCString name = Some k → registry w = Some r →
  registry_key name w = Ret (k, r) w.
Proof. intros Hk Hr. unfold registry_key. rewrite Hk. mstep. mstep. rewrite Hr. by mstep. Qed.

Lemma registry_get_run name k r w :
  CFStringCreateWithCString name = Some k → registry w = Some r →
  registry_get name w = Ret (r !! k) w.
Proof. intros Hk Hr. unfold registry_get. by erewrite bind_run by (by apply registry_key_run). Qed.

Lemma registry_set_run name k r l w :
  CFStringCreateWithCString name = Some k → registry w = Some r → r !! k = None →
  registry_set name l w = Ret () (set_registry (Some (<[k := l]> r)) w).
Proof.
  intros Hk Hr Hn. unfold registry_set. erewrite bind_run by (by apply registry_key_run).
  simpl. mstep. by rewrite Hn.
Qed.

Lemma create_network_configuration_run os name error w :
  create_network_configuration os name error w =
    match find_config_from builtin_networks name with
    | None => Ret (None, set_error error VMNET_BROKER_NOT_FOUND) w
    | Some config => create_vmnet_configuration os config error w
    end.
Proof.
  unfold create_network_configuration, find_network_config.
  by destruct (find_config_from builtin_networks name).
Qed.

(** ** acquire_network *)

(** The serialization of the network the system creates for [name]. *)
Definition creation_result (os : OS) (name : string) : option xpc_object :=
  config ← find_config_from builtin_networks name;
  subnet ← configuration_result os config;
  network_result os (cfg_mode config) subnet.

(** create_network_configuration, create_network, the release of the
    configuration and registry_set, as acquire_network runs them. *)
Lemma create_and_register_run {A} os name k r error (f : loc → option Z → M world A)
    (g : option Z → M world A) w :
  CFStringCreateWithCString name = Some k → registry w = Some r → r !! k = None →
  ('(config, error) ← create_network_configuration os name error;
   match config with
   | None => g error
   | Some config =>
       '(net, error) ← create_network os name config error;
       obj_release config;;
       match net with
       | None => g error
       | Some l => registry_set name l;; f l error
       end
   end) w =
  match find_config_from builtin_networks name, creation_result os name with
  | None, _ => g (set_error error VMNET_BROKER_NOT_FOUND) w
  | Some _, None => g (set_error error VMNET_BROKER_CREATE_FAILURE) w
  | Some config, Some x =>
      let l := fresh (dom (heap w)) in
      let w1 := with_object (BConfiguration (cfg_mode config)
                  (default None (configuration_result os config))) w in
      f l error (install k name (fresh_ref w1) (fresh_ser w1) x l w)
  end.
Proof.
  intros Hk Hr Hn. unfold creation_result.
  pose proof (create_network_configuration_run os name error w) as Hcr.
  destruct (find_config_from builtin_networks name) as [config|] eqn:Hfind; simpl;
    [|by erewrite bind_run by apply Hcr].
  rewrite create_vmnet_configuration_run in Hcr.
  destruct (configuration_result os config) as [subnet|] eqn:Hconf; simpl;
    [|by erewrite bind_run by apply Hcr].
  erewrite bind_run by apply Hcr. simpl.
  set (w1 := with_object (BConfiguration (cfg_mode config) subnet) w).
  set (o := fresh (dom (objs w))).
  assert (objs w !! o = None) as Ho by apply fresh_obj.
  assert (objs w1 !! o = Some (Cell 1 (BConfiguration (cfg_mode config) subnet))) as Ho1
    by apply lookup_insert_eq.
  pose proof (create_network_run os name o (cfg_mode config) subnet error w1 Ho1) as Hcn.
  destruct (network_result os (cfg_mode config) subnet) as [x|] eqn:Hnet; simpl.
  - erewrite bind_run by apply Hcn. simpl.
    assert (o ≠ fresh_ref w1) as Hne1.
    { symmetry. apply fresh_obj_ne. eexists. exact Ho1. }
    assert (o ≠ fresh_ser w1) as Hne2.
    { symmetry. apply fresh_obj_ne. simpl. rewrite lookup_insert_ne by done. eexists. exact Ho1. }
    erewrite bind_run.
    2:{ eapply (world_release_last o). simpl.
        rewrite lookup_insert_ne by done. by rewrite lookup_insert_ne. }
    erewrite bind_run by (by apply (registry_set_run name k r)).
    f_equal. unfold install, created, with_object, set_objs, set_heap, set_registry, reg.
    simpl. rewrite Hr. simpl. f_equal.
    rewrite !delete_insert_ne by done. fold o. rewrite delete_insert_eq.
    by rewrite (delete_id (objs w)).
  - erewrite bind_run by apply Hcn. simpl.
    erewrite bind_run by (by eapply world_release_last).
    f_equal. unfold w1, with_object, set_objs. simpl. fold o.
    rewrite delete_insert_id by done. by destruct w.
Qed.

(** The ways acquire_network ends when peer [c] asks for the network [name]
    with key [k]: the serialization it finds or creates, or an error code,
    and the state it leaves (without the reference it returns). *)
Inductive acquire_outcome (os : OS) (c : conn) (name : string) (k : CFString) (w : world) :
    (obj * xpc_object) + Z → world → Prop :=
  | acquire_owned ctx l net s x :
      contexts w !! c = Some ctx → reg w !! k = Some l → heap w !! l = Some net →
      l ∈ held ctx →
      net_serialization net = Some s → objs w !! s = Some (Cell 1 (BXpc x)) →
      acquire_outcome os c name k w (inl (s, x)) (with_registry w)
  | acquire_joined ctx l net s x :
      contexts w !! c = Some ctx → reg w !! k = Some l → heap w !! l = Some net →
      l ∉ held ctx → ctx_full ctx = false →
      net_serialization net = Some s → objs w !! s = Some (Cell 1 (BXpc x)) →
      acquire_outcome os c name k w (inl (s, x)) (attach c ctx l net (with_registry w))
  | acquire_created ctx l ref s x :
      contexts w !! c = Some ctx → reg w !! k = None → ctx_full ctx = false →
      creation_result os name = Some x →
      heap w !! l = None → objs w !! ref = None → objs w !! s = None → ref ≠ s →
      acquire_outcome os c name k w (inl (s, x))
        (attach c ctx l (Network (Some name) 0 (Some ref) (Some s) None)
           (install k name ref s x l (with_registry w)))
  | acquire_full ctx :
      contexts w !! c = Some ctx → ctx_full ctx = true →
      (∀ l, reg w !! k = Some l → l ∉ held ctx) →
      acquire_outcome os c name k w (inr VMNET_BROKER_INTERNAL_ERROR) (with_registry w)
  | acquire_not_found ctx :
      contexts w !! c = Some ctx → reg w !! k = None → ctx_full ctx = false →
      find_config_from builtin_networks name = None →
      acquire_outcome os c name k w (inr VMNET_BROKER_NOT_FOUND) (with_registry w)
  | acquire_failed ctx config :
      contexts w !! c = Some ctx → reg w !! k = None → ctx_full ctx = false →
      find_config_from builtin_networks name = Some config →
      creation_result os name = None →
      acquire_outcome os c name k w (inr VMNET_BROKER_CREATE_FAILURE) (with_registry w).

(** What a call of acquire_network in a state returns for an outcome. *)
Definition outcome_run (r : (obj * xpc_object) + Z) (error : option Z) w' :
    outcome world (option obj * option Z) :=
  match r with
  | inl (s, x) => Ret (Some s, error) (retained s x w')
  | inr code => Ret (None, set_error error code) w'
  end.

(** The tail, for a network that was registered. *)
Lemma acquire_known_outcome os c name k ctx l error w :
  wf w → wf_peers_bound w → contexts w !! c = Some ctx → reg w !! k = Some l →
  ∃ r w', acquire_outcome os c name k w r w' ∧
    acquire_registered c l error (with_registry w) = outcome_run r error w'.
Proof.
  intros Hw Hb Hc Hreg. pose proof (wf_with_registry None w Hw) as Hw1.
  destruct (wf_ctx _ _ Hw _ _ Hc) as [Hok _].
  destruct (wf_registered _ _ _ _ Hw Hreg) as [net Hl].
  destruct (wf_serialization_live _ _ _ _ Hw Hl) as (s & x & Hs & Hx).
  rewrite (acquire_registered_run c ctx l net s x error (with_registry w)); try done.
  - case_bool_decide as Hin.
    { exists (inl (s, x)). eexists. split; [by eapply acquire_owned|done]. }
    destruct (ctx_full ctx) eqn:Hfull.
    + exists (inr VMNET_BROKER_INTERNAL_ERROR). eexists.
      split; [eapply acquire_full; [done|done|congruence]|done].
    + exists (inl (s, x)). eexists. split; [by eapply acquire_joined|done].
  - by apply wf_weaken.
  - intros Hin. apply eq_None_not_Some. rewrite (wf_timer _ _ Hw1 l net) by done.
    assert (c ∈ holders (contexts w) l); [|set_solver].
    apply elem_of_holders. by exists ctx.
Qed.

(** The tail, for the network [l] that was just created and registered. *)
Lemma acquire_new_outcome os c name k ctx l ref s x error w :
  wf w → wf_peers_bound w → contexts w !! c = Some ctx → reg w !! k = None →
  CFStringCreateWithCString name = Some k →
  ctx_full ctx = false → creation_result os name = Some x →
  heap w !! l = None → objs w !! ref = None → objs w !! s = None → ref ≠ s →
  ∃ r w', acquire_outcome os c name k w r w' ∧
    acquire_registered c l error (install k name ref s x l (with_registry w)) =
      outcome_run r error w'.
Proof.
  intros Hw Hb Hc Hreg Hk Hfull Hcreate Hl Href Hs Hne.
  pose proof (wf_with_registry None w Hw) as Hw1.
  destruct (wf_ctx _ _ Hw _ _ Hc) as [Hok _].
  assert (∀ l', l' ∈ held ctx → l' ≠ l) as Hnot.
  { intros l' Hl' ->. destruct (wf_held _ _ Hw _ _ _ Hc Hl'). congruence. }
  rewrite (acquire_registered_run c ctx l
    (Network (Some name) 0 (Some ref) (Some s) None) s x error); try done.
  - rewrite bool_decide_false by naive_solver. rewrite Hfull.
    exists (inl (s, x)). eexists. split; [|reflexivity]. by eapply acquire_created.
  - by apply wf_install.
  - simpl. apply lookup_insert_eq.
  - simpl. apply lookup_insert_eq.
Qed.

Lemma acquire_network_outcome os c name k ctx error w :
  wf w → wf_peers_bound w → os_ok os →
  CFStringCreateWithCString name = Some k → contexts w !! c = Some ctx →
  ∃ r w', acquire_outcome os c name k w r w' ∧
    acquire_network os c name error w = outcome_run r error w'.
Proof.
  intros Hw Hb Hos Hk Hc. unfold acquire_network.
  destruct (wf_ctx _ _ Hw _ _ Hc) as [Hok _].
  erewrite bind_run by (by apply init_registry_run).
  erewrite bind_run by (by apply (registry_get_run name k (reg w))).
  destruct (reg w !! k) as [l|] eqn:Hreg; [by eapply acquire_known_outcome|].
  erewrite bind_run by (by apply can_add_run).
  destruct (ctx_full ctx) eqn:Hfull; simpl.
  { do 2 eexists. split; [eapply acquire_full; [done|done|congruence]|done]. }
  rewrite (create_and_register_run os name k (reg w) error
    (λ l error, acquire_registered c l error) (λ error, mret (None, error))) by done.
  destruct (find_config_from builtin_networks name) as [config|] eqn:Hfind;
    [|do 2 eexists; split; [by eapply acquire_not_found|done]].
  destruct (creation_result os name) as [x|] eqn:Hcreate;
    [|do 2 eexists; split; [by eapply acquire_failed|done]].
  set (w1 := with_object _ _).
  assert (∀ o, objs w1 !! o = None → objs w !! o = None) as Hsub.
  { intros o. unfold w1. simpl. rewrite lookup_insert. by case_decide. }
  apply (acquire_new_outcome os c name k ctx); try done.
  - apply not_elem_of_dom, is_fresh.
  - apply Hsub, fresh_obj.
  - apply Hsub. pose proof (fresh_obj (objs (with_object BNetworkRef w1))) as Hf.
    unfold with_object at 1 in Hf. simpl in Hf.
    by rewrite lookup_insert_None in Hf; destruct Hf.
  - symmetry. apply fresh_obj_ne. simpl. by rewrite lookup_insert_eq.
Qed.

(** The invariant after acquire_network. *)
Lemma ctx_full_false ctx :
  ctx_full ctx = false → (length (held ctx) < MAX_PEER_NETWORKS)%nat.
Proof. unfold ctx_full. case_bool_decide; [done|lia]. Qed.

Lemma wf_acquire_outcome os c name k r w w' :
  wf w → CFStringCreateWithCString name = Some k →
  acquire_outcome os c name k w r w' → wf w'.
Proof.
  intros Hw Hk H. pose proof (wf_with_registry None w Hw) as Hw1.
  inversion H as [| |ctx l ref s x Hc Hreg Hfull ? Hl| | |]; subst; try done.
  - apply wf_attach; try done; [by apply wf_weaken|by apply ctx_full_false].
  - apply wf_attach; try done.
    + by apply wf_install.
    + simpl. apply lookup_insert_eq.
    + intros Hin. destruct (wf_held _ _ Hw _ _ _ Hc Hin). congruence.
    + by apply ctx_full_false.
Qed.

(** The serialization found is alive, with the broker's own reference. *)
Lemma acquire_serialization_live os c name k s x w w' :
  wf w → acquire_outcome os c name k w (inl (s, x)) w' →
  objs w' !! s = Some (Cell 1 (BXpc x)).
Proof.
  intros Hw H. inversion H; subst; simpl; try done.
  - change (optional_delete (net_idle_timer net) (objs w) !! s = Some (Cell 1 (BXpc x))).
    by eapply serialization_not_timer.
  - apply lookup_insert_eq.
Qed.
End acquire_facts.
