(* ===== verification/ReleaseFacts.v ===== *)
(** * What release_peer_networks, the idle timers and shutdown_networks do *)

From S2P Require Import Prelude Platform Common World Config Network.
From S2P Require Import Ownership Invariant Transitions NetworkFacts AcquireFacts.

Section release_facts.
Context {xpc : XPC} {cf : CoreFoundation}.
Implicit Types (w : world) (l : loc) (c : conn) (ctx : broker_context) (net : network).

(** ** What an operation leaves alone *)

(** The name and the objects of a network, which never change. *)
Definition net_core net : option string * option obj * option obj :=
  (net_name net, net_ref net, net_serialization net).

Definition cores w : gmap loc (option string * option obj * option obj) :=
  net_core <$> heap w.

Definition broker_frame w w' : Prop :=
  connected_peers w' = connected_peers w ∧ idle_timer w' = idle_timer w ∧
  signals w' = signals w ∧ transactions w' = transactions w ∧
  outbox w' = outbox w ∧ now w' = now w ∧ listening w' = listening w.

#[export] Instance broker_frame_preorder : PreOrder broker_frame.
Proof.
  unfold broker_frame. split; [by intros w|].
  intros w1 w2 w3 (?&?&?&?&?&?&?) (?&?&?&?&?&?&?). repeat split; congruence.
Qed.

(** When the idle timer of network [l] fires. *)
Definition timer_start w (t : obj) : option Z :=
  cell ← objs w !! t;
  match body cell with BSource s => src_start s | _ => None end.

Definition idle_deadline w l : option Z :=
  net ← heap w !! l; t ← net_idle_timer net; timer_start w t.

(** The deadline of a timer armed now. *)
Definition deadline_from_now w : Z := (now w + idle_timeout_sec * NSEC_PER_SEC)%Z.

(** ** One network *)

Record released_one c l w w' : Prop := {
  ro_wf : wf w';
  ro_registry : registry w' = registry w;
  ro_cores : cores w' = cores w;
  ro_deadline l' : is_Some (heap w !! l') →
    idle_deadline w' l' =
      if decide (l' = l ∧ holders (contexts w') l' = ∅)
      then Some (deadline_from_now w) else idle_deadline w l';
  ro_frame : broker_frame w w';
  ro_objs o : is_Some (objs w !! o) → objs w' !! o = objs w !! o;
}.

Lemma cores_insert w l net net' :
  heap w !! l = Some net → net_core net' = net_core net →
  net_core <$> <[l := net']> (heap w) = cores w.
Proof.
  intros Hl Hc. unfold cores. rewrite fmap_insert, Hc. apply insert_id.
  by rewrite lookup_fmap, Hl.
Qed.

Lemma detach_deadline c ctx l net w l' :
  heap w !! l = Some net → idle_deadline (detach c ctx l net w) l' = idle_deadline w l'.
Proof.
  intros Hl. unfold idle_deadline, timer_start. simpl. rewrite lookup_insert.
  case_decide; [|done]. subst. by rewrite Hl.
Qed.

Lemma arm_deadline l net t w l' :
  wf_ex (Some l) w → objs w !! t = None →
  is_Some (heap w !! l') →
  idle_deadline (arm l net t w) l' =
    if decide (l' = l) then Some (deadline_from_now w) else idle_deadline w l'.
Proof.
  intros Hw Ht [net' Hl']. unfold idle_deadline, timer_start. simpl.
  rewrite lookup_insert. destruct (decide (l' = l)) as [->|Hn].
  - rewrite decide_True by done. simpl. by rewrite lookup_insert_eq.
  - rewrite decide_False by done. rewrite Hl'. simpl.
    destruct (net_idle_timer net') as [t'|] eqn:Ht'; simpl; [|done].
    rewrite lookup_insert_ne; [done|]. intros <-.
    destruct (wf_timer_live _ _ _ _ _ Hw Hl' Ht') as (d & _ & Hd). congruence.
Qed.

(** The iteration of the loop for the network [l], the last of the list: the
    list and the count of peers, then the timer when no peer is left. *)
Lemma release_last_network_detach os c ctx l ls net w :
  wf w → wf_peers_bound w → contexts w !! c = Some ctx → held ctx = ls ++ [l] →
  heap w !! l = Some net →
  release_last_network os c w =
    (if bool_decide (net_peers net - 1 = 0)%Z then remove_later os l else mret ())
      (detach c ctx l net w).
Proof.
  intros Hw Hb Hc Hheld Hl. destruct (wf_ctx _ _ Hw _ _ Hc) as [Hok _].
  pose proof (ch_count _ _ Hok) as Hcount. rewrite Hheld, length_app in Hcount. simpl in Hcount.
  pose proof (ch_bound _ _ Hok) as Hbound. rewrite Hheld, length_app in Hbound. simpl in Hbound.
  assert (ctx_networks ctx !! length ls = Some (Some l)) as Hlast.
  { eapply ctx_holds_lookup; [apply Hok|]. rewrite Hheld.
    by rewrite lookup_app_r, Nat.sub_diag by lia. }
  assert (0 ≤ net_peers net ≤ INT_MAX)%Z as Hpeers.
  { rewrite (wf_peers _ _ Hw _ _ Hl). pose proof (holders_size (contexts w) l).
    unfold wf_peers_bound in Hb. lia. }
  unfold release_last_network. mstep.
  erewrite bind_run by (apply c_int_run; unfold INT_MIN, INT_MAX, MAX_PEER_NETWORKS in *; lia).
  unfold context_set_count, context_store. rewrite bind_assoc. mstep. mstep.
  replace (ctx_network_count ctx - 1)%Z with (Z.of_nat (length ls)) by lia.
  erewrite bind_run by (by apply array_read_run). mstep. mstep.
  erewrite bind_run by (apply c_int_run; unfold INT_MIN, INT_MAX in *; lia).
  mstep. unfold detach, detach_ctx.
  by replace (ctx_network_count ctx - 1)%Z with (Z.of_nat (length ls)) by lia.
Qed.

Lemma release_last_network_run os c ctx l ls w :
  wf w → wf_peers_bound w → os_ok os → contexts w !! c = Some ctx → held ctx = ls ++ [l] →
  ∃ w', release_last_network os c w = Ret () w' ∧ released_one c l w w' ∧
        contexts w' = <[c := detach_ctx ctx]> (contexts w).
Proof.
  intros Hw Hb Hos Hc Hheld.
  destruct (wf_held _ _ Hw c ctx l Hc) as [net Hl]; [rewrite Hheld; set_solver|].
  destruct (wf_detach c ctx l net ls w Hw Hc Hl Hheld) as [Hdet Htimer].
  rewrite (release_last_network_detach os c ctx l ls net w) by done.
  set (wd := detach c ctx l net w) in *.
  set (net' := Network (net_name net) (net_peers net - 1) (net_ref net)
                       (net_serialization net) (net_idle_timer net)).
  assert (heap wd !! l = Some net') as Hl' by apply lookup_insert_eq.
  assert (cores wd = cores w) as Hcores by (by apply (cores_insert w l net)).
  pose proof (wf_peers _ _ Hdet _ _ Hl') as Hcnt. simpl in Hcnt.
  case_bool_decide as Hz.
  - rewrite (remove_later_run os l net') by done.
    assert (holders (contexts wd) l = ∅) as Hempty.
    { apply leibniz_equiv, size_empty_inv. simpl. lia. }
    pose proof (fresh_obj (objs wd)) as Hfresh.
    eexists. split; [done|]. split; [|done]. split; [|done| | |done|].
    + by apply wf_arm.
    + transitivity (cores wd); [by apply (cores_insert wd l net')|done].
    + intros l0 Hl0. rewrite arm_deadline; [|done|done|].
      * assert (idle_deadline wd l0 = idle_deadline w l0) as -> by (by apply detach_deadline).
        repeat case_decide; naive_solver.
      * unfold wd. simpl. rewrite lookup_insert. by case_decide.
    + intros o [cell Ho]. simpl. rewrite lookup_insert_ne; [done|].
      intros <-. simpl in Hfresh. congruence.
  - assert (holders (contexts wd) l ≠ ∅) as Hne.
    { intros He. apply Hz. simpl in He. rewrite He in Hcnt. rewrite size_empty in Hcnt. lia. }
    eexists. split; [done|]. split; [|done]. split; [|done|done| |done|done].
    + by apply (wf_still_held l net').
    + intros l0 Hl0. rewrite decide_False by naive_solver. by apply detach_deadline.
Qed.

(** ** All of a peer's networks *)

Definition peer_networks w c : list loc := from_option held [] (contexts w !! c).

Record released c w w' : Prop := {
  rel_wf : wf w';
  rel_registry : registry w' = registry w;
  rel_cores : cores w' = cores w;
  rel_context : ∃ ctx, held ctx = [] ∧ contexts w' = <[c := ctx]> (contexts w);
  rel_deadline l : is_Some (heap w !! l) →
    idle_deadline w' l =
      if decide (l ∈ peer_networks w c ∧ holders (contexts w') l = ∅)
      then Some (deadline_from_now w) else idle_deadline w l;
  rel_frame : broker_frame w w';
  rel_objs o : is_Some (objs w !! o) → objs w' !! o = objs w !! o;
}.

Lemma cores_is_Some w w' l : cores w' = cores w → is_Some (heap w' !! l) ↔ is_Some (heap w !! l).
Proof.
  intros Hc. apply (f_equal (λ m, m !! l)) in Hc. unfold cores in Hc.
  rewrite !lookup_fmap in Hc. rewrite <- (fmap_is_Some net_core), Hc. apply fmap_is_Some.
Qed.

Lemma release_loop_run os c ctx ls fuel w :
  wf w → wf_peers_bound w → os_ok os → contexts w !! c = Some ctx → held ctx = ls →
  (length ls ≤ fuel)%nat →
  ∃ w', release_loop os c fuel w = Ret () w' ∧ released c w w'.
Proof.
  revert ctx fuel w. induction ls as [|l ls IH] using rev_ind;
    intros ctx fuel w Hw Hb Hos Hc Hheld Hfuel;
    destruct (wf_ctx _ _ Hw _ _ Hc) as [Hok _];
    pose proof (ch_count _ _ Hok) as Hcount; rewrite Hheld in Hcount.
  - exists w. split.
    + destruct fuel; simpl; mstep; by rewrite bool_decide_true.
    + split; try done.
      * exists ctx. split; [done|]. by rewrite insert_id.
      * intros l Hl. rewrite decide_False; [done|].
        unfold peer_networks. rewrite Hc. simpl. rewrite Hheld. set_solver.
  - rewrite length_app in Hcount, Hfuel. simpl in Hcount, Hfuel.
    destruct fuel as [|fuel]; [lia|]. simpl. mstep. rewrite bool_decide_false by lia.
    destruct (release_last_network_run os c ctx l ls w) as (w1 & Hrun & [] & Hctx1); try done.
    rewrite (bind_run _ _ _ _ _ Hrun).
    unfold ctx_ok in Hok. rewrite Hheld in Hok.
    pose proof (ctx_holds_held _ _ (detach_ctx_holds _ _ _ Hok)) as Hheld1.
    assert (contexts w1 !! c = Some (detach_ctx ctx)) as Hc1 by (rewrite Hctx1; apply lookup_insert_eq).
    destruct (IH (detach_ctx ctx) fuel w1) as (w' & Hrun' & Hrel); try done; [|lia|].
    { unfold wf_peers_bound in *. rewrite Hctx1, map_size_insert_Some; eauto. }
    exists w'. split; [done|]. destruct Hrel as [? Hreg' Hcores' (ctx' & Hheld' & Hctx') Hdead' Hframe' Hobjs'].
    split; [done|congruence|congruence| | |by etrans|].
    3:{ intros o Ho. rewrite Hobjs'; by rewrite ro_objs0. }
    + exists ctx'. split; [done|]. by rewrite Hctx', Hctx1, insert_insert_eq.
    + intros l' Hl'. rewrite Hdead' by (by rewrite (cores_is_Some w)). rewrite ro_deadline0 by done.
      assert (deadline_from_now w1 = deadline_from_now w) as ->.
      { unfold deadline_from_now. by destruct ro_frame0 as (_&_&_&_&_&->&_). }
      unfold peer_networks. rewrite Hc, Hc1. simpl. rewrite Hheld, Hheld1.
      assert (l ∉ ls) as Hnot.
      { pose proof (ch_nodup _ _ Hok) as (_ & Hdis & _)%NoDup_app. intros Hin.
        apply (Hdis l Hin). set_solver. }
      assert (holders (contexts w') l = holders (contexts w1) l) as Hsame.
      { rewrite Hctx'. eapply holders_insert_same; [done|].
        rewrite Hheld', Hheld1. set_solver. }
      assert (l' ∈ ls ++ [l] ↔ l' ∈ ls ∨ l' = l) as Happ by set_solver.
      destruct (decide (l' = l)) as [->|Hn].
      * repeat case_decide; rewrite ?Hsame in *; naive_solver.
      * repeat case_decide; naive_solver.
Qed.

(** ** Freeing the networks *)

(** The state after freeing the networks [ls]. *)
Record freed (ls : list loc) w w' : Prop := {
  fr_heap : heap w' = foldr delete (heap w) ls;
  fr_objs_ok : objs_ok w';
  fr_objs o cell : objs w' !! o = Some cell → objs w !! o = Some cell;
  fr_contexts : contexts w' = contexts w;
  fr_registry : registry w' = registry w;
  fr_frame : broker_frame w w';
}.

Lemma net_delete_sub net (σ : gmap obj (cell obj_body)) o cell :
  net_delete net σ !! o = Some cell → σ !! o = Some cell.
Proof.
  unfold net_delete, optional_delete. intros H.
  repeat case_match; rewrite ?lookup_delete_Some in H; naive_solver.
Qed.

Lemma registry_release_run l net w :
  objs_ok w → heap w !! l = Some net →
  ∃ w', registry_release l w = Ret () w' ∧ freed [l] w w'.
Proof.
  intros Hok Hl. eexists. split.
  - apply (free_network_run l net); [done|]. by eapply objs_ok_net_live.
  - split; simpl; try done.
    + split; simpl.
      * intros l' net' [_ Hl']%lookup_delete_Some. by apply (ok_full _ Hok l').
      * eapply owns_ext; [eapply owns_net_delete; [apply Hok|done]|]. by intros [].
    + apply net_delete_sub.
Qed.

Lemma release_values_run ls w :
  objs_ok w → NoDup ls → (∀ l, l ∈ ls → is_Some (heap w !! l)) →
  ∃ w', release_values ls w = Ret () w' ∧ freed ls w w'.
Proof.
  revert w. induction ls as [|l ls IH]; intros w Hok Hnd Hls; simpl.
  { by exists w. }
  apply NoDup_cons in Hnd as [Hnot Hnd].
  destruct (Hls l) as [net Hl]; [set_solver|].
  destruct (registry_release_run l net w Hok Hl) as (w1 & Hrun & [Hh1 Hok1 Ho1 Hc1 Hr1 Hf1]).
  rewrite (bind_run _ _ _ _ _ Hrun).
  destruct (IH w1) as (w' & Hrun' & [Hh Hok' Ho Hc Hr Hf]); [done|done| |].
  { intros l' Hl'. rewrite Hh1. simpl. rewrite lookup_delete_ne by set_solver.
    apply Hls. set_solver. }
  exists w'. split; [done|]. split; [|done|naive_solver|congruence|congruence|by etrans].
  rewrite Hh, Hh1. simpl. clear. induction ls as [|l' ls IH]; simpl; [done|].
  rewrite IH. apply delete_delete.
Qed.

Lemma foldr_delete_lookup ls (m : gmap loc network) l :
  foldr delete m ls !! l = if decide (l ∈ ls) then None else m !! l.
Proof.
  induction ls as [|l' ls IH]; simpl; [done|]. rewrite lookup_delete, IH.
  repeat case_decide; set_solver.
Qed.

Lemma world_eq w w' :
  heap w = heap w' → registry w = registry w' → contexts w = contexts w' →
  objs w = objs w' → broker_frame w w' → w = w'.
Proof.
  destruct w, w'. unfold broker_frame. simpl.
  intros -> -> -> -> (?&?&?&?&?&?&?). congruence.
Qed.

(** Two states reached from the same objects, with the same holders, hold the
    same objects. *)
Lemma freed_objs_eq ls1 ls2 w w1 w2 :
  freed ls1 w w1 → freed ls2 w w2 → (∀ h, owned w1 h = owned w2 h) → objs w1 = objs w2.
Proof.
  intros H1 H2 Ho.
  assert (∀ lsa lsb wa wb, freed lsa w wa → freed lsb w wb →
            (∀ h, owned wa h = owned wb h) →
            ∀ o cell, objs wa !! o = Some cell → objs wb !! o = Some cell) as Hone.
  { intros lsa lsb wa wb Ha Hb Hab o cell Hcell.
    destruct (own_all _ _ _ (ok_owns _ (fr_objs_ok _ _ _ Ha)) o) as [h Hh]; [by rewrite Hcell|].
    rewrite Hab in Hh.
    destruct (own_live _ _ _ (ok_owns _ (fr_objs_ok _ _ _ Hb)) h o Hh) as (b & Hb' & _).
    rewrite Hb'. apply (fr_objs _ _ _ Hb) in Hb'. apply (fr_objs _ _ _ Ha) in Hcell. congruence. }
  apply map_eq. intros o. apply option_eq. intros cell. split.
  - by apply (Hone ls1 ls2).
  - by apply (Hone ls2 ls1); [..|symmetry].
Qed.

(** The order in which the dictionary releases its values does not matter. *)
Lemma release_values_perm ls ls' w :
  objs_ok w → NoDup ls → (∀ l, l ∈ ls → is_Some (heap w !! l)) → ls ≡ₚ ls' →
  release_values ls' w = release_values ls w.
Proof.
  intros Hok Hnd Hls Hperm.
  destruct (release_values_run ls w) as (w1 & -> & H1); try done.
  destruct (release_values_run ls' w) as (w2 & -> & H2); try done.
  { by rewrite <- Hperm. }
  { intros l. rewrite <- Hperm. apply Hls. }
  f_equal.
  assert (heap w2 = heap w1) as Hh.
  { rewrite (fr_heap _ _ _ H1), (fr_heap _ _ _ H2). apply map_eq. intros l.
    rewrite !foldr_delete_lookup. pose proof (elem_of_Permutation_proper l _ _ Hperm).
    repeat case_decide; naive_solver. }
  pose proof (fr_frame _ _ _ H1) as F1. pose proof (fr_frame _ _ _ H2) as F2.
  apply world_eq; [done| | | |].
  - by rewrite (fr_registry _ _ _ H1), (fr_registry _ _ _ H2).
  - by rewrite (fr_contexts _ _ _ H1), (fr_contexts _ _ _ H2).
  - eapply freed_objs_eq; [done|done|].
    destruct F1 as (_&Hi1&_), F2 as (_&Hi2&_).
    intros []; simpl; rewrite ?Hh; congruence.
  - unfold broker_frame in *. destruct F1 as (?&?&?&?&?&?&?), F2 as (?&?&?&?&?&?&?).
    repeat split; congruence.
Qed.

(** ** shutdown_networks *)

Definition registry_ok w : Prop :=
  (∀ l, is_Some (heap w !! l) ↔ ∃ k, reg w !! k = Some l) ∧
  (∀ k1 k2 l, reg w !! k1 = Some l → reg w !! k2 = Some l → k1 = k2).

Lemma wf_registry_ok ex w : wf_ex ex w → registry_ok w.
Proof. intros Hw. split; [apply (wf_reg _ _ Hw)|]. intros. by eapply wf_key_inj. Qed.

Lemma elem_of_values (r : gmap CFString loc) l : l ∈ (map_to_list r).*2 ↔ ∃ k, r !! k = Some l.
Proof.
  rewrite list_elem_of_fmap. split.
  - intros ([k l'] & -> & H%elem_of_map_to_list). by exists k.
  - intros [k Hk]. exists (k, l). by rewrite elem_of_map_to_list.
Qed.

Lemma values_NoDup (r : gmap CFString loc) :
  (∀ k1 k2 l, r !! k1 = Some l → r !! k2 = Some l → k1 = k2) → NoDup (map_to_list r).*2.
Proof.
  intros Hinj. apply NoDup_fmap_2_strong; [|apply NoDup_map_to_list].
  intros [k1 l1] [k2 l2] H1%elem_of_map_to_list H2%elem_of_map_to_list Heq.
  simpl in Heq. subst. f_equal. by eapply Hinj.
Qed.

(** The broker after shutdown_networks. *)
Record shut_down w w' : Prop := {
  sd_heap : heap w' = ∅;
  sd_registry : registry w' = None;
  sd_objs o : is_Some (objs w' !! o) ↔ idle_timer w = Some o;
  sd_contexts : contexts w' = contexts w;
  sd_frame : broker_frame w w';
}.

Lemma objs_after_shutdown w :
  objs_ok w → heap w = ∅ → ∀ o, is_Some (objs w !! o) ↔ idle_timer w = Some o.
Proof.
  intros Hok Hh o. split.
  - intros [h Ho]%(own_all _ _ _ (ok_owns _ Hok)).
    destruct h; simpl in Ho; rewrite ?Hh, ?lookup_empty in Ho; done.
  - intros Ho. eapply own_live_is_Some; [apply Hok|]. by apply (Ho : owned w HShutdown = _).
Qed.

Lemma shutdown_networks_run w :
  objs_ok w → registry_ok w → ∃ w', shutdown_networks w = Ret () w' ∧ shut_down w w'.
Proof.
  intros Hok [Hreg Hinj]. unfold shutdown_networks, release_registry. mstep.
  destruct (registry w) as [r|] eqn:Hr.
  - assert (reg w = r) as Hrr by (unfold reg; by rewrite Hr).
    destruct (release_values_run (map_to_list r).*2 w) as (w1 & Hrun & Hf); [done| | |].
    { apply values_NoDup. by rewrite <- Hrr. }
    { intros l Hl%elem_of_values. apply Hreg. by rewrite Hrr. }
    erewrite bind_run by apply Hrun. rewrite modify_run.
    assert (heap w1 = ∅) as Hh.
    { rewrite (fr_heap _ _ _ Hf). apply map_empty. intros l. rewrite foldr_delete_lookup.
      case_decide as Hd; [done|]. apply eq_None_not_Some. rewrite Hreg, Hrr.
      by rewrite <- elem_of_values. }
    pose proof (fr_frame _ _ _ Hf) as (?&Hi&?&?&?&?&?).
    eexists. split; [done|]. split; try done.
    + intros o. simpl. rewrite <- Hi. apply (objs_after_shutdown w1); [apply Hf|done].
    + apply Hf.
  - assert (heap w = ∅) as Hh.
    { apply map_empty. intros l. apply eq_None_not_Some. rewrite Hreg. unfold reg.
      rewrite Hr. simpl. intros [k Hk]. by rewrite lookup_empty in Hk. }
    exists w. split; [done|]. split; try done. by apply objs_after_shutdown.
Qed.

(** ** The idle timer of a network *)

(** The state of a timer that fired. *)
Definition timer_done (t : obj) (s : source) w : world :=
  set_objs (<[t := Cell 1 (BSource (Source (src_handler s) None (src_leeway s)
              (src_resumed s) (src_cancelled s)))]> (objs w)) w.

Lemma objs_ok_timer_done h t s ex w :
  wf_ex ex w → owned w h = Some t → (h = HShutdown ∨ ∃ l, h = HTimer l) →
  objs_ok (timer_done t s w).
Proof.
  intros Hw Ho Hh. split; [apply Hw|].
  apply (owns_ext _ (owned w)); [|by intros []].
  eapply owns_write; [apply Hw|done| |by apply held_body_kind].
  destruct Hh as [->|[l ->]]; simpl; eauto.
Qed.

Lemma net_delete_timer net t x (σ : gmap obj (cell obj_body)) :
  net_idle_timer net = Some t → net_delete net (<[t := x]> σ) = net_delete net σ.
Proof.
  intros Ht. unfold net_delete. rewrite Ht. simpl. apply map_eq. intros o.
  destruct (decide (o = t)) as [->|Hn]; [by rewrite !lookup_delete_eq|].
  rewrite !lookup_delete_ne by done. unfold optional_delete.
  repeat case_match; rewrite ?lookup_delete; by rewrite lookup_insert_ne.
Qed.

Lemma remove_network_handler_run w l net k t s :
  wf w → heap w !! l = Some net → reg w !! k = Some l → net_idle_timer net = Some t →
  remove_network_handler l (timer_done t s w) = Ret () (drop k l net w).
Proof.
  intros Hw Hl Hk Ht. unfold remove_network_handler.
  destruct (wf_key _ _ Hw _ _ Hk) as (net' & name & Hl' & Hname & Hkey). simplify_eq.
  assert (registry w = Some (reg w)) as Hr.
  { unfold reg in *. destruct (registry w); [done|]. simpl in Hk. by rewrite lookup_empty in Hk. }
  erewrite bind_run by (by apply network_load_run). mstep.
  unfold registry_remove.
  erewrite bind_run by (by apply (registry_key_run name k (reg w))). simpl. mstep.
  rewrite Hk. simpl. unfold registry_release.
  erewrite free_network_run; [|done|].
  - unfold drop, timer_done, set_objs, set_registry, set_heap. simpl. f_equal. f_equal.
    by apply net_delete_timer.
  - pose proof (objs_ok_timer_done (HTimer l) t s None w Hw) as Hok.
    simpl in Hok. rewrite Hl in Hok.
    pose proof (objs_ok_net_live _ l net (Hok Ht (or_intror (ex_intro _ l eq_refl))) Hl) as Hlive.
    exact Hlive.
Qed.
End release_facts.
