(* ===== verification/BrokerFacts.v ===== *)
(** * What the broker does with an event

    [broker_ok] is the invariant of broker.c's globals, [inv] the invariant of
    the process.  [effect] lists what handling an event that returns does to
    the state, [exits] the events that end the process; [handle_event_cases]
    shows that from a state of the invariant every event that satisfies
    [event_ok] does one of these, [event_fault_run] that the others fault. *)

From S2P Require Import Prelude Platform Common World Config Network Xpc Broker.
From S2P Require Import Ownership Invariant Transitions NetworkFacts AcquireFacts ReleaseFacts.

Section broker_facts.
Context {xpc : XPC} {cf : CoreFoundation}.
Implicit Types (w : world) (l : loc) (c : conn) (ctx : broker_context) (net : network).

Lemma wf_same w w' : wf w → same_networks w w' → wf w'.
Proof. intros Hw Hs. by rewrite <- Hs. Qed.

(** ** Replies *)

(** The state after sending [m] on [c], if there is something to send. *)
Definition sent c (m : option xpc_object) w : world :=
  match m with
  | Some x => set_outbox (outbox w ++ [(c, x)]) w
  | None => w
  end.

Definition error_reply (event : xpc_object) (code : Z) : option xpc_object :=
  (λ r, xpc_dictionary_set_int64 r REPLY_ERROR code) <$> xpc_dictionary_create_reply event.

Definition network_reply (event x : xpc_object) : option xpc_object :=
  (λ r, xpc_dictionary_set_value r REPLY_NETWORK x) <$> xpc_dictionary_create_reply event.

Lemma xpc_read_run o n x w :
  objs w !! o = Some (Cell n (BXpc x)) → xpc_read o w = Ret x w.
Proof. intros Ho. unfold xpc_read. by erewrite bind_run by (by apply world_read_run). Qed.

Lemma send_reply_run c ctx x w :
  contexts w !! c = Some ctx → ctx_connection ctx = c →
  (send_reply c (fresh (dom (objs w)))) (with_object (BXpc x) w) = Ret () (sent c (Some x) w).
Proof.
  intros Hc Hcc. unfold send_reply. mstep.
  erewrite bind_run by (eapply xpc_read_run, lookup_insert_eq).
  unfold xpc_connection_send_message. mstep.
  erewrite world_release_last by apply lookup_insert_eq.
  unfold with_object, sent, set_objs, set_outbox. simpl. rewrite Hcc.
  by rewrite delete_insert_id by apply fresh_obj.
Qed.

Lemma with_object_write b b' w :
  set_objs (<[fresh (dom (objs w)) := Cell 1 b']> (objs (with_object b w))) (with_object b w)
  = with_object b' w.
Proof. unfold with_object, set_objs. simpl. by rewrite insert_insert_eq. Qed.

Lemma send_xpc_error_run c ctx event code w :
  contexts w !! c = Some ctx → ctx_connection ctx = c →
  send_xpc_error c event code w = Ret () (sent c (error_reply event code) w).
Proof.
  intros Hc Hcc. unfold send_xpc_error, create_reply, error_reply.
  destruct (xpc_dictionary_create_reply event) as [r|]; simpl; [|done].
  rewrite bind_assoc. erewrite bind_run by apply world_alloc_run. mstep.
  fold (with_object (BXpc r) w).
  erewrite bind_run by (eapply xpc_read_run, lookup_insert_eq).
  erewrite bind_run by (apply world_write_run, lookup_insert_eq). simpl rc.
  rewrite with_object_write. by eapply send_reply_run.
Qed.

Lemma send_xpc_network_run c ctx event s n x w :
  contexts w !! c = Some ctx → ctx_connection ctx = c →
  objs w !! s = Some (Cell n (BXpc x)) →
  send_xpc_network c event s w = Ret () (sent c (network_reply event x) w).
Proof.
  intros Hc Hcc Hs. unfold send_xpc_network, create_reply, network_reply.
  destruct (xpc_dictionary_create_reply event) as [r|]; simpl; [|done].
  rewrite bind_assoc. erewrite bind_run by apply world_alloc_run. mstep.
  fold (with_object (BXpc r) w).
  erewrite bind_run by (eapply xpc_read_run, lookup_insert_eq).
  erewrite bind_run.
  2:{ apply (xpc_read_run s n x). simpl. rewrite lookup_insert_ne; [done|].
      apply fresh_obj_ne. by rewrite Hs. }
  erewrite bind_run by (apply world_write_run, lookup_insert_eq). simpl rc.
  rewrite with_object_write. by eapply send_reply_run.
Qed.

(** ** Requests *)

(** The request a message makes: the name of the network to acquire. *)
Definition request_name (event : xpc_object) : option string :=
  command ← xpc_dictionary_get_string event REQUEST_COMMAND;
  if String.eqb command COMMAND_ACQUIRE
  then xpc_dictionary_get_string event REQUEST_NETWORK_NAME else None.

Definition reply_of (event : xpc_object) (r : (obj * xpc_object) + Z) : option xpc_object :=
  match r with
  | inl (_, x) => network_reply event x
  | inr code => error_reply event code
  end.

Lemma retained_sent_release s x c m w :
  objs w !! s = Some (Cell 1 (BXpc x)) →
  obj_release s (sent c m (retained s x w)) = Ret () (sent c m w).
Proof.
  intros Hs. erewrite world_release_two; [|destruct m; apply lookup_insert_eq].
  destruct m; unfold sent, retained, set_objs, set_outbox; simpl;
    rewrite insert_insert_eq, insert_id by done; by destruct w.
Qed.

Lemma acquire_contexts os c name k r w w' ctx :
  wf w' → acquire_outcome os c name k w r w' → contexts w !! c = Some ctx →
  ∃ ctx', contexts w' !! c = Some ctx' ∧ ctx_connection ctx' = c.
Proof.
  intros Hw H Hc.
  assert (is_Some (contexts w' !! c)) as [ctx' Hc'].
  { inversion H; subst; simpl; rewrite ?lookup_insert_eq; eauto. }
  exists ctx'. split; [done|]. by apply (wf_ctx _ _ Hw).
Qed.

Lemma on_peer_request_malformed os c ctx event w :
  contexts w !! c = Some ctx → ctx_connection ctx = c → request_name event = None →
  on_peer_request os c event w =
    Ret () (sent c (error_reply event VMNET_BROKER_INVALID_REQUEST) w).
Proof.
  intros Hc Hcc. unfold request_name, on_peer_request.
  destruct (xpc_dictionary_get_string event REQUEST_COMMAND) as [command|]; simpl.
  - destruct (String.eqb command COMMAND_ACQUIRE); simpl; intros Hn; rewrite ?Hn;
      by eapply send_xpc_error_run.
  - intros _. by eapply send_xpc_error_run.
Qed.

Lemma on_peer_request_run os c ctx event name k w :
  wf w → wf_peers_bound w → os_ok os → contexts w !! c = Some ctx →
  request_name event = Some name → CFStringCreateWithCString name = Some k →
  ∃ r w', acquire_outcome os c name k w r w' ∧
          on_peer_request os c event w = Ret () (sent c (reply_of event r) w').
Proof.
  intros Hw Hb Hos Hc Hn Hk. unfold request_name in Hn. unfold on_peer_request.
  destruct (xpc_dictionary_get_string event REQUEST_COMMAND) as [command|]; simpl in Hn; [|done].
  destruct (String.eqb command COMMAND_ACQUIRE); simpl; [|done]. rewrite Hn.
  destruct (acquire_network_outcome os c name k ctx (Some 0%Z) w) as (r & w' & Hout & Hrun);
    try done.
  exists r, w'. split; [done|].
  pose proof (wf_acquire_outcome _ _ _ _ _ _ _ Hw Hk Hout) as Hw'.
  destruct (acquire_contexts _ _ _ _ _ _ _ _ Hw' Hout Hc) as (ctx' & Hc' & Hcc').
  destruct r as [[s x]|code]; rewrite (bind_run _ _ _ _ _ Hrun); simpl.
  - pose proof (acquire_serialization_live _ _ _ _ _ _ _ _ Hw Hout) as Hs.
    erewrite bind_run by (eapply (send_xpc_network_run c ctx' event s 2); [done|done|];
                          apply lookup_insert_eq).
    by apply retained_sent_release.
  - by eapply send_xpc_error_run.
Qed.

(** ** The broker's globals *)

Record broker_ok w : Prop := {
  bo_peers : connected_peers w = Z.of_nat (size (contexts w));
  bo_timer : is_Some (idle_timer w) → contexts w = ∅;
  bo_transactions : transactions w = (if decide (contexts w = ∅) then 0 else 1)%Z;
}.

(** [wf_peers_bound]: the peers can be counted by an [int]. *)
Record inv w : Prop := {
  inv_wf : wf w;
  inv_broker : broker_ok w;
  inv_bound : wf_peers_bound w;
}.

Definition clear_shutdown w : world :=
  match idle_timer w with Some t => cancel_shutdown t w | None => w end.

(** The state after a connection: the first peer begins the transaction and
    cancels the shutdown. *)
Definition connected os c w : world :=
  let w1 := set_connected_peers (connected_peers w + 1)
              (set_contexts (<[c := init_context os c]> (contexts w)) w) in
  if bool_decide (connected_peers w + 1 = 1)%Z
  then clear_shutdown (set_transactions (transactions w + 1)%Z w1) else w1.

Lemma handle_connection_run os c w :
  wf w → (0 ≤ connected_peers w < INT_MAX)%Z →
  handle_connection os (broker_ops os) c w = Ret () (connected os c w).
Proof.
  intros Hw Hn. unfold handle_connection, context_store, connected. simpl.
  mstep. unfold on_peer_connect. mstep.
  erewrite bind_run by (apply c_int_run; unfold INT_MIN, INT_MAX in *; lia). mstep.
  case_bool_decide; [|done]. unfold xpc_transaction_begin. mstep. mstep.
  unfold clear_shutdown. simpl. destruct (idle_timer w) as [t|] eqn:Ht; simpl; [|done].
  destruct (wf_shutdown_live _ _ _ Hw Ht) as (d & _ & Hd).
  erewrite bind_run by (eapply cancel_timer_run; simpl; done). done.
Qed.

(** The state after the last event of a connection, [w2] being the state after
    release_peer_networks: the last peer ends the transaction and schedules
    the shutdown. *)
Definition disconnected c w2 : world :=
  let w3 := if bool_decide (connected_peers w2 = 0)%Z
            then arm_shutdown (fresh (dom (objs w2))) (set_transactions (transactions w2 - 1) w2)
            else w2 in
  set_contexts (delete c (contexts w3)) w3.

Lemma shutdown_later_run os w :
  os_ok os → idle_timer w = None →
  shutdown_later os w = Ret () (arm_shutdown (fresh (dom (objs w))) w).
Proof.
  intros [Hos _] Ht. unfold shutdown_later, dispatch_source_create_timer.
  mstep. rewrite Ht. mstep. rewrite Hos. erewrite bind_run by (by mstep). mstep. mstep. simpl.
  erewrite start_idle_timer_run by apply lookup_insert_eq.
  unfold arm_shutdown, set_objs, set_idle_timer. simpl. by rewrite insert_insert_eq.
Qed.

Definition one_less w : world := set_connected_peers (connected_peers w - 1) w.

Lemma on_peer_disconnect_run os c ctx w :
  inv w → os_ok os → contexts w !! c = Some ctx →
  ∃ w2, released c (one_less w) w2 ∧
    (on_peer_disconnect os c;; context_drop c) w = Ret () (disconnected c w2).
Proof.
  intros [Hw [Hp Ht Htr] Hb] Hos Hc.
  assert (size (contexts w) ≠ 0%nat) as Hsize.
  { intros Hz%map_size_empty_inv. rewrite Hz in Hc. by rewrite lookup_empty in Hc. }
  destruct (wf_ctx _ _ Hw _ _ Hc) as [Hok _].
  assert (wf (one_less w)) as Hw1.
  { by apply (wf_same w). }
  destruct (release_loop_run os c ctx (held ctx) MAX_PEER_NETWORKS (one_less w))
    as (w2 & Hrun & Hrel); try done.
  { apply (ch_bound _ _ Hok). }
  exists w2. split; [done|]. unfold on_peer_disconnect. rewrite bind_assoc. mstep.
  rewrite bind_assoc.
  erewrite bind_run by (apply c_int_run; unfold wf_peers_bound, INT_MIN, INT_MAX in *; lia).
  rewrite bind_assoc. mstep. rewrite bind_assoc. unfold release_peer_networks.
  rewrite (bind_run _ _ _ _ _ Hrun). rewrite bind_assoc. mstep.
  pose proof (rel_frame _ _ _ Hrel) as (Hcp & Hi & _). unfold disconnected.
  case_bool_decide; [|done]. rewrite bind_assoc. unfold xpc_transaction_end. mstep.
  erewrite bind_run; [|apply (shutdown_later_run os); [done|]]; [done|].
  simpl. rewrite Hi. simpl. destruct (idle_timer w); [|done].
  rewrite Ht in Hc by done. by rewrite lookup_empty in Hc.
Qed.

(** ** Events *)

(** The events that do not make the broker fault: a connection when the peers can
    still be counted, and a request for a name that Core Foundation can
    represent.  Nothing keeps a peer from sending another name; what the broker
    does then is [event_fault] below. *)
Definition event_ok w (ev : event) : Prop :=
  match ev with
  | EvListener e =>
      xpc_get_type e = XPC_TYPE_CONNECTION → (Z.of_nat (size (contexts w)) < INT_MAX)%Z
  | EvPeer _ e =>
      xpc_get_type e = XPC_TYPE_DICTIONARY →
      match request_name e with
      | Some name => is_Some (CFStringCreateWithCString name)
      | None => True
      end
  | _ => True
  end.

#[export] Instance event_ok_dec w ev : Decision (event_ok w ev).
Proof. destruct ev; simpl; try case_match; apply _. Defined.

(** The fault of the other events: connected_peers overflows, or registry_get
    passes NULL to CFDictionaryGetValue. *)
Definition event_fault w (ev : event) : option fault :=
  match ev with
  | EvListener e =>
      if decide (xpc_get_type e = XPC_TYPE_CONNECTION ∧
                 ¬ (Z.of_nat (size (contexts w)) < INT_MAX)%Z)
      then Some SignedOverflow else None
  | EvPeer _ e =>
      if decide (xpc_get_type e = XPC_TYPE_DICTIONARY) then
        match request_name e with
        | Some name => match CFStringCreateWithCString name with
                       | Some _ => None
                       | None => Some NullDeref
                       end
        | None => None
        end
      else None
  | _ => None
  end.

Lemma event_fault_ok w ev : event_fault w ev = None ↔ event_ok w ev.
Proof.
  destruct ev as [e|c e| | |]; simpl; try done.
  - case_decide as Hd; [naive_solver|]. split; [|done]. intros _ Hc.
    destruct (decide (Z.of_nat (size (contexts w)) < INT_MAX)%Z); [done|tauto].
  - case_decide as Hd; [|tauto]. split.
    + intros Hf _. destruct (request_name e); [|done].
      destruct (CFStringCreateWithCString s); [eauto|done].
    + intros Hok. specialize (Hok Hd). destruct (request_name e); [|done].
      by destruct Hok as [k ->].
Qed.

(** What handling an event does when the broker goes on. *)
Inductive effect (os : OS) w : event → world → Prop :=
  | effect_listener_other e :
      xpc_get_type e ≠ XPC_TYPE_ERROR → xpc_get_type e ≠ XPC_TYPE_CONNECTION →
      effect os w (EvListener e) w
  | effect_connect e :
      xpc_get_type e = XPC_TYPE_CONNECTION → contexts w !! xpc_connection_of e = None →
      (Z.of_nat (size (contexts w)) < INT_MAX)%Z →
      effect os w (EvListener e) (connected os (xpc_connection_of e) w)
  | effect_peer_other c e :
      is_Some (contexts w !! c) →
      xpc_get_type e ≠ XPC_TYPE_DICTIONARY → connection_invalid e = false →
      effect os w (EvPeer c e) w
  | effect_malformed c e :
      is_Some (contexts w !! c) → xpc_get_type e = XPC_TYPE_DICTIONARY →
      request_name e = None →
      effect os w (EvPeer c e) (sent c (error_reply e VMNET_BROKER_INVALID_REQUEST) w)
  | effect_request c e name k r w' :
      is_Some (contexts w !! c) → xpc_get_type e = XPC_TYPE_DICTIONARY →
      request_name e = Some name → CFStringCreateWithCString name = Some k →
      acquire_outcome os c name k w r w' →
      effect os w (EvPeer c e) (sent c (reply_of e r) w')
  | effect_disconnect c e w2 :
      is_Some (contexts w !! c) → connection_invalid e = true →
      released c (one_less w) w2 →
      effect os w (EvPeer c e) (disconnected c w2)
  | effect_expire t l k net :
      reg w !! k = Some l → heap w !! l = Some net → net_idle_timer net = Some t →
      timer_ready w t = Some (RemoveNetwork l) →
      effect os w (EvTimer t) (drop k l net w)
  | effect_signal_ignored sig :
      contexts w ≠ ∅ → effect os w (EvSignal sig) w
  | effect_clock d :
      (0 ≤ d)%Z → effect os w (EvClock d) (set_now (now w + d)%Z w).

(** The events that end the process, with its exit code and last state. *)
Inductive exits w : event → Z → world → Prop :=
  | exits_listener_error e :
      xpc_get_type e = XPC_TYPE_ERROR → exits w (EvListener e) EXIT_FAILURE w
  | exits_idle t w0 w' :
      idle_timer w = Some t → timer_ready w t = Some IdleShutdown → contexts w = ∅ →
      heap w0 = heap w → idle_timer w0 = idle_timer w → shut_down w0 w' →
      exits w (EvTimer t) EXIT_SUCCESS w'
  | exits_signal sig w' :
      contexts w = ∅ → shut_down w w' → exits w (EvSignal sig) EXIT_SUCCESS w'.

Lemma peers_positive w : broker_ok w → (0 < connected_peers w)%Z ↔ contexts w ≠ ∅.
Proof.
  intros Hb. rewrite (bo_peers _ Hb). rewrite <- (map_size_empty_iff (contexts w)). lia.
Qed.

(** A ready timer is one that is armed. *)
Lemma timer_ready_source w t h :
  timer_ready w t = Some h →
  ∃ n s, objs w !! t = Some (Cell n (BSource s)) ∧ src_handler s = Some h.
Proof.
  unfold timer_ready. destruct (objs w !! t) as [[n []]|]; try done.
  destruct s as [[h'|] [d|] ? [] []]; try done. case_bool_decide; [|done].
  intros [= ->]. eauto.
Qed.

Lemma timer_ready_holder w t h :
  wf w → timer_ready w t = Some h →
  match h with
  | RemoveNetwork l => owned w (HTimer l) = Some t
  | IdleShutdown => idle_timer w = Some t
  end.
Proof.
  intros Hw (n & s & Ht & Hh)%timer_ready_source.
  destruct (own_all _ _ _ (wf_objs _ _ Hw) t) as [ho Ho]; [by rewrite Ht|].
  destruct (own_live _ _ _ (wf_objs _ _ Hw) ho t Ho) as (b & Hb & Hbody).
  rewrite Ht in Hb. injection Hb as -> <-.
  destruct ho as [l|l|l|]; simpl in Hbody; try done.
  - by destruct Hbody.
  - destruct Hbody as (d & _ & [= ->]). simpl in Hh. by injection Hh as <-.
  - destruct Hbody as (d & _ & [= ->]). simpl in Hh. by injection Hh as <-.
Qed.

Lemma timer_fired_run w t n s :
  objs w !! t = Some (Cell n (BSource s)) → n = 1%nat →
  timer_fired t w = Ret () (timer_done t s w).
Proof. intros Ht ->. unfold timer_fired. mstep. by erewrite world_write_run by done. Qed.

Lemma handle_timer_cases os w t h :
  inv w → timer_ready w t = Some h →
  (∃ w', handle_event os (EvTimer t) w = Ret () w' ∧ effect os w (EvTimer t) w') ∨
  (∃ code w', handle_event os (EvTimer t) w = Exit code w' ∧ exits w (EvTimer t) code w').
Proof.
  intros [Hw Hbr Hb] Hready. cbn [handle_event]. rewrite Hready.
  pose proof (timer_ready_holder _ _ _ Hw Hready) as Hown.
  destruct (timer_ready_source _ _ _ Hready) as (n & s & Ht & Hh).
  assert (n = 1%nat) as ->.
  { assert (∃ ho, owned w ho = Some t) as [ho Ho].
    { apply (own_all _ _ _ (wf_objs _ _ Hw)). by rewrite Ht. }
    destruct (own_live _ _ _ (wf_objs _ _ Hw) ho t Ho) as (b & Hb' & _). congruence. }
  erewrite bind_run by (by eapply timer_fired_run).
  destruct h as [l|].
  - left. simpl in Hown. destruct (heap w !! l) as [net|] eqn:Hl; simpl in Hown; [|done].
    destruct (proj1 (wf_reg _ _ Hw l)) as [k Hk]; [by rewrite Hl|].
    eexists. split; [by apply (remove_network_handler_run w l net k t s)|].
    by eapply effect_expire.
  - right.
    assert (objs_ok (timer_done t s w)) as Hok.
    { apply (objs_ok_timer_done HShutdown t s None w); [done|done|by left]. }
    destruct (shutdown_networks_run (timer_done t s w)) as (w' & Hrun & Hsd); [done| |].
    { apply (wf_registry_ok None w Hw). }
    exists EXIT_SUCCESS, w'. unfold idle_shutdown_handler. rewrite (bind_run _ _ _ _ _ Hrun).
    split; [done|]. eapply (exits_idle w t (timer_done t s w)); try done.
    apply (bo_timer _ Hbr). by rewrite Hown.
Qed.

Lemma handle_peer_cases os w c e :
  inv w → os_ok os → is_Some (contexts w !! c) → event_ok w (EvPeer c e) →
  ∃ w', handle_event os (EvPeer c e) w = Ret () w' ∧ effect os w (EvPeer c e) w'.
Proof.
  intros Hinv Hos [ctx Hc] Hev. pose proof Hinv as [Hw Hbr Hb].
  destruct (wf_ctx _ _ Hw _ _ Hc) as [_ Hcc]. simpl. unfold peer_event_handler.
  destruct (connection_invalid e) eqn:Hinvalid.
  - destruct (on_peer_disconnect_run os c ctx w) as (w2 & Hrel & Hrun); try done.
    exists (disconnected c w2). split; [|by apply effect_disconnect].
    unfold connection_invalid in Hinvalid. apply andb_true_iff in Hinvalid as [H1 H2].
    apply bool_decide_eq_true in H1. rewrite decide_True by done. rewrite H2. simpl. exact Hrun.
  - assert ((if xpc_object_eqb e XPC_ERROR_CONNECTION_INVALID
             then on_peer_disconnect os c else mret ()) w = Ret () w ∨
            xpc_get_type e ≠ XPC_TYPE_ERROR) as Hother.
    { unfold connection_invalid in Hinvalid. apply andb_false_iff in Hinvalid as [H1|H1].
      - right. by apply bool_decide_eq_false in H1.
      - left. by rewrite H1. }
    destruct (decide (xpc_get_type e = XPC_TYPE_ERROR)) as [Herr|Hnerr].
    { exists w. destruct Hother as [Hother|]; [|done]. rewrite (bind_run _ _ _ _ _ Hother).
      split; [done|]. apply effect_peer_other; [eauto|congruence|done]. }
    destruct (decide (xpc_get_type e = XPC_TYPE_DICTIONARY)) as [Hd|Hnd].
    2:{ exists w. split; [done|]. apply effect_peer_other; eauto. }
    simpl. destruct (request_name e) as [name|] eqn:Hname.
    + specialize (Hev Hd). rewrite Hname in Hev. destruct Hev as [k Hk].
      destruct (on_peer_request_run os c ctx e name k w) as (r & w' & Hout & Hrun); try done.
      exists (sent c (reply_of e r) w'). rewrite (bind_run _ _ _ _ _ Hrun).
      split; [done|]. by eapply effect_request.
    + pose proof (on_peer_request_malformed os c ctx e w Hc Hcc Hname) as Hrun.
      eexists. rewrite (bind_run _ _ _ _ _ Hrun). split; [done|]. by apply effect_malformed.
Qed.

(** A name that Core Foundation cannot represent. *)
Lemma bad_name_run os c e name w :
  os_ok os → xpc_get_type e = XPC_TYPE_DICTIONARY →
  request_name e = Some name → CFStringCreateWithCString name = None →
  handle_event os (EvPeer c e) w = Fault NullDeref.
Proof.
  intros Hos He Hname Hk. simpl. unfold peer_event_handler. rewrite He. simpl.
  unfold request_name in Hname. unfold on_peer_request.
  destruct (xpc_dictionary_get_string e REQUEST_COMMAND) as [command|]; simpl in Hname; [|done].
  destruct (String.eqb command COMMAND_ACQUIRE); simpl; [|done]. rewrite Hname.
  unfold acquire_network. rewrite !bind_assoc.
  erewrite bind_run by (by apply init_registry_run).
  unfold registry_get, registry_key. by rewrite Hk.
Qed.

(** One peer too many. *)
Lemma overflow_run os e w :
  inv w → xpc_get_type e = XPC_TYPE_CONNECTION → ¬ (Z.of_nat (size (contexts w)) < INT_MAX)%Z →
  handle_event os (EvListener e) w = Fault SignedOverflow.
Proof.
  intros [_ [Hp _ _] _] He Hsize. simpl. unfold listener_event_handler. rewrite He. simpl.
  unfold handle_connection, context_store. simpl. mstep. unfold on_peer_connect. mstep.
  unfold c_int. rewrite bool_decide_false; [done|]. unfold INT_MAX in *. lia.
Qed.

Lemma event_fault_run os w ev f :
  inv w → os_ok os → event_fault w ev = Some f → handle_event os ev w = Fault f.
Proof.
  intros Hinv Hos Hf. destruct ev as [e|c e| | |]; simpl in Hf; try done.
  - case_decide as Hd; [|done]. injection Hf as <-. by apply overflow_run; [|apply Hd..].
  - case_decide; [|done]. destruct (request_name e) eqn:Hname; [|done].
    destruct (CFStringCreateWithCString s) eqn:Hk; [done|]. injection Hf as <-.
    by eapply bad_name_run.
Qed.

Lemma handle_event_cases os w ev :
  inv w → os_ok os → enabled w ev → event_ok w ev →
  (∃ w', handle_event os ev w = Ret () w' ∧ effect os w ev w') ∨
  (∃ code w', handle_event os ev w = Exit code w' ∧ exits w ev code w').
Proof.
  intros Hinv Hos Hen Hev. pose proof Hinv as [Hw Hbr Hb].
  destruct ev as [e|c e|t|sig|d].
  - simpl in *. unfold listener_event_handler.
    destruct (decide (xpc_get_type e = XPC_TYPE_ERROR)) as [He|He].
    { right. do 2 eexists. split; [done|]. by apply exits_listener_error. }
    left. destruct (decide (xpc_get_type e = XPC_TYPE_CONNECTION)) as [Hc|Hc].
    + destruct Hen as [_ Hnew]. specialize (Hnew Hc). specialize (Hev Hc). eexists. split.
      * apply handle_connection_run; [done|]. rewrite (bo_peers _ Hbr). lia.
      * by apply effect_connect.
    + eexists. split; [done|]. by apply effect_listener_other.
  - left. by apply handle_peer_cases.
  - destruct Hen as [h Hh]. by eapply handle_timer_cases.
  - simpl. unfold signal_handler. mstep.
    pose proof (peers_positive w Hbr) as Hpos. case_bool_decide as Hp.
    + left. exists w. split; [done|]. apply effect_signal_ignored. by apply Hpos.
    + right. assert (contexts w = ∅) as Hempty.
      { destruct (decide (contexts w = ∅)); [done|]. exfalso. by apply Hp, Hpos. }
      destruct (shutdown_networks_run w) as (w' & Hrun & Hsd).
      { by eapply wf_objs_ok. }
      { by eapply wf_registry_ok. }
      exists EXIT_SUCCESS, w'. rewrite (bind_run _ _ _ _ _ Hrun).
      split; [done|]. by apply exits_signal.
  - left. eexists. split; [done|]. by apply effect_clock.
Qed.

(** ** The invariant is preserved *)

Lemma inv_same_peers w w' :
  inv w → wf w' → dom (contexts w') = dom (contexts w) →
  connected_peers w' = connected_peers w → idle_timer w' = idle_timer w →
  transactions w' = transactions w → inv w'.
Proof.
  intros [Hw [Hp Ht Htr] Hb] Hw' Hd Hcp Hi Htr'.
  assert (contexts w' = ∅ ↔ contexts w = ∅) as He.
  { by rewrite <- !(dom_empty_iff_L (D:=gset conn)), Hd. }
  assert (size (contexts w') = size (contexts w)) as Hs by (by rewrite <- !(size_dom (D:=gset conn)), Hd).
  split; [done| |].
  - split.
    + by rewrite Hcp, Hs.
    + rewrite Hi, He. done.
    + rewrite Htr', Htr. repeat case_decide; naive_solver.
  - unfold wf_peers_bound. by rewrite Hs.
Qed.

Lemma inv_sent c m w : inv w → inv (sent c m w).
Proof.
  intros Hinv. destruct m as [x|]; [|done].
  apply (inv_same_peers w); try done.
  apply (wf_same w); [apply Hinv|done].
Qed.

Lemma attach_dom c ctx l net w :
  contexts w !! c = Some ctx → dom (contexts (attach c ctx l net w)) = dom (contexts w).
Proof. intros Hc. simpl. apply dom_insert_lookup_L. by rewrite Hc. Qed.

Lemma inv_acquire os c name k r w w' :
  inv w → CFStringCreateWithCString name = Some k → acquire_outcome os c name k w r w' → inv w'.
Proof.
  intros Hinv Hk H. apply (inv_same_peers w); [done| | | | |].
  - eapply wf_acquire_outcome; [apply Hinv|done|done].
  - inversion H; subst; try done; (etrans; [by apply attach_dom|done]).
  - by inversion H.
  - by inversion H.
  - by inversion H.
Qed.

Lemma inv_connected os c w :
  inv w → contexts w !! c = None → (Z.of_nat (size (contexts w)) < INT_MAX)%Z →
  inv (connected os c w).
Proof.
  intros [Hw [Hp Ht Htr] Hb] Hc Hlt.
  assert (size (<[c := init_context os c]> (contexts w)) = S (size (contexts w))) as Hsize
    by (by apply map_size_insert_None).
  assert (<[c := init_context os c]> (contexts w) ≠ ∅) as Hne.
  { intros He. by rewrite He in Hsize. }
  assert (wf (set_contexts (<[c := init_context os c]> (contexts w)) w)) as Hw1.
  { apply wf_new_context; [done|done| |done]. apply empty_ctx_holds. }
  unfold connected. case_bool_decide as H1.
  - assert (contexts w = ∅) as He by (apply map_size_empty_iff; lia).
    unfold clear_shutdown. simpl.
    assert (∀ w', idle_timer w' = None → connected_peers w' = (connected_peers w + 1)%Z →
              transactions w' = (transactions w + 1)%Z →
              contexts w' = <[c := init_context os c]> (contexts w) → wf w' → inv w') as Hgo.
    { intros w' Hi Hcp Htr' Hctx Hwf. split; [done| |].
      - split.
        + rewrite Hcp, Hctx, Hsize. lia.
        + rewrite Hi. by intros [].
        + rewrite Htr', Htr, Hctx. rewrite decide_True by done. by rewrite decide_False.
      - unfold wf_peers_bound. rewrite Hctx, Hsize. lia. }
    destruct (idle_timer w) as [t|] eqn:Hi; apply Hgo; try done.
    + apply wf_cancel_shutdown; [|done]. by apply (wf_same _ _ Hw1).
    + by apply (wf_same _ _ Hw1).
  - assert (contexts w ≠ ∅) as He.
    { intros He%map_size_empty_iff. lia. }
    split; simpl.
    + by apply (wf_same _ _ Hw1).
    + split; simpl.
      * rewrite Hsize. lia.
      * naive_solver.
      * rewrite Htr. rewrite !decide_False by done. done.
    + unfold wf_peers_bound. simpl. rewrite Hsize. lia.
Qed.

Lemma inv_disconnected c w w2 :
  inv w → is_Some (contexts w !! c) → released c (one_less w) w2 → inv (disconnected c w2).
Proof.
  intros [Hw [Hp Ht Htr] Hb] [ctx Hc] [Hw2 _ _ (ctx' & Hheld & Hctx) _ (Hcp & Hi & _ & Htr2 & _)].
  simpl in *.
  assert (delete c (contexts w2) = delete c (contexts w)) as Hdel.
  { rewrite Hctx. apply delete_insert_eq. }
  assert (size (contexts w) = S (size (delete c (contexts w)))) as Hsize.
  { rewrite map_size_delete_Some by eauto.
    assert (size (contexts w) ≠ 0)%nat; [|lia].
    intros Hz%map_size_empty_inv. rewrite Hz in Hc. by rewrite lookup_empty in Hc. }
  assert (contexts w ≠ ∅) as Hne.
  { intros He%map_size_empty_iff. lia. }
  assert (idle_timer w = None) as Hnone.
  { destruct (idle_timer w); [|done]. exfalso. apply Hne. by apply Ht. }
  rewrite decide_False in Htr by done.
  assert (contexts w2 !! c = Some ctx') as Hc2 by (rewrite Hctx; apply lookup_insert_eq).
  unfold disconnected. case_bool_decide as Hz.
  - assert (delete c (contexts w2) = ∅) as He.
    { rewrite Hdel. apply map_size_empty_iff. lia. }
    split; simpl.
    + apply (wf_drop_context c ctx'
        (arm_shutdown (fresh (dom (objs w2))) (set_transactions (transactions w2 - 1) w2)));
        [|done|done]. apply wf_arm_shutdown.
      * by apply (wf_same w2).
      * simpl. congruence.
      * simpl. apply fresh_obj.
    + split; simpl.
      * rewrite He, map_size_empty. lia.
      * done.
      * rewrite decide_True by done. lia.
    + unfold wf_peers_bound. simpl. rewrite He, map_size_empty. done.
  - assert (delete c (contexts w2) ≠ ∅) as He.
    { rewrite Hdel. intros He%map_size_empty_iff. lia. }
    split; simpl.
    + by apply (wf_drop_context c ctx').
    + split; simpl.
      * rewrite Hdel. lia.
      * rewrite Hi, Hnone. by intros [].
      * rewrite decide_False by done. lia.
    + unfold wf_peers_bound in *. simpl. rewrite Hdel. lia.
Qed.

Lemma inv_drop k l net t w :
  inv w → reg w !! k = Some l → heap w !! l = Some net → net_idle_timer net = Some t →
  inv (drop k l net w).
Proof.
  intros Hinv Hk Hl Ht. apply (inv_same_peers w); try done.
  apply wf_drop; try done; [apply Hinv|].
  apply (wf_timer _ _ (inv_wf _ Hinv) _ _ Hl); [done|]. by rewrite Ht.
Qed.

Lemma effect_inv os w ev w' : inv w → effect os w ev w' → inv w'.
Proof.
  intros Hinv H. destruct H; try done.
  - by apply inv_connected.
  - by apply inv_sent.
  - by eapply inv_sent, inv_acquire.
  - by eapply inv_disconnected.
  - by eapply inv_drop.
  - apply (inv_same_peers w); try done. apply wf_clock; [apply Hinv|done].
Qed.
End broker_facts.
