(* ===== verification/Execution.v ===== *)
(** * Executions

    The broker as a transition system: [step w ev w'] when the main queue runs
    the handler of [ev] and the broker goes on in [w'], [exit_step] when the
    handler ends the process, [reachable] for the states after main.  [exec]
    runs a list of events and checks that each could be delivered. *)

From S2P Require Import Prelude Platform Common World Config Network Xpc Broker.
From S2P Require Import Ownership Invariant Transitions NetworkFacts AcquireFacts ReleaseFacts.
From S2P Require Import BrokerFacts.

Section execution.
Context {xpc : XPC} {cf : CoreFoundation}.
Implicit Types (w : world) (ev : event).

(** The platform delivers [ev] in [w] and answers as [os] says, and the broker
    does not fault on it: the conditions [enabled], [os_ok] and [event_ok]. *)
Record delivers (os : OS) w ev : Prop := {
  del_enabled : enabled w ev;
  del_os : os_ok os;
  del_ok : event_ok w ev;
}.

#[export] Instance delivers_dec os w ev : Decision (delivers os w ev).
Proof.
  destruct (decide (enabled w ev ∧ os_ok os ∧ event_ok w ev)) as [(?&?&?)|Hn];
    [by left|right; intros []; naive_solver].
Defined.

Inductive step w ev w' : Prop :=
  | step_intro os : delivers os w ev → handle_event os ev w = Ret () w' → step w ev w'.

Inductive exit_step w ev (code : Z) w' : Prop :=
  | exit_step_intro os :
      delivers os w ev → handle_event os ev w = Exit code w' → exit_step w ev code w'.

Inductive reachable : world → Prop :=
  | reachable_main os w : os_ok os → main os initial_world = Ret () w → reachable w
  | reachable_step w ev w' : reachable w → step w ev w' → reachable w'.

(** The broker runs from [w] to [w'], handling the events [evs]. *)
Inductive execution : world → list event → world → Prop :=
  | execution_nil w : execution w [] w
  | execution_cons w ev w1 evs w' :
      step w ev w1 → execution w1 evs w' → execution w (ev :: evs) w'.

Lemma main_run os :
  os_ok os →
  main os initial_world =
    if os_create_mach_service os MACH_SERVICE_NAME
    then Ret () (set_listening true (set_signals [SIGINT; SIGTERM] initial_world))
    else Exit EXIT_FAILURE (set_signals [SIGINT; SIGTERM] initial_world).
Proof.
  intros [Hos _]. unfold main, setup_signal_handlers, setup_signal_sources, start_xpc_listener.
  rewrite Hos. by destruct (os_create_mach_service os MACH_SERVICE_NAME).
Qed.

Lemma inv_initial l sigs : inv (set_listening l (set_signals sigs initial_world)).
Proof.
  split.
  - split; simpl; try (intros; by simplify_map_eq).
    + intros l'. unfold reg. simpl. split.
      * by intros [].
      * by intros [k Hk].
    + eapply owns_ext; [apply owns_empty|]. by intros [].
  - split; simpl; [done|by intros []|done].
  - unfold wf_peers_bound. simpl. done.
Qed.

Lemma step_effect w ev w' : inv w → step w ev w' → ∃ os, effect os w ev w'.
Proof.
  intros Hinv [os [Hen Hos Hok] Hrun]. exists os.
  destruct (handle_event_cases os w ev) as [(w1 & Hr & He)|(code & w1 & Hr & _)];
    try done; congruence.
Qed.

Lemma exit_step_exits w ev code w' : inv w → exit_step w ev code w' → exits w ev code w'.
Proof.
  intros Hinv [os [Hen Hos Hok] Hrun].
  destruct (handle_event_cases os w ev) as [(w1 & Hr & _)|(code' & w1 & Hr & He)];
    try done; congruence.
Qed.

Lemma step_inv w ev w' : inv w → step w ev w' → inv w'.
Proof. intros Hinv [os He]%step_effect; [|done]. by eapply effect_inv. Qed.

Lemma inv_reachable w : reachable w → inv w.
Proof.
  induction 1 as [os w Hos Hmain|]; [|by eapply step_inv].
  rewrite main_run in Hmain by done.
  destruct (os_create_mach_service os MACH_SERVICE_NAME); [|done].
  injection Hmain as <-. apply inv_initial.
Qed.

Lemma execution_reachable w evs w' : reachable w → execution w evs w' → reachable w'.
Proof. intros Hr He. induction He; eauto using reachable. Qed.

(** ** Running an execution *)

Fixpoint exec (evs : list (OS * event)) w : option world :=
  match evs with
  | [] => Some w
  | (os, ev) :: evs' =>
      if decide (delivers os w ev) then
        match handle_event os ev w with
        | Ret _ w' => exec evs' w'
        | _ => None
        end
      else None
  end.

Lemma exec_execution evs w w' : exec evs w = Some w' → execution w evs.*2 w'.
Proof.
  revert w. induction evs as [|[os ev] evs IH]; simpl; intros w.
  - intros [= ->]. constructor.
  - case_decide as Hd; [|done]. destruct (handle_event os ev w) as [[] w1| |] eqn:Hrun; try done.
    intros He. econstructor; [by econstructor|]. by apply IH.
Qed.

End execution.
