(* ===== verification/EffectFacts.v ===== *)
(** * What an event keeps

    How one event changes a registered network, the networks a peer owns and
    the deadlines of idle networks: [effect_objs], [effect_network],
    [effect_held] and [effect_deadline], from which the theorems on whole
    executions are proved by induction. *)

From S2P Require Import Prelude Platform Common World Config Network Xpc Broker.
From S2P Require Import Ownership Invariant Transitions NetworkFacts AcquireFacts ReleaseFacts.
From S2P Require Import BrokerFacts Execution.

Section effect_facts.
Context {xpc : XPC} {cf : CoreFoundation}.
Implicit Types (w : world) (l : loc) (c : conn) (net : network) (ev : event).

(** The name and the objects of a network, with the serialization's content. *)
Definition network_data w l : option ((option string * option obj * option obj) * xpc_object) :=
  net ← heap w !! l;
  s ← net_serialization net;
  cell ← objs w !! s;
  match body cell with BXpc x => Some (net_core net, x) | _ => None end.

Lemma network_data_live ex w l net :
  wf_ex ex w → heap w !! l = Some net → ∃ x, network_data w l = Some (net_core net, x).
Proof.
  intros Hw Hl. destruct (wf_serialization_live _ _ _ _ Hw Hl) as (s & x & Hs & Hx).
  exists x. unfold network_data. rewrite Hl. simpl. rewrite Hs. simpl. by rewrite Hx.
Qed.

(** A live object keeps its content. *)
Definition objs_kept w w' : Prop :=
  ∀ o a b, objs w !! o = Some a → objs w' !! o = Some b → b = a.

Lemma objs_kept_refl w w' : objs w' = objs w → objs_kept w w'.
Proof. intros He o a b. rewrite He. congruence. Qed.

Lemma objs_kept_sent c m w w' : objs_kept w w' → objs_kept w (sent c m w').
Proof. by destruct m. Qed.

Lemma attach_objs_kept c ctx l net w w' : objs_kept w w' → objs_kept w (attach c ctx l net w').
Proof.
  intros Hk o a b Ha. simpl. destruct (net_idle_timer net); [|by apply Hk].
  rewrite lookup_delete. case_decide; [done|]. by apply Hk.
Qed.

Lemma install_objs_kept k name r s x l w :
  objs w !! r = None → objs w !! s = None → objs_kept w (install k name r s x l w).
Proof.
  intros Hr Hs o a b Ha. simpl. rewrite !lookup_insert. repeat case_decide; congruence.
Qed.

Lemma effect_objs os w ev w' : effect os w ev w' → objs_kept w w'.
Proof.
  intros He. destruct He as [| | | |c e name k r w' _ _ _ _ Hout|c e w2 _ _ Hrel|t l k net| |];
    try (by apply objs_kept_refl).
  - unfold connected, clear_shutdown. case_bool_decide; [|by apply objs_kept_refl]. simpl.
    destruct (idle_timer w) as [t|]; [|by apply objs_kept_refl].
    intros o a b Ha. simpl. rewrite lookup_delete. case_decide; [done|]. congruence.
  - by apply objs_kept_sent, objs_kept_refl.
  - apply objs_kept_sent. destruct Hout; try (by apply objs_kept_refl).
    + by apply attach_objs_kept, objs_kept_refl.
    + apply attach_objs_kept. by apply (install_objs_kept k name ref s x l (with_registry w)).
  - intros o a b Ha. pose proof (rel_objs _ _ _ Hrel o) as Hk. simpl in Hk.
    rewrite Ha in Hk. specialize (Hk ltac:(done)).
    assert (objs w2 !! o = Some b → b = a) as Hsame by congruence.
    unfold disconnected. case_bool_decide; simpl; [|done].
    rewrite lookup_insert_ne; [done|]. by apply fresh_obj_ne.
  - intros o a b Ha Hb%net_delete_sub. congruence.
Qed.

(** ** A registered network *)

Definition core_at w l : option (option string * option obj * option obj) :=
  net_core <$> heap w !! l.

Lemma network_data_kept w w' l :
  wf w → wf w' → is_Some (heap w !! l) → core_at w' l = core_at w l → objs_kept w w' →
  network_data w' l = network_data w l.
Proof.
  intros Hw Hw' [net Hl] Hcore Hk. unfold core_at in Hcore. rewrite Hl in Hcore. simpl in Hcore.
  destruct (heap w' !! l) as [net'|] eqn:Hl'; simpl in Hcore; [|done].
  destruct (wf_serialization_live _ _ _ _ Hw Hl) as (s & x & Hs & Hx).
  destruct (wf_serialization_live _ _ _ _ Hw' Hl') as (s' & x' & Hs' & Hx').
  unfold net_core in Hcore. assert (s' = s) as -> by congruence.
  pose proof (Hk _ _ _ Hx Hx') as Heq.
  unfold network_data. rewrite Hl, Hl'. simpl. rewrite Hs, Hs'. simpl. rewrite Hx, Hx'.
  simpl. unfold net_core. congruence.
Qed.

Lemma released_core c w w2 l : released c (one_less w) w2 → core_at w2 l = core_at w l.
Proof.
  intros Hrel. pose proof (rel_cores _ _ _ Hrel) as Hc.
  apply (f_equal (λ m, m !! l)) in Hc. unfold cores in Hc. by rewrite !lookup_fmap in Hc.
Qed.

Lemma disconnected_heap c w2 : heap (disconnected c w2) = heap w2.
Proof. unfold disconnected. by case_bool_decide. Qed.

Lemma disconnected_registry c w2 : registry (disconnected c w2) = registry w2.
Proof. unfold disconnected. by case_bool_decide. Qed.

Lemma connected_heap os c w : heap (connected os c w) = heap w.
Proof.
  unfold connected, clear_shutdown. case_bool_decide; [|done]. simpl. by destruct (idle_timer w).
Qed.

Lemma connected_registry os c w : registry (connected os c w) = registry w.
Proof.
  unfold connected, clear_shutdown. case_bool_decide; [|done]. simpl. by destruct (idle_timer w).
Qed.

Lemma connected_contexts os c w :
  contexts (connected os c w) = <[c := init_context os c]> (contexts w).
Proof.
  unfold connected, clear_shutdown. case_bool_decide; [|done]. simpl. by destruct (idle_timer w).
Qed.

Lemma connected_now os c w : now (connected os c w) = now w.
Proof.
  unfold connected, clear_shutdown. case_bool_decide; [|done]. simpl. by destruct (idle_timer w).
Qed.

Lemma disconnected_now c w2 : now (disconnected c w2) = now w2.
Proof. unfold disconnected. by case_bool_decide. Qed.

Lemma disconnected_contexts c w2 : contexts (disconnected c w2) = delete c (contexts w2).
Proof. unfold disconnected. by case_bool_decide. Qed.

Lemma sent_fields c m w :
  heap (sent c m w) = heap w ∧ registry (sent c m w) = registry w ∧
  contexts (sent c m w) = contexts w ∧ objs (sent c m w) = objs w ∧
  now (sent c m w) = now w.
Proof. by destruct m. Qed.

(** The event that removes network [l]. *)
Definition expires w ev l : Prop :=
  ∃ t net, ev = EvTimer t ∧ heap w !! l = Some net ∧ net_idle_timer net = Some t ∧
           timer_ready w t = Some (RemoveNetwork l).

Lemma acquire_keeps os c name k0 r w w' k l :
  wf w → acquire_outcome os c name k0 w r w' → reg w !! k = Some l →
  reg w' !! k = Some l ∧ core_at w' l = core_at w l.
Proof.
  intros Hw Hout Hk. destruct (wf_registered _ _ _ _ Hw Hk) as [net0 Hl0].
  destruct Hout as [|? l0 net ? ? ? ? Hl| ? l0 ? ? ? ? Hnone ? ? Hfresh| | |]; try done.
  - split; [done|]. unfold core_at. simpl. rewrite lookup_insert.
    case_decide; [subst; by rewrite Hl|done].
  - split.
    + unfold reg. simpl. rewrite lookup_insert_ne; [done|]. intros <-. congruence.
    + unfold core_at. simpl. rewrite !lookup_insert_ne; [done|congruence..].
Qed.

Lemma effect_network os w ev w' k l :
  inv w → effect os w ev w' → reg w !! k = Some l →
  (reg w' !! k = Some l ∧ core_at w' l = core_at w l) ∨ expires w ev l.
Proof.
  intros Hinv He Hk. pose proof (inv_wf _ Hinv) as Hw.
  destruct He as [| | | |c e name k0 r w' _ _ _ _ Hout|c e w2 _ _ Hrel
                 |t l0 k0 net Hk0 Hl0 Ht Hready| |]; try (by left).
  - left. unfold reg, core_at. by rewrite connected_registry, connected_heap.
  - left. unfold reg, core_at. destruct (sent_fields c (error_reply e VMNET_BROKER_INVALID_REQUEST) w)
      as (-> & -> & _). done.
  - left. destruct (acquire_keeps _ _ _ _ _ _ _ _ _ Hw Hout Hk) as [H1 H2].
    unfold reg, core_at in *. destruct (sent_fields c (reply_of e r) w') as (-> & -> & _). done.
  - left. unfold reg, core_at. rewrite disconnected_registry, disconnected_heap.
    rewrite (rel_registry _ _ _ Hrel). split; [done|]. by apply (released_core c w w2).
  - destruct (decide (l0 = l)) as [->|Hn]; [right; by exists t, net|]. left.
    unfold reg, core_at. simpl. rewrite !lookup_delete_ne; [done|congruence|].
    intros ->. congruence.
Qed.

Lemma effect_network_data os w ev w' k l :
  inv w → effect os w ev w' → reg w !! k = Some l → ¬ expires w ev l →
  reg w' !! k = Some l ∧ network_data w' l = network_data w l.
Proof.
  intros Hinv He Hk Hne. pose proof (effect_inv _ _ _ _ Hinv He) as Hinv'.
  destruct (effect_network _ _ _ _ _ _ Hinv He Hk) as [[Hk' Hcore]|]; [|done].
  split; [done|]. apply network_data_kept; try done; [apply Hinv|apply Hinv'| |by eapply effect_objs].
  by eapply wf_registered; [apply Hinv|].
Qed.

(** A network that has a peer has no timer. *)
Lemma held_no_timer w c ctx l net :
  wf w → contexts w !! c = Some ctx → l ∈ held ctx → heap w !! l = Some net →
  ¬ is_Some (net_idle_timer net).
Proof.
  intros Hw Hc Hl Hnet Ht.
  assert (holders (contexts w) l = ∅) as Hempty by (by apply (wf_timer _ _ Hw _ _ Hnet)).
  assert (c ∈ holders (contexts w) l); [|set_solver]. apply elem_of_holders. by exists ctx.
Qed.

(** A network that has peers does not expire. *)
Lemma held_not_expires w ev l c ctx :
  inv w → contexts w !! c = Some ctx → l ∈ held ctx → ¬ expires w ev l.
Proof.
  intros Hinv Hc Hl (t & net & -> & Hnet & Ht & _).
  apply (held_no_timer w c ctx l net); [apply Hinv|done..|by rewrite Ht].
Qed.

(** ** The networks of a peer *)

Definition leaves c ev : Prop := ∃ e, ev = EvPeer c e ∧ connection_invalid e = true.

#[export] Instance leaves_dec c ev : Decision (leaves c ev).
Proof.
  destruct ev as [e|c' e|t|sig|d]; try (right; by intros (? & ? & _)).
  destruct (decide (c' = c ∧ connection_invalid e = true)) as [[-> He]|Hn].
  - left. by exists e.
  - right. intros (e' & [= -> ->] & He). by apply Hn.
Defined.

Lemma attach_held c ctx l net w l' c' ctx' :
  wf w → contexts w !! c = Some ctx → l ∉ held ctx → ctx_full ctx = false →
  contexts w !! c' = Some ctx' → l' ∈ held ctx' →
  ∃ ctx2, contexts (attach c ctx l net w) !! c' = Some ctx2 ∧ l' ∈ held ctx2.
Proof.
  intros Hw Hc Hnot Hfull Hc' Hl'. simpl. destruct (decide (c' = c)) as [->|Hn].
  - rewrite lookup_insert_eq. eexists. split; [done|]. simplify_eq.
    destruct (wf_ctx _ _ Hw _ _ Hc) as [Hok _].
    rewrite held_attach_ctx by (try done; by apply ctx_full_false). set_solver.
  - rewrite lookup_insert_ne by done. eauto.
Qed.

Lemma attach_installed_held c ctx k name r s x l net w l' c' ctx' :
  wf w → contexts w !! c = Some ctx → heap w !! l = None → ctx_full ctx = false →
  contexts w !! c' = Some ctx' → l' ∈ held ctx' →
  ∃ ctx2, contexts (attach c ctx l net (install k name r s x l w)) !! c' = Some ctx2 ∧
          l' ∈ held ctx2.
Proof.
  intros Hw Hc Hl Hfull Hc' Hl'.
  apply (attach_held c ctx l net w l' c' ctx'); try done.
  intros Hin. destruct (wf_held _ _ Hw _ _ _ Hc Hin). congruence.
Qed.

Lemma effect_held os w ev w' c ctx l :
  inv w → effect os w ev w' → contexts w !! c = Some ctx → l ∈ held ctx → ¬ leaves c ev →
  ∃ ctx', contexts w' !! c = Some ctx' ∧ l ∈ held ctx'.
Proof.
  intros Hinv He Hc Hl Hleave. pose proof (inv_wf _ Hinv) as Hw.
  pose proof (wf_with_registry _ _ Hw) as Hw1.
  destruct He as [|e _ Hnew|c0 e|c0 e|c0 e name k0 r w' _ _ _ _ Hout|c0 e w2 _ Hinvalid Hrel
                 |t l0 k0 net| |]; try (by eauto).
  - rewrite connected_contexts, lookup_insert_ne; [eauto|]. intros <-. congruence.
  - destruct (sent_fields c0 (error_reply e VMNET_BROKER_INVALID_REQUEST) w) as (_&_&->&_). eauto.
  - destruct (sent_fields c0 (reply_of e r) w') as (_&_&->&_).
    destruct Hout as [|ctx0 l0 net ? ? ? ? ? Hfull|ctx0 l0 ? ? ? ? ? Hfull| | |]; try (by eauto).
    + by apply (attach_held c0 ctx0 l0 net (with_registry w) l c ctx).
    + by apply (attach_installed_held c0 ctx0 k0 name ref s x l0 _ (with_registry w) l c ctx).
  - rewrite disconnected_contexts. destruct (rel_context _ _ _ Hrel) as (ctx0 & _ & ->).
    assert (c ≠ c0) by (intros ->; apply Hleave; by exists e).
    rewrite lookup_delete_ne, lookup_insert_ne by done. eauto.
Qed.

(** ** Deadlines *)

Definition timer_at w l : option obj := heap w !! l ≫= net_idle_timer.

Lemma idle_deadline_timer_at w l : idle_deadline w l = timer_at w l ≫= timer_start w.
Proof. unfold idle_deadline, timer_at. by destruct (heap w !! l). Qed.

Lemma idle_deadline_kept w w' l :
  wf w → wf w' → objs_kept w w' → timer_at w' l = timer_at w l →
  idle_deadline w' l = idle_deadline w l.
Proof.
  intros Hw Hw' Hk Ht. rewrite !idle_deadline_timer_at, Ht.
  destruct (timer_at w l) as [t|] eqn:Htl; [simpl|done].
  unfold timer_at in Ht, Htl.
  destruct (heap w !! l) as [net|] eqn:Hl, (heap w' !! l) as [net'|] eqn:Hl';
    simplify_eq/=.
  destruct (wf_timer_live _ _ _ _ _ Hw Hl Htl) as (d & _ & Hd).
  destruct (wf_timer_live _ _ _ _ _ Hw' Hl' Ht) as (d' & _ & Hd').
  unfold timer_start. by rewrite Hd, Hd', (Hk _ _ _ Hd Hd').
Qed.

Lemma disconnected_deadline c w w2 l :
  inv w → is_Some (contexts w !! c) → released c (one_less w) w2 → is_Some (heap w !! l) →
  idle_deadline (disconnected c w2) l =
    if decide (l ∈ peer_networks w c ∧ holders (delete c (contexts w)) l = ∅)
    then Some (deadline_from_now w) else idle_deadline w l.
Proof.
  intros Hinv [ctx0 Hc] Hrel Hl.
  assert (idle_deadline (disconnected c w2) l = idle_deadline w2 l) as ->.
  { rewrite !idle_deadline_timer_at. unfold timer_at. rewrite disconnected_heap.
    destruct (heap w2 !! l) as [net|] eqn:Hl2; simpl; [|done].
    destruct (net_idle_timer net) as [t|] eqn:Ht; simpl; [|done].
    destruct (wf_timer_live _ _ _ _ _ (rel_wf _ _ _ Hrel) Hl2 Ht) as (d & _ & Hd).
    unfold timer_start, disconnected. case_bool_decide; simpl; [|done].
    rewrite lookup_insert_ne; [done|]. apply fresh_obj_ne. by rewrite Hd. }
  rewrite (rel_deadline _ _ _ Hrel) by done.
  change (idle_deadline (one_less w) l) with (idle_deadline w l).
  change (peer_networks (one_less w) c) with (peer_networks w c).
  destruct (rel_context _ _ _ Hrel) as (ctx & Hheld & Hctx). simpl in Hctx.
  assert (holders (contexts w2) l = holders (delete c (contexts w)) l) as ->; [|done].
  apply set_eq. intros c'. rewrite !elem_of_holders, Hctx.
  destruct (decide (c' = c)) as [->|Hn].
  - rewrite lookup_insert_eq, lookup_delete_eq. split; [|naive_solver].
    intros (? & [= <-] & Hin). rewrite Hheld in Hin. by apply not_elem_of_nil in Hin.
  - by rewrite lookup_insert_ne, lookup_delete_ne.
Qed.

(** An event leaves the deadline of a network, cancels it, or sets it to
    idle_timeout_sec from now. *)
Lemma effect_deadline os w ev w' k l :
  inv w → effect os w ev w' → reg w !! k = Some l → ¬ expires w ev l →
  idle_deadline w' l = idle_deadline w l ∨ idle_deadline w' l = None ∨
  idle_deadline w' l = Some (deadline_from_now w).
Proof.
  intros Hinv He Hk Hne. pose proof (inv_wf _ Hinv) as Hw.
  pose proof (wf_registered _ _ _ _ Hw Hk) as Hl.
  assert (timer_at w' l = timer_at w l → idle_deadline w' l = idle_deadline w l) as Hsame.
  { apply idle_deadline_kept; [done|apply (effect_inv _ _ _ _ Hinv He)|by eapply effect_objs]. }
  assert (timer_at w' l = None → idle_deadline w' l = None) as Hnone.
  { intros Ht. by rewrite idle_deadline_timer_at, Ht. }
  destruct He as [| | | |c0 e name k0 r w' _ _ _ _ Hout|c0 e w2 Hc _ Hrel
                 |t l0 k0 net Hk0 Hl0 Ht Hready| |]; try (by left).
  - left. apply Hsame. unfold timer_at. by rewrite connected_heap.
  - left. apply Hsame. unfold timer_at.
    by destruct (sent_fields c (error_reply e VMNET_BROKER_INVALID_REQUEST) w) as (-> & _).
  - unfold timer_at in *. destruct (sent_fields c0 (reply_of e r) w') as (Hheap & _).
    rewrite Hheap in *.
    destruct Hout as [|? l0 net|? l0| | |]; simpl in *; try (by left; apply Hsame);
      destruct (decide (l0 = l)) as [->|Hn].
    + right. left. apply Hnone. by rewrite lookup_insert_eq.
    + left. apply Hsame. by rewrite lookup_insert_ne.
    + right. left. apply Hnone. by rewrite lookup_insert_eq.
    + left. apply Hsame. by rewrite !lookup_insert_ne.
  - rewrite (disconnected_deadline c0 w w2 l) by done. case_decide; eauto.
  - left. apply Hsame. unfold timer_at. simpl. rewrite lookup_delete_ne; [done|].
    intros <-. apply Hne. by exists t, net.
Qed.

(** A network expires only when its deadline is past. *)
Lemma expires_deadline w ev l :
  wf w → expires w ev l → ∃ d, idle_deadline w l = Some d ∧ (d ≤ now w)%Z.
Proof.
  intros Hw (t & net & -> & Hl & Ht & Hready).
  destruct (wf_timer_live _ _ _ _ _ Hw Hl Ht) as (d & _ & Hd).
  exists (d + idle_timeout_sec * NSEC_PER_SEC)%Z. split.
  - rewrite idle_deadline_timer_at. unfold timer_at, timer_start. rewrite Hl. simpl.
    rewrite Ht. simpl. by rewrite Hd.
  - unfold timer_ready in Hready. rewrite Hd in Hready. simpl in Hready.
    by case_bool_decide.
Qed.

Lemma effect_now os w ev w' : effect os w ev w' → (now w ≤ now w')%Z.
Proof.
  intros He. destruct He as [| | | |c e name k r w' _ _ _ _ Hout|c e w2 _ _ Hrel| | |];
    try done; try (simpl; lia).
  - by rewrite connected_now.
  - by destruct (sent_fields c (error_reply e VMNET_BROKER_INVALID_REQUEST) w) as (_&_&_&_&->).
  - destruct (sent_fields c (reply_of e r) w') as (_&_&_&_&->). by destruct Hout.
  - rewrite disconnected_now. destruct (rel_frame _ _ _ Hrel) as (_&_&_&_&_&Hn&_).
    rewrite Hn. done.
Qed.

Lemma execution_now w evs w' : inv w → execution w evs w' → (now w ≤ now w')%Z.
Proof.
  intros Hinv He. induction He as [|w ev w1 evs w' Hs He IH]; [done|].
  destruct (step_effect _ _ _ Hinv Hs) as [os Heff].
  pose proof (effect_now _ _ _ _ Heff).
  specialize (IH (step_inv _ _ _ Hinv Hs)). lia.
Qed.
End effect_facts.
