(* ===== verification/Concrete.v ===== *)
(** * A concrete platform

    An instance of the platform interfaces that satisfies their laws: XPC
    objects as a tree type, Core Foundation strings that accept ASCII, and a
    system where every call succeeds.  The witnesses of the development run
    the broker on it. *)

From S2P Require Import Prelude Platform Common World Config Network Xpc Broker.

(** A dictionary is [XDict b], empty and expecting a reply or not, with entries
    set in it. *)
Inductive xobj :=
  | XString (s : string)
  | XInt64 (z : Z)
  | XData (n : nat)
  | XDict (expects_reply : bool)
  | XSet (d : xobj) (k : string) (v : xobj)
  | XError (invalid : bool)
  | XConnection (c : positive).

Fixpoint dict_get (d : xobj) (k : string) : option xobj :=
  match d with
  | XSet d k' v => if decide (k' = k) then Some v else dict_get d k
  | _ => None
  end.

Definition dict_set (d : xobj) (k : string) (v : xobj) : xobj :=
  match d with XDict _ | XSet _ _ _ => XSet d k v | _ => d end.

Fixpoint dict_expects_reply (d : xobj) : bool :=
  match d with
  | XDict b => b
  | XSet d _ _ => dict_expects_reply d
  | _ => false
  end.

#[export] Instance concrete_xpc : XPC := {|
  xpc_object := xobj;
  xpc_get_type o := match o with
    | XDict _ | XSet _ _ _ => XPC_TYPE_DICTIONARY
    | XError _ => XPC_TYPE_ERROR
    | XConnection _ => XPC_TYPE_CONNECTION
    | _ => XPC_TYPE_OTHER
    end;
  xpc_object_eqb a b := match a, b with
    | XError i, XError j => Bool.eqb i j
    | _, _ => false
    end;
  XPC_ERROR_CONNECTION_INVALID := XError true;
  xpc_connection_of o := match o with XConnection c => c | _ => 1%positive end;
  xpc_dictionary_create_empty := XDict false;
  xpc_dictionary_create_reply o :=
    if dict_expects_reply o then Some (XDict false) else None;
  xpc_dictionary_get_string d k := match dict_get d k with
    | Some (XString s) => Some s | _ => None end;
  xpc_dictionary_get_int64 d k := match dict_get d k with
    | Some (XInt64 z) => z | _ => 0%Z end;
  xpc_dictionary_get_value := dict_get;
  xpc_dictionary_set_string d k s := dict_set d k (XString s);
  xpc_dictionary_set_int64 d k z := dict_set d k (XInt64 z);
  xpc_dictionary_set_value := dict_set;
|}.

Lemma dict_get_set (d v : xobj) k k' :
  xpc_get_type d = XPC_TYPE_DICTIONARY →
  dict_get (dict_set d k v) k' = if decide (k = k') then Some v else dict_get d k'.
Proof. by destruct d. Qed.

#[export] Instance concrete_xpc_laws : XPCLaws.
Proof.
  split; simpl; try done; try (by intros []).
  - intros m r. by case_match; intros [= <-].
  - intros m r k. by case_match; intros [= <-].
  - intros m r k. by case_match; intros [= <-].
  - intros d k k' s Hd. rewrite dict_get_set by done. by case_decide.
  - intros d k k' z Hd _. rewrite dict_get_set by done. by case_decide.
  - intros d k k' z Hd Hk. rewrite dict_get_set by done. by rewrite decide_False.
  - intros d k k' v Hd Hk. rewrite dict_get_set by done. by rewrite decide_False.
Qed.

(** A dictionary as the broker receives it, expecting a reply. *)
Fixpoint with_reply (d : xobj) : xobj :=
  match d with
  | XSet d k v => XSet (with_reply d) k v
  | _ => XDict true
  end.

#[export] Instance concrete_delivery : XPCDelivery := {|
  xpc_deliver m := if decide (xpc_get_type m = XPC_TYPE_DICTIONARY) then with_reply m else m;
  xpc_announce := XConnection;
  XPC_ERROR_CONNECTION_INTERRUPTED := XError false;
|}.

Lemma dict_get_with_reply d k : dict_get (with_reply d) k = dict_get d k.
Proof. induction d; simpl; try done. by case_decide. Qed.

Lemma with_reply_expects d : dict_expects_reply (with_reply d) = true.
Proof. by induction d. Qed.

#[export] Instance concrete_delivery_laws : XPCDeliveryLaws.
Proof.
  split; simpl; try done.
  - intros m. case_decide as Hm; [|done]. by destruct m.
  - intros m k. case_decide; [|done]. by rewrite dict_get_with_reply.
  - intros m Hm. rewrite decide_True by done. by rewrite with_reply_expects.
Qed.

Definition is_ascii (c : Ascii.ascii) : bool := Nat.ltb (Ascii.nat_of_ascii c) 128.

Definition ascii_string (s : string) : bool :=
  forallb is_ascii (String.list_ascii_of_string s).

#[export] Instance concrete_cf : CoreFoundation := {|
  CFString := string;
  CFStringCreateWithCString s := if ascii_string s then Some s else None;
|}.

#[export] Instance concrete_cf_laws : CoreFoundationLaws.
Proof.
  split. simpl. intros s1 s2 k. destruct (ascii_string s1), (ascii_string s2); congruence.
Qed.

(** Every call succeeds; a serialization is data numbered [n]. *)
Definition good_os (n : nat) : OS := {|
  os_calloc := true;
  os_strdup := true;
  os_cf_dictionary_create := true;
  os_dispatch_source_create := true;
  os_create_mach_service _ := true;
  os_configuration_create _ := (true, VMNET_SUCCESS);
  os_inet_pton _ := (1, 0)%Z;
  os_set_ipv4_subnet _ _ := VMNET_SUCCESS;
  os_network_create _ _ := (true, VMNET_SUCCESS);
  os_copy_serialization := (Some (XData n), VMNET_SUCCESS);
  os_connection_get_pid c := (100 + Zpos c)%Z;
|}.

(** The same system without a vmnet network to give. *)
Definition no_network_os : OS := {|
  os_calloc := true;
  os_strdup := true;
  os_cf_dictionary_create := true;
  os_dispatch_source_create := true;
  os_create_mach_service _ := true;
  os_configuration_create _ := (true, VMNET_SUCCESS);
  os_inet_pton _ := (1, 0)%Z;
  os_set_ipv4_subnet _ _ := VMNET_SUCCESS;
  os_network_create _ _ := (true, VMNET_SUCCESS);
  os_copy_serialization := (None, VMNET_FAILURE);
  os_connection_get_pid c := (100 + Zpos c)%Z;
|}.

(** The same system without a dispatch source to give. *)
Definition no_timer_os : OS := {|
  os_calloc := true;
  os_strdup := true;
  os_cf_dictionary_create := true;
  os_dispatch_source_create := false;
  os_create_mach_service _ := true;
  os_configuration_create _ := (true, VMNET_SUCCESS);
  os_inet_pton _ := (1, 0)%Z;
  os_set_ipv4_subnet _ _ := VMNET_SUCCESS;
  os_network_create _ _ := (true, VMNET_SUCCESS);
  os_copy_serialization := (Some (XData 0), VMNET_SUCCESS);
  os_connection_get_pid c := (100 + Zpos c)%Z;
|}.

Definition acquire_message (name : string) : xobj :=
  XSet (XSet (XDict true) REQUEST_COMMAND (XString COMMAND_ACQUIRE))
       REQUEST_NETWORK_NAME (XString name).

(** Events of an execution, as the platform delivers them. *)
Definition connect (c : positive) : event := EvListener (XConnection c).
Definition disconnect (c : positive) : event := EvPeer c (XError true).
Definition acquire (c : positive) (name : string) : event := EvPeer c (acquire_message name).
