(* ===== verification/Scenarios.v ===== *)
(** * Executions of the broker on the concrete platform

    The states the witnesses of the development start from: each is what the
    broker runs to from main with a list of events, evaluated by the kernel,
    and is therefore reachable. *)

From S2P Require Import Prelude Platform Common World Config Network Xpc Broker.
From S2P Require Import Ownership Invariant Transitions NetworkFacts AcquireFacts ReleaseFacts.
From S2P Require Import BrokerFacts Execution Concrete.

(** A decidable fact about a state, evaluated. *)
Ltac evaluate := apply (bool_decide_unpack _); vm_compute; exact I.

Definition started : world :=
  match main (good_os 0) initial_world with Ret _ w => w | _ => initial_world end.

(** Where the events lead from [w], every call of the system succeeding. *)
Definition run_from (w : world) (evs : list event) : world :=
  default w (exec (pair (good_os 0) <$> evs) w).

(** They are all delivered, and the broker goes on after each. *)
Definition delivered (w : world) (evs : list event) : Prop :=
  is_Some (exec (pair (good_os 0) <$> evs) w).

Definition after (evs : list event) : world := run_from started evs.

Lemma reachable_started : reachable started.
Proof. apply (reachable_main (good_os 0)); [by split|done]. Qed.

Lemma execution_from w evs : delivered w evs → execution w evs (run_from w evs).
Proof.
  unfold delivered, run_from. intros [w' Hw]. rewrite Hw. simpl.
  apply exec_execution in Hw.
  replace evs with (pair (good_os 0) <$> evs).*2 at 1; [done|].
  rewrite <- list_fmap_compose. apply list_fmap_id.
Qed.

Lemma reachable_after evs : delivered started evs → reachable (after evs).
Proof.
  intros Hd. eapply execution_reachable; [apply reachable_started|]. by apply execution_from.
Qed.

(** The seconds of the clock. *)
Definition seconds (n : Z) : event := EvClock (n * NSEC_PER_SEC).

(** Peers 1 and 2 share a network, peer 2 owns both. *)
Definition sharing_events : list event :=
  [connect 1; acquire 1 "shared"; connect 2; acquire 2 "shared"; acquire 2 "host"].

(** Peer 1 left the network it owned, peer 2 stays. *)
Definition idle_events : list event :=
  [connect 1; connect 2; acquire 1 "shared"; seconds 5; disconnect 1].

(** Every peer left. *)
Definition quiet_events : list event :=
  [connect 1; acquire 1 "shared"; acquire 1 "host"; seconds 7; disconnect 1].

Lemma reachable_sharing : reachable (after sharing_events).
Proof. apply reachable_after. evaluate. Qed.

Lemma reachable_idle : reachable (after idle_events).
Proof. apply reachable_after. evaluate. Qed.

Lemma reachable_quiet : reachable (after quiet_events).
Proof. apply reachable_after. evaluate. Qed.

(** Peer 3 comes, time passes, peers 2 and 3 leave. *)
Definition busy_events : list event :=
  [connect 3; acquire 3 "host"; seconds 500; disconnect 2; EvSignal SIGTERM; disconnect 3].

(** Peer 3 comes and goes while the network is idle. *)
Definition grace_events : list event :=
  [connect 3; seconds 60; acquire 3 "shared"; seconds 10; disconnect 3; seconds 40].

(** The registry key of a name. *)
Definition key (name : string) : @CFString concrete_cf := name.

(** A network of the state, by its key. *)
Definition network_named (w : world) (name : string) : loc :=
  default 1%positive (reg w !! name).

Definition network_at (w : world) (l : loc) : network :=
  default (Network None 0 None None None) (heap w !! l).

Definition context_at (w : world) (c : conn) : broker_context :=
  default (BrokerContext c "" [] 0) (contexts w !! c).

(** The state one event leads to. *)
Definition next (os : OS) (ev : event) (w : world) : world :=
  match handle_event os ev w with Ret _ w' => w' | _ => w end.

(** The handler returns. *)
Definition returns (os : OS) (ev : event) (w : world) : bool :=
  match handle_event os ev w with Ret _ _ => true | _ => false end.

Lemma run_next os ev w :
  returns os ev w = true → handle_event os ev w = Ret () (next os ev w).
Proof. unfold returns, next. by destruct (handle_event os ev w) as [[] w'| |]. Qed.

Lemma step_next os ev w :
  delivers os w ev → returns os ev w = true → step w ev (next os ev w).
Proof. intros Hd Hr. by apply (step_intro _ _ _ os), run_next. Qed.
