(* ===== verification/Safety.v ===== *)
(** * Safety of the broker process

    What holds in every state main can lead to, whatever the peers send, in
    whatever order, and whatever the system answers as [delivers] allows. *)

From S2P Require Import Prelude Platform Common World Config Network Xpc Broker.
From S2P Require Import Ownership Invariant Transitions NetworkFacts AcquireFacts ReleaseFacts.
From S2P Require Import BrokerFacts Execution Concrete Scenarios.

Section safety.
Context {xpc : XPC} {cf : CoreFoundation}.
Implicit Types (w : world) (l : loc) (c : conn) (net : network).

(** C2: what makes the broker fault.  In every reachable state the handler of
    every event that libxpc and libdispatch deliver, where the timers and the
    dictionary the broker asks for are created, ends as follows.  A request for a
    name that Core Foundation cannot represent uses a NULL pointer; a connection
    beyond INT_MAX peers overflows connected_peers; every other event leaves the
    broker in a reachable state or ends the process: no assertion fails, no
    NULL or freed pointer is used, no object is released twice, no array is read
    or written out of bounds, no int overflows, and every loop stops. *)
Theorem broker_faults_exactly os ev w :
  reachable w → enabled w ev → os_ok os →
  match event_fault w ev with
  | Some f => handle_event os ev w = Fault f
  | None => (∃ w', handle_event os ev w = Ret () w' ∧ reachable w') ∨
            (∃ code w', handle_event os ev w = Exit code w')
  end.
Proof.
  intros Hr Hen Hos. pose proof (inv_reachable _ Hr) as Hinv.
  destruct (event_fault w ev) as [f|] eqn:Hf; [by apply event_fault_run|].
  apply event_fault_ok in Hf.
  destruct (handle_event_cases os w ev Hinv Hos Hen Hf)
    as [(w' & Hrun & _)|(code & w' & Hrun & _)]; [left|right; eauto].
  exists w'. split; [done|]. eapply reachable_step; [done|by econstructor].
Qed.

(** C17: every object has one owner, of its kind.  In a reachable state each live
    object is held with exactly one reference by exactly one field of the
    broker, and each field that holds an object holds a live one of the kind of
    the field: a network's ref a vmnet network, its serialization an XPC object,
    its idle_timer a resumed timer that removes that network, and the broker's
    idle_timer one that shuts it down: nothing leaks and nothing dangles. *)
Theorem objects_owned_once w :
  reachable w →
  (∀ o cell, objs w !! o = Some cell →
     rc cell = 1%nat ∧ ∃ h, owned w h = Some o ∧ ∀ h', owned w h' = Some o → h' = h) ∧
  (∀ h o, owned w h = Some o →
     ∃ b, objs w !! o = Some (Cell 1 b) ∧ held_body (now w) h b).
Proof.
  intros Hr. pose proof (wf_objs _ _ (inv_wf _ (inv_reachable _ Hr))) as Hown.
  split; [|apply (own_live _ _ _ Hown)].
  intros o cell Ho. destruct (own_all _ _ _ Hown o) as [h Hh]; [by rewrite Ho|].
  destruct (own_live _ _ _ Hown h o Hh) as (b & Hb & _). simplify_eq. split; [done|].
  exists h. split; [done|]. intros h' Hh'. by apply (own_inj _ _ _ Hown h' h o).
Qed.

(** C21: the peers of a network are counted exactly.  net->peers is the number of
    connected peers whose context lists the network, and a context lists a
    network at most once and at most MAX_PEER_NETWORKS of them, all of them
    alive. *)
Theorem peers_counted_exactly w :
  reachable w →
  (∀ l net, heap w !! l = Some net →
     net_peers net = Z.of_nat (size (holders (contexts w) l))) ∧
  (∀ c ctx, contexts w !! c = Some ctx →
     ctx_network_count ctx = Z.of_nat (length (held ctx)) ∧
     (length (held ctx) ≤ MAX_PEER_NETWORKS)%nat ∧ NoDup (held ctx) ∧
     ∀ l, l ∈ held ctx → is_Some (heap w !! l)).
Proof.
  intros Hr%inv_reachable%inv_wf. split; [apply (wf_peers _ _ Hr)|].
  intros c ctx Hc. destruct (wf_ctx _ _ Hr _ _ Hc) as [[] _].
  repeat split; try done. intros l. by apply (wf_held _ _ Hr c ctx).
Qed.

(** C22: the registry holds each network under its name.  The values of the
    registry are exactly the live networks, each under the key of its name, so
    that a name has at most one network and a network has one name; each has a
    vmnet reference and a serialization. *)
Theorem registry_indexes_networks w :
  reachable w →
  (∀ l, is_Some (heap w !! l) ↔ ∃ k, reg w !! k = Some l) ∧
  (∀ k l, reg w !! k = Some l → ∃ net name s x,
     heap w !! l = Some net ∧ net_name net = Some name ∧
     CFStringCreateWithCString name = Some k ∧ is_Some (net_ref net) ∧
     net_serialization net = Some s ∧ objs w !! s = Some (Cell 1 (BXpc x))).
Proof.
  intros Hr%inv_reachable%inv_wf. split; [apply (wf_reg _ _ Hr)|].
  intros k l Hk. destruct (wf_key _ _ Hr _ _ Hk) as (net & name & Hl & Hname & Hkey).
  destruct (wf_full _ _ Hr _ _ Hl) as [Href _].
  destruct (wf_serialization_live _ _ _ _ Hr Hl) as (s & x & Hs & Hx).
  by exists net, name, s, x.
Qed.

(** C23: a network is scheduled for removal exactly while it has no peers.  Its
    timer then runs the removal of that network, no later than two minutes from
    now, unless it is already due. *)
Theorem unused_networks_scheduled w l net :
  reachable w → heap w !! l = Some net →
  (is_Some (net_idle_timer net) ↔ net_peers net = 0%Z) ∧
  ∀ t, net_idle_timer net = Some t →
    ∃ d, (d ≤ now w)%Z ∧
      objs w !! t = Some (Cell 1 (BSource (idle_source (RemoveNetwork l) d))).
Proof.
  intros Hr%inv_reachable%inv_wf Hl. split.
  - rewrite (wf_timer _ _ Hr _ _ Hl), (wf_peers _ _ Hr _ _ Hl) by done.
    pose proof (size_empty_iff (holders (contexts w) l)) as Hsize. unfold_leibniz.
    rewrite <- Hsize. lia.
  - intros t. by apply (wf_timer_live _ _ _ _ _ Hr).
Qed.

(** C25: the process never exits under its peers, and exits clean.  A handler
    of the main queue that ends the process ends it successfully only when no peer
    is connected, with every network freed and every object released but the
    shutdown timer, which lives until the process is gone when it was armed; and
    with EXIT_FAILURE only when the listener failed, in the state before. *)
Theorem exit_is_clean w ev code w' :
  reachable w → exit_step w ev code w' →
  (code = EXIT_SUCCESS ∧ contexts w = ∅ ∧ heap w' = ∅ ∧ registry w' = None ∧
   ∀ o, is_Some (objs w' !! o) ↔ idle_timer w = Some o) ∨
  (code = EXIT_FAILURE ∧ w' = w ∧
   ∃ e, ev = EvListener e ∧ xpc_get_type e = XPC_TYPE_ERROR).
Proof.
  intros Hr He%exit_step_exits; [|by apply inv_reachable].
  inversion He as [e|t w0 ? ? ? ? ? Hi Hsd|sig ? ? Hsd]; subst; [right; eauto|left..];
    destruct Hsd; rewrite ?Hi in *; done.
Qed.

(** The order in which the registry's values are released does not matter: Core
    Foundation calls registry_release on them in an order of its own, and from a
    reachable state every order leaves the same state as the one release_registry
    is modelled with. *)
Lemma release_order_irrelevant w ls :
  reachable w → ls ≡ₚ (map_to_list (reg w)).*2 →
  release_values ls w = release_values (map_to_list (reg w)).*2 w.
Proof.
  intros Hr%inv_reachable%inv_wf Hls. symmetry in Hls.
  apply release_values_perm; [by eapply wf_objs_ok| | |done].
  - apply values_NoDup. intros. by eapply wf_key_inj.
  - intros l Hl%elem_of_values. by apply (wf_reg _ _ Hr).
Qed.

(** C38: SIGINT and SIGTERM do nothing while a peer is connected, and otherwise
    free the networks and end the process. *)
Theorem signals_wait_for_peers sig w :
  reachable w →
  (contexts w ≠ ∅ → signal_handler sig w = Ret () w) ∧
  (contexts w = ∅ → ∃ w', signal_handler sig w = Exit EXIT_SUCCESS w' ∧ shut_down w w').
Proof.
  intros Hr%inv_reachable. pose proof (peers_positive w (inv_broker _ Hr)) as Hpos.
  unfold signal_handler. split; intros Hc; mstep.
  - rewrite bool_decide_true by (by apply Hpos). done.
  - rewrite bool_decide_false by (rewrite Hpos; naive_solver).
    pose proof (inv_wf _ Hr) as Hw.
    destruct (shutdown_networks_run w) as (w' & Hrun & Hsd);
      [by eapply wf_objs_ok|by eapply wf_registry_ok|].
    exists w'. by rewrite (bind_run _ _ _ _ _ Hrun).
Qed.

(** C36: a name that is not UTF-8 crashes the broker.  registry_get passes the
    NULL that CFStringCreateWithCString answers to CFDictionaryGetValue, so a
    well-formed request whose name Core Foundation cannot represent faults,
    whichever peer sends it. *)
Theorem bad_name_crashes os c e name w :
  os_ok os → is_Some (contexts w !! c) → xpc_get_type e = XPC_TYPE_DICTIONARY →
  request_name e = Some name → CFStringCreateWithCString name = None →
  handle_event os (EvPeer c e) w = Fault NullDeref.
Proof. intros Hos _. by apply bad_name_run. Qed.

Lemma remove_later_fails os l net w :
  os_dispatch_source_create os = false → heap w !! l = Some net → net_idle_timer net = None →
  remove_later os l w = Fault (AssertFailed "failed to create idle timer").
Proof.
  intros Hos Hl Ht. unfold remove_later, dispatch_source_create_timer.
  mstep. rewrite Ht. mstep. rewrite Hos. mstep. by mstep.
Qed.

Lemma shutdown_later_fails os w :
  os_dispatch_source_create os = false → idle_timer w = None →
  shutdown_later os w = Fault (AssertFailed "failed to create idle timer").
Proof.
  intros Hos Ht. unfold shutdown_later, dispatch_source_create_timer.
  mstep. rewrite Ht. mstep. rewrite Hos. mstep. by mstep.
Qed.

(** The only peer's networks have no other users. *)
Lemma only_peer_count w c ctx l net :
  wf w → contexts w = {[c := ctx]} → l ∈ held ctx → heap w !! l = Some net → net_peers net = 1%Z.
Proof.
  intros Hw Hc Hl Hnet. rewrite (wf_peers _ _ Hw _ _ Hnet).
  assert (holders (contexts w) l = {[c]}) as ->; [|by rewrite size_singleton].
  rewrite Hc. apply set_eq. intros c'. rewrite elem_of_holders, elem_of_singleton. split.
  - intros (ctx' & [-> _]%lookup_singleton_Some & _). done.
  - intros ->. exists ctx. by rewrite lookup_singleton_eq.
Qed.

(** What the last event of a connection runs, the peer being counted out. *)
Definition leave_run os c : M world () :=
  release_peer_networks os c;;
  n ← gets connected_peers;
  if bool_decide (n = 0)%Z then xpc_transaction_end;; shutdown_later os else mret ().

Lemma disconnect_leave_run os c e f w :
  inv w → is_Some (contexts w !! c) → connection_invalid e = true →
  leave_run os c (one_less w) = Fault f → handle_event os (EvPeer c e) w = Fault f.
Proof.
  intros [_ [Hp _ _] Hb] Hc He Hrun. unfold connection_invalid in He.
  apply andb_true_iff in He as [H1%bool_decide_eq_true H2].
  cbn [handle_event]. unfold peer_event_handler.
  rewrite decide_True by done. rewrite H2. simpl. unfold on_peer_disconnect.
  rewrite bind_assoc. mstep. rewrite bind_assoc.
  erewrite bind_run by (apply c_int_run; unfold wf_peers_bound, INT_MIN, INT_MAX in *; lia).
  rewrite bind_assoc. mstep. fold (one_less w). fold (leave_run os c).
  unfold mbind at 1, M_bind at 1. by rewrite Hrun.
Qed.

Lemma leave_run_idle os c ctx w :
  ctx_ok ctx → contexts w !! c = Some ctx → held ctx = [] → connected_peers w = 0%Z →
  idle_timer w = None → os_dispatch_source_create os = false →
  leave_run os c w = Fault (AssertFailed "failed to create idle timer").
Proof.
  intros Hok Hc Hheld Hp Hi Hos. pose proof (ch_count _ _ Hok) as Hcount. rewrite Hheld in Hcount.
  unfold leave_run. erewrite bind_run.
  2:{ unfold release_peer_networks. cbn [release_loop MAX_PEER_NETWORKS].
      erewrite bind_run by (by apply context_load_run). by rewrite bool_decide_true. }
  mstep. rewrite bool_decide_true by done. unfold xpc_transaction_end. mstep.
  by apply shutdown_later_fails.
Qed.

Lemma leave_run_last os c ctx l ls net w :
  wf w → wf_peers_bound w → contexts w !! c = Some ctx → held ctx = ls ++ [l] →
  heap w !! l = Some net → net_peers net = 1%Z → os_dispatch_source_create os = false →
  leave_run os c w = Fault (AssertFailed "failed to create idle timer").
Proof.
  intros Hw Hb Hc Hheld Hl Hone Hos. destruct (wf_ctx _ _ Hw _ _ Hc) as [Hok _].
  pose proof (ch_count _ _ Hok) as Hcount. rewrite Hheld, length_app in Hcount. simpl in Hcount.
  destruct (wf_detach c ctx l net ls w Hw Hc Hl Hheld) as [_ Hidle].
  unfold leave_run, release_peer_networks. cbn [release_loop MAX_PEER_NETWORKS].
  rewrite bind_assoc. erewrite bind_run by (by apply context_load_run).
  rewrite bool_decide_false by lia. rewrite bind_assoc. unfold mbind at 1, M_bind at 1.
  rewrite (release_last_network_detach os c ctx l ls net w) by done.
  rewrite bool_decide_true by lia.
  by erewrite remove_later_fails by (try done; apply lookup_insert_eq).
Qed.

(** C37: without a timer the broker aborts.  When the last peer leaves and
    dispatch_source_create answers NULL, an assertion fails: in remove_later
    where the peer had a network, in shutdown_later where it had none. *)
Theorem timer_failure_aborts os c e ctx w :
  reachable w → contexts w = {[c := ctx]} → connection_invalid e = true →
  os_dispatch_source_create os = false →
  handle_event os (EvPeer c e) w = Fault (AssertFailed "failed to create idle timer").
Proof.
  intros Hr Hctx He Hos. pose proof (inv_reachable _ Hr) as Hinv.
  destruct Hinv as [Hw [Hp Ht _] Hb].
  assert (contexts w !! c = Some ctx) as Hc by (rewrite Hctx; apply lookup_singleton_eq).
  rewrite Hctx, map_size_singleton in Hp.
  assert (wf (one_less w)) as Hw1 by (by apply (wf_same w)).
  apply disconnect_leave_run; [by apply inv_reachable|by rewrite Hc|done|].
  destruct (list_snoc_cases (held ctx)) as [Hheld|(ls & l & Hheld)].
  - eapply leave_run_idle; [apply (wf_ctx _ _ Hw _ _ Hc)|done|done| | |done].
    + simpl. lia.
    + simpl. apply eq_None_not_Some. intros Hi%Ht. rewrite Hi in Hc.
      by rewrite lookup_empty in Hc.
  - destruct (wf_held _ _ Hw c ctx l Hc) as [net Hl]; [rewrite Hheld; set_solver|].
    eapply leave_run_last; try done. apply (only_peer_count w c ctx l net); try done.
    rewrite Hheld. set_solver.
Qed.
End safety.

(** ** The theorems on executions of the concrete platform *)

(** A name whose one byte, 0xff, is not UTF-8. *)
Definition bad_name : string := String (Ascii.ascii_of_nat 255) "".

Lemma broker_faults_exactly_witness :
  handle_event (good_os 0) (acquire 1 bad_name) (after sharing_events) = Fault NullDeref ∧
  event_fault (after sharing_events) (disconnect 2) = None ∧
  ((∃ w', handle_event (good_os 0) (disconnect 2) (after sharing_events) = Ret () w' ∧
          reachable w') ∨
   (∃ code w', handle_event (good_os 0) (disconnect 2) (after sharing_events) = Exit code w')).
Proof.
  split; [|split; [by vm_compute|]].
  - apply (broker_faults_exactly (good_os 0) (acquire 1 bad_name) (after sharing_events));
      [apply reachable_sharing|evaluate|by split].
  - apply (broker_faults_exactly (good_os 0) (disconnect 2) (after sharing_events));
      [apply reachable_sharing|evaluate|by split].
Defined.

Lemma objects_owned_once_witness :
  is_Some (objs (after sharing_events) !! 2%positive) ∧
  (∀ o cell, objs (after sharing_events) !! o = Some cell →
     rc cell = 1%nat ∧ ∃ h, owned (after sharing_events) h = Some o ∧
       ∀ h', owned (after sharing_events) h' = Some o → h' = h) ∧
  (∀ h o, owned (after sharing_events) h = Some o →
     ∃ b, objs (after sharing_events) !! o = Some (Cell 1 b) ∧
          held_body (now (after sharing_events)) h b).
Proof.
  split; [evaluate|]. apply (objects_owned_once (after sharing_events)), reachable_sharing.
Defined.

Lemma peers_counted_exactly_witness :
  let w := after sharing_events in
  net_peers (network_at w (network_named w "shared")) = 2%Z ∧
  (∀ l net, heap w !! l = Some net →
     net_peers net = Z.of_nat (size (holders (contexts w) l))) ∧
  (∀ c ctx, contexts w !! c = Some ctx →
     ctx_network_count ctx = Z.of_nat (length (held ctx)) ∧
     (length (held ctx) ≤ MAX_PEER_NETWORKS)%nat ∧ NoDup (held ctx) ∧
     ∀ l, l ∈ held ctx → is_Some (heap w !! l)).
Proof.
  split; [by vm_compute|].
  apply (peers_counted_exactly (after sharing_events)), reachable_sharing.
Defined.

Lemma registry_indexes_networks_witness :
  let w := after sharing_events in
  is_Some (reg w !! (key "host")) ∧
  (∀ l, is_Some (heap w !! l) ↔ ∃ k, reg w !! k = Some l) ∧
  (∀ k l, reg w !! k = Some l → ∃ net name s x,
     heap w !! l = Some net ∧ net_name net = Some name ∧
     CFStringCreateWithCString name = Some k ∧ is_Some (net_ref net) ∧
     net_serialization net = Some s ∧ objs w !! s = Some (Cell 1 (BXpc x))).
Proof.
  split; [evaluate|].
  apply (registry_indexes_networks (after sharing_events)), reachable_sharing.
Defined.

Lemma unused_networks_scheduled_witness :
  let w := after idle_events in
  let l := network_named w "shared" in
  let net := network_at w l in
  net_peers net = 0%Z ∧
  (is_Some (net_idle_timer net) ↔ net_peers net = 0%Z) ∧
  ∀ t, net_idle_timer net = Some t →
    ∃ d, (d ≤ now w)%Z ∧
      objs w !! t = Some (Cell 1 (BSource (idle_source (RemoveNetwork l) d))).
Proof.
  split; [by vm_compute|].
  apply (unused_networks_scheduled (after idle_events)); [apply reachable_idle|by vm_compute].
Defined.

(** The state after the event that ends the process. *)
Definition exited (os : OS) (ev : event) (w : world) : world :=
  match handle_event os ev w with Exit _ w' => w' | _ => w end.

Lemma exit_step_quiet :
  exit_step (after quiet_events) (EvSignal SIGTERM) EXIT_SUCCESS
            (exited (good_os 0) (EvSignal SIGTERM) (after quiet_events)).
Proof. apply (exit_step_intro _ _ _ _ (good_os 0)); [evaluate|by vm_compute]. Qed.

Lemma exit_is_clean_witness :
  let w := after quiet_events in
  let w' := exited (good_os 0) (EvSignal SIGTERM) w in
  heap w ≠ ∅ ∧
  ((EXIT_SUCCESS = EXIT_SUCCESS ∧ contexts w = ∅ ∧ heap w' = ∅ ∧ registry w' = None ∧
    ∀ o, is_Some (objs w' !! o) ↔ idle_timer w = Some o) ∨
   (EXIT_SUCCESS = EXIT_FAILURE ∧ w' = w ∧
    ∃ e, EvSignal SIGTERM = EvListener e ∧ xpc_get_type e = XPC_TYPE_ERROR)).
Proof.
  split; [by vm_compute|].
  apply (exit_is_clean (after quiet_events) (EvSignal SIGTERM));
    [apply reachable_quiet|apply exit_step_quiet].
Defined.

Lemma signals_wait_for_peers_witness :
  let w := after quiet_events in
  contexts w = ∅ ∧
  (contexts w ≠ ∅ → signal_handler SIGINT w = Ret () w) ∧
  (contexts w = ∅ → ∃ w', signal_handler SIGINT w = Exit EXIT_SUCCESS w' ∧ shut_down w w').
Proof.
  split; [by vm_compute|].
  apply (signals_wait_for_peers SIGINT (after quiet_events)), reachable_quiet.
Defined.

Lemma bad_name_crashes_witness :
  handle_event (good_os 0) (acquire 1 bad_name) (after sharing_events) = Fault NullDeref.
Proof.
  apply (bad_name_crashes (good_os 0) 1 (acquire_message bad_name) bad_name (after sharing_events));
    [by split|evaluate|done|done|done].
Defined.

Lemma timer_failure_aborts_witness :
  let w := after [connect 1; acquire 1 "shared"] in
  contexts w = {[1%positive := context_at w 1]} ∧
  handle_event no_timer_os (disconnect 1) w =
    Fault (AssertFailed "failed to create idle timer").
Proof.
  assert (contexts (after [connect 1; acquire 1 "shared"]) =
          {[1%positive := context_at (after [connect 1; acquire 1 "shared"]) 1]}) as Hc
    by (by vm_compute).
  split; [exact Hc|].
  apply (timer_failure_aborts no_timer_os 1 (XError true)
           (context_at (after [connect 1; acquire 1 "shared"]) 1)
           (after [connect 1; acquire 1 "shared"])); [|exact Hc|done|done].
  apply reachable_after. evaluate.
Defined.
