(* ===== verification/Lifetime.v ===== *)
(** * How long a network lives

    The broker's promise to its peers: a network stays as it is while a peer
    that acquired it is connected, and for idle_timeout_sec seconds after the
    last one left; then it is removed. *)

From S2P Require Import Prelude Platform Common World Config Network Xpc Broker.
From S2P Require Import Ownership Invariant Transitions NetworkFacts AcquireFacts ReleaseFacts.
From S2P Require Import BrokerFacts Execution EffectFacts Concrete Scenarios.

Section lifetime.
Context {xpc : XPC} {cf : CoreFoundation}.
Implicit Types (w : world) (l : loc) (c : conn) (net : network) (ev : event).

Lemma step_held w ev w' k c ctx l :
  inv w → step w ev w' → contexts w !! c = Some ctx → l ∈ held ctx → ¬ leaves c ev →
  reg w !! k = Some l →
  (∃ ctx', contexts w' !! c = Some ctx' ∧ l ∈ held ctx') ∧
  reg w' !! k = Some l ∧ network_data w' l = network_data w l.
Proof.
  intros Hinv Hs Hc Hl Hleave Hk. destruct (step_effect _ _ _ Hinv Hs) as [os He]. split.
  - by eapply effect_held.
  - eapply effect_network_data; try done. by eapply held_not_expires.
Qed.

Lemma execution_held w evs w' k c ctx l :
  inv w → execution w evs w' → contexts w !! c = Some ctx → l ∈ held ctx →
  (∀ ev, ev ∈ evs → ¬ leaves c ev) → reg w !! k = Some l →
  (∃ ctx', contexts w' !! c = Some ctx' ∧ l ∈ held ctx') ∧
  reg w' !! k = Some l ∧ network_data w' l = network_data w l.
Proof.
  intros Hinv He. revert ctx. induction He as [w|w ev w1 evs w' Hs He IH]; intros ctx Hc Hl Hev Hk.
  - eauto.
  - destruct (step_held w ev w1 k c ctx l) as ((ctx1 & Hc1 & Hl1) & Hk1 & Hd1); try done.
    { apply Hev. set_solver. }
    destruct (IH (step_inv _ _ _ Hinv Hs) ctx1) as (Hctx & Hk' & Hd'); try done.
    { intros ev' Hin. apply Hev. set_solver. }
    split; [done|]. split; [done|congruence].
Qed.

(** C8: a network a peer acquired stays while the peer is connected.  However
    long the broker runs and whatever the other peers, the timers and the
    signals do, as long as the connection of peer [c] is not closed the peer
    owns the network, its name finds the same network, and its vmnet reference
    and serialization are the same objects with the same content. *)
Theorem held_network_survives w evs w' k c ctx l :
  reachable w → execution w evs w' → contexts w !! c = Some ctx → l ∈ held ctx →
  reg w !! k = Some l → (∀ ev, ev ∈ evs → ¬ leaves c ev) →
  (∃ ctx', contexts w' !! c = Some ctx' ∧ l ∈ held ctx') ∧
  reg w' !! k = Some l ∧ network_data w' l = network_data w l.
Proof. intros Hr%inv_reachable He Hc Hl Hk Hev. by apply (execution_held w evs w' k c ctx l). Qed.

(** The network [l] of key [k] is not removed before [d]. *)
Definition kept_until k l (d : Z) w : Prop :=
  reg w !! k = Some l ∧ (d ≤ deadline_from_now w)%Z ∧
  ∀ d', idle_deadline w l = Some d' → (d ≤ d')%Z.

Lemma step_kept_until k l d w ev w' :
  inv w → step w ev w' → kept_until k l d w → (now w < d)%Z →
  kept_until k l d w' ∧ network_data w' l = network_data w l.
Proof.
  intros Hinv Hs (Hk & Hd & Hdead) Hnow. destruct (step_effect _ _ _ Hinv Hs) as [os He].
  assert (¬ expires w ev l) as Hne.
  { intros (d' & Hd' & Hle)%expires_deadline; [|apply Hinv]. specialize (Hdead _ Hd'). lia. }
  destruct (effect_network_data _ _ _ _ _ _ Hinv He Hk Hne) as [Hk' Hdata].
  pose proof (effect_now _ _ _ _ He). unfold kept_until, deadline_from_now in *.
  split; [|done]. split; [done|]. split; [lia|]. intros d' Hd'.
  destruct (effect_deadline _ _ _ _ _ _ Hinv He Hk Hne) as [H1|[H1|H1]]; rewrite H1 in Hd'.
  - by apply Hdead.
  - done.
  - injection Hd' as <-. done.
Qed.

Lemma execution_idle w evs w' k l d :
  reachable w → execution w evs w' → reg w !! k = Some l → idle_deadline w l = Some d →
  (now w' < d)%Z →
  reg w' !! k = Some l ∧ network_data w' l = network_data w l.
Proof.
  intros Hr%inv_reachable He Hk Hd Hnow.
  assert (kept_until k l d w) as Hkept.
  { split; [done|]. split; [|naive_solver].
    rewrite idle_deadline_timer_at in Hd. unfold timer_at, timer_start in Hd.
    destruct (heap w !! l) as [net|] eqn:Hl; simpl in Hd; [|done].
    destruct (net_idle_timer net) as [t|] eqn:Ht; simpl in Hd; [|done].
    destruct (wf_timer_live _ _ _ _ _ (inv_wf _ Hr) Hl Ht) as (d0 & Hle & Ho).
    rewrite Ho in Hd. simpl in Hd. injection Hd as <-. unfold deadline_from_now. lia. }
  clear Hk Hd. induction He as [w|w ev w1 evs w' Hs He IH]; [by destruct Hkept|].
  pose proof (step_inv _ _ _ Hr Hs) as Hinv1. pose proof (execution_now _ _ _ Hinv1 He).
  destruct (step_effect _ _ _ Hr Hs) as [os Heff]. pose proof (effect_now _ _ _ _ Heff).
  destruct (step_kept_until k l d w ev w1 Hr Hs Hkept) as [Hkept1 Hdata1]; [lia|].
  destruct IH as [Hk' Hdata]; try done. split; [done|congruence].
Qed.

(** C10: an idle network survives its grace period.  A network due for removal
    at [d] is found by its name, with the same vmnet reference and the same
    serialization, as long as the broker goes on and the clock has not reached
    [d]: whatever the peers do, also when they acquire it and leave it again
    meanwhile.  (A termination signal without peers ends the broker and frees
    the network earlier.) *)
Theorem idle_network_survives_grace w evs w' k l d :
  reachable w → execution w evs w' → reg w !! k = Some l → idle_deadline w l = Some d →
  (now w' < d)%Z →
  reg w' !! k = Some l ∧ network_data w' l = network_data w l.
Proof. by apply execution_idle. Qed.

(** C11: an idle network is removed when its grace period is over.  Once the
    clock has reached the deadline of a network, its timer can fire, and when it
    does the network, its registry entry, its vmnet reference, its serialization
    and its timer are gone; the other networks and the peers are untouched. *)
Theorem idle_network_expires w k l d :
  reachable w → reg w !! k = Some l → idle_deadline w l = Some d → (d ≤ now w)%Z →
  ∃ t net, heap w !! l = Some net ∧ enabled w (EvTimer t) ∧
    ∀ os, ∃ w', handle_event os (EvTimer t) w = Ret () w' ∧
      reg w' = delete k (reg w) ∧ heap w' = delete l (heap w) ∧
      objs w' = net_delete net (objs w) ∧
      contexts w' = contexts w ∧ outbox w' = outbox w.
Proof.
  intros Hr%inv_reachable Hk Hd Hnow. pose proof (inv_wf _ Hr) as Hw.
  destruct (wf_registered _ _ _ _ Hw Hk) as [net Hl].
  rewrite idle_deadline_timer_at in Hd. unfold timer_at, timer_start in Hd.
  rewrite Hl in Hd. simpl in Hd.
  destruct (net_idle_timer net) as [t|] eqn:Ht; simpl in Hd; [|done].
  destruct (wf_timer_live _ _ _ _ _ Hw Hl Ht) as (d0 & Hle & Ho).
  rewrite Ho in Hd. simpl in Hd. injection Hd as <-.
  assert (timer_ready w t = Some (RemoveNetwork l)) as Hready.
  { unfold timer_ready. rewrite Ho. simpl. by rewrite bool_decide_true. }
  exists t, net. split; [done|]. split; [simpl; by rewrite Hready|]. intros os.
  exists (drop k l net w). split; [|done]. cbn [handle_event]. rewrite Hready.
  erewrite bind_run by (by eapply timer_fired_run).
  by apply remove_network_handler_run.
Qed.

(** C26: an idle broker shuts down.  When no peer is connected and the shutdown
    timer is due, it can fire, and it frees the networks and ends the process
    successfully. *)
Theorem idle_broker_exits w t d :
  reachable w → idle_timer w = Some t → timer_start w t = Some d → (d ≤ now w)%Z →
  contexts w = ∅ ∧ enabled w (EvTimer t) ∧
  ∀ os, ∃ w', handle_event os (EvTimer t) w = Exit EXIT_SUCCESS w' ∧ heap w' = ∅ ∧
    registry w' = None ∧ ∀ o, is_Some (objs w' !! o) → o = t.
Proof.
  intros Hr%inv_reachable Hi Hd Hnow. pose proof (inv_wf _ Hr) as Hw.
  destruct (wf_shutdown_live _ _ _ Hw Hi) as (d0 & Hle & Ho).
  unfold timer_start in Hd. rewrite Ho in Hd. simpl in Hd. injection Hd as <-.
  assert (timer_ready w t = Some IdleShutdown) as Hready.
  { unfold timer_ready. rewrite Ho. simpl. by rewrite bool_decide_true. }
  split; [apply (bo_timer _ (inv_broker _ Hr)); by rewrite Hi|].
  split; [simpl; by rewrite Hready|]. intros os.
  destruct (handle_timer_cases os w t IdleShutdown Hr Hready)
    as [(w' & _ & He)|(code & w' & Hrun & He)].
  - inversion He; congruence.
  - inversion He as [|? w0 ? ? ? ? ? Hi0 Hsd|]; subst. exists w'. split; [done|].
    destruct Hsd as [? ? Hobjs ? ?]. repeat split; try done.
    intros o. rewrite Hobjs, Hi0, Hi. congruence.
Qed.
End lifetime.

(** ** The theorems on executions of the concrete platform *)

Lemma held_network_survives_witness :
  let w := after sharing_events in
  let w' := run_from w busy_events in
  let l := network_named w "shared" in
  (length (elements (holders (contexts w) l)) = 2%nat ∧
   length (elements (holders (contexts w') l)) = 1%nat) ∧
  (∃ ctx', contexts w' !! 1%positive = Some ctx' ∧ l ∈ held ctx') ∧
  reg w' !! (key "shared") = Some l ∧ network_data w' l = network_data w l.
Proof.
  split; [by vm_compute|].
  apply (held_network_survives (after sharing_events) busy_events
    (run_from (after sharing_events) busy_events) (key "shared") 1
    (context_at (after sharing_events) 1)).
  - apply reachable_sharing.
  - apply execution_from. evaluate.
  - by vm_compute.
  - evaluate.
  - by vm_compute.
  - apply Forall_forall. evaluate.
Defined.

Lemma idle_network_survives_grace_witness :
  let w := after idle_events in
  let w' := run_from w grace_events in
  let l := network_named w "shared" in
  idle_deadline w l = Some (125 * NSEC_PER_SEC)%Z ∧ now w' = (115 * NSEC_PER_SEC)%Z ∧
  reg w' !! (key "shared") = Some l ∧ network_data w' l = network_data w l.
Proof.
  split; [by vm_compute|]. split; [by vm_compute|].
  apply (idle_network_survives_grace (after idle_events) grace_events
    (run_from (after idle_events) grace_events) (key "shared")
    (network_named (after idle_events) "shared") (125 * NSEC_PER_SEC)%Z).
  - apply reachable_idle.
  - apply execution_from. evaluate.
  - by vm_compute.
  - by vm_compute.
  - by vm_compute.
Defined.

(** Two minutes after the peers left. *)
Definition expired : world := run_from (after idle_events) [seconds 120].
Definition expired_quiet : world := run_from (after quiet_events) [seconds 120].

Lemma reachable_expired : reachable expired.
Proof.
  eapply execution_reachable; [apply reachable_idle|]. apply execution_from. evaluate.
Qed.

Lemma reachable_expired_quiet : reachable expired_quiet.
Proof.
  eapply execution_reachable; [apply reachable_quiet|]. apply execution_from. evaluate.
Qed.

Lemma idle_network_expires_witness :
  let w := expired in
  let l := network_named w "shared" in
  idle_deadline w l = Some (now w) ∧
  ∃ t net, heap w !! l = Some net ∧ enabled w (EvTimer t) ∧
    ∀ os, ∃ w', handle_event os (EvTimer t) w = Ret () w' ∧
      reg w' = delete (key "shared") (reg w) ∧ heap w' = delete l (heap w) ∧
      objs w' = net_delete net (objs w) ∧
      contexts w' = contexts w ∧ outbox w' = outbox w.
Proof.
  split; [by vm_compute|].
  apply (idle_network_expires expired (key "shared") (network_named expired "shared")
           (now expired)); [apply reachable_expired|by vm_compute..].
Defined.

Lemma idle_broker_exits_witness :
  let w := expired_quiet in
  let t := default 1%positive (idle_timer w) in
  timer_start w t = Some (now w) ∧
  contexts w = ∅ ∧ enabled w (EvTimer t) ∧
  ∀ os, ∃ w', handle_event os (EvTimer t) w = Exit EXIT_SUCCESS w' ∧ heap w' = ∅ ∧
    registry w' = None ∧ ∀ o, is_Some (objs w' !! o) → o = t.
Proof.
  split; [by vm_compute|].
  apply (idle_broker_exits expired_quiet (default 1%positive (idle_timer expired_quiet))
           (now expired_quiet)); [apply reachable_expired_quiet|by vm_compute..].
Defined.
