(* ===== verification/Peers.v ===== *)
(** * Connections

    What a connection and the end of a connection do to the broker. *)

From S2P Require Import Prelude Platform Common World Config Network Xpc Broker.
From S2P Require Import Ownership Invariant Transitions NetworkFacts AcquireFacts ReleaseFacts.
From S2P Require Import BrokerFacts Execution EffectFacts Concrete Scenarios.

Section peers.
Context {xpc : XPC} {cf : CoreFoundation}.
Implicit Types (w : world) (l : loc) (c : conn) (net : network) (ev : event).

Lemma connected_transactions os c w :
  transactions (connected os c w) =
    if bool_decide (connected_peers w + 1 = 1)%Z
    then (transactions w + 1)%Z else transactions w.
Proof.
  unfold connected, clear_shutdown. case_bool_decide; [|done]. simpl. by destruct (idle_timer w).
Qed.

Lemma connected_outbox os c w : outbox (connected os c w) = outbox w.
Proof.
  unfold connected, clear_shutdown. case_bool_decide; [|done]. simpl. by destruct (idle_timer w).
Qed.

Lemma connected_idle_timer os c w :
  inv w → contexts w !! c = None → idle_timer (connected os c w) = None.
Proof.
  intros Hinv Hc. unfold connected, clear_shutdown. case_bool_decide as H1; simpl.
  - by destruct (idle_timer w) eqn:Hi.
  - apply eq_None_not_Some. intros He%(bo_timer _ (inv_broker _ Hinv)).
    apply H1. rewrite (bo_peers _ (inv_broker _ Hinv)), He. done.
Qed.

(** C20: a connection starts from nothing.  The new peer gets a context without
    networks, is counted, and the networks and the other peers are left as they
    are.  The shutdown timer is not running afterwards and a transaction is
    open, whether this peer is the first or not. *)
Theorem connect_registers_peer os e w :
  reachable w → delivers os w (EvListener e) → xpc_get_type e = XPC_TYPE_CONNECTION →
  ∃ w', handle_event os (EvListener e) w = Ret () w' ∧
    contexts w' = <[xpc_connection_of e := init_context os (xpc_connection_of e)]> (contexts w) ∧
    held (init_context os (xpc_connection_of e)) = [] ∧
    connected_peers w' = (connected_peers w + 1)%Z ∧
    idle_timer w' = None ∧ transactions w' = 1%Z ∧
    heap w' = heap w ∧ registry w' = registry w ∧ outbox w' = outbox w.
Proof.
  intros Hr%inv_reachable [[_ Hnew] Hos Hok] He. specialize (Hnew He). specialize (Hok He).
  set (c := xpc_connection_of e) in *. pose proof (inv_broker _ Hr) as [Hp _ Htr].
  exists (connected os c w). split; [|split_and!].
  - cbn [handle_event]. unfold listener_event_handler. rewrite He. simpl.
    apply handle_connection_run; [apply Hr|]. rewrite Hp. fold c. lia.
  - apply connected_contexts.
  - done.
  - unfold connected, clear_shutdown. case_bool_decide; [|done]. simpl. by destruct (idle_timer w).
  - by apply connected_idle_timer.
  - rewrite connected_transactions, Htr.
    pose proof (peers_positive w (inv_broker _ Hr)). case_bool_decide as H1; case_decide as H2.
    + done.
    + exfalso. apply H in H2. lia.
    + exfalso. apply H1. rewrite Hp, H2. done.
    + done.
  - apply connected_heap.
  - apply connected_registry.
  - apply connected_outbox.
Qed.

(** C19: the end of a connection releases what the peer had, and nothing else.
    The peer's context is gone; the networks all stay registered with their
    objects, and those that only this peer used are scheduled for removal in
    idle_timeout_sec seconds, the others keep their schedule.  When it was the
    last peer, the transaction ends and the broker is scheduled to shut down in
    idle_timeout_sec seconds. *)
Theorem disconnect_releases_peer os c e w :
  reachable w → delivers os w (EvPeer c e) → connection_invalid e = true →
  ∃ w', handle_event os (EvPeer c e) w = Ret () w' ∧
    contexts w' = delete c (contexts w) ∧
    connected_peers w' = (connected_peers w - 1)%Z ∧
    registry w' = registry w ∧ cores w' = cores w ∧
    (∀ l, is_Some (heap w !! l) →
       idle_deadline w' l =
         if decide (l ∈ peer_networks w c ∧ holders (contexts w') l = ∅)
         then Some (deadline_from_now w) else idle_deadline w l) ∧
    (delete c (contexts w) = ∅ →
       transactions w' = 0%Z ∧
       ∃ t, idle_timer w' = Some t ∧ timer_start w' t = Some (deadline_from_now w)).
Proof.
  intros Hr [Hen Hos Hok] Hinvalid. apply inv_reachable in Hr as Hinv.
  destruct (handle_peer_cases os w c e Hinv Hos Hen Hok) as (w' & Hrun & He).
  exists w'. split; [done|].
  inversion He as [| |? ? _ _ Hni|? ? _ Hd|? ? ? ? ? ? _ Hd|? ? w2 [ctx Hc] _ Hrel| | |];
    subst; try congruence;
    try (by exfalso; unfold connection_invalid in Hinvalid; rewrite Hd in Hinvalid).
  pose proof Hrel as [_ Hreg Hcores (ctx0 & Hheld & Hctx) _ (Hcp & Hi & _ & Htr & _ & Hnow & _) _].
  simpl in Hreg, Hcores, Hctx, Hcp, Hi, Htr, Hnow.
  assert (delete c (contexts w2) = delete c (contexts w)) as Hdel.
  { rewrite Hctx. apply delete_insert_eq. }
  pose proof (inv_broker _ (effect_inv _ _ _ _ Hinv He)) as [Hp' _ Htr'].
  rewrite disconnected_contexts, Hdel in Hp', Htr'.
  rewrite disconnected_contexts, Hdel, disconnected_registry, Hreg.
  split_and!; try done.
  - unfold disconnected. case_bool_decide; simpl; by rewrite Hcp.
  - unfold cores. by rewrite disconnected_heap.
  - intros l Hl. by apply disconnected_deadline.
  - intros Hempty. split; [rewrite Htr'; by rewrite decide_True|].
    rewrite Hempty, map_size_empty in Hp'. unfold disconnected in Hp' |- *.
    case_bool_decide as Hz; simpl in *; [|lia]. eexists. split; [done|].
    unfold timer_start. simpl. rewrite lookup_insert_eq. simpl.
    unfold deadline_from_now. by rewrite Hnow.
Qed.
End peers.

(** ** The theorems on executions of the concrete platform *)

Lemma connect_registers_peer_witness :
  let w := after quiet_events in
  is_Some (idle_timer w) ∧ contexts w = ∅ ∧
  ∃ w', handle_event (good_os 0) (connect 5) w = Ret () w' ∧
    contexts w' = <[5%positive := init_context (good_os 0) 5]> (contexts w) ∧
    held (init_context (good_os 0) 5) = [] ∧
    connected_peers w' = (connected_peers w + 1)%Z ∧
    idle_timer w' = None ∧ transactions w' = 1%Z ∧
    heap w' = heap w ∧ registry w' = registry w ∧ outbox w' = outbox w.
Proof.
  split; [evaluate|]. split; [by vm_compute|].
  apply (connect_registers_peer (good_os 0) (XConnection 5) (after quiet_events));
    [apply reachable_quiet|evaluate|done].
Defined.

Lemma disconnect_releases_peer_witness :
  let w := after sharing_events in
  length (peer_networks w 2) = 2%nat ∧
  ∃ w', handle_event (good_os 0) (disconnect 2) w = Ret () w' ∧
    contexts w' = delete 2%positive (contexts w) ∧
    connected_peers w' = (connected_peers w - 1)%Z ∧
    registry w' = registry w ∧ cores w' = cores w ∧
    (∀ l, is_Some (heap w !! l) →
       idle_deadline w' l =
         if decide (l ∈ peer_networks w 2 ∧ holders (contexts w') l = ∅)
         then Some (deadline_from_now w) else idle_deadline w l) ∧
    (delete 2%positive (contexts w) = ∅ →
       transactions w' = 0%Z ∧
       ∃ t, idle_timer w' = Some t ∧ timer_start w' t = Some (deadline_from_now w)).
Proof.
  split; [by vm_compute|].
  apply (disconnect_releases_peer (good_os 0) 2 (XError true) (after sharing_events));
    [apply reachable_sharing|evaluate|done].
Defined.
