(* ===== verification/Idle.v ===== *)
(** * The listener and the shutdown timer

    The globals of broker.c and xpc.c that no single handler explains: the
    listener and the signal sources stay what main made them, and the shutdown
    timer runs when the last peer left, which is not whenever the broker is
    idle. *)

From S2P Require Import Prelude Platform Common World Config Network Xpc Broker.
From S2P Require Import Ownership Invariant Transitions NetworkFacts AcquireFacts ReleaseFacts.
From S2P Require Import BrokerFacts Execution EffectFacts Peers Concrete Scenarios.

Section idle.
Context {xpc : XPC} {cf : CoreFoundation}.
Implicit Types (w : world) (l : loc) (c : conn) (ev : event).

(** The globals main sets up. *)
Definition process_globals w : bool * list Z := (listening w, signals w).

Lemma effect_globals os w ev w' : effect os w ev w' → process_globals w' = process_globals w.
Proof.
  intros He. destruct He as [| | |c e|c e name k r w' _ _ _ _ Hout|c e w2 _ _ Hrel| | |]; try done.
  - unfold connected, clear_shutdown. case_bool_decide; [|done]. simpl. by destruct (idle_timer w).
  - by destruct (error_reply e VMNET_BROKER_INVALID_REQUEST).
  - transitivity (process_globals w'); [by destruct (reply_of e r)|]. by destruct Hout.
  - pose proof (rel_frame _ _ _ Hrel) as (_&_&Hs&_&_&_&Hl). unfold process_globals.
    transitivity (listening w2, signals w2); [|by rewrite Hs, Hl].
    unfold disconnected. by case_bool_decide.
Qed.

Lemma reachable_globals w : reachable w → process_globals w = (true, [SIGINT; SIGTERM]).
Proof.
  induction 1 as [os w Hos Hmain|w ev w' Hr IH Hs].
  - rewrite main_run in Hmain by done. destruct (os_create_mach_service os MACH_SERVICE_NAME); [|done].
    by injection Hmain as <-.
  - destruct (step_effect _ _ _ (inv_reachable _ Hr) Hs) as [os He].
    by rewrite (effect_globals _ _ _ _ He).
Qed.

(** ** The shutdown timer *)

Definition connects ev : Prop := ∃ e, ev = EvListener e ∧ xpc_get_type e = XPC_TYPE_CONNECTION.

(** [B]: a peer has connected before. *)
Record shutdown_state w (B : Prop) : Prop := {
  sd_armed : is_Some (idle_timer w) ↔ contexts w = ∅ ∧ B;
  sd_peers : contexts w ≠ ∅ → B;
}.

Lemma shutdown_state_same w w' (B B' : Prop) :
  shutdown_state w B → idle_timer w' = idle_timer w → (contexts w' = ∅ ↔ contexts w = ∅) →
  (B ↔ B') → shutdown_state w' B'.
Proof.
  intros [Ha Hp] Hi Hc HB. split.
  - by rewrite Hi, Ha, Hc, HB.
  - rewrite Hc, <- HB. done.
Qed.

Lemma acquire_idle_state os c name k r w w' :
  acquire_outcome os c name k w r w' →
  idle_timer w' = idle_timer w ∧ (contexts w' = ∅ ↔ contexts w = ∅).
Proof.
  intros Hout. split; [by destruct Hout|].
  destruct Hout as [|ctx l net ? ? Hc|ctx l ? ? ? Hc| | |]; simpl; try done;
    (split; intros He; exfalso; [by apply insert_non_empty in He|by rewrite He, lookup_empty in Hc]).
Qed.

Lemma disconnected_shutdown c w w2 (B : Prop) :
  inv w → is_Some (contexts w !! c) → released c (one_less w) w2 → inv (disconnected c w2) → B →
  shutdown_state (disconnected c w2) B.
Proof.
  intros Hinv [ctx Hc] Hrel Hinv' HB. split; [|done].
  pose proof (bo_peers _ (inv_broker _ Hinv')) as Hp.
  assert (idle_timer w2 = None) as Hi.
  { pose proof (rel_frame _ _ _ Hrel) as (_&Hi&_). simpl in Hi. rewrite Hi.
    apply eq_None_not_Some. intros He%(bo_timer _ (inv_broker _ Hinv)).
    by rewrite He, lookup_empty in Hc. }
  rewrite <- (map_size_empty_iff (contexts (disconnected c w2))).
  assert (connected_peers (disconnected c w2) = connected_peers w2) as Hsame
    by (unfold disconnected; by case_bool_decide).
  rewrite Hsame in Hp. remember (size (contexts (disconnected c w2))) as n.
  unfold disconnected. case_bool_decide as Hz; simpl.
  - split; [intros _; split; [lia|done]|eauto].
  - rewrite Hi. split; [by intros []|lia].
Qed.

Lemma effect_shutdown os w ev w' (B : Prop) :
  inv w → effect os w ev w' → shutdown_state w B → shutdown_state w' (B ∨ connects ev).
Proof.
  intros Hinv He Hst. pose proof (effect_inv _ _ _ _ Hinv He) as Hinv'.
  assert (∀ w1, idle_timer w1 = idle_timer w → (contexts w1 = ∅ ↔ contexts w = ∅) →
            ¬ connects ev → shutdown_state w1 (B ∨ connects ev)) as Hsame.
  { intros w1 Hi Hc Hev. apply (shutdown_state_same w w1 B); tauto. }
  destruct He as [e Hne Hn|e Hc Hnew|c e|c e|c e name k r w' _ _ _ _ Hout|c e w2 Hc _ Hrel| | |];
    try (by (apply Hsame; [done..|intros (? & ? & ?); simplify_eq])).
  - split; [|intros _; right; by exists e]. rewrite connected_idle_timer, connected_contexts by done.
    split; [by intros []|]. intros [He _]. by apply insert_non_empty in He.
  - destruct (sent_fields c (error_reply e VMNET_BROKER_INVALID_REQUEST) w) as (_&_&Hcs&_).
    apply Hsame; [by destruct (error_reply e VMNET_BROKER_INVALID_REQUEST)|by rewrite Hcs|].
    by intros (? & ? & _).
  - destruct (acquire_idle_state _ _ _ _ _ _ _ Hout) as [Hi Hcs].
    destruct (sent_fields c (reply_of e r) w') as (_&_&Hcs'&_).
    apply Hsame; [by destruct (reply_of e r)|by rewrite Hcs'|]. by intros (? & ? & _).
  - apply (disconnected_shutdown c w); try done. left. apply (sd_peers _ _ Hst).
    intros He. rewrite He, lookup_empty in Hc. by destruct Hc.
Qed.

Lemma execution_shutdown w evs w' (B : Prop) :
  reachable w → execution w evs w' → shutdown_state w B →
  shutdown_state w' (B ∨ Exists connects evs).
Proof.
  intros Hr He. revert B. induction He as [w|w ev w1 evs w' Hs He IH]; intros B Hst.
  - apply (shutdown_state_same w w B); rewrite ?Exists_nil; tauto.
  - destruct (step_effect _ _ _ (inv_reachable _ Hr) Hs) as [os Heff].
    apply (effect_shutdown _ _ _ _ _ (inv_reachable _ Hr) Heff) in Hst.
    specialize (IH (reachable_step _ _ _ Hr Hs) _ Hst).
    apply (shutdown_state_same w' w' _ _ IH); rewrite ?Exists_cons; tauto.
Qed.

(** C24: the broker's globals follow its peers.  After any execution from main,
    connected_peers counts the connections, the process is inside one XPC
    transaction exactly while a peer is connected, and the shutdown timer runs
    if and only if no peer is connected and one was: between the start and the
    first connection the broker is idle and does not schedule its shutdown. *)
Theorem globals_follow_peers os w evs w' :
  os_ok os → main os initial_world = Ret () w → execution w evs w' →
  connected_peers w' = Z.of_nat (size (contexts w')) ∧
  transactions w' = (if decide (contexts w' = ∅) then 0 else 1)%Z ∧
  (is_Some (idle_timer w') ↔ contexts w' = ∅ ∧ Exists connects evs).
Proof.
  intros Hos Hmain He.
  assert (reachable w) as Hr by (by eapply reachable_main).
  destruct (inv_broker _ (inv_reachable _ (execution_reachable _ _ _ Hr He))) as [Hp _ Ht].
  split_and!; [done..|].
  assert (shutdown_state w' (False ∨ Exists connects evs)) as [Ha _]; [|rewrite Ha; tauto].
  apply (execution_shutdown w); [done..|].
  rewrite main_run in Hmain by done. destruct (os_create_mach_service os MACH_SERVICE_NAME); [|done].
  injection Hmain as <-. split; simpl; [|done]. split; by intros [].
Qed.
End idle.

(** A broker nobody connects to. *)
Definition lonely_events : list event := [seconds 86400; EvListener (XDict false)].

Lemma globals_follow_peers_witness :
  let w := after quiet_events in
  let w' := after lonely_events in
  is_Some (idle_timer w) ∧ idle_timer w' = None ∧
  (connected_peers w = Z.of_nat (size (contexts w)) ∧
   transactions w = (if decide (contexts w = ∅) then 0 else 1)%Z ∧
   (is_Some (idle_timer w) ↔ contexts w = ∅ ∧ Exists connects quiet_events)) ∧
  (connected_peers w' = Z.of_nat (size (contexts w')) ∧
   transactions w' = (if decide (contexts w' = ∅) then 0 else 1)%Z ∧
   (is_Some (idle_timer w') ↔ contexts w' = ∅ ∧ Exists connects lonely_events)).
Proof.
  split; [evaluate|]. split; [by vm_compute|]. split.
  - apply (globals_follow_peers (good_os 0) started); [by split|done|].
    apply execution_from. evaluate.
  - apply (globals_follow_peers (good_os 0) started); [by split|done|].
    apply execution_from. evaluate.
Defined.
