(* ===== verification/Calls.v ===== *)
(** * How the XPC layer calls the broker

    xpc.c promises the broker that the operations of its [broker_ops] are called
    in order: on_peer_connect once, then on_peer_request for each message, then
    on_peer_disconnect once.  [ops_call] is the call an event makes; the theorem
    says that the handlers make it, for any table of operations, and that along
    any execution the calls for each connection are in that order. *)

From S2P Require Import Prelude Platform Common World Config Network Xpc Broker.
From S2P Require Import Ownership Invariant Transitions NetworkFacts AcquireFacts ReleaseFacts.
From S2P Require Import BrokerFacts Execution EffectFacts Idle Concrete Scenarios.

Section calls.
Context {xpc : XPC} {cf : CoreFoundation}.
Implicit Types (w : world) (c : conn) (ev : event) (ops : broker_ops_t).

Inductive op_call :=
  | OnPeerConnect
  | OnPeerRequest (e : xpc_object)
  | OnPeerDisconnect.

Definition ops_call ev : option (conn * op_call) :=
  match ev with
  | EvListener e =>
      if decide (xpc_get_type e = XPC_TYPE_CONNECTION)
      then Some (xpc_connection_of e, OnPeerConnect) else None
  | EvPeer c e =>
      if connection_invalid e then Some (c, OnPeerDisconnect)
      else if decide (xpc_get_type e = XPC_TYPE_DICTIONARY) then Some (c, OnPeerRequest e)
      else None
  | _ => None
  end.

(** A call through the table; a NULL operation is not called. *)
Definition make_call ops (call : option (conn * op_call)) : M world () :=
  match call with
  | Some (c, OnPeerConnect) => when_some (Xpc.on_peer_connect ops) (λ f, f c)
  | Some (c, OnPeerRequest e) => when_some (Xpc.on_peer_request ops) (λ f, f c e)
  | Some (c, OnPeerDisconnect) => when_some (Xpc.on_peer_disconnect ops) (λ f, f c)
  | None => mret ()
  end.

Lemma peer_event_handler_calls ops c e :
  peer_event_handler ops c e = make_call ops (ops_call (EvPeer c e)).
Proof.
  unfold peer_event_handler, ops_call, connection_invalid.
  destruct (xpc_get_type e); simpl; try done. by destruct (xpc_object_eqb _ _).
Qed.

Lemma handle_connection_calls os ops e :
  xpc_get_type e = XPC_TYPE_CONNECTION →
  listener_event_handler os ops e =
    (context_store (xpc_connection_of e) (init_context os (xpc_connection_of e));;
     make_call ops (ops_call (EvListener e))).
Proof. intros He. unfold listener_event_handler, ops_call. by rewrite He. Qed.

(** ** The order of the calls *)

(** The calls made for connection [c]. *)
Definition calls_of c (evs : list event) : list op_call :=
  omap (λ ev, call ← ops_call ev; if decide (call.1 = c) then Some call.2 else None) evs.

(** A connection is open or not; each call is allowed in one of the two. *)
Definition session_step (open : bool) (call : op_call) : option bool :=
  match call, open with
  | OnPeerConnect, false => Some true
  | OnPeerRequest _, true => Some true
  | OnPeerDisconnect, true => Some false
  | _, _ => None
  end.

Fixpoint session (open : bool) (calls : list op_call) : option bool :=
  match calls with
  | [] => Some open
  | call :: calls' => session_step open call ≫= λ open', session open' calls'
  end.

Definition is_open w c : bool := bool_decide (is_Some (contexts w !! c)).

Lemma is_open_same w w' c :
  (is_Some (contexts w' !! c) ↔ is_Some (contexts w !! c)) → is_open w' c = is_open w c.
Proof. intros H. unfold is_open. by apply bool_decide_ext. Qed.

Lemma acquire_open os c name k r w w' c' :
  acquire_outcome os c name k w r w' → is_open w' c' = is_open w c'.
Proof.
  intros Hout. apply is_open_same.
  destruct Hout as [|ctx l net ? ? Hc|ctx l ? ? ? Hc| | |]; simpl; try done;
    (rewrite lookup_insert; case_decide; [subst; rewrite Hc|]; naive_solver).
Qed.

(** The connections one call opens and closes. *)
Lemma effect_open os w ev w' c :
  effect os w ev w' →
  match ops_call ev with
  | Some (c0, call) =>
      if decide (c0 = c) then session_step (is_open w c) call = Some (is_open w' c)
      else is_open w' c = is_open w c
  | None => is_open w' c = is_open w c
  end.
Proof.
  intros He. destruct He as [e Hne Hn|e Hc Hnew|c0 e Hc Hd Hv|c0 e Hc Hd|c0 e name k r w' Hc Hd _ _ Hout
                            |c0 e w2 Hc Hv Hrel| | |]; simpl; try done.
  - by rewrite decide_False.
  - rewrite decide_True by done. unfold is_open. rewrite connected_contexts.
    case_decide as Hcc; [subst|].
    + by rewrite Hnew, lookup_insert_eq.
    + by rewrite lookup_insert_ne.
  - by rewrite Hv, decide_False.
  - assert (connection_invalid e = false) as -> by (unfold connection_invalid; by rewrite Hd).
    rewrite decide_True by done.
    destruct (sent_fields c0 (error_reply e VMNET_BROKER_INVALID_REQUEST) w) as (_&_&Hs&_).
    assert (∀ c, is_open (sent c0 (error_reply e VMNET_BROKER_INVALID_REQUEST) w) c = is_open w c)
      as Hsame by (intros c1; apply is_open_same; by rewrite Hs).
    rewrite Hsame. case_decide; [|done]. subst. unfold is_open.
    by rewrite bool_decide_true.
  - assert (connection_invalid e = false) as -> by (unfold connection_invalid; by rewrite Hd).
    rewrite decide_True by done. destruct (sent_fields c0 (reply_of e r) w') as (_&_&Hs&_).
    assert (∀ c, is_open (sent c0 (reply_of e r) w') c = is_open w c) as Hsame.
    { intros c1. rewrite <- (acquire_open _ _ _ _ _ _ _ c1 Hout). apply is_open_same.
      by rewrite Hs. }
    rewrite Hsame. case_decide; [|done]. subst. unfold is_open. by rewrite bool_decide_true.
  - rewrite Hv. destruct (rel_context _ _ _ Hrel) as (ctx & _ & Hctx).
    assert (contexts (disconnected c0 w2) = delete c0 (contexts w)) as Hcs.
    { rewrite disconnected_contexts, Hctx. simpl. apply delete_insert_eq. }
    unfold is_open. rewrite Hcs. case_decide; [subst|].
    + rewrite lookup_delete_eq, bool_decide_true by done. done.
    + by rewrite lookup_delete_ne.
Qed.

Lemma execution_sessions w evs w' c :
  reachable w → execution w evs w' →
  session (is_open w c) (calls_of c evs) = Some (is_open w' c).
Proof.
  intros Hr He. induction He as [w|w ev w1 evs w' Hs He IH]; [done|].
  destruct (step_effect _ _ _ (inv_reachable _ Hr) Hs) as [os Heff].
  specialize (IH (reachable_step _ _ _ Hr Hs)).
  pose proof (effect_open os w ev w1 c Heff) as Hopen. unfold calls_of. simpl.
  destruct (ops_call ev) as [[c0 call]|]; simpl; [|by rewrite <- Hopen].
  destruct (decide (c0 = c)); simpl; [by rewrite Hopen|by rewrite <- Hopen].
Qed.

(** C18: the XPC layer calls the broker in order.  For any table of operations
    the handler of a connection's event makes the call of the event and nothing
    else, and the handler of a new connection stores its context and makes the
    call; and in any execution from main the calls for each connection are
    on_peer_connect, on_peer_request any number of times, on_peer_disconnect,
    and then possibly again from the start. *)
Theorem operations_called_in_order os w evs w' c :
  os_ok os → main os initial_world = Ret () w → execution w evs w' →
  session false (calls_of c evs) = Some (is_open w' c) ∧
  (∀ ops c e, peer_event_handler ops c e = make_call ops (ops_call (EvPeer c e))) ∧
  (∀ os ops e, xpc_get_type e = XPC_TYPE_CONNECTION →
     listener_event_handler os ops e =
       (context_store (xpc_connection_of e) (init_context os (xpc_connection_of e));;
        make_call ops (ops_call (EvListener e)))).
Proof.
  intros Hos Hmain He. split_and!;
    [|apply peer_event_handler_calls|apply handle_connection_calls].
  assert (is_open w c = false) as <-; [|apply execution_sessions; [by eapply reachable_main|done]].
  rewrite main_run in Hmain by done.
  destruct (os_create_mach_service os MACH_SERVICE_NAME); [|done]. by injection Hmain as <-.
Qed.
End calls.

Lemma operations_called_in_order_witness :
  let evs := quiet_events ++ grace_events in
  calls_of 3 evs = [OnPeerConnect; OnPeerRequest (acquire_message "shared"); OnPeerDisconnect] ∧
  session false (calls_of 3 evs) = Some (is_open (after evs) 3) ∧
  (∀ ops c e, peer_event_handler ops c e = make_call ops (ops_call (EvPeer c e))) ∧
  (∀ os ops e, xpc_get_type e = XPC_TYPE_CONNECTION →
     listener_event_handler os ops e =
       (context_store (xpc_connection_of e) (init_context os (xpc_connection_of e));;
        make_call ops (ops_call (EvListener e)))).
Proof.
  split; [by vm_compute|].
  apply (operations_called_in_order (good_os 0) started (quiet_events ++ grace_events)
           (after (quiet_events ++ grace_events)) 3); [by split|done|].
  apply execution_from. evaluate.
Defined.
