(* ===== verification/Requests.v ===== *)
(** * Requests and replies

    [request_answer] says what the broker answers a request, as a function of
    the request, the networks and the system; the theorems show that the
    handlers answer that, once, and nothing else. *)

From S2P Require Import Prelude Platform Common World Config Network Xpc Broker.
From S2P Require Import Ownership Invariant Transitions NetworkFacts AcquireFacts ReleaseFacts.
From S2P Require Import BrokerFacts Execution EffectFacts Concrete Scenarios.

Section requests.
Context {xpc : XPC} {cf : CoreFoundation}.
Implicit Types (w : world) (l : loc) (c : conn) (net : network) (ev : event).

(** ** The networks are builtin ones *)

Definition builtin_name (name : string) : Prop := is_Some (find_config_from builtin_networks name).

Definition all_builtin w : Prop :=
  ∀ l net, heap w !! l = Some net → ∃ name, net_name net = Some name ∧ builtin_name name.

Lemma all_builtin_cores w w' :
  all_builtin w → (∀ l, is_Some (heap w' !! l) → core_at w' l = core_at w l) → all_builtin w'.
Proof.
  intros Hw Hc l net' Hl'. specialize (Hc l). rewrite Hl' in Hc. specialize (Hc ltac:(done)).
  unfold core_at in Hc. rewrite Hl' in Hc.
  destruct (heap w !! l) as [net|] eqn:Hl; simpl in Hc; [|done].
  destruct (Hw _ _ Hl) as (name & Hn & Hb). exists name. split; [|done].
  unfold net_core in Hc. congruence.
Qed.

Lemma creation_builtin os name x : creation_result os name = Some x → builtin_name name.
Proof.
  unfold creation_result, builtin_name.
  destruct (find_config_from builtin_networks name); [eauto|done].
Qed.

Lemma acquire_all_builtin os c name k r w w' :
  all_builtin w → acquire_outcome os c name k w r w' → all_builtin w'.
Proof.
  intros Hb Hout. destruct Hout as [|? l0 net ? ? ? ? Hl| ? l0 ref s x ? ? ? Hcr Hfresh| | |];
    try done; intros l net' Hl'.
  - simpl in Hl'. apply lookup_insert_Some in Hl' as [[<- <-]|[_ Hl']]; simpl; by eapply Hb.
  - simpl in Hl'. rewrite insert_insert_eq in Hl'.
    apply lookup_insert_Some in Hl' as [[<- <-]|[_ Hl']]; [|by eapply Hb].
    exists name. split; [done|]. by eapply creation_builtin.
Qed.

Lemma effect_all_builtin os w ev w' : all_builtin w → effect os w ev w' → all_builtin w'.
Proof.
  intros Hb He. destruct He as [| | | |c e name k r w' _ _ _ _ Hout|c e w2 _ _ Hrel
                               |t l k net| |]; try done.
  - eapply all_builtin_cores; [done|]. intros l _. unfold core_at. by rewrite connected_heap.
  - by destruct (error_reply e VMNET_BROKER_INVALID_REQUEST).
  - apply (acquire_all_builtin _ _ _ _ _ _ _ Hb) in Hout. by destruct (reply_of e r).
  - eapply all_builtin_cores; [done|]. intros l _. rewrite <- (released_core c w w2) by done.
    unfold core_at. by rewrite disconnected_heap.
  - intros l' net' Hl'. simpl in Hl'. apply lookup_delete_Some in Hl' as [_ Hl']. by eapply Hb.
Qed.

Lemma reachable_all_builtin w : reachable w → all_builtin w.
Proof.
  induction 1 as [os w Hos Hmain|w ev w' Hr IH Hs].
  - rewrite main_run in Hmain by done. destruct (os_create_mach_service os MACH_SERVICE_NAME); [|done].
    injection Hmain as <-. done.
  - destruct (step_effect w ev w' (inv_reachable _ Hr) Hs) as [os He].
    by eapply effect_all_builtin.
Qed.

(** Networks of one name are one network. *)
Lemma same_name_same_network w l1 l2 net1 net2 name :
  wf w → heap w !! l1 = Some net1 → heap w !! l2 = Some net2 →
  net_name net1 = Some name → net_name net2 = Some name → l1 = l2.
Proof.
  intros Hw H1 H2 Hn1 Hn2.
  destruct (proj1 (wf_reg _ _ Hw l1)) as [k1 Hk1]; [by rewrite H1|].
  destruct (proj1 (wf_reg _ _ Hw l2)) as [k2 Hk2]; [by rewrite H2|].
  destruct (wf_key _ _ Hw _ _ Hk1) as (? & ? & ? & ? & Hc1).
  destruct (wf_key _ _ Hw _ _ Hk2) as (? & ? & ? & ? & Hc2). simplify_eq. congruence.
Qed.

Lemma builtin_name_cases name : builtin_name name → name = "shared" ∨ name = "host".
Proof.
  unfold builtin_name, builtin_networks. cbn [find_config_from cfg_name].
  destruct (String.eqb_spec "shared" name); [eauto|].
  destruct (String.eqb_spec "host" name); [eauto|]. by intros [].
Qed.

Lemma held_at_most_builtin w c ctx :
  reachable w → contexts w !! c = Some ctx →
  (length (held ctx) ≤ length builtin_networks)%nat.
Proof.
  intros Hr Hc. pose proof (inv_wf _ (inv_reachable _ Hr)) as Hw.
  pose proof (reachable_all_builtin _ Hr) as Hb.
  destruct (wf_ctx _ _ Hw _ _ Hc) as [Hok _]. pose proof (ch_nodup _ _ Hok) as Hnd.
  pose (f l := heap w !! l ≫= net_name).
  assert (∀ l, l ∈ held ctx → ∃ net name, heap w !! l = Some net ∧ net_name net = Some name ∧
            builtin_name name) as Hname.
  { intros l Hl. destruct (wf_held _ _ Hw _ _ _ Hc Hl) as [net Hnet].
    destruct (Hb _ _ Hnet) as (name & ? & ?). by exists net, name. }
  assert (NoDup (f <$> held ctx)) as Hnd'.
  { apply NoDup_fmap_2_strong; [|done]. intros l1 l2 H1 H2 Heq.
    destruct (Hname _ H1) as (n1 & a1 & Hh1 & Ha1 & _).
    destruct (Hname _ H2) as (n2 & a2 & Hh2 & Ha2 & _).
    unfold f in Heq. rewrite Hh1, Hh2 in Heq. simpl in Heq.
    apply (same_name_same_network w l1 l2 n1 n2 a1); try done. congruence. }
  rewrite <- (length_fmap f). change (length builtin_networks) with (length [Some "shared"; Some "host"]).
  apply submseteq_length, NoDup_submseteq; [done|].
  intros o (l & -> & Hl)%list_elem_of_fmap. destruct (Hname _ Hl) as (net & name & Hn & Ha & Hbn).
  unfold f. rewrite Hn. simpl. rewrite Ha. apply builtin_name_cases in Hbn as [->| ->]; set_solver.
Qed.

Lemma never_full w c ctx : reachable w → contexts w !! c = Some ctx → ctx_full ctx = false.
Proof.
  intros Hr Hc. pose proof (held_at_most_builtin _ _ _ Hr Hc). unfold ctx_full.
  rewrite bool_decide_false; [done|]. unfold MAX_PEER_NETWORKS. simpl in *. lia.
Qed.

(** ** The answer to a request *)

(** What a registered network's name finds. *)
Definition registered_serialization w (k : CFString) : option xpc_object :=
  l ← reg w !! k; snd <$> network_data w l.

(** The answer to a request: a serialization, an error code, or none because the
    broker crashes. *)
Inductive answer :=
  | Granted (x : xpc_object)
  | Refused (code : Z)
  | Crashed.

(** The reference the handler is compared with: a name that Core Foundation cannot
    represent is looked up with a NULL key. *)
Definition request_answer (os : OS) w (e : xpc_object) : answer :=
  match request_name e with
  | None => Refused VMNET_BROKER_INVALID_REQUEST
  | Some name =>
      match CFStringCreateWithCString name with
      | None => Crashed
      | Some k =>
          if decide (builtin_name name) then
            match registered_serialization w k with
            | Some x => Granted x
            | None =>
                match creation_result os name with
                | Some x => Granted x
                | None => Refused VMNET_BROKER_CREATE_FAILURE
                end
            end
          else Refused VMNET_BROKER_NOT_FOUND
      end
  end.

Definition answer_message (e : xpc_object) (a : answer) : option xpc_object :=
  match a with
  | Granted x => network_reply e x
  | Refused code => error_reply e code
  | Crashed => None
  end.

(** The message sent to [c], none where the request expects no reply. *)
Definition sent_messages c (m : option xpc_object) : list (conn * xpc_object) :=
  match m with Some x => [(c, x)] | None => [] end.

Lemma sent_outbox c m w : outbox (sent c m w) = outbox w ++ sent_messages c m.
Proof. destruct m; simpl; [done|]. by rewrite app_nil_r. Qed.

Lemma acquire_outbox os c name k r w w' :
  acquire_outcome os c name k w r w' → outbox w' = outbox w.
Proof. by destruct 1. Qed.

Lemma registered_serialization_run w k l net s x :
  reg w !! k = Some l → heap w !! l = Some net → net_serialization net = Some s →
  objs w !! s = Some (Cell 1 (BXpc x)) → registered_serialization w k = Some x.
Proof.
  intros Hk Hl Hs Hx. unfold registered_serialization, network_data.
  rewrite Hk. simpl. rewrite Hl. simpl. rewrite Hs. simpl. by rewrite Hx.
Qed.

(** The broker crashes exactly on the requests [event_ok] excludes. *)
Lemma answer_delivered os c e w :
  event_ok w (EvPeer c e) → xpc_get_type e = XPC_TYPE_DICTIONARY → request_answer os w e ≠ Crashed.
Proof.
  intros Hok He. specialize (Hok He). unfold request_answer. simpl in Hok.
  destruct (request_name e) as [name|]; [|done]. destruct Hok as [k ->]. by repeat case_match.
Qed.

(** The networks of the registry are found under builtin names only. *)
Lemma registered_builtin `{!CoreFoundationLaws} w name k l :
  reachable w → CFStringCreateWithCString name = Some k → reg w !! k = Some l →
  builtin_name name.
Proof.
  intros Hr Hname Hk. pose proof (inv_wf _ (inv_reachable _ Hr)) as Hw.
  destruct (wf_key _ _ Hw _ _ Hk) as (net & name' & Hl & Hn & Hk').
  destruct (reachable_all_builtin _ Hr _ _ Hl) as (name2 & Hn2 & Hb).
  rewrite (CFString_inj _ _ _ Hname Hk'). congruence.
Qed.

Lemma acquire_answer `{!CoreFoundationLaws} os c e name k r w w' :
  reachable w → request_name e = Some name → CFStringCreateWithCString name = Some k →
  acquire_outcome os c name k w r w' → reply_of e r = answer_message e (request_answer os w e).
Proof.
  intros Hr Hname Hk Hout. unfold request_answer. rewrite Hname, Hk. simpl.
  destruct Hout as [ctx l net s x ? Hreg Hl ? Hs Hx|ctx l net s x ? Hreg Hl ? ? Hs Hx
                   |ctx l ref s x ? Hreg ? Hcr|ctx Hc Hfull|ctx ? Hreg ? Hnf
                   |ctx config ? Hreg ? Hf Hcr].
  - rewrite decide_True by (by eapply registered_builtin).
    by rewrite (registered_serialization_run w k l net s x).
  - rewrite decide_True by (by eapply registered_builtin).
    by rewrite (registered_serialization_run w k l net s x).
  - rewrite decide_True by (by eapply creation_builtin).
    unfold registered_serialization. rewrite Hreg. simpl. by rewrite Hcr.
  - by rewrite (never_full w c ctx) in Hfull.
  - rewrite decide_False; [done|]. unfold builtin_name. rewrite Hnf. by intros [].
  - rewrite decide_True by (unfold builtin_name; by rewrite Hf).
    unfold registered_serialization. rewrite Hreg, Hcr. done.
Qed.

Lemma request_outbox `{!CoreFoundationLaws} os c e w :
  reachable w → delivers os w (EvPeer c e) → xpc_get_type e = XPC_TYPE_DICTIONARY →
  ∃ w', handle_event os (EvPeer c e) w = Ret () w' ∧
    outbox w' = outbox w ++ sent_messages c (answer_message e (request_answer os w e)).
Proof.
  intros Hr [Hen Hos Hok] He. pose proof (inv_reachable _ Hr) as Hinv.
  destruct (handle_peer_cases os w c e Hinv Hos Hen Hok) as (w' & Hrun & Heff).
  exists w'. split; [done|].
  inversion Heff as [| |? ? _ Hd|? ? _ _ Hname|? ? name k r w0 _ _ Hname Hk Hout
                    |? ? w2 _ Hinvalid| | |]; subst; try congruence.
  - rewrite sent_outbox. unfold request_answer. by rewrite Hname.
  - rewrite sent_outbox, (acquire_outbox _ _ _ _ _ _ _ Hout).
    by rewrite (acquire_answer os c e name k r w w0) by done.
  - unfold connection_invalid in Hinvalid. by rewrite He in Hinvalid.
Qed.

(** C6: what the broker answers.  A message without the acquire command or
    without a network name is answered INVALID_REQUEST, a name that is not
    builtin NOT_FOUND, a name that has a network its serialization, and for
    another builtin name the network is created and its serialization answered,
    or CREATE_FAILURE.  Where the message has a reply address, the only message
    the broker sends is that one reply, to the peer that asked; where it has
    none, nothing is sent.  A name that Core Foundation cannot represent is not
    answered: the broker crashes. *)
Theorem request_answered `{!CoreFoundationLaws} os c e w :
  reachable w → os_ok os → is_Some (contexts w !! c) → xpc_get_type e = XPC_TYPE_DICTIONARY →
  match request_answer os w e with
  | Crashed => handle_event os (EvPeer c e) w = Fault NullDeref
  | a => ∃ w', handle_event os (EvPeer c e) w = Ret () w' ∧
               outbox w' = outbox w ++ sent_messages c (answer_message e a)
  end.
Proof.
  intros Hr Hos Hc He. destruct (event_fault w (EvPeer c e)) as [f|] eqn:Hf.
  - pose proof (event_fault_run os w (EvPeer c e) f (inv_reachable _ Hr) Hos Hf) as Hrun.
    simpl in Hf. rewrite decide_True in Hf by done. unfold request_answer.
    destruct (request_name e) as [name|]; [|done].
    destruct (CFStringCreateWithCString name); [done|]. congruence.
  - apply event_fault_ok in Hf.
    pose proof (answer_delivered os c e w Hf He) as Ha.
    assert (delivers os w (EvPeer c e)) as Hd by done.
    destruct (request_outbox os c e w Hr Hd He) as (w' & Hrun & Ho).
    destruct (request_answer os w e); [eauto..|done].
Qed.

(** Only requests are answered. *)
Lemma other_outbox w ev w' :
  reachable w → step w ev w' →
  (∀ c e, ev = EvPeer c e → xpc_get_type e ≠ XPC_TYPE_DICTIONARY) →
  outbox w' = outbox w.
Proof.
  intros Hr%inv_reachable Hs Hev. destruct (step_effect _ _ _ Hr Hs) as [os He].
  destruct He as [| | |c e _ Hd|c e ? ? ? ? _ Hd|c e w2 _ _ Hrel| | |]; try done.
  - unfold connected, clear_shutdown. case_bool_decide; [|done]. simpl. by destruct (idle_timer w).
  - by destruct (Hev c e).
  - by destruct (Hev c e).
  - pose proof (rel_frame _ _ _ Hrel) as (_&_&_&_&Ho&_). simpl in Ho.
    unfold disconnected. by case_bool_decide.
Qed.

(** The peer an event is to be answered to: the sender of a message with a reply
    address. *)
Definition expects_reply ev : option conn :=
  match ev with
  | EvPeer c e =>
      if decide (xpc_get_type e = XPC_TYPE_DICTIONARY ∧ is_Some (xpc_dictionary_create_reply e))
      then Some c else None
  | _ => None
  end.

Lemma sent_message_peer os c e w :
  xpc_get_type e = XPC_TYPE_DICTIONARY → request_answer os w e ≠ Crashed →
  (sent_messages c (answer_message e (request_answer os w e))).*1 =
    option_list (expects_reply (EvPeer c e)).
Proof.
  intros He Ha. unfold expects_reply.
  destruct (xpc_dictionary_create_reply e) as [r|] eqn:Hr.
  - rewrite decide_True by eauto. unfold answer_message, network_reply, error_reply.
    rewrite Hr. by destruct (request_answer os w e).
  - rewrite decide_False by (by intros [_ []]).
    unfold answer_message, network_reply, error_reply. rewrite Hr.
    by destruct (request_answer os w e).
Qed.

(** The messages of one step. *)
Lemma step_outbox `{!CoreFoundationLaws} w ev w' :
  reachable w → step w ev w' →
  (outbox w').*1 = (outbox w).*1 ++ option_list (expects_reply ev).
Proof.
  intros Hr Hs.
  destruct ev as [|c e| | |];
    try (rewrite (other_outbox w _ w') by done; simpl; by rewrite app_nil_r).
  destruct (decide (xpc_get_type e = XPC_TYPE_DICTIONARY)) as [He|Hn].
  - destruct Hs as [os Hd Hrun].
    destruct (request_outbox os c e w Hr Hd He) as (w1 & Hrun1 & Ho).
    assert (w1 = w') as -> by congruence.
    rewrite Ho, fmap_app, sent_message_peer; [done..|]. apply (answer_delivered os c); [apply Hd|done].
  - rewrite (other_outbox w _ w') by (try done; by intros ? ? [= <- <-]).
    unfold expects_reply. rewrite decide_False by naive_solver. by rewrite app_nil_r.
Qed.

(** C7: in any execution the broker replies to every request once and in order.
    The destinations of the messages it sends are the senders of the messages
    that have a reply address, in the order in which these were handled. *)
Theorem replies_match_requests `{!CoreFoundationLaws} w evs w' :
  reachable w → execution w evs w' →
  (outbox w').*1 = (outbox w).*1 ++ omap expects_reply evs.
Proof.
  intros Hr He. induction He as [w|w ev w1 evs w' Hs He IH]; simpl.
  - by rewrite app_nil_r.
  - rewrite IH by (by eapply reachable_step). rewrite (step_outbox w ev w1) by done.
    rewrite <- app_assoc. by destruct (expects_reply ev).
Qed.

(** ** What a request changes *)

(** The event of a request, and what it does. *)
Lemma request_effect os c e name k w :
  inv w → delivers os w (EvPeer c e) → xpc_get_type e = XPC_TYPE_DICTIONARY →
  request_name e = Some name → CFStringCreateWithCString name = Some k →
  ∃ r w', acquire_outcome os c name k w r w' ∧
    handle_event os (EvPeer c e) w = Ret () (sent c (reply_of e r) w').
Proof.
  intros Hinv [Hen Hos Hok] He Hname Hk.
  destruct (handle_peer_cases os w c e Hinv Hos Hen Hok) as (w' & Hrun & Heff).
  inversion Heff as [| |? ? _ Hd|? ? _ _ Hn|? ? name' k' r w0 _ _ Hn Hk' Hout
                    |? ? w2 _ Hinvalid| | |]; subst; try congruence.
  - simplify_eq. eauto.
  - unfold connection_invalid in Hinvalid. by rewrite He in Hinvalid.
Qed.

(** C14: a refused request changes nothing.  When the answer is an error code,
    the networks, the registry's entries, the peers, the objects and the timers
    are as before: what was created on the way to a failure is released. *)
Theorem refused_request_changes_nothing `{!CoreFoundationLaws} os c e w w' code :
  reachable w → delivers os w (EvPeer c e) → xpc_get_type e = XPC_TYPE_DICTIONARY →
  request_answer os w e = Refused code → handle_event os (EvPeer c e) w = Ret () w' →
  heap w' = heap w ∧ reg w' = reg w ∧ contexts w' = contexts w ∧ objs w' = objs w ∧
  connected_peers w' = connected_peers w ∧ idle_timer w' = idle_timer w ∧
  transactions w' = transactions w.
Proof.
  intros Hr Hd He Ha Hrun. pose proof (inv_reachable _ Hr) as Hinv. pose proof Hd as [Hen Hos Hok].
  destruct (handle_peer_cases os w c e Hinv Hos Hen Hok) as (w1 & Hrun1 & Heff).
  assert (w1 = w') as -> by congruence.
  inversion Heff as [| |? ? _ Hd'|? ? _ _ Hn|? ? name k r w0 _ _ Hn Hk Hout
                    |? ? w2 _ Hinvalid| | |]; subst; try congruence.
  - by destruct (error_reply e VMNET_BROKER_INVALID_REQUEST).
  - unfold request_answer in Ha. rewrite Hn, Hk in Ha. simpl in Ha.
    destruct Hout as [ctx l net s x ? Hreg Hl ? Hs Hx|ctx l net s x ? Hreg Hl ? ? Hs Hx
                     |ctx l ref s x ? Hreg ? Hcr| | |]; try by destruct (reply_of e _).
    + rewrite decide_True in Ha by (by eapply registered_builtin).
      by rewrite (registered_serialization_run w k l net s x) in Ha.
    + rewrite decide_True in Ha by (by eapply creation_builtin).
      unfold registered_serialization in Ha. by rewrite Hreg, Hcr in Ha.
  - unfold connection_invalid in Hinvalid. by rewrite He in Hinvalid.
Qed.

(** What a peer has when its request for [name] was granted with [x]. *)
Record granted c (k : CFString) x w w' : Prop := {
  gr_network : ∃ l ctx core, reg w' !! k = Some l ∧ contexts w' !! c = Some ctx ∧ l ∈ held ctx ∧
    network_data w' l = Some (core, x) ∧ idle_deadline w' l = None;
  gr_registry : ∀ k', k' ≠ k → reg w' !! k' = reg w !! k';
  gr_known : ∀ l, reg w !! k = Some l → reg w' !! k = Some l;
  gr_peers : ∀ c', c' ≠ c → contexts w' !! c' = contexts w !! c';
}.

Lemma joined_granted c k ctx l net x w w1 :
  wf (attach c ctx l net w1) → l ∈ held (attach_ctx l ctx) →
  (∃ core, network_data (attach c ctx l net w1) l = Some (core, x)) →
  reg w1 !! k = Some l → (∀ k', k' ≠ k → reg w1 !! k' = reg w !! k') →
  (∀ l', reg w !! k = Some l' → l' = l) → contexts w1 = contexts w →
  granted c k x w (attach c ctx l net w1).
Proof.
  intros Hw Hl [core Hdata] Hk Hreg Hone Hctx. split.
  - exists l, (attach_ctx l ctx), core. simpl. rewrite lookup_insert_eq. split_and!; try done.
    rewrite idle_deadline_timer_at. unfold timer_at. simpl. by rewrite lookup_insert_eq.
  - done.
  - by intros l' ->%Hone.
  - intros c' Hn. simpl. rewrite lookup_insert_ne by done. by rewrite Hctx.
Qed.

Lemma acquire_granted os c name k s x w w' :
  wf w → CFStringCreateWithCString name = Some k →
  acquire_outcome os c name k w (inl (s, x)) w' → granted c k x w w'.
Proof.
  intros Hw Hk Hout. pose proof (wf_acquire_outcome _ _ _ _ _ _ _ Hw Hk Hout) as Hw'.
  pose proof (acquire_serialization_live _ _ _ _ _ _ _ _ Hw Hout) as Hser.
  assert (∀ l net, heap w' !! l = Some net → net_serialization net = Some s →
            ∃ core, network_data w' l = Some (core, x)) as Hdata.
  { intros l net Hl Hs. exists (net_core net). unfold network_data.
    rewrite Hl. simpl. rewrite Hs. simpl. by rewrite Hser. }
  inversion Hout as [ctx l net ? ? Hc Hreg Hl Hin Hs|ctx l net ? ? Hc Hreg Hl Hin Hfull Hs
                    |ctx l ref ? ? Hc Hreg Hfull Hcr Hfresh| | |]; subst.
  - split; try done. destruct (Hdata l net) as [core Hd]; [done|done|].
    exists l, ctx, core. split_and!; try done.
    rewrite idle_deadline_timer_at. unfold timer_at. simpl. rewrite Hl. simpl.
    destruct (net_idle_timer net) as [t|] eqn:Ht; [exfalso|done].
    apply (held_no_timer w c ctx l net); eauto.
  - apply joined_granted; try done.
    + destruct (wf_ctx _ _ Hw _ _ Hc) as [Hok _].
      rewrite held_attach_ctx by (try done; by apply ctx_full_false). set_solver.
    + eapply Hdata; [apply lookup_insert_eq|done].
    + intros l'. change (reg w !! k = Some l' → l' = l). congruence.
  - apply joined_granted; try done.
    + destruct (wf_ctx _ _ Hw _ _ Hc) as [Hok _].
      rewrite held_attach_ctx; [set_solver|done| |by apply ctx_full_false].
      intros Hin. destruct (wf_held _ _ Hw _ _ _ Hc Hin). congruence.
    + eapply Hdata; [apply lookup_insert_eq|done].
    + apply lookup_insert_eq.
    + intros k' Hn. unfold reg. simpl. by rewrite lookup_insert_ne.
    + intros l'. congruence.
Qed.

Lemma request_granted `{!CoreFoundationLaws} os c e name k x w w' :
  reachable w → delivers os w (EvPeer c e) → xpc_get_type e = XPC_TYPE_DICTIONARY →
  request_name e = Some name → CFStringCreateWithCString name = Some k →
  request_answer os w e = Granted x → handle_event os (EvPeer c e) w = Ret () w' →
  granted c k x w w'.
Proof.
  intros Hr Hd He Hname Hk Ha Hrun. pose proof (inv_reachable _ Hr) as Hinv.
  destruct (request_effect os c e name k w Hinv Hd He Hname Hk) as (r & w1 & Hout & Hrun1).
  assert (sent c (reply_of e r) w1 = w') as <- by congruence.
  destruct r as [[s y]|code].
  - assert (y = x) as ->.
    { pose proof Hout as Hout'. unfold request_answer in Ha. rewrite Hname, Hk in Ha. simpl in Ha.
      case_decide; [|done].
      inversion Hout' as [ctx l net ? ? ? Hreg Hl ? Hs Hx|ctx l net ? ? ? Hreg Hl ? ? Hs Hx
                         |ctx l ref ? ? ? Hreg ? Hcr| | |]; subst.
      - rewrite (registered_serialization_run w k l net s y) in Ha by done. congruence.
      - rewrite (registered_serialization_run w k l net s y) in Ha by done. congruence.
      - unfold registered_serialization in Ha. rewrite Hreg in Ha. simpl in Ha.
        rewrite Hcr in Ha. congruence. }
    apply (acquire_granted os c name k s x w w1) in Hout; [|apply Hinv|done].
    by destruct (reply_of e (inl (s, x))); destruct Hout.
  - exfalso. unfold request_answer in Ha. rewrite Hname, Hk in Ha. simpl in Ha.
    inversion Hout as [| | |ctx Hc Hfull|ctx ? Hreg ? Hnf|ctx config ? Hreg ? Hf Hcr]; subst.
    + by rewrite (never_full w c ctx) in Hfull.
    + rewrite decide_False in Ha; [done|]. unfold builtin_name. rewrite Hnf. by intros [].
    + case_decide; [|done]. unfold registered_serialization in Ha. rewrite Hreg in Ha. simpl in Ha.
      by rewrite Hcr in Ha.
Qed.

(** C13: a granted request gives the peer the network.  When the answer is a
    serialization [x], the peer owns the network registered under the name it
    asked for, whose serialization is [x]; the network is not scheduled for
    removal (a pending removal is cancelled); a name that had a network keeps
    that network, and the other names and the other peers are untouched. *)
Theorem granted_request_owns `{!CoreFoundationLaws} os c e name k x w w' :
  reachable w → delivers os w (EvPeer c e) → xpc_get_type e = XPC_TYPE_DICTIONARY →
  request_name e = Some name → CFStringCreateWithCString name = Some k →
  request_answer os w e = Granted x → handle_event os (EvPeer c e) w = Ret () w' →
  granted c k x w w'.
Proof. by apply request_granted. Qed.

(** C28: asking again changes nothing.  A peer that already owns the network it
    asks for is answered its serialization, and neither its list of networks
    nor the count of peers of the network changes. *)
Theorem repeated_request_idempotent `{!CoreFoundationLaws} os c e name k ctx l w :
  reachable w → delivers os w (EvPeer c e) → xpc_get_type e = XPC_TYPE_DICTIONARY →
  request_name e = Some name → CFStringCreateWithCString name = Some k →
  contexts w !! c = Some ctx → reg w !! k = Some l → l ∈ held ctx →
  ∃ core x, network_data w l = Some (core, x) ∧
    handle_event os (EvPeer c e) w = Ret () (sent c (network_reply e x) w).
Proof.
  intros Hr Hd He Hname Hk Hc Hl Hin. pose proof (inv_reachable _ Hr) as Hinv.
  destruct (request_effect os c e name k w Hinv Hd He Hname Hk) as (r & w1 & Hout & Hrun1).
  assert (with_registry w = w) as Hsame.
  { unfold with_registry, reg in *. destruct (registry w) eqn:Hreg; simpl in *.
    - rewrite <- Hreg. by destruct w.
    - by rewrite lookup_empty in Hl. }
  inversion Hout as [ctx' l' net s x ? ? Hnet ? Hs Hx|ctx' l' net s x ? ?
                    |ctx' l' ref s x|ctx' Hc' Hfull| |]; simplify_eq; try congruence.
  - exists (net_core net), x. rewrite Hrun1, Hsame. split; [|done]. unfold network_data.
    rewrite Hnet. simpl. rewrite Hs. simpl. by rewrite Hx.
  - match goal with H : contexts w !! c = Some ?z |- _ => by rewrite (never_full w c z) in Hfull end.
Qed.
End requests.

(** ** The theorems on executions of the concrete platform *)

Lemma request_answered_witness :
  let w := after sharing_events in
  let e := acquire_message "shared" in
  let bad := acquire_message (String (Ascii.ascii_of_nat 255) "") in
  request_answer (good_os 3) w e = Granted (XData 0) ∧
  (∃ w', handle_event (good_os 3) (EvPeer 1 e) w = Ret () w' ∧
     outbox w' = outbox w ++ sent_messages 1 (answer_message e (Granted (XData 0)))) ∧
  handle_event (good_os 3) (EvPeer 1 bad) w = Fault NullDeref.
Proof.
  split; [by vm_compute|]. split.
  - apply (request_answered (good_os 3) 1 (acquire_message "shared") (after sharing_events));
      [apply reachable_sharing|by split|evaluate|done].
  - apply (request_answered (good_os 3) 1 (acquire_message (String (Ascii.ascii_of_nat 255) ""))
             (after sharing_events)); [apply reachable_sharing|by split|evaluate|done].
Defined.

Lemma refused_request_changes_nothing_witness :
  let w1 := after [connect 4; connect 5] in
  let e := acquire_message "shared" in
  request_answer no_network_os w1 e = Refused VMNET_BROKER_CREATE_FAILURE ∧
  let w' := next no_network_os (EvPeer 5 e) w1 in
  heap w' = heap w1 ∧ reg w' = reg w1 ∧ contexts w' = contexts w1 ∧ objs w' = objs w1 ∧
  connected_peers w' = connected_peers w1 ∧ idle_timer w' = idle_timer w1 ∧
  transactions w' = transactions w1.
Proof.
  split; [by vm_compute|].
  apply (refused_request_changes_nothing no_network_os 5 (acquire_message "shared")
    (after [connect 4; connect 5]) _ VMNET_BROKER_CREATE_FAILURE).
  - apply (reachable_after [connect 4; connect 5]). evaluate.
  - evaluate.
  - done.
  - by vm_compute.
  - apply run_next. by vm_compute.
Defined.

Lemma granted_request_owns_witness :
  let w := after idle_events in
  let e := acquire_message "shared" in
  is_Some (idle_deadline w (network_named w "shared")) ∧
  granted 2 (key "shared") (XData 0) w (next (good_os 9) (EvPeer 2 e) w).
Proof.
  split; [evaluate|].
  apply (granted_request_owns (good_os 9) 2 (acquire_message "shared") "shared");
    [apply reachable_idle|evaluate|done|done|done|by vm_compute|apply run_next; by vm_compute].
Defined.

Lemma repeated_request_idempotent_witness :
  let w := after sharing_events in
  let e := acquire_message "shared" in
  ∃ core x, network_data w (network_named w "shared") = Some (core, x) ∧
    handle_event (good_os 9) (EvPeer 1 e) w = Ret () (sent 1 (network_reply e x) w).
Proof.
  apply (repeated_request_idempotent (good_os 9) 1 (acquire_message "shared") "shared"
    (key "shared") (context_at (after sharing_events) 1));
    [apply reachable_sharing|evaluate|done|done|done|by vm_compute|by vm_compute|evaluate].
Defined.

Lemma replies_match_requests_witness :
  let w := after sharing_events in
  let w' := run_from w busy_events in
  omap expects_reply busy_events = [3%positive] ∧
  (outbox w').*1 = (outbox w).*1 ++ omap expects_reply busy_events.
Proof.
  split; [by vm_compute|].
  apply (replies_match_requests (after sharing_events) busy_events);
    [apply reachable_sharing|apply execution_from; evaluate].
Defined.
