(* ===== verification/Spec.v ===== *)
(** * The broker as its peers see it

    An abstract specification: which peers are connected, which networks exist,
    with their serialization, and who uses them.  [spec_step] says what the
    broker may do with an event and which messages it sends; it knows nothing
    of allocations, arrays, reference counts and timers.  Refinement.v shows
    that the broker does nothing else. *)

From S2P Require Import Prelude Platform Common World Config Network Xpc Broker.
From S2P Require Import Requests BrokerFacts.

Section spec.
Context {xpc : XPC} {cf : CoreFoundation}.

Record spec := Spec {
  sp_peers : gset conn;
  sp_networks : gmap CFString (xpc_object * gset conn);
}.

(** Before any peer connects. *)
Definition initial_spec : spec := Spec ∅ ∅.

Implicit Types (s : spec) (c : conn) (k : CFString) (x : xpc_object).

(** [c] uses the network [k], whose serialization is [x], too. *)
Definition spec_join c k x (users : gset conn) s : spec :=
  Spec (sp_peers s) (<[k := (x, {[c]} ∪ users)]> (sp_networks s)).

(** [c] is gone. *)
Definition spec_leave c s : spec :=
  Spec (sp_peers s ∖ {[c]}) ((λ n, (n.1, n.2 ∖ {[c]})) <$> sp_networks s).

(** A peer asks for [name]: the network that exists, or a new one where the name
    is builtin. *)
Definition spec_offers s (name : string) k x (users : gset conn) : Prop :=
  sp_networks s !! k = Some (x, users) ∨
  (sp_networks s !! k = None ∧ users = ∅ ∧ builtin_name name).

(** The codes of a refusal: a malformed request, an unknown name, and a network
    that cannot be created, which only a name without a network is. *)
Definition spec_refuses s (e : xpc_object) (code : Z) : Prop :=
  match request_name e with
  | None => code = VMNET_BROKER_INVALID_REQUEST
  | Some name =>
      (∀ k, CFStringCreateWithCString name = Some k → sp_networks s !! k = None) ∧
      (code = VMNET_BROKER_NOT_FOUND ∧ ¬ builtin_name name ∨
       code = VMNET_BROKER_CREATE_FAILURE ∧ builtin_name name)
  end.

(** [spec_step s ev ms s']: handling [ev] the broker sends [ms]. *)
Inductive spec_step s : event → list (conn * xpc_object) → spec → Prop :=
  | spec_connect e :
      xpc_get_type e = XPC_TYPE_CONNECTION → xpc_connection_of e ∉ sp_peers s →
      spec_step s (EvListener e) []
        (Spec ({[xpc_connection_of e]} ∪ sp_peers s) (sp_networks s))
  | spec_grant c e name k x users :
      c ∈ sp_peers s → xpc_get_type e = XPC_TYPE_DICTIONARY →
      request_name e = Some name → CFStringCreateWithCString name = Some k →
      spec_offers s name k x users →
      spec_step s (EvPeer c e) (sent_messages c (network_reply e x)) (spec_join c k x users s)
  | spec_refuse c e code :
      c ∈ sp_peers s → xpc_get_type e = XPC_TYPE_DICTIONARY → spec_refuses s e code →
      spec_step s (EvPeer c e) (sent_messages c (error_reply e code)) s
  | spec_disconnect c e :
      c ∈ sp_peers s → connection_invalid e = true →
      spec_step s (EvPeer c e) [] (spec_leave c s)
  | spec_expire t k x :
      sp_networks s !! k = Some (x, ∅) →
      spec_step s (EvTimer t) [] (Spec (sp_peers s) (delete k (sp_networks s)))
  | spec_other_listener e :
      xpc_get_type e ≠ XPC_TYPE_CONNECTION → spec_step s (EvListener e) [] s
  | spec_other_peer c e :
      c ∈ sp_peers s → xpc_get_type e ≠ XPC_TYPE_DICTIONARY → connection_invalid e = false →
      spec_step s (EvPeer c e) [] s
  | spec_signal sig : sp_peers s ≠ ∅ → spec_step s (EvSignal sig) [] s
  | spec_clock d : (0 ≤ d)%Z → spec_step s (EvClock d) [] s.

Inductive spec_execution : spec → list event → list (conn * xpc_object) → spec → Prop :=
  | spec_nil s : spec_execution s [] [] s
  | spec_cons s ev ms s1 evs ms' s' :
      spec_step s ev ms s1 → spec_execution s1 evs ms' s' →
      spec_execution s (ev :: evs) (ms ++ ms') s'.
End spec.
