(* ===== verification/SpecFacts.v ===== *)
(** * Consequences of the specification

    What holds of every state and step of Spec.v, for the clients of the
    specification: a peer keeps the networks it uses until it leaves. *)

From S2P Require Import Prelude Platform Common World Config Network Xpc Broker.
From S2P Require Import BrokerFacts EffectFacts Requests Spec.

Section spec_facts.
Context {xpc : XPC} {cf : CoreFoundation}.
Implicit Types (s : spec) (c : conn) (k : CFString) (x : xpc_object) (ev : event).

(** [c] uses the network [name], whose serialization is [x]. *)
Definition uses s c (name : string) x : Prop :=
  ∃ k users, CFStringCreateWithCString name = Some k ∧
             sp_networks s !! k = Some (x, users) ∧ c ∈ users.

(** One network per name. *)
Lemma uses_agree s c1 c2 name x1 x2 :
  uses s c1 name x1 → uses s c2 name x2 → x1 = x2.
Proof. intros (k1 & u1 & Hk1 & H1 & _) (k2 & u2 & Hk2 & H2 & _). congruence. Qed.

Lemma uses_step s ev ms s' c name x :
  spec_step s ev ms s' → ¬ leaves c ev → uses s c name x → uses s' c name x.
Proof.
  intros Hstep Hev (k & users & Hk & Hn & Hc).
  inversion Hstep as [|c0 e name0 k0 x0 users0 ? ? ? ? Hoff| |c0 e ? Hinv|t k0 x0 Hk0| | | |];
    subst; try (by exists k, users).
  - destruct (decide (k0 = k)) as [->|Hne].
    + destruct Hoff as [Hoff|(Hoff & _)]; [|congruence].
      assert (x0 = x ∧ users0 = users) as [-> ->] by (split; congruence).
      exists k, ({[c0]} ∪ users). simpl. rewrite lookup_insert_eq. set_solver.
    + exists k, users. simpl. by rewrite lookup_insert_ne.
  - exists k, (users ∖ {[c0]}). simpl. rewrite lookup_fmap, Hn. simpl. split_and!; try done.
    assert (c ≠ c0); [|set_solver]. intros ->. apply Hev. by exists e.
  - exists k, users. simpl. rewrite lookup_delete_ne; [done|]. intros ->.
    assert (users = ∅) as -> by congruence. set_solver.
Qed.

(** A reply with a serialization is sent to a user of the network. *)
Lemma granted_uses s c e m s' name :
  spec_step s (EvPeer c e) [(c, m)] s' → request_name e = Some name →
  (∃ x, network_reply e x = Some m ∧ uses s' c name x) ∨
  (∃ code, error_reply e code = Some m ∧ s' = s ∧
           (code = VMNET_BROKER_NOT_FOUND ∨ code = VMNET_BROKER_CREATE_FAILURE)).
Proof.
  intros Hstep Hname.
  inversion Hstep as [|? ? name0 k x users ? ? Hn Hk Hoff Hev Hms|? ? code ? ? Href Hev Hms| | | | | |];
    subst; simplify_eq.
  - left. exists x. split.
    + unfold sent_messages in Hms. destruct (network_reply e x); congruence.
    + exists k, ({[c]} ∪ users). simpl. rewrite lookup_insert_eq. set_solver.
  - right. exists code. split.
    + unfold sent_messages in Hms. destruct (error_reply e code); congruence.
    + unfold spec_refuses in Href. rewrite Hname in Href. naive_solver.
Qed.
End spec_facts.
