(* ===== verification/Refinement.v ===== *)
(** * The broker refines its specification

    [abs] reads the abstract state off the broker's: the registered networks
    with the content of their serialization and the peers whose context lists
    them.  Every step of the broker is a step of the specification that sends
    the same messages, hence every execution is one of the specification. *)

From S2P Require Import Prelude Platform Common World Config Network Xpc Broker.
From S2P Require Import Ownership Invariant Transitions NetworkFacts AcquireFacts ReleaseFacts.
From S2P Require Import BrokerFacts Execution EffectFacts Peers Requests Spec Concrete Scenarios.

Section refinement.
Context {xpc : XPC} {cf : CoreFoundation}.
Implicit Types (w : world) (l : loc) (c : conn) (net : network) (ev : event).

Definition abs_network w l : option (xpc_object * gset conn) :=
  (λ d, (d.2, holders (contexts w) l)) <$> network_data w l.

Definition abs w : spec :=
  Spec (dom (contexts w)) (omap (abs_network w) (reg w)).

Lemma abs_lookup w k : sp_networks (abs w) !! k = reg w !! k ≫= abs_network w.
Proof. apply lookup_omap. Qed.

Lemma abs_registered w k l net :
  wf w → reg w !! k = Some l → heap w !! l = Some net →
  ∃ x, network_data w l = Some (net_core net, x) ∧
       sp_networks (abs w) !! k = Some (x, holders (contexts w) l).
Proof.
  intros Hw Hk Hl. destruct (network_data_live _ _ _ _ Hw Hl) as [x Hx]. exists x.
  split; [done|]. rewrite abs_lookup, Hk. simpl. unfold abs_network. by rewrite Hx.
Qed.

Lemma abs_unregistered w k : reg w !! k = None → sp_networks (abs w) !! k = None.
Proof. intros Hk. by rewrite abs_lookup, Hk. Qed.

(** ** A grant *)

Lemma abs_join w w' c k l x core users :
  dom (contexts w') = dom (contexts w) → reg w' = <[k := l]> (reg w) →
  network_data w' l = Some (core, x) → holders (contexts w') l = {[c]} ∪ users →
  (∀ k' l', k' ≠ k → reg w !! k' = Some l' → abs_network w' l' = abs_network w l') →
  abs w' = spec_join c k x users (abs w).
Proof.
  intros Hd Hr Hdata Hh Hother. unfold abs, spec_join. simpl. rewrite Hd, Hr. f_equal.
  apply map_eq. intros k'. rewrite lookup_omap.
  destruct (decide (k' = k)) as [->|Hn].
  - rewrite !lookup_insert_eq. simpl. unfold abs_network. rewrite Hdata, Hh. done.
  - rewrite !lookup_insert_ne, lookup_omap by done.
    destruct (reg w !! k') as [l'|] eqn:Hk'; simpl; [by eapply Hother|done].
Qed.

(** The holders after [c] joins [l]. *)
Lemma attach_holders c ctx l net w w1 l' :
  wf w → contexts w1 = contexts w → contexts w !! c = Some ctx → l ∉ held ctx →
  ctx_full ctx = false →
  holders (contexts (attach c ctx l net w1)) l' =
    if decide (l' = l) then {[c]} ∪ holders (contexts w) l else holders (contexts w) l'.
Proof.
  intros Hw Hctx Hc Hl Hfull. simpl. rewrite Hctx.
  destruct (wf_ctx _ _ Hw _ _ Hc) as [Hok _].
  pose proof (held_attach_ctx l ctx Hok Hl (ctx_full_false _ Hfull)) as Hheld.
  case_decide as Hd.
  - subst. apply holders_insert_gain. rewrite Hheld. set_solver.
  - eapply holders_insert_same; [done|]. rewrite Hheld. set_solver.
Qed.

Lemma abs_network_eq w w' l :
  network_data w' l = network_data w l → holders (contexts w') l = holders (contexts w) l →
  abs_network w' l = abs_network w l.
Proof. unfold abs_network. by intros -> ->. Qed.

(** A registered network other than [l] keeps its content. *)
Lemma acquire_data os c name k r w w' k' l' :
  wf w → wf w' → acquire_outcome os c name k w r w' → objs_kept w w' →
  reg w !! k' = Some l' → network_data w' l' = network_data w l'.
Proof.
  intros Hw Hw' Hout Hkept Hk'.
  destruct (acquire_keeps _ _ _ _ _ _ _ _ _ Hw Hout Hk') as [_ Hcore].
  apply network_data_kept; try done. by eapply wf_registered.
Qed.

(** The network an acquire finds is what the specification offers. *)
Lemma registered_offers w name k l net s x :
  reg w !! k = Some l → heap w !! l = Some net → net_serialization net = Some s →
  objs w !! s = Some (Cell 1 (BXpc x)) →
  network_data w l = Some (net_core net, x) ∧
  spec_offers (abs w) name k x (holders (contexts w) l).
Proof.
  intros Hk Hl Hs Hx.
  assert (network_data w l = Some (net_core net, x)) as Hd.
  { unfold network_data. rewrite Hl. simpl. rewrite Hs. simpl. by rewrite Hx. }
  split; [done|]. left. rewrite abs_lookup, Hk. simpl. unfold abs_network. by rewrite Hd.
Qed.

Lemma acquire_abs os c name k s x w w' :
  wf w → wf w' → acquire_outcome os c name k w (inl (s, x)) w' → objs_kept w w' →
  ∃ users, spec_offers (abs w) name k x users ∧ abs w' = spec_join c k x users (abs w).
Proof.
  intros Hw Hw' Hout Hkept.
  assert (∀ k' l', reg w !! k' = Some l' → network_data w' l' = network_data w l') as Hdata.
  { intros k' l'. by eapply acquire_data. }
  inversion Hout as [ctx l net ? ? Hc Hk Hl Hin Hs Hx|ctx l net ? ? Hc Hk Hl Hin Hfull Hs Hx
                    |ctx l ref ? ? Hc Hk Hfull Hcr Hfresh| | |]; subst.
  - destruct (registered_offers w name k l net s x) as [Hd Hoff]; try done.
    exists (holders (contexts w) l). split; [done|].
    apply (abs_join w (with_registry w) c k l x (net_core net)); try done.
    + by rewrite reg_with_registry, insert_id.
    + simpl. assert (c ∈ holders (contexts w) l); [|set_solver].
      apply elem_of_holders. by exists ctx.
  - destruct (registered_offers w name k l net s x) as [Hd Hoff]; try done.
    exists (holders (contexts w) l). split; [done|].
    apply (abs_join w _ c k l x (net_core net)).
    + exact (attach_dom c ctx l net (with_registry w) Hc).
    + change (reg w = <[k := l]> (reg w)). by rewrite insert_id.
    + by rewrite (Hdata k).
    + rewrite (attach_holders c ctx l net w) by done. by rewrite decide_True.
    + intros k' l' Hne Hk'. apply abs_network_eq; [by eapply Hdata|].
      rewrite (attach_holders c ctx l net w) by done. rewrite decide_False; [done|].
      intros ->. by apply Hne, (wf_key_inj _ _ _ _ _ Hw Hk' Hk).
  - exists ∅. split; [right; split; [by apply abs_unregistered|split; [done|]]|].
    { by eapply creation_builtin. }
    assert (l ∉ held ctx) as Hin.
    { intros Hin. destruct (wf_held _ _ Hw _ _ _ Hc Hin). congruence. }
    eapply (abs_join w _ c k l x).
    + exact (attach_dom c ctx l _ (install k name ref s x l (with_registry w)) Hc).
    + done.
    + unfold network_data. simpl. rewrite lookup_insert_eq. simpl. by rewrite lookup_insert_eq.
    + rewrite (attach_holders c ctx l _ w) by done. rewrite decide_True by done.
      by rewrite (no_holders_fresh None w l).
    + intros k' l' Hne Hk'. apply abs_network_eq; [by eapply Hdata|].
      rewrite (attach_holders c ctx l _ w) by done. rewrite decide_False; [done|].
      intros ->. destruct (wf_registered _ _ _ _ Hw Hk'). congruence.
Qed.

(** ** The other steps *)

Lemma elem_of_peers c w : c ∈ sp_peers (abs w) ↔ is_Some (contexts w !! c).
Proof. simpl. apply elem_of_dom. Qed.

Lemma connected_abs os c w :
  inv w → contexts w !! c = None → wf (connected os c w) → objs_kept w (connected os c w) →
  abs (connected os c w) = Spec ({[c]} ∪ sp_peers (abs w)) (sp_networks (abs w)).
Proof.
  intros Hinv Hc Hw' Hkept. pose proof (inv_wf _ Hinv) as Hw. unfold abs. simpl.
  rewrite connected_contexts, dom_insert_L. f_equal. apply map_eq. intros k.
  rewrite !lookup_omap. unfold reg at 1. rewrite connected_registry. fold (reg w).
  destruct (reg w !! k) as [l|] eqn:Hk; simpl; [|done]. apply abs_network_eq.
  - apply network_data_kept; try done; [by eapply wf_registered|].
    unfold core_at. by rewrite connected_heap.
  - rewrite connected_contexts, holders_insert_lose by set_solver.
    assert (c ∉ holders (contexts w) l); [|set_solver].
    rewrite elem_of_holders. naive_solver.
Qed.

Lemma holders_delete cs c l : holders (delete c cs) l = holders cs l ∖ {[c]}.
Proof.
  apply set_eq. intros c'. rewrite elem_of_difference, elem_of_singleton, !elem_of_holders.
  destruct (decide (c' = c)) as [->|Hn].
  - rewrite lookup_delete_eq. naive_solver.
  - rewrite lookup_delete_ne by done. naive_solver.
Qed.

Lemma disconnected_abs c w w2 :
  inv w → released c (one_less w) w2 → wf (disconnected c w2) → objs_kept w (disconnected c w2) →
  abs (disconnected c w2) = spec_leave c (abs w).
Proof.
  intros Hinv Hrel Hw' Hkept. pose proof (inv_wf _ Hinv) as Hw.
  destruct (rel_context _ _ _ Hrel) as (ctx & _ & Hctx). simpl in Hctx.
  assert (contexts (disconnected c w2) = delete c (contexts w)) as Hcs.
  { by rewrite disconnected_contexts, Hctx, delete_insert_eq. }
  unfold abs, spec_leave. cbn [sp_peers sp_networks]. rewrite Hcs, dom_delete_L. f_equal. apply map_eq. intros k.
  rewrite lookup_fmap, !lookup_omap. unfold reg at 1. rewrite disconnected_registry.
  rewrite (rel_registry _ _ _ Hrel). change (registry (one_less w)) with (registry w).
  fold (reg w). destruct (reg w !! k) as [l|] eqn:Hk; simpl; [|done].
  assert (network_data (disconnected c w2) l = network_data w l) as Hdata.
  { apply network_data_kept; try done; [by eapply wf_registered|].
    rewrite <- (released_core c w w2) by done. unfold core_at. by rewrite disconnected_heap. }
  unfold abs_network. rewrite Hdata, Hcs, holders_delete.
  by destruct (network_data w l).
Qed.

Lemma drop_abs k l net w :
  wf w → wf (drop k l net w) → objs_kept w (drop k l net w) → reg w !! k = Some l →
  abs (drop k l net w) = Spec (sp_peers (abs w)) (delete k (sp_networks (abs w))).
Proof.
  intros Hw Hw' Hkept Hk. unfold abs. simpl. f_equal. apply map_eq. intros k'.
  rewrite lookup_omap. unfold reg at 1. simpl. rewrite !lookup_delete.
  case_decide as Hd; [done|]. rewrite lookup_omap.
  destruct (reg w !! k') as [l'|] eqn:Hk'; simpl; [|done]. apply abs_network_eq; [|done].
  apply network_data_kept; try done; [by eapply wf_registered|].
  unfold core_at. simpl. rewrite lookup_delete_ne; [done|].
  intros <-. by apply Hd, (wf_key_inj _ _ _ _ _ Hw Hk Hk').
Qed.

(** A refused request leaves the abstract state, and is allowed to be refused. *)
Lemma refused_abs os c e name k w w' code :
  reachable w → request_name e = Some name → CFStringCreateWithCString name = Some k →
  acquire_outcome os c name k w (inr code) w' →
  spec_refuses (abs w) e code ∧ abs w' = abs w.
Proof.
  intros Hr Hname Hk Hout. unfold spec_refuses. rewrite Hname.
  assert (reg w !! k = None → ∀ k', CFStringCreateWithCString name = Some k' →
            sp_networks (abs w) !! k' = None) as Hnone.
  { intros Hreg k' Hk'. simplify_eq. by apply abs_unregistered. }
  inversion Hout as [| | |ctx Hc Hfull|ctx Hc Hreg ? Hnf|ctx config Hc Hreg ? Hf Hcr]; subst.
  - by rewrite (never_full w c ctx) in Hfull.
  - split; [|done]. split; [by apply Hnone|]. left. split; [done|].
    unfold builtin_name. rewrite Hnf. by intros [].
  - split; [|done]. split; [by apply Hnone|]. right. split; [done|].
    unfold builtin_name. by rewrite Hf.
Qed.

Lemma sent_abs c m w : abs (sent c m w) = abs w.
Proof. by destruct m. Qed.

Lemma effect_refines os w ev w' :
  reachable w → effect os w ev w' →
  ∃ ms, outbox w' = outbox w ++ ms ∧ spec_step (abs w) ev ms (abs w').
Proof.
  intros Hr He. pose proof (inv_reachable _ Hr) as Hinv. pose proof (inv_wf _ Hinv) as Hw.
  pose proof (inv_wf _ (effect_inv _ _ _ _ Hinv He)) as Hw'.
  pose proof (effect_objs _ _ _ _ He) as Hkept.
  pose proof (effect_now _ _ _ _ He) as Hnow.
  destruct He as [e|e He Hnew|c e Hc|c e Hc|c e name k r w' Hc He Hname Hk Hout
                 |c e w2 Hc Hinvalid Hrel|t l k net Hk Hl Ht Hready|sig Hc|d].
  - exists []. rewrite app_nil_r. split; [done|]. by apply spec_other_listener.
  - exists []. rewrite app_nil_r. split; [by apply connected_outbox|].
    rewrite connected_abs by done. apply spec_connect; [done|].
    rewrite elem_of_peers, Hnew. by intros [].
  - exists []. rewrite app_nil_r. split; [done|]. by apply spec_other_peer; [rewrite elem_of_peers|..].
  - eexists. split; [apply sent_outbox|]. rewrite sent_abs.
    apply spec_refuse; [by rewrite elem_of_peers|done|].
    unfold spec_refuses. by destruct (request_name e).
  - exists (sent_messages c (reply_of e r)).
    rewrite sent_outbox, (acquire_outbox _ _ _ _ _ _ _ Hout), sent_abs. split; [done|].
    assert (wf w') as Hw1 by exact (wf_acquire_outcome _ _ _ _ _ _ _ Hw Hk Hout).
    assert (objs_kept w w') as Hk1.
    { intros o a b Ha Hb. apply (Hkept o a b Ha). destruct (sent_fields c (reply_of e r) w')
        as (_&_&_&Ho&_). by rewrite Ho. }
    destruct r as [[s x]|code]; simpl.
    + destruct (acquire_abs os c name k s x w w') as (users & Hoff & ->); try done.
      eapply spec_grant; try done. by rewrite elem_of_peers.
    + destruct (refused_abs os c e name k w w' code) as [Href ->]; try done.
      apply spec_refuse; [by rewrite elem_of_peers|done|done].
  - exists []. rewrite app_nil_r. split.
    { pose proof (rel_frame _ _ _ Hrel) as (_&_&_&_&Ho&_). simpl in Ho.
      unfold disconnected. by case_bool_decide. }
    rewrite (disconnected_abs c w w2) by done.
    apply spec_disconnect; [by rewrite elem_of_peers|done].
  - exists []. rewrite app_nil_r. split; [done|]. rewrite drop_abs by done.
    destruct (abs_registered w k l net) as (x & _ & Hx); try done.
    apply (spec_expire _ t k x). rewrite Hx. do 2 f_equal.
    apply (wf_timer _ _ Hw _ _ Hl); [done|]. by rewrite Ht.
  - exists []. rewrite app_nil_r. split; [done|]. apply spec_signal. simpl.
    by rewrite dom_empty_iff_L.
  - exists []. rewrite app_nil_r. split; [done|]. by apply spec_clock.
Qed.

(** A step of the broker sends what its specification says. *)
Lemma step_refines w ev w' :
  reachable w → step w ev w' →
  ∃ ms, outbox w' = outbox w ++ ms ∧ spec_step (abs w) ev ms (abs w').
Proof.
  intros Hr Hs. destruct (step_effect _ _ _ (inv_reachable _ Hr) Hs) as [os He].
  by eapply effect_refines.
Qed.

(** C1: the broker refines its specification.  Every step the broker takes from
    a reachable state is a step of the specification on the abstract states,
    for the same event and sending the same messages. *)
Theorem broker_refines_spec w ev w' :
  reachable w → step w ev w' →
  ∃ ms, outbox w' = outbox w ++ ms ∧ spec_step (abs w) ev ms (abs w').
Proof. apply step_refines. Qed.

Lemma execution_refines w evs w' :
  reachable w → execution w evs w' →
  ∃ ms, outbox w' = outbox w ++ ms ∧ spec_execution (abs w) evs ms (abs w').
Proof.
  intros Hr He. induction He as [w|w ev w1 evs w' Hs He IH].
  - exists []. rewrite app_nil_r. split; [done|constructor].
  - destruct (step_refines _ _ _ Hr Hs) as (ms & Ho & Hstep).
    destruct IH as (ms' & Ho' & Hsteps); [by eapply reachable_step|].
    exists (ms ++ ms'). rewrite Ho', Ho, app_assoc. split; [done|]. by econstructor.
Qed.

(** C12: the broker starts as the specification does, and everything it sends
    from then on, in any execution, is what an execution of the specification
    sends for the same events. *)
Theorem execution_refines_spec os w evs w' :
  os_ok os → main os initial_world = Ret () w → execution w evs w' →
  abs w = initial_spec ∧ spec_execution initial_spec evs (outbox w') (abs w').
Proof.
  intros Hos Hmain He.
  assert (reachable w) as Hr by (by eapply reachable_main).
  rewrite main_run in Hmain by done. destruct (os_create_mach_service os MACH_SERVICE_NAME); [|done].
  assert (abs w = initial_spec) as Ha.
  { injection Hmain as <-. unfold abs, initial_spec. simpl. f_equal. }
  assert (outbox w = []) as Ho by (by injection Hmain as <-).
  destruct (execution_refines w evs w' Hr He) as (ms & Hms & Hex).
  rewrite Ho in Hms. simpl in Hms. subst ms. split; [done|]. by rewrite <- Ha.
Qed.
End refinement.

(** ** The theorems on executions of the concrete platform *)

Lemma broker_refines_spec_witness :
  let w := after sharing_events in
  let w' := next (good_os 0) (acquire 1 "host") w in
  sp_networks (abs w) !! key "host" = Some (XData 0, {[2%positive]}) ∧
  ∃ ms, outbox w' = outbox w ++ ms ∧ spec_step (abs w) (acquire 1 "host") ms (abs w').
Proof.
  split; [by vm_compute|].
  apply (broker_refines_spec (after sharing_events) (acquire 1 "host")); [apply reachable_sharing|].
  apply step_next; [evaluate|by vm_compute].
Defined.

Lemma execution_refines_spec_witness :
  let w' := after quiet_events in
  length (outbox w') = 2%nat ∧
  abs started = initial_spec ∧ spec_execution initial_spec quiet_events (outbox w') (abs w').
Proof.
  split; [by vm_compute|].
  apply (execution_refines_spec (good_os 0)); [by split|done|].
  apply execution_from. evaluate.
Defined.
