(* ===== verification/Sharing.v ===== *)
(** * Peers that share a network

    The purpose of the broker: peers that ask for the same name while one of
    them holds it, or before it is removed, get the same network. *)

From S2P Require Import Prelude Platform Common World Config Network Xpc Broker.
From S2P Require Import Ownership Invariant Transitions NetworkFacts AcquireFacts ReleaseFacts.
From S2P Require Import BrokerFacts Execution EffectFacts Lifetime Requests Concrete Scenarios.

Section sharing.
Context {xpc : XPC} {cf : CoreFoundation} {laws : CoreFoundationLaws}.
Implicit Types (w : world) (l : loc) (c : conn) (ev : event).

(** A request for a registered network is answered its serialization. *)
Lemma registered_answer os w e name k l core x :
  reachable w → request_name e = Some name → CFStringCreateWithCString name = Some k →
  reg w !! k = Some l → network_data w l = Some (core, x) → request_answer os w e = Granted x.
Proof.
  intros Hr Hname Hk Hl Hd. unfold request_answer, registered_serialization.
  rewrite Hname, Hk. simpl. rewrite decide_True by (by eapply registered_builtin).
  rewrite Hl. simpl. by rewrite Hd.
Qed.

(** C3: peers that ask for the same name share one network.  When peer [c1] is
    granted the serialization [x] for a name, then as long as its connection is
    not closed every request for that name, from any peer, is answered [x],
    whatever happened in between and whatever the system answers then. *)
Theorem sharers_get_same_network os1 c1 e1 name k x w0 w1 evs w2 os2 e2 :
  reachable w0 → delivers os1 w0 (EvPeer c1 e1) → xpc_get_type e1 = XPC_TYPE_DICTIONARY →
  request_name e1 = Some name → CFStringCreateWithCString name = Some k →
  request_answer os1 w0 e1 = Granted x → handle_event os1 (EvPeer c1 e1) w0 = Ret () w1 →
  execution w1 evs w2 → (∀ ev, ev ∈ evs → ¬ leaves c1 ev) → request_name e2 = Some name →
  request_answer os2 w2 e2 = Granted x.
Proof.
  intros Hr0 Hd He1 Hn1 Hk Ha Hrun Hex Hev Hn2.
  destruct (request_granted os1 c1 e1 name k x w0 w1) as [(l & ctx & core & Hl & Hc & Hin & Hdata & _) _ _ _];
    try done.
  assert (reachable w1) as Hr1 by (by eapply reachable_step; [|econstructor]).
  destruct (execution_held w1 evs w2 k c1 ctx l (inv_reachable _ Hr1) Hex Hc Hin Hev Hl)
    as (_ & Hl2 & Hdata2).
  eapply (registered_answer os2 w2 e2 name k l core x); try done.
  - by eapply execution_reachable.
  - by rewrite Hdata2.
Qed.

(** C27: a peer that comes back within the grace period gets its network back.
    A request for the name of an idle network, at a time before the network's
    deadline, is answered the serialization the network had. *)
Theorem reacquired_within_grace w evs w' os e name k l d core x :
  reachable w → reg w !! k = Some l → idle_deadline w l = Some d →
  network_data w l = Some (core, x) → execution w evs w' → (now w' < d)%Z →
  request_name e = Some name → CFStringCreateWithCString name = Some k →
  request_answer os w' e = Granted x.
Proof.
  intros Hr Hl Hd Hdata Hex Hnow Hname Hk.
  destruct (execution_idle w evs w' k l d) as [Hl' Hdata']; try done.
  eapply (registered_answer os w' e name k l core x); try done.
  - by eapply execution_reachable.
  - by rewrite Hdata'.
Qed.

(** C32: a peer holds at most one network per builtin network, so that the
    limit of MAX_PEER_NETWORKS is never reached: can_add_network_to_peer never
    refuses and INTERNAL_ERROR is never answered. *)
Theorem limit_never_reached w c ctx error :
  reachable w → contexts w !! c = Some ctx →
  (length (held ctx) ≤ length builtin_networks)%nat ∧
  can_add_network_to_peer c error w = Ret (true, error) w.
Proof.
  intros Hr Hc. split; [by eapply held_at_most_builtin|].
  pose proof (inv_wf _ (inv_reachable _ Hr)) as Hw. destruct (wf_ctx _ _ Hw _ _ Hc) as [Hok _].
  rewrite (can_add_run c ctx) by done. by rewrite (never_full w c ctx).
Qed.
End sharing.

(** ** The theorems on executions of the concrete platform *)

(** The state where peer 2 is about to ask for the network of peer 1. *)
Definition first_granted : world :=
  next (good_os 0) (acquire 1 "shared") (after [connect 1; connect 2]).

Lemma sharers_get_same_network_witness :
  let w1 := first_granted in
  let w2 := run_from w1 [seconds 1000; connect 4; disconnect 4] in
  creation_result (good_os 5) "shared" = Some (XData 5) ∧
  request_answer (good_os 5) w2 (acquire_message "shared") = Granted (XData 0).
Proof.
  split; [by vm_compute|].
  apply (sharers_get_same_network (good_os 0) 1 (acquire_message "shared") "shared" (key "shared")
    (XData 0) (after [connect 1; connect 2]) first_granted
    [seconds 1000; connect 4; disconnect 4]).
  - apply reachable_after. evaluate.
  - evaluate.
  - done.
  - done.
  - done.
  - by vm_compute.
  - apply run_next. by vm_compute.
  - apply execution_from. evaluate.
  - apply Forall_forall. evaluate.
  - done.
Defined.

Lemma reacquired_within_grace_witness :
  let w := after idle_events in
  let w' := run_from w [seconds 119; connect 6] in
  creation_result (good_os 5) "shared" = Some (XData 5) ∧
  request_answer (good_os 5) w' (acquire_message "shared") = Granted (XData 0).
Proof.
  split; [by vm_compute|].
  apply (reacquired_within_grace (after idle_events) [seconds 119; connect 6]
    (run_from (after idle_events) [seconds 119; connect 6]) (good_os 5) (acquire_message "shared")
    "shared" (key "shared") (network_named (after idle_events) "shared") (125 * NSEC_PER_SEC)%Z
    (Some "shared", Some 2%positive, Some 3%positive) (XData 0)).
  - apply reachable_idle.
  - by vm_compute.
  - by vm_compute.
  - by vm_compute.
  - apply execution_from. evaluate.
  - by vm_compute.
  - done.
  - done.
Defined.

Lemma limit_never_reached_witness :
  let w := after sharing_events in
  let ctx := context_at w 2 in
  length (held ctx) = 2%nat ∧
  (length (held ctx) ≤ length builtin_networks)%nat ∧
  can_add_network_to_peer 2 (Some 0%Z) w = Ret (true, Some 0%Z) w.
Proof.
  split; [by vm_compute|].
  apply (limit_never_reached (after sharing_events) 2); [apply reachable_sharing|by vm_compute].
Defined.
