(* ===== verification/Client.v ===== *)
(** * The client library: client/client.c

    vmnet_broker_acquire_network, over a process state of its own: the
    connection, and the XPC objects the process holds references on.  A reply
    holds a reference on the serialization it carries, which is released with
    the reply's last reference. *)

From S2P Require Import Prelude Platform Common.

Section client.
Context {xpc : XPC}.

(** An XPC object of the client: its value, and the object under REPLY_NETWORK
    when it is a dictionary that has one. *)
Record client_object := ClientObject {
  co_value : xpc_object;
  co_network : option positive;
}.

Record client := Client {
  cl_connection : bool;                       (* connection != NULL *)
  cl_objs : gmap positive (cell client_object);
  cl_sent : list xpc_object;                  (* messages sent to the broker *)
}.

#[export] Instance client_store : Store client client_object := {|
  get_objs := cl_objs;
  put_objs σ s := Client (cl_connection s) σ (cl_sent s)
|}.

#[export] Instance client_store_laws : StoreLaws client client_object.
Proof. split; [done|done|by intros []]. Qed.

(** The static initial state of a client process. *)
Definition initial_client : client := Client false ∅ [].

(** What libxpc answers: whether a connection is created, and the reply of
    xpc_connection_send_message_with_reply_sync. *)
Record client_sys := ClientSys {
  sys_create_mach_service : string → bool;
  sys_reply : xpc_object → xpc_object;
}.

Implicit Types (sys : client_sys) (o : positive) (s : client).

(** xpc_release of an object: the last reference goes with the reference the
    object holds. *)
Definition xpc_release o : M client () := λ s,
  match cl_objs s !! o with
  | Some c =>
      (obj_release o;;
       match rc c, co_network (body c) with
       | 1%nat, Some child => obj_release child
       | _, _ => mret ()
       end) s
  | None => Fault OverRelease
  end.

(** An object the client receives, with one reference; the serialization in it
    is an object that it holds. *)
Definition receive (x : xpc_object) : M client positive :=
  if decide (xpc_get_type x = XPC_TYPE_DICTIONARY) then
    match xpc_dictionary_get_value x REPLY_NETWORK with
    | Some v =>
        child ← obj_alloc (ClientObject v None);
        obj_alloc (ClientObject x (Some child))
    | None => obj_alloc (ClientObject x None)
    end
  else obj_alloc (ClientObject x None).

Definition connect_to_broker sys : M client () :=
  if sys_create_mach_service sys MACH_SERVICE_NAME
  then modify (λ s, Client true (cl_objs s) (cl_sent s))
  else raise NullDeref.

(** xpc_connection_send_message_with_reply_sync *)
Definition send_message_with_reply_sync sys (message : positive) : M client positive :=
  m ← obj_read message;
  modify (λ s, Client (cl_connection s) (cl_objs s) (cl_sent s ++ [co_value m]));;
  receive (sys_reply sys (co_value m)).

(** xpc_dictionary_set_string on an object of the client. *)
Definition message_set_string (message : positive) (k v : string) : M client () :=
  m ← obj_read message;
  obj_write message (ClientObject (xpc_dictionary_set_string (co_value m) k v) (co_network m)).

(** The part of vmnet_broker_acquire_network that reads the reply, up to the
    label [out]. *)
Definition read_reply (reply : positive) : M client (option positive * Z) :=
  r ← obj_read reply;
  if decide (xpc_get_type (co_value r) = XPC_TYPE_ERROR) then
    mret (None, VMNET_BROKER_XPC_FAILURE)
  else if decide (xpc_get_type (co_value r) ≠ XPC_TYPE_DICTIONARY) then
    mret (None, VMNET_BROKER_INVALID_REPLY)
  else
    let error := to_int32 (xpc_dictionary_get_int64 (co_value r) REPLY_ERROR) in
    if bool_decide (error ≠ 0) then mret (None, to_uint32 error)
    else
      match co_network r with
      | None => mret (None, VMNET_BROKER_INVALID_REPLY)
      | Some serialization =>
          obj_retain serialization;;
          mret (Some serialization, VMNET_BROKER_SUCCESS)
      end.

Definition vmnet_broker_acquire_network sys (network_name : string) (status : option Z) :
    M client (option positive * option Z) :=
  connection ← gets cl_connection;
  (if connection : bool then mret () else connect_to_broker sys);;
  message ← obj_alloc (ClientObject xpc_dictionary_create_empty None);
  message_set_string message REQUEST_COMMAND COMMAND_ACQUIRE;;
  message_set_string message REQUEST_NETWORK_NAME network_name;;
  reply ← send_message_with_reply_sync sys message;
  xpc_release message;;
  '(serialization, ret) ← read_reply reply;
  xpc_release reply;;
  mret (serialization, set_error status ret).
End client.

Definition vmnet_broker_strerror (status : Z) : string :=
  if bool_decide (status = VMNET_BROKER_SUCCESS) then "Broker session started"
  else if bool_decide (status = VMNET_BROKER_XPC_FAILURE) then
    "Failed to send XPC message to broker"
  else if bool_decide (status = VMNET_BROKER_INVALID_REPLY) then
    "Broker returned invalid reply"
  else if bool_decide (status = VMNET_BROKER_NOT_ALLOWED) then
    "You are not allowed to create a network"
  else if bool_decide (status = VMNET_BROKER_INVALID_REQUEST) then "Invalid broker request"
  else if bool_decide (status = VMNET_BROKER_NOT_FOUND) then "Network name not found"
  else if bool_decide (status = VMNET_BROKER_CREATE_FAILURE) then "Failed to create network"
  else if bool_decide (status = VMNET_BROKER_INTERNAL_ERROR) then "Internal or unknown error"
  else "(unknown status)".
