(* ===== verification/ClientFacts.v ===== *)
(** * What the client library does

    [client_answer] decodes a reply; vmnet_broker_acquire_network returns it,
    leaves one more object when it is a serialization and none otherwise, and
    understands what the broker answers. *)

From S2P Require Import Prelude Platform Common World Config Network Xpc Broker.
From S2P Require Import Ownership Invariant Transitions NetworkFacts AcquireFacts ReleaseFacts.
From S2P Require Import BrokerFacts Execution EffectFacts Requests Client Concrete Scenarios.

Section client_facts.
Context {xpc : XPC}.
Implicit Types (sys : client_sys) (o : positive) (s : client).

(** The message of a request, which [acquire_network_run] shows is the one that
    vmnet_broker_acquire_network sends. *)
Definition request_message (network_name : string) : xpc_object :=
  xpc_dictionary_set_string
    (xpc_dictionary_set_string xpc_dictionary_create_empty REQUEST_COMMAND COMMAND_ACQUIRE)
    REQUEST_NETWORK_NAME network_name.

(** The serialization and the status a reply stands for: the status is the
    reply's error code reduced to 32 bits.  A reference for read_reply, which is
    shown to return it below. *)
Definition client_answer (reply : xpc_object) : option xpc_object * Z :=
  match xpc_get_type reply with
  | XPC_TYPE_ERROR => (None, VMNET_BROKER_XPC_FAILURE)
  | XPC_TYPE_DICTIONARY =>
      let error := (xpc_dictionary_get_int64 reply REPLY_ERROR mod 2^32)%Z in
      if bool_decide (error = 0) then
        match xpc_dictionary_get_value reply REPLY_NETWORK with
        | Some x => (Some x, VMNET_BROKER_SUCCESS)
        | None => (None, VMNET_BROKER_INVALID_REPLY)
        end
      else (None, error)
  | _ => (None, VMNET_BROKER_INVALID_REPLY)
  end.

(** ** Integers *)

Lemma to_uint32_int32 z : to_uint32 (to_int32 z) = (z mod 2^32)%Z.
Proof.
  unfold to_uint32, to_int32. rewrite Zminus_mod, Z.mod_mod, <- Zminus_mod by lia.
  f_equal. lia.
Qed.

Lemma to_int32_zero z : to_int32 z = 0%Z ↔ (z mod 2^32 = 0)%Z.
Proof.
  split.
  - intros H. by rewrite <- to_uint32_int32, H.
  - intros H. unfold to_int32. rewrite Zplus_mod, H. done.
Qed.

(** ** Objects *)

Definition with_objs (σ : gmap positive (cell client_object)) s : client := put_objs σ s.

Lemma client_alloc_run b s :
  obj_alloc b s = Ret (fresh (dom (cl_objs s)))
                      (with_objs (<[fresh (dom (cl_objs s)) := Cell 1 b]> (cl_objs s)) s).
Proof. done. Qed.

Lemma client_read_run o c s : cl_objs s !! o = Some c → obj_read o s = Ret (body c) s.
Proof. exact (obj_read_run o c s). Qed.

Lemma message_set_string_run o d n k v s :
  cl_objs s !! o = Some (Cell n (ClientObject d None)) →
  message_set_string o k v s =
    Ret () (with_objs (<[o := Cell n (ClientObject (xpc_dictionary_set_string d k v) None)]>
                         (cl_objs s)) s).
Proof.
  intros Ho. unfold message_set_string. erewrite bind_run by (by apply client_read_run).
  exact (obj_write_run o _ _ s Ho).
Qed.

Lemma xpc_release_plain o v s :
  cl_objs s !! o = Some (Cell 1 (ClientObject v None)) →
  xpc_release o s = Ret () (with_objs (delete o (cl_objs s)) s).
Proof.
  intros Ho. unfold xpc_release. rewrite Ho. simpl.
  erewrite bind_run by exact (obj_release_last o _ s Ho). done.
Qed.

Lemma xpc_release_child o v child n b s :
  cl_objs s !! o = Some (Cell 1 (ClientObject v (Some child))) → child ≠ o →
  cl_objs s !! child = Some (Cell (S n) b) →
  xpc_release o s =
    Ret () (with_objs (match n with
                       | O => delete child (delete o (cl_objs s))
                       | S _ => <[child := Cell n b]> (delete o (cl_objs s))
                       end) s).
Proof.
  intros Ho Hne Hc. unfold xpc_release. rewrite Ho. simpl.
  erewrite bind_run by exact (obj_release_last o _ s Ho).
  set (s1 := put_objs _ s).
  assert (get_objs s1 !! child = Some (Cell (S n) b)) as Hc1.
  { unfold s1. simpl. by rewrite lookup_delete_ne. }
  destruct n as [|n].
  - exact (obj_release_last child b s1 Hc1).
  - exact (obj_release_more child n b s1 Hc1).
Qed.

(** ** The reply *)

(** Reading a reply and releasing it, in a state without other objects of its
    own. *)
Definition read_and_release (reply : positive) : M client (option positive * Z) :=
  '(serialization, ret) ← read_reply reply;
  xpc_release reply;;
  mret (serialization, ret).

(** The objects [σ] and what the answer adds to them. *)
Definition answered (a : option xpc_object) (σ σ' : gmap positive (cell client_object))
    (r : option positive) : Prop :=
  match a with
  | None => r = None ∧ σ' = σ
  | Some x => ∃ o, r = Some o ∧ σ !! o = None ∧ σ' = <[o := Cell 1 (ClientObject x None)]> σ
  end.

Lemma read_plain_run o v n s :
  cl_objs s !! o = Some (Cell n (ClientObject v None)) →
  (xpc_get_type v = XPC_TYPE_DICTIONARY → xpc_dictionary_get_value v REPLY_NETWORK = None) →
  read_reply o s = Ret (None, (client_answer v).2) s ∧ (client_answer v).1 = None.
Proof.
  intros Ho Hv. unfold read_reply, client_answer.
  erewrite bind_run by (by apply client_read_run). simpl.
  destruct (xpc_get_type v) eqn:Ht; simpl; try done.
  specialize (Hv eq_refl). rewrite Hv.
  pose proof (to_int32_zero (xpc_dictionary_get_int64 v REPLY_ERROR)).
  case_bool_decide as H1; case_bool_decide as H2; try tauto.
  by rewrite to_uint32_int32.
Qed.

Lemma read_and_release_plain o v σ s :
  σ !! o = None → cl_objs s = <[o := Cell 1 (ClientObject v None)]> σ →
  (xpc_get_type v = XPC_TYPE_DICTIONARY → xpc_dictionary_get_value v REPLY_NETWORK = None) →
  read_and_release o s = Ret (None, (client_answer v).2) (with_objs σ s) ∧
  (client_answer v).1 = None.
Proof.
  intros Hfresh Hobjs Hv.
  assert (cl_objs s !! o = Some (Cell 1 (ClientObject v None))) as Ho.
  { rewrite Hobjs. apply lookup_insert_eq. }
  destruct (read_plain_run o v 1 s Ho Hv) as [Hread Ha]. split; [|done].
  unfold read_and_release. erewrite bind_run by exact Hread. simpl.
  erewrite bind_run by (by eapply xpc_release_plain). rewrite Hobjs.
  by rewrite delete_insert_id.
Qed.

Lemma read_and_release_network o child v x σ s :
  σ !! o = None → σ !! child = None → child ≠ o →
  cl_objs s = <[o := Cell 1 (ClientObject v (Some child))]>
                (<[child := Cell 1 (ClientObject x None)]> σ) →
  xpc_get_type v = XPC_TYPE_DICTIONARY → xpc_dictionary_get_value v REPLY_NETWORK = Some x →
  ∃ r σ', read_and_release o s = Ret (r, (client_answer v).2) (with_objs σ' s) ∧
          answered (client_answer v).1 σ σ' r.
Proof.
  intros Hfo Hfc Hne Hobjs Ht Hx.
  assert (cl_objs s !! o = Some (Cell 1 (ClientObject v (Some child)))) as Ho.
  { rewrite Hobjs. apply lookup_insert_eq. }
  assert (cl_objs s !! child = Some (Cell 1 (ClientObject x None))) as Hc.
  { rewrite Hobjs. by rewrite lookup_insert_ne, lookup_insert_eq. }
  assert (delete o (cl_objs s) = <[child := Cell 1 (ClientObject x None)]> σ) as Hdel.
  { rewrite Hobjs. rewrite delete_insert_id; [done|]. by rewrite lookup_insert_ne. }
  unfold read_and_release, read_reply, client_answer. rewrite bind_assoc.
  erewrite bind_run by (by apply client_read_run). simpl. rewrite Ht, Hx. simpl.
  pose proof (to_int32_zero (xpc_dictionary_get_int64 v REPLY_ERROR)) as Hz.
  case_bool_decide as H1; case_bool_decide as H2; [tauto|..|tauto].
  - eexists None, σ. split; [|done]. mstep.
    erewrite bind_run by (by apply (xpc_release_child o v child 0 (ClientObject x None))).
    by rewrite Hdel, delete_insert_id, to_uint32_int32 by done.
  - exists (Some child), (<[child := Cell 1 (ClientObject x None)]> σ).
    split; [|by exists child]. rewrite bind_assoc.
    erewrite bind_run by exact (obj_retain_run child _ s Hc). simpl. mstep.
    set (s1 := Client _ _ _).
    erewrite bind_run.
    2:{ apply (xpc_release_child o v child 1 (ClientObject x None)); [|done|].
        - unfold s1. simpl. by rewrite lookup_insert_ne.
        - unfold s1. simpl. apply lookup_insert_eq. }
    unfold s1. simpl. rewrite delete_insert_ne by done. rewrite Hdel.
    by rewrite !insert_insert_eq.
Qed.

Lemma receive_run x s :
  ∃ o σ', receive x s = Ret o (with_objs σ' s) ∧
    ((xpc_get_type x = XPC_TYPE_DICTIONARY → xpc_dictionary_get_value x REPLY_NETWORK = None) ∧
     cl_objs s !! o = None ∧ σ' = <[o := Cell 1 (ClientObject x None)]> (cl_objs s) ∨
     ∃ v child, xpc_get_type x = XPC_TYPE_DICTIONARY ∧
       xpc_dictionary_get_value x REPLY_NETWORK = Some v ∧ child ≠ o ∧
       cl_objs s !! o = None ∧ cl_objs s !! child = None ∧
       σ' = <[o := Cell 1 (ClientObject x (Some child))]>
              (<[child := Cell 1 (ClientObject v None)]> (cl_objs s))).
Proof.
  unfold receive. case_decide as Ht.
  - destruct (xpc_dictionary_get_value x REPLY_NETWORK) as [v|] eqn:Hv.
    + erewrite bind_run by apply client_alloc_run. do 2 eexists. split; [done|]. right.
      exists v, (fresh (dom (cl_objs s))). simpl. split_and!; try done.
      * symmetry. apply fresh_obj_ne. by rewrite lookup_insert_eq.
      * eapply lookup_insert_None. apply fresh_obj.
      * apply fresh_obj.
    + do 2 eexists. split; [done|]. left. split; [done|]. split; [apply fresh_obj|done].
  - do 2 eexists. split; [done|]. left. split; [done|]. split; [apply fresh_obj|done].
Qed.

(** ** vmnet_broker_acquire_network *)

(** Receiving the reply while the message is alive, releasing the message, and
    reading the reply. *)
Definition receive_answer (m : positive) (x : xpc_object) : M client (option positive * Z) :=
  reply ← receive x; xpc_release m;; read_and_release reply.

Lemma receive_answer_run m b x σ s :
  σ !! m = None → cl_objs s = <[m := Cell 1 (ClientObject b None)]> σ →
  ∃ r σ', receive_answer m x s = Ret (r, (client_answer x).2) (with_objs σ' s) ∧
          answered (client_answer x).1 σ σ' r.
Proof.
  intros Hm Hobjs. unfold receive_answer.
  destruct (receive_run x s) as (o & σ1 & Hrun & [(Hx & Ho & ->)|(v & child & Ht & Hx & Hne & Ho & Hc & ->)]);
    rewrite (bind_run _ _ _ _ _ Hrun); rewrite Hobjs, lookup_insert_None in Ho; destruct Ho as [Ho Hom].
  - erewrite bind_run.
    2:{ apply (xpc_release_plain m b). simpl. rewrite lookup_insert_ne by done.
        rewrite Hobjs. apply lookup_insert_eq. }
    destruct (read_and_release_plain o x σ
      (with_objs (<[o := Cell 1 (ClientObject x None)]> σ) s)) as [Hread Ha]; try done.
    exists None, σ. rewrite Ha. split; [|done].
    transitivity (read_and_release o
      (with_objs (delete m (<[o := Cell 1 (ClientObject x None)]> (cl_objs s))) s)); [done|].
    rewrite Hobjs, delete_insert_ne, delete_insert_id by done. exact Hread.
  - rewrite Hobjs, lookup_insert_None in Hc. destruct Hc as [Hc Hcm].
    erewrite bind_run.
    2:{ apply (xpc_release_plain m b). simpl. rewrite !lookup_insert_ne by done.
        rewrite Hobjs. apply lookup_insert_eq. }
    destruct (read_and_release_network o child x v σ
      (with_objs (<[o := Cell 1 (ClientObject x (Some child))]>
                    (<[child := Cell 1 (ClientObject v None)]> σ)) s)) as (r & σ' & Hread & Ha);
      try done.
    exists r, σ'. split; [|done].
    transitivity (read_and_release o
      (with_objs (delete m (<[o := Cell 1 (ClientObject x (Some child))]>
         (<[child := Cell 1 (ClientObject v None)]> (cl_objs s)))) s)); [done|].
    rewrite Hobjs, !delete_insert_ne, delete_insert_id by done. exact Hread.
Qed.

Lemma finish_run m x status s r a s' :
  receive_answer m x s = Ret (r, a) s' →
  (reply ← receive x; xpc_release m;; '(serialization, ret) ← read_reply reply;
   xpc_release reply;; mret (serialization, set_error status ret)) s
  = Ret (r, set_error status a) s'.
Proof.
  unfold receive_answer, read_and_release, mbind, M_bind.
  destruct (receive x s) as [o s1| |]; [|done..].
  destruct (xpc_release m s1) as [[] s2| |]; [|done..].
  destruct (read_reply o s2) as [[ser ret] s3| |]; [|done..].
  destruct (xpc_release o s3) as [[] s4| |]; [|done..]. unfold mret, M_ret. congruence.
Qed.

(** The state once the process is connected and the message has been sent. *)
Definition requested (network_name : string) s : client :=
  Client true (cl_objs s) (cl_sent s ++ [request_message network_name]).

Lemma acquire_network_run sys network_name status s :
  cl_connection s = true ∨ sys_create_mach_service sys MACH_SERVICE_NAME = true →
  let reply := sys_reply sys (request_message network_name) in
  ∃ r σ', vmnet_broker_acquire_network sys network_name status s =
            Ret (r, set_error status (client_answer reply).2)
                (with_objs σ' (requested network_name s)) ∧
          answered (client_answer reply).1 (cl_objs s) σ' r.
Proof.
  intros Hconn reply. set (s0 := Client true (cl_objs s) (cl_sent s)).
  set (m := fresh (dom (cl_objs s))).
  set (s1 := with_objs (<[m := Cell 1 (ClientObject (request_message network_name) None)]>
                          (cl_objs s)) (requested network_name s)).
  destruct (receive_answer_run m (request_message network_name) reply (cl_objs s) s1)
    as (r & σ' & Hrun & Ha); [apply fresh_obj|done|].
  exists r, σ'. split; [|done]. unfold vmnet_broker_acquire_network. mstep.
  assert ((if cl_connection s then mret () else connect_to_broker sys) s = Ret () s0) as Hc.
  { unfold connect_to_broker, s0. destruct (cl_connection s) eqn:Hcs.
    - by rewrite <- Hcs; destruct s.
    - destruct Hconn as [|Hcreate]; [done|]. by rewrite Hcreate. }
  rewrite (bind_run _ _ _ _ _ Hc). erewrite bind_run by apply client_alloc_run.
  change (fresh (dom (cl_objs s0))) with m.
  erewrite bind_run by (eapply message_set_string_run, lookup_insert_eq).
  erewrite bind_run by (eapply message_set_string_run, lookup_insert_eq).
  unfold send_message_with_reply_sync. rewrite bind_assoc.
  erewrite bind_run by (apply client_read_run, lookup_insert_eq).
  rewrite bind_assoc. erewrite bind_run by apply modify_run.
  simpl. rewrite !insert_insert_eq. by apply finish_run.
Qed.
End client_facts.
