(* ===== verification/Protocol.v ===== *)
(** * The protocol between the client and the broker

    The client's view of a reply, the messages both sides build, and the two
    ends together: what vmnet_broker_acquire_network returns when the broker
    handles its request. *)

From S2P Require Import Prelude Platform Common World Config Network Xpc Broker.
From S2P Require Import Ownership Invariant Transitions NetworkFacts AcquireFacts ReleaseFacts.
From S2P Require Import BrokerFacts Execution EffectFacts Requests Client ClientFacts.
From S2P Require Import Concrete Scenarios.

Section protocol.
Context {xpc : XPC} {cf : CoreFoundation}.
Implicit Types (w : world) (l : loc) (c : conn) (s : client) (sys : client_sys).

(** C16: the client takes what the reply carries and releases everything else.
    For every reply, vmnet_broker_acquire_network connects if the process is
    not connected yet, sends one request, and returns what [client_answer]
    reads in the reply: with a serialization, the process has one more object,
    alive and with one reference for the caller; without, it has exactly the
    objects it had.  The status is stored where the caller asked for it. *)
Theorem client_acquire_correct sys network_name status s :
  cl_connection s = true ∨ sys_create_mach_service sys MACH_SERVICE_NAME = true →
  let reply := sys_reply sys (request_message network_name) in
  ∃ r s', vmnet_broker_acquire_network sys network_name status s =
            Ret (r, set_error status (client_answer reply).2) s' ∧
    answered (client_answer reply).1 (cl_objs s) (cl_objs s') r ∧
    cl_connection s' = true ∧ cl_sent s' = cl_sent s ++ [request_message network_name].
Proof.
  intros Hc. destruct (acquire_network_run sys network_name status s Hc) as (r & σ' & Hrun & Ha).
  by exists r, (with_objs σ' (requested network_name s)).
Qed.

Lemma status_without (code : Z) :
  (0 < code < 2^32)%Z →
  let a : option xpc_object * Z := (None, code) in
  (0 ≤ a.2 < 2^32)%Z ∧ (a.2 = VMNET_BROKER_SUCCESS ↔ is_Some a.1).
Proof.
  unfold VMNET_BROKER_SUCCESS. simpl. intros Hc. split; [lia|].
  split; [intros ->; lia|by intros []].
Qed.

Lemma client_answer_bounds reply :
  (0 ≤ (client_answer reply).2 < 2^32)%Z ∧
  ((client_answer reply).2 = VMNET_BROKER_SUCCESS ↔ is_Some (client_answer reply).1).
Proof.
  unfold client_answer. destruct (xpc_get_type reply); try (by apply status_without).
  pose proof (Z.mod_pos_bound (xpc_dictionary_get_int64 reply REPLY_ERROR) (2^32) ltac:(lia)).
  cbv zeta. case_bool_decide as Hz; [|apply status_without; lia].
  destruct (xpc_dictionary_get_value reply REPLY_NETWORK); [|by apply status_without].
  split; [done|]. by split; [eauto|].
Qed.

Lemma answered_is_Some a (σ σ' : gmap positive (cell client_object)) r :
  answered a σ σ' r → (is_Some r ↔ is_Some a).
Proof.
  destruct a as [x|]; simpl; [intros (o & -> & _)|intros [-> _]]; [by split; eauto|].
  by split; intros [].
Qed.

(** C31: the status is a status.  Whatever the reply, also one whose 64-bit error
    code does not fit the enum, vmnet_broker_acquire_network stores a status that
    fits 32 bits, and it is SUCCESS exactly when the call returns a
    serialization. *)
Theorem client_status_bounds sys network_name v s :
  cl_connection s = true ∨ sys_create_mach_service sys MACH_SERVICE_NAME = true →
  ∃ r status s', vmnet_broker_acquire_network sys network_name (Some v) s = Ret (r, Some status) s' ∧
    (0 ≤ status < 2^32)%Z ∧ (status = VMNET_BROKER_SUCCESS ↔ is_Some r).
Proof.
  intros Hc. destruct (acquire_network_run sys network_name (Some v) s Hc) as (r & σ' & Hrun & Ha).
  destruct (client_answer_bounds (sys_reply sys (request_message network_name))) as [Hb Hs].
  do 3 eexists. split; [exact Hrun|]. split; [done|]. by rewrite Hs, (answered_is_Some _ _ _ _ Ha).
Qed.

Section laws.
Context {laws : XPCLaws}.

Lemma network_reply_answer e x m : network_reply e x = Some m →
  client_answer m = (Some x, VMNET_BROKER_SUCCESS).
Proof.
  unfold network_reply. destruct (xpc_dictionary_create_reply e) as [r|] eqn:Hr; simpl; [|done].
  intros [= <-]. pose proof (xpc_reply_type _ _ Hr) as Ht. unfold client_answer.
  rewrite xpc_set_value_type, Ht, xpc_int64_set_value_ne by done.
  rewrite (xpc_reply_int64 _ _ _ Hr). simpl.
  by rewrite xpc_get_set_value, decide_True by done.
Qed.

Lemma error_reply_answer e code m :
  (0 < code ≤ INT_MAX)%Z → error_reply e code = Some m → client_answer m = (None, code).
Proof.
  unfold INT_MAX, error_reply. intros Hcode.
  destruct (xpc_dictionary_create_reply e) as [r|] eqn:Hr; simpl; [|done].
  intros [= <-]. pose proof (xpc_reply_type _ _ Hr) as Ht. unfold client_answer.
  rewrite xpc_set_int64_type, Ht.
  rewrite xpc_get_set_int64, decide_True by (try done; unfold INT64_MIN, INT64_MAX; lia).
  rewrite Z.mod_small by lia. by rewrite bool_decide_false by lia.
Qed.

Lemma request_answer_codes os w e code :
  request_answer os w e = Refused code →
  code = VMNET_BROKER_INVALID_REQUEST ∨ code = VMNET_BROKER_NOT_FOUND ∨
  code = VMNET_BROKER_CREATE_FAILURE.
Proof.
  unfold request_answer. destruct (request_name e) as [name|]; [|intros [= <-]; eauto].
  destruct (CFStringCreateWithCString name) as [k|]; [|done].
  case_decide; [|intros [= <-]; eauto].
  destruct (registered_serialization w k); [done|].
  destruct (creation_result os name); [done|intros [= <-]; eauto].
Qed.

(** The answer as the client sees it: when the broker crashes, the connection
    is interrupted. *)
Definition client_result (a : answer) : option xpc_object * Z :=
  match a with
  | Granted x => (Some x, VMNET_BROKER_SUCCESS)
  | Refused code => (None, code)
  | Crashed => (None, VMNET_BROKER_XPC_FAILURE)
  end.

Lemma answer_message_result os w e m :
  answer_message e (request_answer os w e) = Some m →
  client_answer m = client_result (request_answer os w e).
Proof.
  destruct (request_answer os w e) as [x|code|] eqn:Ha; simpl; [| |done].
  - apply network_reply_answer.
  - apply error_reply_answer. apply request_answer_codes in Ha as [->|[->| ->]];
      unfold VMNET_BROKER_INVALID_REQUEST, VMNET_BROKER_NOT_FOUND, VMNET_BROKER_CREATE_FAILURE,
        INT_MAX; lia.
Qed.

Lemma request_message_parsed network_name :
  xpc_get_type (request_message network_name) = XPC_TYPE_DICTIONARY ∧
  request_name (request_message network_name) = Some network_name.
Proof.
  assert (xpc_get_type (xpc_dictionary_set_string xpc_dictionary_create_empty
            REQUEST_COMMAND COMMAND_ACQUIRE) = XPC_TYPE_DICTIONARY) as Ht.
  { by rewrite xpc_set_string_type, xpc_empty_type. }
  unfold request_message, request_name. split; [by rewrite xpc_set_string_type|].
  rewrite (xpc_get_set_string _ _ REQUEST_COMMAND) by done. rewrite decide_False by done.
  rewrite (xpc_get_set_string _ _ REQUEST_COMMAND) by apply xpc_empty_type.
  rewrite decide_True by done. simpl.
  rewrite xpc_get_set_string by done. by rewrite decide_True.
Qed.

(** A listed code is a C [int] other than 0. *)
Definition error_code (code : Z) : Prop := (0 < code ≤ INT_MAX)%Z.

(** C29: the broker reads in a request what the client wrote.  The message
    vmnet_broker_acquire_network sends is a dictionary that carries the name it
    was called with, whatever the name: from any event that carries the strings
    of that message, on_peer_request calls acquire_network with that name, and
    replies with the error code or the serialization it returns. *)
Theorem request_round_trip sys network_name status s :
  cl_connection s = true ∨ sys_create_mach_service sys MACH_SERVICE_NAME = true →
  ∃ r s' message, vmnet_broker_acquire_network sys network_name status s = Ret r s' ∧
    cl_sent s' = cl_sent s ++ [message] ∧ xpc_get_type message = XPC_TYPE_DICTIONARY ∧
    ∀ os c e w network error w',
      (∀ key, xpc_dictionary_get_string e key = xpc_dictionary_get_string message key) →
      acquire_network os c network_name (Some 0%Z) w = Ret (network, error) w' →
      on_peer_request os c e w =
        match network with
        | None => send_xpc_error c e (default 0%Z error) w'
        | Some serialization =>
            (send_xpc_network c e serialization;; obj_release serialization) w'
        end.
Proof.
  intros Hc. destruct (acquire_network_run sys network_name status s Hc) as (r & σ' & Hrun & _).
  destruct (request_message_parsed network_name) as [Ht Hn].
  do 3 eexists. split; [exact Hrun|]. split; [done|]. split; [exact Ht|].
  intros os c e w network error w' Hkeys Hacq. unfold request_name in Hn. rewrite <- !Hkeys in Hn.
  unfold on_peer_request. destruct (xpc_dictionary_get_string e REQUEST_COMMAND); simpl in Hn; [|done].
  destruct (String.eqb s0 COMMAND_ACQUIRE); simpl; [|done]. rewrite Hn.
  rewrite (bind_run _ _ _ _ _ Hacq). by destruct network.
Qed.

(** The client that is answered [m]. *)
Definition client_gets (m : xpc_object) (result : option xpc_object * Z) : Prop :=
  ∀ sys network_name s,
    cl_connection s = true ∨ sys_create_mach_service sys MACH_SERVICE_NAME = true →
    (∀ message, sys_reply sys message = m) →
    ∃ r s', vmnet_broker_acquire_network sys network_name (Some 0%Z) s =
              Ret (r, Some result.2) s' ∧
            answered result.1 (cl_objs s) (cl_objs s') r.

Lemma client_gets_answer m : client_gets m (client_answer m).
Proof.
  intros sys network_name s Hc Hm.
  destruct (acquire_network_run sys network_name (Some 0%Z) s Hc) as (r & σ' & Hrun & Ha).
  rewrite Hm in Hrun, Ha. eauto.
Qed.

(** C30: the client reads in a reply what the broker wrote.  To an event with a
    reply address, send_xpc_error and send_xpc_network send one message with the
    documented keys, an error and no network or a network and no error; and
    vmnet_broker_acquire_network, when it receives that message, returns the
    error code as its status and no serialization, or the serialization, with
    one reference, and SUCCESS. *)
Theorem reply_round_trip c ctx e w :
  contexts w !! c = Some ctx → ctx_connection ctx = c → is_Some (xpc_dictionary_create_reply e) →
  (∀ code, error_code code → ∃ m,
     send_xpc_error c e code w = Ret () (set_outbox (outbox w ++ [(c, m)]) w) ∧
     xpc_dictionary_get_int64 m REPLY_ERROR = code ∧
     xpc_dictionary_get_value m REPLY_NETWORK = None ∧ client_gets m (None, code)) ∧
  (∀ (o : obj) n x, objs w !! o = Some (Cell n (BXpc x)) → ∃ m,
     send_xpc_network c e o w = Ret () (set_outbox (outbox w ++ [(c, m)]) w) ∧
     xpc_dictionary_get_int64 m REPLY_ERROR = 0%Z ∧
     xpc_dictionary_get_value m REPLY_NETWORK = Some x ∧
     client_gets m (Some x, VMNET_BROKER_SUCCESS)).
Proof.
  intros Hc Hcc [reply Hr]. pose proof (xpc_reply_type _ _ Hr) as Ht. split.
  - unfold error_code, INT_MAX. intros code Hcode.
    assert (error_reply e code = Some (xpc_dictionary_set_int64 reply REPLY_ERROR code)) as Hm
      by (unfold error_reply; by rewrite Hr).
    eexists. split; [rewrite (send_xpc_error_run c ctx) by done; by rewrite Hm|]. split_and!.
    + rewrite xpc_get_set_int64, decide_True; try done. unfold INT64_MIN, INT64_MAX. lia.
    + rewrite xpc_value_set_int64_ne by done. by rewrite (xpc_reply_value _ _ _ Hr).
    + rewrite <- (error_reply_answer e code _) by done. apply client_gets_answer.
  - intros o n x Hs.
    assert (network_reply e x = Some (xpc_dictionary_set_value reply REPLY_NETWORK x)) as Hm
      by (unfold network_reply; by rewrite Hr).
    eexists. split; [rewrite (send_xpc_network_run c ctx e o n x) by done; by rewrite Hm|]. split_and!.
    + rewrite xpc_int64_set_value_ne by done. by rewrite (xpc_reply_int64 _ _ _ Hr).
    + rewrite xpc_get_set_value by done. by rewrite decide_True.
    + rewrite <- (network_reply_answer e x _) by done. apply client_gets_answer.
Qed.

(** C15: the client gets the broker's answer, end to end.  Let a client call
    vmnet_broker_acquire_network, the event [e] of its connection carry what
    its message says with a reply address, the broker handle it in a reachable
    state, and the reply the client receives be the message the broker sent.
    Then the broker sends exactly one message, to that client, and the client
    returns the broker's answer for the name. *)
Theorem acquire_end_to_end `{!CoreFoundationLaws} os sys c e w s network_name :
  reachable w → delivers os w (EvPeer c e) →
  xpc_get_type e = XPC_TYPE_DICTIONARY →
  request_name e = request_name (request_message network_name) →
  is_Some (xpc_dictionary_create_reply e) →
  cl_connection s = true ∨ sys_create_mach_service sys MACH_SERVICE_NAME = true →
  ∃ w' m, handle_event os (EvPeer c e) w = Ret () w' ∧ outbox w' = outbox w ++ [(c, m)] ∧
    (sys_reply sys (request_message network_name) = m →
     ∃ r s', vmnet_broker_acquire_network sys network_name (Some 0%Z) s =
       Ret (r, Some (client_result (request_answer os w e)).2) s' ∧
       answered (client_result (request_answer os w e)).1 (cl_objs s) (cl_objs s') r).
Proof.
  intros Hr Hd He Hname [reply Hreply] Hconn.
  pose proof (inv_reachable _ Hr) as Hinv. pose proof Hd as [Hen Hos Hok].
  assert (∃ w', handle_event os (EvPeer c e) w = Ret () w' ∧
            outbox w' = outbox w ++ sent_messages c (answer_message e (request_answer os w e)))
    as (w' & Hrun & Hout) by (by apply request_outbox).
  pose proof (answer_delivered os c e w Hok He) as Hcrash.
  destruct (answer_message e (request_answer os w e)) as [m|] eqn:Hm.
  2:{ exfalso. unfold answer_message, network_reply, error_reply in Hm. rewrite Hreply in Hm.
      by destruct (request_answer os w e). }
  exists w', m. split; [done|]. split; [done|]. intros Hsys.
  destruct (acquire_network_run sys network_name (Some 0%Z) s Hconn) as (r & σ' & Hacq & Ha).
  rewrite Hsys, (answer_message_result _ _ _ _ Hm) in Hacq, Ha. eauto.
Qed.
End laws.
End protocol.

(** ** The theorems on the concrete platform *)

(** A client whose requests are answered [reply]. *)
Definition answered_by (reply : xobj) : client_sys := ClientSys (λ _, true) (λ _, reply).

Definition serialization_reply : xobj := XSet (XDict false) REPLY_NETWORK (XData 8).

Lemma client_acquire_correct_witness :
  let sys := answered_by serialization_reply in
  ∃ r s', vmnet_broker_acquire_network sys "shared" (Some 0%Z) initial_client =
            Ret (r, Some VMNET_BROKER_SUCCESS) s' ∧
    answered (Some (XData 8)) (cl_objs initial_client) (cl_objs s') r ∧
    cl_connection s' = true ∧ cl_sent s' = [request_message "shared"].
Proof.
  apply (client_acquire_correct (answered_by serialization_reply) "shared" (Some 0%Z)
           initial_client). by right.
Defined.

Lemma client_status_bounds_witness :
  let sys := answered_by (XSet (XDict false) REPLY_ERROR (XInt64 (2^40 + 5))) in
  ∃ r status s', vmnet_broker_acquire_network sys "nat" (Some 9%Z) initial_client =
      Ret (r, Some status) s' ∧
    (0 ≤ status < 2^32)%Z ∧ (status = VMNET_BROKER_SUCCESS ↔ is_Some r).
Proof.
  apply (client_status_bounds (answered_by (XSet (XDict false) REPLY_ERROR (XInt64 (2^40 + 5))))
           "nat" 9 initial_client). by right.
Defined.

Lemma request_round_trip_witness :
  let sys := answered_by serialization_reply in
  ∃ r s' message, vmnet_broker_acquire_network sys "host" (Some 0%Z) initial_client = Ret r s' ∧
    cl_sent s' = [message] ∧ xpc_get_type message = XPC_TYPE_DICTIONARY ∧
    ∀ os c e w network error w',
      (∀ key, xpc_dictionary_get_string e key = xpc_dictionary_get_string message key) →
      acquire_network os c "host" (Some 0%Z) w = Ret (network, error) w' →
      on_peer_request os c e w =
        match network with
        | None => send_xpc_error c e (default 0%Z error) w'
        | Some serialization =>
            (send_xpc_network c e serialization;; obj_release serialization) w'
        end.
Proof.
  apply (request_round_trip (answered_by serialization_reply) "host" (Some 0%Z) initial_client).
  by right.
Defined.

Lemma reply_round_trip_witness :
  let w := after sharing_events in
  let e := acquire_message "nat" in
  (∀ code, error_code code → ∃ m,
     send_xpc_error 1 e code w = Ret () (set_outbox (outbox w ++ [(1%positive, m)]) w) ∧
     xpc_dictionary_get_int64 m REPLY_ERROR = code ∧
     xpc_dictionary_get_value m REPLY_NETWORK = None ∧ client_gets m (None, code)) ∧
  (∀ (o : obj) n x, objs w !! o = Some (Cell n (BXpc x)) → ∃ m,
     send_xpc_network 1 e o w = Ret () (set_outbox (outbox w ++ [(1%positive, m)]) w) ∧
     xpc_dictionary_get_int64 m REPLY_ERROR = 0%Z ∧
     xpc_dictionary_get_value m REPLY_NETWORK = Some x ∧
     client_gets m (Some x, VMNET_BROKER_SUCCESS)).
Proof.
  apply (reply_round_trip (xpc := concrete_xpc) 1 (context_at (after sharing_events) 1) (acquire_message "nat")
           (after sharing_events)); [by vm_compute|by vm_compute|evaluate].
Defined.

Lemma acquire_end_to_end_witness :
  let w := after sharing_events in
  let e := acquire_message "host" in
  let sys := answered_by (XSet (XDict false) REPLY_NETWORK (XData 0)) in
  ∃ w' m, handle_event (good_os 0) (EvPeer 1 e) w = Ret () w' ∧
    outbox w' = outbox w ++ [(1%positive, m)] ∧
    (sys_reply sys (request_message "host") = m →
     ∃ r s', vmnet_broker_acquire_network sys "host" (Some 0%Z) initial_client =
       Ret (r, Some (client_result (request_answer (good_os 0) w e)).2) s' ∧
       answered (client_result (request_answer (good_os 0) w e)).1 (cl_objs initial_client)
                (cl_objs s') r).
Proof.
  apply (acquire_end_to_end (good_os 0) (answered_by (XSet (XDict false) REPLY_NETWORK (XData 0)))
           1 (acquire_message "host") (after sharing_events) initial_client "host").
  - apply reachable_sharing.
  - evaluate.
  - done.
  - by vm_compute.
  - evaluate.
  - by right.
Defined.
