(* ===== verification/System.v ===== *)
(** * The broker and its clients

    The processes of a machine: one broker and the processes that use the client
    library.  A call of vmnet_broker_acquire_network blocks its process while
    the connection is announced to the broker, the request is handled and the
    reply comes back; the broker goes on with the other events meanwhile.  When
    a process ends, the kernel closes its connection.  When the broker exits or
    crashes, launchd starts it again; the calls that waited for its reply are
    interrupted, and the networks it had are gone.  The states of the broker in
    it are reachable states of the broker alone, so that its theorems hold here,
    and the specification carries them to the processes. *)

From S2P Require Import Prelude Platform Common World Config Network Xpc Broker.
From S2P Require Import Ownership Invariant Transitions NetworkFacts AcquireFacts ReleaseFacts.
From S2P Require Import BrokerFacts Execution EffectFacts Requests Spec SpecFacts Refinement.
From S2P Require Import Client ClientFacts Protocol.

Section system.
Context {xpc : XPC} {cf : CoreFoundation} {xd : XPCDelivery}.

(** What a process is doing: running its own code, waiting for the reply to a
    request for a network, or about to return from the call with the reply, that
    was sent after [generation] failures of the broker. *)
Inductive phase :=
  | Running
  | Sending (name : string)
  | Replied (name : string) (reply : xpc_object) (generation : nat).

(** The result of a call, with the content of the serialization returned, and the
    number of failures of the broker before it was sent. *)
Record call_result := CallResult {
  cr_name : string;
  cr_serialization : option xpc_object;
  cr_status : option Z;
  cr_generation : nat;
}.

Record process := Process {
  pr_client : client;
  pr_phase : phase;
  pr_results : list call_result;        (* of the calls that returned *)
}.

Record system := System {
  sys_broker : world;
  sys_processes : gmap conn process;
  sys_generation : nat;                 (* how many times the broker failed *)
}.

Implicit Types (S : system) (p : conn) (cl : client) (w : world) (name : string).

Definition sys_update w p pr S : system :=
  System w (<[p := pr]> (sys_processes S)) (sys_generation S).

Definition sys_with_broker w S : system := System w (sys_processes S) (sys_generation S).

(** The message the client library sends for [name]: running the call, whatever
    the reply, adds it to the messages sent. *)
Definition sent_request name cl : option xpc_object :=
  match vmnet_broker_acquire_network (ClientSys (λ _, true) (λ m, m)) name None cl with
  | Ret _ cl' => last (cl_sent cl')
  | _ => None
  end.

(** The broker ends while it handles [ev], in a way it does not mean to: it
    crashes, or exits with a failure. *)
Inductive broker_fails os w ev : Prop :=
  | fails_crash f : enabled w ev → handle_event os ev w = Fault f → broker_fails os w ev
  | fails_exit code w' :
      enabled w ev → handle_event os ev w = Exit code w' → code ≠ EXIT_SUCCESS →
      broker_fails os w ev.

(** A connected process that waits for a reply gets an error instead. *)
Definition interrupted S p pr : process :=
  match pr_phase pr with
  | Sending name =>
      if decide (is_Some (contexts (sys_broker S) !! p)) then
        Process (pr_client pr)
          (Replied name XPC_ERROR_CONNECTION_INTERRUPTED (sys_generation S)) (pr_results pr)
      else pr
  | _ => pr
  end.

(** The system with a new broker [w0] after its broker failed. *)
Definition sys_failed w0 S : system :=
  System w0 (map_imap (λ p pr, Some (interrupted S p pr)) (sys_processes S))
    (Datatypes.S (sys_generation S)).

(** The value of the serialization a call returned in the client's memory. *)
Definition returned_value (r : option positive) cl : option xpc_object :=
  o ← r; co_value ∘ body <$> cl_objs cl !! o.

(** The events that do not come from a process of the system: timers, signals,
    time, and what other connections send, well-formed or not. *)
Definition foreign S (ev : event) : Prop :=
  match ev with
  | EvListener e =>
      xpc_get_type e = XPC_TYPE_CONNECTION → sys_processes S !! xpc_connection_of e = None
  | EvPeer c _ => sys_processes S !! c = None
  | _ => True
  end.

#[export] Instance foreign_dec S ev : Decision (foreign S ev).
Proof. destruct ev; simpl; apply _. Defined.

Inductive sys_step S : system → Prop :=
  | sys_spawn p :
      sys_processes S !! p = None → contexts (sys_broker S) !! p = None →
      sys_step S (sys_update (sys_broker S) p (Process initial_client Running []) S)
  | sys_call p cl rs name :
      sys_processes S !! p = Some (Process cl Running rs) →
      sys_step S (sys_update (sys_broker S) p (Process cl (Sending name) rs) S)
  | sys_connect p cl rs name w' :
      sys_processes S !! p = Some (Process cl (Sending name) rs) →
      contexts (sys_broker S) !! p = None →
      step (sys_broker S) (EvListener (xpc_announce p)) w' →
      sys_step S (sys_with_broker w' S)
  | sys_serve p cl rs name request w' m :
      sys_processes S !! p = Some (Process cl (Sending name) rs) →
      is_Some (contexts (sys_broker S) !! p) →
      sent_request name cl = Some request →
      step (sys_broker S) (EvPeer p (xpc_deliver request)) w' →
      outbox w' = outbox (sys_broker S) ++ [(p, m)] →
      sys_step S (sys_update w' p (Process cl (Replied name m (sys_generation S)) rs) S)
  | sys_return p cl rs name m g r status cl' :
      sys_processes S !! p = Some (Process cl (Replied name m g) rs) →
      vmnet_broker_acquire_network (ClientSys (λ _, true) (λ _, m)) name (Some 0%Z) cl =
        Ret (r, status) cl' →
      sys_step S (sys_update (sys_broker S) p
        (Process cl' Running (rs ++ [CallResult name (returned_value r cl') status g])) S)
  | sys_quit_connected p pr w' :
      sys_processes S !! p = Some pr → is_Some (contexts (sys_broker S) !! p) →
      step (sys_broker S) (EvPeer p XPC_ERROR_CONNECTION_INVALID) w' →
      sys_step S (System w' (delete p (sys_processes S)) (sys_generation S))
  | sys_quit p pr :
      sys_processes S !! p = Some pr → contexts (sys_broker S) !! p = None →
      sys_step S (System (sys_broker S) (delete p (sys_processes S)) (sys_generation S))
  | sys_foreign ev w' :
      foreign S ev → step (sys_broker S) ev w' →
      sys_step S (sys_with_broker w' S)
  (* the broker exits, and launchd starts it again for the next message *)
  | sys_restart ev w' os w0 :
      exit_step (sys_broker S) ev EXIT_SUCCESS w' →
      os_ok os → main os initial_world = Ret () w0 →
      sys_step S (sys_with_broker w0 S)
  (* the broker fails, on any event, and launchd starts it again *)
  | sys_fail os ev os0 w0 :
      broker_fails os (sys_broker S) ev →
      os_ok os0 → main os0 initial_world = Ret () w0 →
      sys_step S (sys_failed w0 S).

Inductive sys_reachable : system → Prop :=
  | sys_start os w :
      os_ok os → main os initial_world = Ret () w → sys_reachable (System w ∅ 0)
  | sys_later S S' : sys_reachable S → sys_step S S' → sys_reachable S'.

Inductive sys_steps : system → system → Prop :=
  | sys_steps_nil S : sys_steps S S
  | sys_steps_cons S S1 S' : sys_step S S1 → sys_steps S1 S' → sys_steps S S'.

(** ** The broker of the system *)

Lemma sys_steps_one S S' : sys_step S S' → sys_steps S S'.
Proof. intros Hs. by eapply sys_steps_cons; [|constructor]. Qed.

Lemma sys_steps_app S S1 S' : sys_steps S S1 → sys_steps S1 S' → sys_steps S S'.
Proof. induction 1; intros; [done|]. econstructor; eauto. Qed.

Lemma sys_steps_reachable S S' : sys_reachable S → sys_steps S S' → sys_reachable S'.
Proof. intros Hr Hs. revert Hr. induction Hs; eauto using sys_reachable. Qed.

Lemma sys_broker_step S S' :
  sys_step S S' →
  sys_broker S' = sys_broker S ∨ (∃ ev, step (sys_broker S) ev (sys_broker S')) ∨
  ∃ os, os_ok os ∧ main os initial_world = Ret () (sys_broker S').
Proof. intros []; simpl; eauto 6. Qed.

Lemma sys_reachable_broker S : sys_reachable S → reachable (sys_broker S).
Proof.
  induction 1 as [os w Hos Hm|S S' _ IH Hs]; simpl.
  - by eapply reachable_main.
  - destruct (sys_broker_step _ _ Hs) as [->|[[ev Hev]|(os & Hos & Hm)]];
      [done|by eapply reachable_step|by eapply reachable_main].
Qed.

(** ** Running a system *)

Inductive sys_event :=
  | SysSpawn p
  | SysCall p name
  | SysConnect p
  | SysServe p
  | SysReturn p
  | SysQuit p
  | SysForeign (ev : event)
  | SysRestart (ev : event)
  | SysFail (ev : event).

Definition broker_next os ev w : option world :=
  if decide (delivers os w ev) then
    match handle_event os ev w with Ret _ w' => Some w' | _ => None end
  else None.

(** The reply among the messages sent, when there is one. *)
Definition new_message w w' p : option xpc_object :=
  match List.skipn (length (outbox w)) (outbox w') with
  | [(p', m)] => if decide (p' = p) then Some m else None
  | _ => None
  end.

Definition sys_next os (e : sys_event) S : option system :=
  let w := sys_broker S in
  match e with
  | SysSpawn p =>
      if decide (sys_processes S !! p = None ∧ contexts w !! p = None)
      then Some (sys_update w p (Process initial_client Running []) S) else None
  | SysCall p name =>
      pr ← sys_processes S !! p;
      match pr_phase pr with
      | Running => Some (sys_update w p (Process (pr_client pr) (Sending name) (pr_results pr)) S)
      | _ => None
      end
  | SysConnect p =>
      pr ← sys_processes S !! p;
      match pr_phase pr, contexts w !! p with
      | Sending _, None =>
          (λ w', sys_with_broker w' S) <$> broker_next os (EvListener (xpc_announce p)) w
      | _, _ => None
      end
  | SysServe p =>
      pr ← sys_processes S !! p;
      match pr_phase pr, contexts w !! p with
      | Sending name, Some _ =>
          request ← sent_request name (pr_client pr);
          w' ← broker_next os (EvPeer p (xpc_deliver request)) w;
          m ← new_message w w' p;
          Some (sys_update w' p
            (Process (pr_client pr) (Replied name m (sys_generation S)) (pr_results pr)) S)
      | _, _ => None
      end
  | SysReturn p =>
      pr ← sys_processes S !! p;
      match pr_phase pr with
      | Replied name m g =>
          match vmnet_broker_acquire_network (ClientSys (λ _, true) (λ _, m)) name (Some 0%Z)
                  (pr_client pr) with
          | Ret (r, status) cl' =>
              Some (sys_update w p (Process cl' Running
                (pr_results pr ++ [CallResult name (returned_value r cl') status g])) S)
          | _ => None
          end
      | _ => None
      end
  | SysQuit p =>
      pr ← sys_processes S !! p;
      match contexts w !! p with
      | Some _ =>
          (λ w', System w' (delete p (sys_processes S)) (sys_generation S)) <$>
            broker_next os (EvPeer p XPC_ERROR_CONNECTION_INVALID) w
      | None => Some (System w (delete p (sys_processes S)) (sys_generation S))
      end
  | SysForeign ev =>
      if decide (foreign S ev)
      then (λ w', sys_with_broker w' S) <$> broker_next os ev w else None
  | SysRestart ev =>
      if decide (delivers os w ev) then
        match handle_event os ev w, main os initial_world with
        | Exit code _, Ret _ w0 =>
            if decide (code = EXIT_SUCCESS) then Some (sys_with_broker w0 S) else None
        | _, _ => None
        end
      else None
  | SysFail ev =>
      if decide (enabled w ev ∧ os_ok os) then
        match handle_event os ev w, main os initial_world with
        | Fault _, Ret _ w0 => Some (sys_failed w0 S)
        | Exit code _, Ret _ w0 =>
            if decide (code = EXIT_SUCCESS) then None else Some (sys_failed w0 S)
        | _, _ => None
        end
      else None
  end.

Fixpoint sys_exec os (es : list sys_event) S : option system :=
  match es with
  | [] => Some S
  | e :: es' => sys_next os e S ≫= sys_exec os es'
  end.

Lemma broker_next_step os ev w w' : broker_next os ev w = Some w' → step w ev w'.
Proof.
  unfold broker_next. case_decide as Hd; [|done].
  destruct (handle_event os ev w) as [[] w1| |] eqn:Hrun; try done.
  intros [= ->]. by econstructor.
Qed.

Lemma new_message_sent w ms w' p m :
  outbox w' = outbox w ++ ms → new_message w w' p = Some m → outbox w' = outbox w ++ [(p, m)].
Proof.
  intros Ho. unfold new_message. rewrite Ho, drop_app_length.
  destruct ms as [|[p' m'] []]; try done. case_decide; congruence.
Qed.

Lemma sys_next_step os e S S' :
  reachable (sys_broker S) → sys_next os e S = Some S' → sys_step S S'.
Proof.
  intros Hr. destruct e as [p|p name|p|p|p|p|ev|ev|ev]; simpl;
    try (destruct (sys_processes S !! p) as [[cl ph rs]|] eqn:Hp; simpl; [|done]).
  - case_decide as Hd; [|done]. intros [= <-]. by apply sys_spawn; apply Hd.
  - destruct ph; try done. intros [= <-]. by eapply sys_call.
  - destruct ph as [|name|]; try done. destruct (contexts (sys_broker S) !! p) eqn:Hc; [done|].
    intros (w' & Hw'%broker_next_step & ->)%fmap_Some. by eapply sys_connect.
  - destruct ph as [|name|]; try done. destruct (contexts (sys_broker S) !! p) eqn:Hc; [|done].
    destruct (sent_request name cl) as [request|] eqn:Hq; simpl; [|done].
    destruct (broker_next _ _ _) as [w'|] eqn:Hw'; simpl; [|done]. apply broker_next_step in Hw'.
    destruct (new_message _ _ _) as [m|] eqn:Hm; simpl; [|done]. intros [= <-].
    destruct (step_refines _ _ _ Hr Hw') as (ms & Ho & _).
    eapply sys_serve; [done|by rewrite Hc|done|done|]. by eapply new_message_sent.
  - destruct ph as [| |name m g]; try done.
    destruct (vmnet_broker_acquire_network _ _ _ _) as [[r status] cl'| |] eqn:Hrun; try done.
    intros [= <-]. by eapply sys_return.
  - destruct (contexts (sys_broker S) !! p) eqn:Hc.
    + intros (w' & Hw'%broker_next_step & ->)%fmap_Some.
      eapply sys_quit_connected; [done|by rewrite Hc|done].
    + intros [= <-]. by eapply sys_quit.
  - case_decide; [|done]. intros (w' & Hw'%broker_next_step & ->)%fmap_Some.
    by eapply sys_foreign.
  - case_decide as Hd; [|done].
    destruct (handle_event os ev (sys_broker S)) as [|code w'|] eqn:Hrun; try done.
    destruct (main os initial_world) as [[] w0| |] eqn:Hmain; try done.
    case_decide as Hcode; [|done]. intros [= <-]. rewrite Hcode in Hrun.
    eapply sys_restart; [by econstructor|apply Hd|done].
  - case_decide as Hd; [|done]. destruct Hd as [Hen Hos].
    destruct (handle_event os ev (sys_broker S)) as [|code w'|f] eqn:Hrun; try done;
      (destruct (main os initial_world) as [[] w0| |] eqn:Hmain; try done).
    + case_decide; [done|]. intros [= <-]. eapply sys_fail; [by eapply fails_exit|done..].
    + intros [= <-]. eapply sys_fail; [by eapply fails_crash|done..].
Qed.

Lemma sys_exec_reachable os es S S' :
  sys_reachable S → sys_exec os es S = Some S' → sys_reachable S'.
Proof.
  revert S. induction es as [|e es IH]; simpl; intros S HS.
  - congruence.
  - destruct (sys_next os e S) as [S1|] eqn:H1; simpl; [|done]. apply IH.
    eapply sys_later; [done|]. eapply sys_next_step; [by apply sys_reachable_broker|done].
Qed.

(** ** What the processes hold *)

(** The results of a process, also the one it is about to return. *)
Definition has_network (pr : process) name (x : xpc_object) (g : nat) : Prop :=
  (∃ status, CallResult name (Some x) status g ∈ pr_results pr) ∨
  (∃ m, pr_phase pr = Replied name m g ∧ (client_answer m).1 = Some x).

(** What the processes got since the broker last failed is what they use, for the
    broker; what they got in one generation agrees. *)
Record sys_inv S : Prop := {
  si_generation p pr name x g :
    sys_processes S !! p = Some pr → has_network pr name x g → (g ≤ sys_generation S)%nat;
  si_uses p pr name x :
    sys_processes S !! p = Some pr → has_network pr name x (sys_generation S) →
    uses (abs (sys_broker S)) p name x;
  si_agree p1 p2 pr1 pr2 name x1 x2 g :
    sys_processes S !! p1 = Some pr1 → has_network pr1 name x1 g →
    sys_processes S !! p2 = Some pr2 → has_network pr2 name x2 g → x1 = x2;
}.

(** A step of the broker that is not the end of the connection of [p] keeps
    what [p] uses. *)
Lemma broker_step_uses w ev w' p name x :
  reachable w → step w ev w' → ¬ leaves p ev → uses (abs w) p name x → uses (abs w') p name x.
Proof.
  intros Hr Hs Hev Hu. destruct (step_refines _ _ _ Hr Hs) as (ms & _ & Hstep).
  by eapply uses_step.
Qed.

Lemma returned_value_answered a cl cl' r :
  answered a (cl_objs cl) (cl_objs cl') r → returned_value r cl' = a.
Proof.
  unfold answered, returned_value. destruct a as [x|].
  - intros (o & -> & _ & ->). simpl. by rewrite lookup_insert_eq.
  - by intros [-> _].
Qed.

Lemma sent_request_message name cl : sent_request name cl = Some (request_message name).
Proof.
  unfold sent_request.
  destruct (acquire_network_run (ClientSys (λ _, true) (λ m, m)) name None cl)
    as (r & σ' & -> & _); [by right|]. simpl. by rewrite last_snoc.
Qed.

(** What makes the broker fail. *)
Lemma broker_fails_causes os w ev :
  reachable w → os_ok os → broker_fails os w ev →
  is_Some (event_fault w ev) ∨ ∃ e, ev = EvListener e ∧ xpc_get_type e = XPC_TYPE_ERROR.
Proof.
  intros Hr Hos Hf. destruct (event_fault w ev) as [f|] eqn:Hfault; [eauto|right].
  apply event_fault_ok in Hfault.
  assert (enabled w ev) as Hen by (by destruct Hf).
  destruct (handle_event_cases os w ev (inv_reachable _ Hr) Hos Hen Hfault)
    as [(w1 & Hrun & _)|(code1 & w1 & Hrun & Hex)].
  - destruct Hf; congruence.
  - destruct Hf as [|code w' _ Hrun' Hcode]; [congruence|].
    rewrite Hrun in Hrun'. injection Hrun' as -> ->. destruct Hex; try done. eauto.
Qed.

(** A call returns what the reply carries. *)
Lemma sys_call_result m name cl r status cl' :
  vmnet_broker_acquire_network (ClientSys (λ _, true) (λ _, m)) name (Some 0%Z) cl =
    Ret (r, status) cl' →
  returned_value r cl' = (client_answer m).1 ∧ status = Some (client_answer m).2.
Proof.
  intros Hrun.
  destruct (acquire_network_run (ClientSys (λ _, true) (λ _, m)) name (Some 0%Z) cl)
    as (r0 & σ' & Hrun' & Ha); [by right|].
  rewrite Hrun in Hrun'. injection Hrun' as -> -> ->. simpl in *. split; [|done].
  by eapply returned_value_answered.
Qed.
End system.
