(* ===== verification/Processes.v ===== *)
(** * What the processes get

    The theorems on the system of System.v, the broker and the processes that
    use the client library together: what a process got is its network until it
    quits or the broker fails, processes that got one name share one network, and
    a call returns. *)

From S2P Require Import Prelude Platform Common World Config Network Xpc Broker.
From S2P Require Import Ownership Invariant Transitions NetworkFacts AcquireFacts ReleaseFacts.
From S2P Require Import BrokerFacts Execution EffectFacts Safety Idle Requests Spec SpecFacts Refinement.
From S2P Require Import Client ClientFacts Protocol System Concrete Scenarios.

Section processes.
Context {xpc : XPC} {cf : CoreFoundation} {xd : XPCDelivery}.
Context {laws : XPCLaws} {cflaws : CoreFoundationLaws} {xdlaws : XPCDeliveryLaws}.
Implicit Types (S : system) (p : conn) (cl : client) (w : world) (name : string).

(** The request of a process, as the broker receives it. *)
Lemma delivered_request name :
  let e := xpc_deliver (request_message name) in
  xpc_get_type e = XPC_TYPE_DICTIONARY ∧ request_name e = Some name ∧
  is_Some (xpc_dictionary_create_reply e) ∧ connection_invalid e = false.
Proof.
  destruct (request_message_parsed name) as [Ht Hn]. simpl. split_and!.
  - by rewrite xpc_deliver_type.
  - unfold request_name in *. by rewrite !xpc_deliver_string.
  - by apply xpc_deliver_reply.
  - unfold connection_invalid. by rewrite xpc_deliver_type, Ht.
Qed.

(** What serving a request makes the process hold, it uses. *)
Lemma serve_uses w w' p name m x :
  reachable w → step w (EvPeer p (xpc_deliver (request_message name))) w' →
  outbox w' = outbox w ++ [(p, m)] → (client_answer m).1 = Some x →
  uses (abs w') p name x.
Proof.
  intros Hr Hs Ho Hx. destruct (delivered_request name) as (Ht & Hn & _).
  destruct (step_refines _ _ _ Hr Hs) as (ms & Ho' & Hstep).
  assert (ms = [(p, m)]) as -> by (apply (app_inv_head (outbox w)); congruence).
  destruct (granted_uses _ _ _ _ _ _ Hstep Hn) as [(x' & Hm & Hu)|(code & Hm & _ & Hcode)].
  - apply network_reply_answer in Hm. rewrite Hm in Hx. simpl in Hx. congruence.
  - apply error_reply_answer in Hm; [by rewrite Hm in Hx|].
    unfold VMNET_BROKER_NOT_FOUND, VMNET_BROKER_CREATE_FAILURE, INT_MAX in *. lia.
Qed.

(** The processes of the next state hold what they held, or what they got now. *)
Lemma sys_inv_preserved S S' :
  sys_inv S → (sys_generation S ≤ sys_generation S')%nat →
  (∀ p pr' name x g, sys_processes S' !! p = Some pr' → has_network pr' name x g →
    (∃ pr, sys_processes S !! p = Some pr ∧ has_network pr name x g ∧
       (sys_generation S' = sys_generation S →
        uses (abs (sys_broker S)) p name x → uses (abs (sys_broker S')) p name x)) ∨
    (g = sys_generation S' ∧ uses (abs (sys_broker S')) p name x)) →
  sys_inv S'.
Proof.
  intros [Hgen Huses Hagree] Hle Hkeep.
  assert (∀ p pr name x, sys_processes S' !! p = Some pr →
            has_network pr name x (sys_generation S') →
            uses (abs (sys_broker S')) p name x) as Huses'.
  { intros p pr' name x Hp Hx.
    destruct (Hkeep _ _ _ _ _ Hp Hx) as [(pr & Hpr & Hold & Hu)|[_ Hu]]; [|done].
    pose proof (Hgen _ _ _ _ _ Hpr Hold).
    assert (sys_generation S' = sys_generation S) as Hg by lia.
    rewrite Hg in Hold. apply Hu; [done|]. by eapply Huses. }
  split; [|exact Huses'|].
  - intros p pr' name x g Hp Hx.
    destruct (Hkeep _ _ _ _ _ Hp Hx) as [(pr & Hpr & Hold & _)|[-> _]]; [|done].
    specialize (Hgen _ _ _ _ _ Hpr Hold). lia.
  - intros p1 p2 pr1 pr2 name x1 x2 g Hp1 H1 Hp2 H2.
    destruct (decide (g = sys_generation S')) as [->|Hne].
    + apply (uses_agree (abs (sys_broker S')) p1 p2 name); by eapply Huses'.
    + destruct (Hkeep _ _ _ _ _ Hp1 H1) as [(q1 & Hq1 & O1 & _)|[]]; [|done].
      destruct (Hkeep _ _ _ _ _ Hp2 H2) as [(q2 & Hq2 & O2 & _)|[]]; [|done].
      by apply (Hagree p1 p2 q1 q2 name x1 x2 g).
Qed.

(** An update of one process, the broker taking a step or not. *)
Lemma sys_inv_update S w' p pr' :
  sys_inv S →
  (∀ p' name x, is_Some (sys_processes S !! p') →
    uses (abs (sys_broker S)) p' name x → uses (abs w') p' name x) →
  (∀ name x g, has_network pr' name x g →
    (∃ pr, sys_processes S !! p = Some pr ∧ has_network pr name x g) ∨
    (g = sys_generation S ∧ uses (abs w') p name x)) →
  sys_inv (sys_update w' p pr' S).
Proof.
  intros Hinv Hw Hpr. apply (sys_inv_preserved S); [done..|]. intros p' pr0 name x g Hp' Hx.
  simpl in Hp'. apply lookup_insert_Some in Hp' as [[<- <-]|[Hne Hp']].
  - destruct (Hpr _ _ _ Hx) as [(pr & Hp & Hold)|]; [left|by right]. exists pr.
    split_and!; try done. intros _. apply Hw. by rewrite Hp.
  - left. exists pr0. split_and!; try done. intros _. apply Hw. by rewrite Hp'.
Qed.

Lemma sys_inv_broker S ev w' ps' :
  sys_reachable S → sys_inv S → step (sys_broker S) ev w' → ps' ⊆ sys_processes S →
  (∀ p, is_Some (ps' !! p) → ¬ leaves p ev) → sys_inv (System w' ps' (sys_generation S)).
Proof.
  intros Hr Hinv Hs Hsub Hev. apply (sys_inv_preserved S); [done..|]. intros p pr name x g Hp Hx.
  left. exists pr. split_and!; [by eapply lookup_weaken|done|]. intros _.
  eapply broker_step_uses; [by apply sys_reachable_broker|done|]. apply Hev. by exists pr.
Qed.

(** A process that uses a network has a connection. *)
Lemma uses_connected w p name x : uses (abs w) p name x → contexts w ≠ ∅.
Proof.
  intros (k & users & _ & Hn & Hp) Hc. rewrite abs_lookup in Hn.
  destruct (reg w !! k) as [l|]; simpl in Hn; [|done]. unfold abs_network in Hn.
  destruct (network_data w l); simpl in Hn; [|done]. simplify_eq.
  apply elem_of_holders in Hp as (ctx & Hctx & _). by rewrite Hc, lookup_empty in Hctx.
Qed.

(** A broker with users does not exit by itself. *)
Lemma uses_no_exit w p name x ev w' :
  reachable w → uses (abs w) p name x → ¬ exit_step w ev EXIT_SUCCESS w'.
Proof.
  intros Hr Hu%uses_connected Hex%exit_step_exits; [|by apply inv_reachable].
  by inversion Hex.
Qed.

(** An interrupted call returns no network. *)
Lemma interrupted_has S p pr name x g :
  has_network (interrupted S p pr) name x g → has_network pr name x g.
Proof.
  unfold interrupted. destruct pr as [cl [|name'|] rs]; simpl; try done. case_decide; [|done].
  intros [Hin|(m & [= _ <- _] & Hx)]; [by left|].
  unfold client_answer in Hx. by rewrite xpc_interrupted_type in Hx.
Qed.

Lemma sys_inv_failed S w0 : sys_inv S → sys_inv (sys_failed w0 S).
Proof.
  intros Hinv. apply (sys_inv_preserved S); [done|simpl; lia|].
  intros p pr' name x g Hp Hx. simpl in Hp. rewrite map_lookup_imap in Hp.
  destruct (sys_processes S !! p) as [pr|] eqn:Hpr; simpl in Hp; [|done]. injection Hp as <-.
  left. exists pr. split_and!; [done|by eapply interrupted_has|simpl; lia].
Qed.

Lemma sys_inv_step S S' : sys_reachable S → sys_inv S → sys_step S S' → sys_inv S'.
Proof.
  intros Hr Hinv Hs. pose proof (sys_reachable_broker _ Hr) as Hrb.
  destruct Hs as [p Hp Hc|p cl rs name Hp|p cl rs name w' Hp Hc Hs
                 |p cl rs name request w' m Hp Hc Hreq Hs Ho
                 |p cl rs name m g r status cl' Hp Hrun|p pr w' Hp Hc Hs|p pr Hp Hc|ev w' Hev Hs
                 |ev w' os w0 Hex Hos Hm|os ev os0 w0 Hf Hos Hm].
  - apply sys_inv_update; [done..|]. intros name x g [(? & Hin%elem_of_nil)|(? & ? & _)]; done.
  - apply sys_inv_update; [done..|]. intros name' x g [Hin|(? & ? & _)]; [|done].
    left. eexists. split; [done|]. by left.
  - eapply sys_inv_broker; try done. by intros ? _ (? & ? & _).
  - rewrite sent_request_message in Hreq. injection Hreq as <-. apply sys_inv_update; [done|..].
    + intros p' name' x _. eapply broker_step_uses; try done.
      intros (e & [= _ <-] & He). destruct (delivered_request name) as (_ & _ & _ & Hn). congruence.
    + intros name' x g [Hin|(m' & [= -> -> ->] & Hx)];
        [|right; split; [done|by eapply serve_uses]].
      left. eexists. split; [done|]. by left.
  - apply sys_inv_update; [done..|]. destruct (sys_call_result _ _ _ _ _ _ Hrun) as [Hret _].
    intros name' x g' [(st & [Hin|Hin%list_elem_of_singleton]%elem_of_app)|(? & ? & _)]; [| |done];
      left; eexists; (split; [done|]).
    + left. by exists st.
    + right. exists m. injection Hin as -> Hx _ ->. split; [done|]. congruence.
  - eapply sys_inv_broker; [done..|apply delete_subseteq|].
    intros p' [? Hp'] (? & [= <- <-] & _). by rewrite lookup_delete_eq in Hp'.
  - apply (sys_inv_preserved S); [done..|]. intros p' pr' name x g Hp' Hx. left. exists pr'.
    simpl in Hp'. apply lookup_delete_Some in Hp' as [_ Hp']. done.
  - eapply sys_inv_broker; try done. intros p [? Hp] (e & -> & _). simpl in Hev. congruence.
  - apply (sys_inv_preserved S); [done..|]. intros p pr name x g Hp Hx. left. exists pr.
    split_and!; [done..|]. intros _ Hu. by eapply uses_no_exit in Hex.
  - by apply sys_inv_failed.
Qed.

Lemma sys_reachable_inv S : sys_reachable S → sys_inv S.
Proof.
  induction 1 as [os w Hos Hm|S S' Hr IH Hs]; [|by eapply sys_inv_step].
  split; simpl; intros *; rewrite lookup_empty; done.
Qed.

(** C4: what a process got is its network until it quits or the broker fails.  In
    every state of the system, for each serialization a call returned to a
    process that is still there, got since the broker last failed, the broker has
    a network of the name, with that serialization, and counts the process among
    its users.  It does not exit by itself then, and where the timers and the
    dictionary it asks for are created, it fails only when its listener does, or
    on an event of [event_fault]: a name that Core Foundation cannot represent,
    or a connection beyond INT_MAX peers. *)
Theorem result_is_kept S p pr name x status :
  sys_reachable S → sys_processes S !! p = Some pr →
  CallResult name (Some x) status (sys_generation S) ∈ pr_results pr →
  uses (abs (sys_broker S)) p name x ∧
  (∀ ev w', ¬ exit_step (sys_broker S) ev EXIT_SUCCESS w') ∧
  (∀ os ev, os_ok os → broker_fails os (sys_broker S) ev →
     is_Some (event_fault (sys_broker S) ev) ∨
     ∃ e, ev = EvListener e ∧ xpc_get_type e = XPC_TYPE_ERROR).
Proof.
  intros Hr Hp Hin. pose proof (sys_reachable_broker _ Hr) as Hrb.
  assert (uses (abs (sys_broker S)) p name x) as Hu.
  { apply (si_uses _ (sys_reachable_inv _ Hr) p pr); [done|]. left. by exists status. }
  split_and!; [done|intros; by eapply uses_no_exit|]. intros os ev. by apply broker_fails_causes.
Qed.

(** C5: processes that got one name share one network.  The serializations that
    any two processes of the system got for one name, without a failure of the
    broker between the two replies, are the same. *)
Theorem processes_share_networks S p1 p2 pr1 pr2 name x1 x2 status1 status2 g :
  sys_reachable S →
  sys_processes S !! p1 = Some pr1 → CallResult name (Some x1) status1 g ∈ pr_results pr1 →
  sys_processes S !! p2 = Some pr2 → CallResult name (Some x2) status2 g ∈ pr_results pr2 →
  x1 = x2.
Proof.
  intros Hr Hp1 H1 Hp2 H2.
  apply (si_agree _ (sys_reachable_inv _ Hr) p1 p2 pr1 pr2 name x1 x2 g); try done; left; eauto.
Qed.

(** ** A call returns *)

(** launchd can start the broker. *)
Definition launches (os : OS) : Prop :=
  os_ok os ∧ os_create_mach_service os MACH_SERVICE_NAME = true.

Lemma launched os :
  launches os → ∃ w0, main os initial_world = Ret () w0 ∧ contexts w0 = ∅.
Proof. intros [Hos Hl]. rewrite main_run, Hl by done. by eexists. Qed.

Lemma announced_run os S p cl rs name :
  sys_reachable S → os_ok os → (Z.of_nat (size (contexts (sys_broker S))) < INT_MAX)%Z →
  sys_processes S !! p = Some (Process cl (Sending name) rs) →
  contexts (sys_broker S) !! p = None → enabled (sys_broker S) (EvListener (xpc_announce p)) →
  ∃ w', sys_step S (sys_with_broker w' S) ∧ is_Some (contexts w' !! p).
Proof.
  intros Hr Hos Hsize Hp Hc Hen. pose proof (sys_reachable_broker _ Hr) as Hrb.
  pose proof (xpc_announce_type p) as Ht.
  assert (delivers os (sys_broker S) (EvListener (xpc_announce p))) as Hd.
  { split; [done|done|]. intros _. exact Hsize. }
  destruct (handle_event_cases os (sys_broker S) (EvListener (xpc_announce p)))
    as [(w' & Hrun & He)|(code & w' & _ & Hex)]; try apply Hd; [by apply inv_reachable| |].
  - exists w'. split; [eapply sys_connect; [done..|by econstructor]|].
    inversion He; subst; [congruence|].
    rewrite connected_contexts, xpc_announce_connection, lookup_insert_eq. eauto.
  - inversion Hex. congruence.
Qed.

(** The broker accepts the connection of a process that waits for a reply; when
    it has too many peers, it does after it failed. *)
Lemma connect_process os S p cl rs name :
  sys_reachable S → launches os →
  sys_processes S !! p = Some (Process cl (Sending name) rs) →
  ∃ S1, sys_steps S S1 ∧ is_Some (contexts (sys_broker S1) !! p) ∧
        sys_processes S1 !! p = Some (Process cl (Sending name) rs).
Proof.
  intros Hr Hl Hp. pose proof Hl as [Hos _]. pose proof (sys_reachable_broker _ Hr) as Hrb.
  destruct (contexts (sys_broker S) !! p) as [ctx|] eqn:Hc.
  { exists S. split; [constructor|]. by rewrite Hc. }
  assert (∀ w, reachable w → contexts w !! p = None → enabled w (EvListener (xpc_announce p))) as Hen.
  { intros w Hw Hwc. pose proof (reachable_globals _ Hw) as Hg.
    split; [by injection Hg|]. intros _. by rewrite xpc_announce_connection. }
  destruct (decide (Z.of_nat (size (contexts (sys_broker S))) < INT_MAX)%Z) as [Hsize|Hsize].
  { destruct (announced_run os S p cl rs name) as (w' & Hs & Hw'); try done; [by apply Hen|].
    exists (sys_with_broker w' S). split; [by apply sys_steps_one|done]. }
  destruct (launched os Hl) as (w0 & Hm & Hw0).
  assert (sys_step S (sys_failed w0 S)) as Hfail.
  { eapply (sys_fail S os (EvListener (xpc_announce p)) os); [|done..].
    eapply fails_crash; [by apply Hen|].
    apply overflow_run; [by apply inv_reachable|apply xpc_announce_type|done]. }
  assert (sys_processes (sys_failed w0 S) !! p = Some (Process cl (Sending name) rs)) as Hp'.
  { simpl. rewrite map_lookup_imap, Hp. simpl. unfold interrupted. simpl.
    rewrite decide_False; [done|]. rewrite Hc. by intros []. }
  assert (contexts (sys_broker (sys_failed w0 S)) !! p = None) as Hc'
    by (simpl; by rewrite Hw0, lookup_empty).
  pose proof (sys_later _ _ Hr Hfail) as Hr'.
  destruct (announced_run os (sys_failed w0 S) p cl rs name) as (w' & Hs & Hw'); try done.
  { simpl. by rewrite Hw0. }
  { apply Hen; [by apply sys_reachable_broker|done]. }
  exists (sys_with_broker w' (sys_failed w0 S)). split; [|done].
  eapply sys_steps_cons; [done|]. by apply sys_steps_one.
Qed.

(** The broker answers a process it has a connection of, or crashes on its
    request and interrupts the call. *)
Lemma serve_process os S p cl rs name :
  sys_reachable S → launches os →
  sys_processes S !! p = Some (Process cl (Sending name) rs) →
  is_Some (contexts (sys_broker S) !! p) →
  ∃ S1 m, sys_step S S1 ∧
    sys_processes S1 !! p = Some (Process cl (Replied name m (sys_generation S)) rs) ∧
    (sys_generation S1 = sys_generation S ∨ CFStringCreateWithCString name = None) ∧
    client_answer m =
      client_result (request_answer os (sys_broker S) (xpc_deliver (request_message name))).
Proof.
  intros Hr Hl Hp Hc. pose proof Hl as [Hos _]. pose proof (sys_reachable_broker _ Hr) as Hrb.
  destruct (delivered_request name) as (Ht & Hn & [reply Hreply] & _).
  set (e := xpc_deliver (request_message name)) in *.
  destruct (CFStringCreateWithCString name) as [k|] eqn:Hname.
  - assert (delivers os (sys_broker S) (EvPeer p e)) as Hd.
    { split; [done..|]. intros _. rewrite Hn, Hname. eauto. }
    pose proof (answer_delivered os p e (sys_broker S) (del_ok _ _ _ Hd) Ht) as Hcrash.
    destruct (request_outbox os p e (sys_broker S) Hrb Hd Ht) as (w' & Hrun & Ho).
    destruct (answer_message e (request_answer os (sys_broker S) e)) as [m|] eqn:Hm.
    2:{ exfalso. unfold answer_message, network_reply, error_reply in Hm. rewrite Hreply in Hm.
        by destruct (request_answer os (sys_broker S) e). }
    exists (sys_update w' p (Process cl (Replied name m (sys_generation S)) rs) S), m.
    split_and!; [|apply lookup_insert_eq|by left|by apply answer_message_result].
    eapply sys_serve; [done|done|apply sent_request_message|by econstructor|done].
  - destruct (launched os Hl) as (w0 & Hm & _).
    exists (sys_failed w0 S), XPC_ERROR_CONNECTION_INTERRUPTED. split_and!.
    + eapply (sys_fail S os (EvPeer p e) os); [|done..]. eapply fails_crash; [done|].
      by apply (bad_name_run os p e name).
    + simpl. rewrite map_lookup_imap, Hp. simpl. unfold interrupted. simpl. by rewrite decide_True.
    + by right.
    + unfold client_answer, request_answer. by rewrite xpc_interrupted_type, Hn, Hname.
Qed.

(** A process that has its reply returns what it carries. *)
Lemma return_process S p cl rs name m g :
  sys_processes S !! p = Some (Process cl (Replied name m g) rs) →
  ∃ cl', sys_step S (sys_update (sys_broker S) p (Process cl' Running
    (rs ++ [CallResult name (client_answer m).1 (Some (client_answer m).2) g])) S).
Proof.
  intros Hp.
  destruct (acquire_network_run (ClientSys (λ _, true) (λ _, m)) name (Some 0%Z) cl)
    as (r & σ' & Hrun & Ha); [by right|]. simpl in Hrun, Ha.
  eexists. rewrite <- (returned_value_answered _ _ (with_objs σ' (requested name cl)) _ Ha).
  by eapply sys_return.
Qed.

(** What a process gets for a name: the network of the name, or why there is
    none; a name that crashes the broker fails the call. *)
Definition call_answered w' p (r : call_result) : Prop :=
  let result x status := r = CallResult (cr_name r) x (Some status) (cr_generation r) in
  match CFStringCreateWithCString (cr_name r) with
  | Some _ =>
      (∃ x, result (Some x) VMNET_BROKER_SUCCESS ∧ uses (abs w') p (cr_name r) x) ∨
      (result None VMNET_BROKER_NOT_FOUND ∧ ¬ builtin_name (cr_name r)) ∨
      (result None VMNET_BROKER_CREATE_FAILURE ∧ builtin_name (cr_name r))
  | None => result None VMNET_BROKER_XPC_FAILURE
  end.

(** C9: a call returns.  From every state of the system in which a process waits
    for the reply to a request, when launchd can start the broker, the system can
    go on to one where the call returned: with the serialization of the network
    of the name, which the process uses then; with NOT_FOUND for a name that is
    not builtin, or with CREATE_FAILURE for one that is; and with XPC_FAILURE for
    a name that Core Foundation cannot represent, on which the broker crashes. *)
Theorem call_returns os S p cl rs name :
  sys_reachable S → launches os →
  sys_processes S !! p = Some (Process cl (Sending name) rs) →
  ∃ S' cl' r, sys_steps S S' ∧ cr_name r = name ∧
    sys_processes S' !! p = Some (Process cl' Running (rs ++ [r])) ∧
    call_answered (sys_broker S') p r.
Proof.
  intros Hr Hl Hp.
  destruct (connect_process os S p cl rs name) as (S1 & Hs1 & Hc1 & Hp1); try done.
  pose proof (sys_steps_reachable _ _ Hr Hs1) as Hr1.
  destruct (serve_process os S1 p cl rs name) as (S2 & m & Hs2 & Hp2 & Hg & Hm); try done.
  destruct (return_process S2 p cl rs name m _ Hp2) as [cl' Hs3].
  eexists (sys_update (sys_broker S2) p (Process _ Running (rs ++ [_])) S2), _, _.
  split; [|split; [|split; [apply lookup_insert_eq|]]].
  - eapply sys_steps_app; [done|]. eapply sys_steps_cons; [done|]. by apply sys_steps_one.
  - done.
  - unfold call_answered. simpl. rewrite Hm. clear Hs3.
    destruct (delivered_request name) as (_ & Hn & _). revert Hm. unfold request_answer.
    rewrite Hn. destruct (CFStringCreateWithCString name) as [k|] eqn:Hname; [|done].
    destruct Hg as [Hg|]; [|done].
    case_decide as Hb; [|by right; left]. intros Hm.
    repeat case_match; simpl in *; try (by right; right); left;
      (eexists; split; [done|]);
      (eapply (si_uses S2); [by eapply sys_reachable_inv, sys_later|exact Hp2|]);
      right; exists m; (split; [by rewrite Hg|by rewrite Hm]).
Qed.
End processes.

(** ** The theorems on the concrete platform *)

Definition started_system : system := System started ∅ 0.

Definition sys_after (es : list sys_event) : system :=
  default started_system (sys_exec (good_os 0) es started_system).

Definition sys_delivered (es : list sys_event) : Prop :=
  is_Some (sys_exec (good_os 0) es started_system).

Lemma reachable_sys_after es : sys_delivered es → sys_reachable (sys_after es).
Proof.
  unfold sys_delivered, sys_after. intros [S HS]. rewrite HS. simpl.
  eapply sys_exec_reachable; [|exact HS]. by apply (sys_start (good_os 0)).
Qed.

Definition process_at (S : system) (p : conn) : process :=
  default (Process initial_client Running []) (sys_processes S !! p).

(** A broker that a connection had used exits and is started again; process 1
    gets "shared", and the broker crashes on the request of another connection;
    process 1 gets "shared" again, and process 2 asks for it. *)
Definition two_processes : list sys_event :=
  [SysForeign (connect 7); SysForeign (disconnect 7); SysRestart (EvSignal SIGTERM);
   SysSpawn 1; SysSpawn 2; SysCall 1 "shared"; SysConnect 1; SysServe 1; SysReturn 1;
   SysForeign (connect 9); SysFail (acquire 9 bad_name);
   SysCall 1 "shared"; SysConnect 1; SysCall 2 "shared"; SysServe 1; SysReturn 1;
   SysForeign (connect 9); SysForeign (EvPeer 9 (XDict true)); SysForeign (disconnect 9);
   SysConnect 2].

(** Process 2 is answered, an hour passes. *)
Definition both_served : list sys_event :=
  two_processes ++ [SysServe 2; SysForeign (seconds 3600); SysReturn 2].

Definition shared_result (g : nat) : call_result :=
  CallResult "shared" (Some (XData 0)) (Some VMNET_BROKER_SUCCESS) g.

Lemma results_both_served :
  sys_generation (sys_after both_served) = 1%nat ∧
  pr_results (process_at (sys_after both_served) 1) = [shared_result 0; shared_result 1] ∧
  pr_results (process_at (sys_after both_served) 2) = [shared_result 1].
Proof. by vm_compute. Qed.

Lemma result_is_kept_witness :
  let S := sys_after both_served in
  sys_generation S = 1%nat ∧
  uses (abs (sys_broker S)) 1 "shared" (XData 0) ∧
  (∀ ev w', ¬ exit_step (sys_broker S) ev EXIT_SUCCESS w') ∧
  (∀ os ev, os_ok os → broker_fails os (sys_broker S) ev →
     is_Some (event_fault (sys_broker S) ev) ∨
     ∃ e, ev = EvListener e ∧ xpc_get_type e = XPC_TYPE_ERROR).
Proof.
  destruct results_both_served as (Hg & Hr & _). split; [exact Hg|].
  apply (result_is_kept (sys_after both_served) 1 (process_at (sys_after both_served) 1) "shared"
           (XData 0) (Some VMNET_BROKER_SUCCESS)).
  - apply reachable_sys_after. evaluate.
  - by vm_compute.
  - rewrite Hr, Hg. right. left.
Defined.

Lemma processes_share_networks_witness :
  let S := sys_after both_served in
  is_Some (sys_processes S !! 1%positive) ∧ is_Some (sys_processes S !! 2%positive) ∧
  XData 0 = XData 0.
Proof.
  destruct results_both_served as (_ & Hr1 & Hr2).
  split; [evaluate|]. split; [evaluate|].
  apply (processes_share_networks (sys_after both_served) 1 2
           (process_at (sys_after both_served) 1) (process_at (sys_after both_served) 2)
           "shared" (XData 0) (XData 0)
           (Some VMNET_BROKER_SUCCESS) (Some VMNET_BROKER_SUCCESS) 1).
  - apply reachable_sys_after. evaluate.
  - by vm_compute.
  - rewrite Hr1. right. left.
  - by vm_compute.
  - rewrite Hr2. left.
Defined.

(** Process 3 asks for a name that crashes the broker. *)
Definition bad_call : list sys_event := both_served ++ [SysSpawn 3; SysCall 3 bad_name].

Lemma call_returns_witness :
  (∃ S' cl' r, sys_steps (sys_after two_processes) S' ∧ cr_name r = "shared" ∧
     sys_processes S' !! 2%positive = Some (Process cl' Running [r]) ∧
     call_answered (sys_broker S') 2 r) ∧
  (∃ S' cl' r, sys_steps (sys_after bad_call) S' ∧ cr_name r = bad_name ∧
     sys_processes S' !! 3%positive = Some (Process cl' Running [r]) ∧
     call_answered (sys_broker S') 3 r).
Proof.
  split.
  - apply (call_returns (good_os 0) (sys_after two_processes) 2
             (pr_client (process_at (sys_after two_processes) 2)) [] "shared");
      [apply reachable_sys_after; evaluate|by split|by vm_compute].
  - apply (call_returns (good_os 0) (sys_after bad_call) 3
             (pr_client (process_at (sys_after bad_call) 3)) [] bad_name);
      [apply reachable_sys_after; evaluate|by split|by vm_compute].
Defined.
