(* ===== verification/Startup.v ===== *)
(** * Startup, configurations, names and descriptions

    main, the creation of configurations and networks on every branch, the
    bound of the loop of release_peer_networks, the names of peers, and the
    descriptions of status codes. *)

From S2P Require Import Prelude Platform Common World Config Network Xpc Broker.
From S2P Require Import Ownership Invariant Transitions NetworkFacts AcquireFacts ReleaseFacts.
From S2P Require Import BrokerFacts Execution Client Concrete Scenarios.

Section startup.
Context {xpc : XPC} {cf : CoreFoundation}.
Implicit Types (w : world) (l : loc) (c : conn) (net : network).

(** C39: main listens or fails.  It handles SIGINT and SIGTERM and leaves the
    broker listening, without peers, networks or objects; when the listener
    cannot be created the process exits with EXIT_FAILURE; and a signal source
    that cannot be created, which is not checked, faults. *)
Theorem main_starts_listening os :
  main os initial_world =
    if os_dispatch_source_create os then
      if os_create_mach_service os MACH_SERVICE_NAME
      then Ret () (set_listening true (set_signals [SIGINT; SIGTERM] initial_world))
      else Exit EXIT_FAILURE (set_signals [SIGINT; SIGTERM] initial_world)
    else Fault NullDeref.
Proof.
  unfold main, setup_signal_handlers, setup_signal_sources, start_xpc_listener.
  destruct (os_dispatch_source_create os); [|done].
  by destruct (os_create_mach_service os MACH_SERVICE_NAME).
Qed.

(** find_network_config finds the configuration of the name, and reports
    NOT_FOUND exactly when there is none. *)
Lemma find_network_config_correct name error :
  match find_network_config name error with
  | (Some config, e) => config ∈ builtin_networks ∧ cfg_name config = name ∧ e = error
  | (None, e) => (∀ config, config ∈ builtin_networks → cfg_name config ≠ name) ∧
                 e = set_error error VMNET_BROKER_NOT_FOUND
  end.
Proof.
  unfold find_network_config. generalize builtin_networks as configs.
  induction configs as [|config configs IH]; simpl; [split; [set_solver|done]|].
  destruct (String.eqb_spec (cfg_name config) name) as [He|Hne]; [split; [set_solver|done]|].
  destruct (find_config_from configs name); destruct IH; split; set_solver.
Qed.

(** C35: a configuration is created as configured or not at all.  For every
    configuration, also one with a subnet and a mask, create_vmnet_configuration
    returns a new object with its mode and, where the configuration has both,
    the parsed subnet and mask; when the framework refuses, or an address is
    not parsed, it reports CREATE_FAILURE and the state is as before.
    create_network_configuration does that for the first builtin configuration
    of the name, and reports NOT_FOUND exactly when there is none. *)
Theorem network_configuration_correct os name error w :
  (∀ config, create_vmnet_configuration os config error w =
     match configuration_result os config with
     | Some subnet =>
         Ret (Some (fresh (dom (objs w))), error)
             (with_object (BConfiguration (cfg_mode config) subnet) w)
     | None => Ret (None, set_error error VMNET_BROKER_CREATE_FAILURE) w
     end) ∧
  ((∃ config, config ∈ builtin_networks ∧ cfg_name config = name ∧
      create_network_configuration os name error w =
        create_vmnet_configuration os config error w) ∨
   (∀ config, config ∈ builtin_networks → cfg_name config ≠ name) ∧
   create_network_configuration os name error w =
     Ret (None, set_error error VMNET_BROKER_NOT_FOUND) w).
Proof.
  split.
  - intros config. rewrite create_vmnet_configuration_run.
    by destruct (configuration_result os config).
  - pose proof (find_network_config_correct name error) as Hf.
    unfold create_network_configuration.
    destruct (find_network_config name error) as [[config|] e]; [left|right].
    + destruct Hf as (Hin & Hname & ->). by exists config.
    + by destruct Hf as [Hno ->].
Qed.

(** C34: a network is created whole or not at all.  With a live configuration,
    create_network returns an allocation with a copy of the name, no peers, the
    new vmnet network and its serialization, each with one reference; when any
    of the four steps fails (calloc, strdup, the network, its serialization) it
    reports CREATE_FAILURE and everything it had created is released: the state
    is as before. *)
Theorem create_network_correct os name config mode subnet error w :
  objs w !! config = Some (Cell 1 (BConfiguration mode subnet)) →
  match network_result os mode subnet with
  | None =>
      create_network os name config error w =
        Ret (None, set_error error VMNET_BROKER_CREATE_FAILURE) w
  | Some x => ∃ l ref ser,
      create_network os name config error w = Ret (Some l, error)
        (set_heap (<[l := Network (Some name) 0 (Some ref) (Some ser) None]> (heap w))
          (set_objs (<[ser := Cell 1 (BXpc x)]> (<[ref := Cell 1 BNetworkRef]> (objs w))) w)) ∧
      heap w !! l = None ∧ objs w !! ref = None ∧ objs w !! ser = None ∧ ref ≠ ser
  end.
Proof.
  intros Hc. pose proof (create_network_run os name config mode subnet error w Hc) as Hrun.
  destruct (network_result os mode subnet) as [x|]; [|done].
  exists (fresh (dom (heap w))), (fresh_ref w), (fresh_ser w). split_and!.
  - rewrite Hrun. done.
  - apply not_elem_of_dom, is_fresh.
  - apply fresh_obj.
  - pose proof (fresh_obj (objs (with_object BNetworkRef w))) as Hf.
    unfold with_object at 1 in Hf. simpl in Hf.
    by rewrite lookup_insert_None in Hf; destruct Hf.
  - symmetry. apply fresh_obj_ne. simpl. by rewrite lookup_insert_eq.
Qed.

(** ** The loop of release_peer_networks *)

Lemma release_loop_more os c fuel w w' :
  release_loop os c fuel w = Ret () w' → release_loop os c (S fuel) w = Ret () w'.
Proof.
  revert w. induction fuel as [|fuel IH]; intros w; cbn [release_loop]; unfold mbind, M_bind;
    destruct (context_load c w) as [ctx w1| |]; try done; case_bool_decide; try done.
  destruct (release_last_network os c w1) as [[] w2| |]; try done. apply IH.
Qed.

(** C33: the loop of release_peer_networks ends.  In a reachable state it
    returns, the peer's list is empty then, and a larger bound on its iterations
    than MAX_PEER_NETWORKS makes no difference. *)
Theorem release_loop_terminates os c w fuel :
  reachable w → os_ok os → is_Some (contexts w !! c) → (MAX_PEER_NETWORKS ≤ fuel)%nat →
  ∃ w', release_peer_networks os c w = Ret () w' ∧ release_loop os c fuel w = Ret () w' ∧
        peer_networks w' c = [].
Proof.
  intros Hr Hos [ctx Hc] Hfuel. destruct (inv_reachable _ Hr) as [Hw _ Hb].
  destruct (wf_ctx _ _ Hw _ _ Hc) as [Hok _].
  destruct (release_loop_run os c ctx (held ctx) MAX_PEER_NETWORKS w) as (w' & Hrun & Hrel);
    try done; [apply (ch_bound _ _ Hok)|].
  exists w'. split; [done|]. split.
  - induction Hfuel as [|fuel _ IH]; [done|]. by apply release_loop_more.
  - destruct (rel_context _ _ _ Hrel) as (ctx' & Hheld & Hctx).
    unfold peer_networks. rewrite Hctx, lookup_insert_eq. done.
Qed.
End startup.

(** ** The names of peers *)

(** The decimal digits of a number below [10^k]. *)
Lemma pretty_N_go_length (k : nat) (x : N) (s : string) :
  (x < 10 ^ N.of_nat k)%N → (String.length (pretty_N_go x s) ≤ k + String.length s)%nat.
Proof.
  revert x s. induction k as [|k IH]; intros x s Hx.
  - assert (x = 0%N) as -> by lia. rewrite pretty_N_go_0. lia.
  - destruct (decide (x = 0%N)) as [->|Hn]; [rewrite pretty_N_go_0; lia|].
    rewrite pretty_N_go_step by lia. etrans; [apply IH|simpl; lia].
    rewrite Nat2N.inj_succ, N.pow_succ_r' in Hx. by apply N.Div0.div_lt_upper_bound.
Qed.

Lemma pretty_Z_length z :
  (INT_MIN ≤ z ≤ INT_MAX)%Z → (String.length (pretty z) ≤ 11)%nat.
Proof.
  unfold INT_MIN, INT_MAX. intros Hz.
  assert (∀ n, (n < 10 ^ 10)%N → (String.length (pretty n) ≤ 10)%nat) as HN.
  { intros n Hn. unfold pretty, pretty_N. case_decide; [simpl; lia|].
    pose proof (pretty_N_go_length 10 n "" ltac:(exact Hn)) as H1. simpl in H1. lia. }
  destruct z as [|p|p]; [simpl; lia|..]; pose proof (HN (Npos p) ltac:(lia)).
  - change (pretty (Z.pos p)) with (pretty (N.pos p)). lia.
  - change (String.length (pretty (Z.neg p))) with (S (String.length (pretty (N.pos p)))). lia.
Qed.

Lemma substring_all n s : (String.length s ≤ n)%nat → String.substring 0 n s = s.
Proof.
  revert n. induction s as [|a s IH]; intros [|n]; simpl; try done; try lia.
  intros Hn. by rewrite IH by lia.
Qed.

(** C40: the name of a peer is never cut.  For every process id an int can
    hold, ctx->name has room for the whole of "peer <pid>". *)
Theorem peer_name_complete `{!XPC} os c :
  (INT_MIN ≤ os_connection_get_pid os c ≤ INT_MAX)%Z →
  ctx_name (init_context os c) = "peer " +:+ pretty (os_connection_get_pid os c).
Proof.
  intros Hpid. apply substring_all. unfold ctx_name_size.
  pose proof (pretty_Z_length _ Hpid).
  change (5 + String.length (pretty (os_connection_get_pid os c)) ≤ 24)%nat. lia.
Qed.

(** ** Descriptions *)

(** The named status codes. *)
Definition broker_statuses : list Z :=
  [VMNET_BROKER_SUCCESS; VMNET_BROKER_XPC_FAILURE; VMNET_BROKER_INVALID_REPLY;
   VMNET_BROKER_NOT_ALLOWED; VMNET_BROKER_INVALID_REQUEST; VMNET_BROKER_NOT_FOUND;
   VMNET_BROKER_CREATE_FAILURE; VMNET_BROKER_INTERNAL_ERROR].

(** vmnet_broker_strerror tells the statuses apart: each named code has a
    description of its own, and every other value is unknown. *)
Lemma strerror_distinguishes a b :
  (vmnet_broker_strerror a = vmnet_broker_strerror b) ↔
  a = b ∨ ((a ∉ broker_statuses) ∧ (b ∉ broker_statuses)).
Proof.
  assert (∀ z, z ∉ broker_statuses → vmnet_broker_strerror z = "(unknown status)") as Hun.
  { intros z Hz. unfold vmnet_broker_strerror.
    by rewrite !bool_decide_false by (intros ->; apply Hz; unfold broker_statuses;
      rewrite !elem_of_cons; tauto). }
  assert (∀ z, z ∈ broker_statuses → vmnet_broker_strerror z ≠ "(unknown status)") as Hkn.
  { intros z Hz. repeat (apply elem_of_cons in Hz as [->|Hz]; [done|]).
    by apply not_elem_of_nil in Hz. }
  split.
  - intros He. destruct (decide (a ∈ broker_statuses)) as [Ha|Ha],
      (decide (b ∈ broker_statuses)) as [Hb|Hb].
    + left. revert Hb He.
      repeat (apply elem_of_cons in Ha as [->|Ha];
        [intros Hb; repeat (apply elem_of_cons in Hb as [->|Hb]; [done|]); by apply not_elem_of_nil in Hb|]).
      by apply not_elem_of_nil in Ha.
    + exfalso. apply (Hkn a Ha). rewrite He. by apply Hun.
    + exfalso. apply (Hkn b Hb). rewrite <- He. by apply Hun.
    + by right.
  - intros [->|[Ha Hb]]; [done|]. by rewrite !Hun.
Qed.

(** vmnet_strerror tells the framework's statuses apart, and describes those
    the broker does not know as unknown. *)
Lemma vmnet_strerror_distinguishes a b :
  (vmnet_strerror a = vmnet_strerror b) ↔
  (a = b ∨ ∃ m n, a = VMNET_OTHER m ∧ b = VMNET_OTHER n).
Proof.
  split.
  - destruct a, b; simpl; try done; eauto.
  - intros [->|(m & n & -> & ->)]; done.
Qed.

(** ** The theorems on the concrete platform *)

(** A state where a configuration was just created. *)
Definition configured : world := with_object (BConfiguration VMNET_HOST_MODE None) started.

Lemma create_network_correct_witness :
  objs configured !! 1%positive = Some (Cell 1 (BConfiguration VMNET_HOST_MODE None)) ∧
  ∃ l ref ser,
    create_network (good_os 4) "host" 1 (Some 0%Z) configured = Ret (Some l, Some 0%Z)
      (set_heap (<[l := Network (Some "host") 0 (Some ref) (Some ser) None]> (heap configured))
        (set_objs (<[ser := Cell 1 (BXpc (XData 4))]> (<[ref := Cell 1 BNetworkRef]>
           (objs configured))) configured)) ∧
    heap configured !! l = None ∧ objs configured !! ref = None ∧ objs configured !! ser = None ∧
    ref ≠ ser.
Proof.
  split; [by vm_compute|].
  apply (create_network_correct (good_os 4) "host" 1 VMNET_HOST_MODE None (Some 0%Z) configured).
  by vm_compute.
Defined.

Lemma release_loop_terminates_witness :
  let w := after sharing_events in
  length (peer_networks w 2) = 2%nat ∧
  ∃ w', release_peer_networks (good_os 0) 2 w = Ret () w' ∧
        release_loop (good_os 0) 2 100 w = Ret () w' ∧ peer_networks w' 2 = [].
Proof.
  split; [by vm_compute|].
  apply (release_loop_terminates (good_os 0) 2 (after sharing_events) 100);
    [apply reachable_sharing|by split|evaluate|by unfold MAX_PEER_NETWORKS; lia].
Defined.

Lemma peer_name_complete_witness :
  ctx_name (init_context (good_os 0) 7) = "peer " +:+ pretty 107%Z.
Proof. apply (peer_name_complete (good_os 0) 7). by vm_compute. Defined.
